(* ===== verification/_CoqProject ===== *)
-Q . S2P
Prelude.v
JsString.v
Utf8.v
Regex.v
RegexResults.v
RegexSyntax.v
JsValue.v
Json.v
JsonGrammar.v
JsonText.v
Path.v
World.v
Hoare.v
Template.v
Catalogue.v
Docx.v
Args.v
Document.v
Generate.v
Run.v
Rerun.v
