(* ===== verification/Prelude.v ===== *)
(** * Verification of the verification-report generator (generate.js)

    The program under study is the command-line tool
    [src/skills/xingxin-test-doc/scripts/generate.js].  It reads a template
    catalogue (a Markdown file with fenced JSON blocks), resolves a checklist
    for a template name through a fallback chain, builds a word-processor
    document model from the checklist and four metadata strings, and writes
    the encoded document under a name derived from the tester's name.

    ** Files of the development, in dependency order

    - [Prelude] (this file): the result type [outcome] of computations that
      may throw, the state-and-exception monad [prog] in which the effectful
      parts of the program are written, their notations (scope
      [prog_scope]), the tactics and the hint databases [docgen] and [docgen_rw] shared by
      the other files, and generic lemmas on lists.
    - [JsString]: JavaScript strings as lists of UTF-16 code units, the
      UTF-8 decoder of [readFileSync(path, 'utf-8')] and of the string
      literals of the source text ([Buffer_toString], [js]), the
      white-space set of [String.prototype.trim] and of the class [\s],
      [trim], the interface [Canonicalize] of the case folding used by
      regular expressions with the flag [i] and what it promises on ASCII
      ([CanonicalizeAscii]), and the case-insensitive substring search
      [find_ci] that serves as reference for the pattern.
    - [Utf8]: the encoder of UTF-8 ([utf8_encode]) and the round trip
      through the decoder.
    - [Regex]: regular expressions as an inductive type and the
      backtracking matcher of ECMAScript in continuation-passing style
      ([mtch]), the search from left to right ([scan], [String_match]).
    - [RegexResults]: the reference of the matcher: the list of all
      matches of a pattern at a position, in the order of priority
      ([results]).
    - [RegexSyntax]: the parser of pattern source text ([RegExp_new]); it
      answers [Compiled], [BadSyntax] (the constructor throws) or
      [Unsupported] (text outside the fragment modelled).
    - [JsValue]: JSON values, exceptions, truthiness, [||] and property
      access with its [TypeError] on [null].
    - [Json]: [JSON.parse] as a recursive-descent parser with a budget.
    - [JsonGrammar]: the grammar of JSON texts as relations between a
      text and its value ([chars_text], [numeral], [value_text],
      [json_text_of]), and the proof that [JSON.parse] accepts exactly
      the texts of the grammar.
    - [JsonText]: a text for every JSON value ([json_text], one for every
      [layout] of the white space between its tokens), each a text of
      the grammar.
    - [Path]: [path.join], [path.resolve], [path.dirname] of POSIX, and the
      key [path_key] under which the file system stores a path.
    - [World]: the file system (a finite map from keys to files and
      directories) and the console (the list of lines printed), the calls
      of [fs] and [console] on them, the rules by which invariants
      ([preserves]), outcomes ([tame]) and the dependence on the file
      system ([reads]) are proved of monadic code, following its
      structure (tactic [io_rules]), and the footprint of a write
      ([changes_only]).
    - [Hoare]: postconditions of the computations that return, as triples
      (scope [hoare_scope]) with the rules of sequence, [try]/[catch] and
      consequence, and the triples of the calls that write.
    - [Template]: [loadTemplate] and [getDefaultItems], line by line, and
      the reference search and fallback chain ([findTemplateBlock],
      [resolve_value], [resolve_warnings]) it is proved to implement.
    - [Catalogue]: the catalogue as a structure, after the format of the
      specification: sections with a heading, a text and an optional
      fenced block ([template_section]) and the text they are written as
      ([render]); templates with their entries ([template], [entry]) and
      the text of a catalogue of templates ([catalogue_text]); the lookup
      ([block_of]) and the fallback chain ([resolve_entries]) on the
      structure, which the search and the resolver of the code are proved
      to implement.
    - [Docx]: the values the program hands to the constructors of the
      library docx, as records, and the interface [Encoder] of
      [Packer.toBuffer].
    - [Args]: [parseArgs], and the reference [given] of its loop.
    - [Document]: the objects built by [createDocument]: the rows of the
      checklist table with the loop over the entries, header, footer,
      styles, information table and the sections of the document.
    - [Generate]: the effectful part of [createDocument] (logo, output
      path, directory, encoder, write) and [main].
    - [Run]: whole runs of [main] on a catalogue of templates, and the
      rows of the entries of a template ([checklist_rows]).
    - [Rerun]: a second run of [main] on the file system that a first run
      has left, and sequences of runs.

    ** How the model corresponds to the code

    Each function of generate.js is one definition of the same name:
    [Args.parseArgs], [Template.loadTemplate], [Template.getDefaultItems],
    [Generate.createDocument], [Generate.main].  A local constant of a
    function is a definition of its name ([templatesPath], [colWidths],
    [tableRows], [logoPath], [header], [footer], [doc], [filename],
    [outputPath]).  The state is the record [world] (file system and
    console); the inputs that the program reads from its process are the
    record [env] ([__dirname], [process.cwd()], [process.argv], the
    current time).  A function that calls [fs], [console] or [process] is
    a computation [io A], which maps a world to an outcome and a world;
    [try]/[catch] is [pcatch], [await] of an asynchronous call that has
    settled is the call itself.

    ** What the theorems show

    - Template resolution ([Template]): the pattern built from the name
      finds exactly the first fenced block after the first heading of the
      name (equivalence with the reference search); on a readable
      catalogue a call of [loadTemplate] is a run of the fallback chain
      of the specification (refinement), so that it returns the entries
      of a template that is present, those of [default] for one that is
      absent and the built-in entries otherwise, each with the warnings
      stated, and never fails there; for a block that holds a JSON text
      of an object, the entries returned are those of the object
      ([loadTemplate_catalogue_entry], which rests on the grammar of
      [JsonGrammar] and so assumes nothing of [JSON.parse]); it returns
      the built-in entries without a catalogue, recovers from a block
      that is no JSON text with the two warnings
      ([loadTemplate_malformed]), reads the catalogue only and never
      writes; and
      where the code departs from the specification: names with
      metacharacters, a catalogue that is a directory, a block without
      [items], headings matched as prefixes, a block taken from a later
      section.  The theorems on a catalogue share their hypotheses in the
      sections [catalogue] and [found].
    - Catalogue ([Catalogue]): on the text of a well-formed catalogue
      (no fence but those of the blocks, no heading but those of the
      sections) the pattern of the code captures the payload of the first
      block at or after the first section whose name starts with the
      requested name ([pattern_finds_block_of]: the search skips the
      sections before it, by the lemmas on [find_ci] of [JsString]); and
      on the text of a catalogue of templates, whose blocks are written
      by [JsonText.json_text] in any layout, [loadTemplate] is the
      fallback chain of the specification on the list of templates
      ([loadTemplate_catalogue]).  This theorem composes the search, the
      grammar of JSON, the printer and the chain; it needs the promise of
      the folding on ASCII, by which a backtick, a hash and a line feed
      match themselves only, and its conditions are on the code units of
      names, texts and entries ([wf_template]).  Every template is found
      under its own name when no name before it starts with that name
      ([loadTemplate_present]); an entry with a fence in its text cannot
      be written in a catalogue ([entry_with_fence]).
    - Document ([Document]): the number, shading, widths and texts of the
      rows of the checklist table; the rows or the [TypeError] on every
      value of [items] ([tableRows_outcome]).  The information table is
      read off the code in examples ([infoTable_texts],
      [infoTable_row_widths]).
    - Command line ([Args]): the loop over the arguments equals the
      reference in which every option takes the last value given to it
      ([parse_pairs_last_wins]); [parseArgs] returns exactly when a pair
      names the user; the usual command line, the pairing of
      arguments, and the options read back from the command line that
      spells them out ([parseArgs_argv_of]).
    - Run ([Generate]): the whole run from the command line to the file
      ([main_generates]: what is printed, what is written and where), and
      from the text of the catalogue to the rows of the document
      ([main_catalogue_document], which composes the grammar of
      [JsonGrammar], the chain of [Template] and the rows of [Document];
      [Run.main_catalogue], from the templates of a catalogue to one row
      for each entry of the template that the command line names);
      the
      footprint of every run, failed ones included ([main_changes_only]:
      only the output path and new directories on the way to it change);
      that [main] returns only when the output path holds the bytes of the
      encoder for the document of the checklist and the logo of the start
      ([main_reports_written], by the rules of [Hoare]);
      that the written file reads back ([written_document_reads_back]),
      what remains after a failure of the encoder; that a file standing at
      the output directory or above it makes the run fail with code 1 and
      leaves the file system untouched ([main_output_blocked]); the
      ways [main] ends, and that it always ends with code 0 or 1;
      where the output path lies, in the output directory for a user
      without separators ([outputPath_in_output_dir]) and wherever the
      user says otherwise ([outputPath_escapes]).
    - Second run ([Rerun]): [main] on the file system that a run has left
      ends as that run did and changes nothing ([main_rerun]), provided the
      catalogue and the logo do not lie on the way to the output file; the
      proof composes what each part reads ([reads]) with the footprint of
      what follows it, and an example shows that the proviso is needed.
      The second run may be started later and with another command line,
      as long as the directories and the options read are the same
      ([Generate.same_run]: [main] depends on the environment through
      these only); without the option [--date] a run on another day writes
      another date and is outside the theorem.  The invariants of [main]
      are all instances of one lemma ([Generate.preserves_main]): what
      [mkdirSync] and [writeFileSync] keep at the paths of the program, a
      run keeps.  Two of them hold of every program over these two calls,
      and are lemmas only: the file system stays well formed
      ([Generate.main_wf]) and no entry is removed
      ([runs_keep_entries]).
    - Built-ins: the matcher in continuation-passing style returns the
      first match, in the order of priority, on which its continuation
      succeeds ([RegexResults.mtch_results], by induction on the pattern
      and, for a quantifier, on the budget of its loop), so that
      [String.prototype.match] reports the first match at the first
      position that has one; the budget of [JSON.parse] is enough ([Json]);
      [JSON.parse] returns a value exactly on the texts that the grammar
      gives to it ([JsonGrammar.JSON_parse_grammar]: completeness by
      induction on the value, with the lemmas for elements and members by
      induction on the list, soundness by induction on the budget, each
      lexical function with its own pair of lemmas); [trim] takes exactly
      the white space around a text of a value; every value has a text
      and is read back from it ([JsonText.JSON_parse_json_text],
      [JsonText.JSON_parse_onto]); decoded text consists of 16-bit code
      units ([JsString]), and the bytes that UTF-8 writes for scalar
      values are decoded to these values ([Utf8.Buffer_toString_utf8]).

    ** Budgets

    The recursive definitions that are not structural take a budget.
    [Json.parse_value] gets [2 * length text + 2] steps: every call
    consumes a step and every second call a code unit, and
    [JSON_parse_fuel_irrelevant] proves that the parser never runs out
    and that a larger budget gives the same result; completeness is
    proved for every budget from [JsonGrammar.json_size] of the value on
    and carried to the budget of [JSON_parse] by that theorem's lemma
    ([Json.JSON_parse_reached]).  The decimal digits of a number are
    printed with one step for every binary digit
    ([JsonText.digits_fuel]).  The loop of a
    quantifier gets [min + length rest + 1] steps: an iteration lowers the
    minimum or consumes input, and every matcher calls its continuation
    at a later position only ([Regex.mtch_forward]), so that every larger
    budget gives the same result ([Regex.repeat_budget_enough]).  The
    parser of patterns gets one step per code unit of the source and one
    more, and never runs out ([RegexSyntax.RegExp_new_budget]): the
    answer [Unsupported] means a construct outside the fragment.  The
    three proofs share the predicate [within] of this file: a parser does
    not run out and leaves no more text than it was given.  The theorems
    that depend on the pattern assume a name without special characters
    ([plain_name]), for which the parser is proved to succeed, or that
    the answer is not [Unsupported].

    ** Not modelled

    - The serialisation of the document ([Packer.toBuffer]): a library
      the program only calls.  It is the interface [Docx.Encoder]: a
      function of the document that returns bytes or throws, awaited at
      once.  An encoder whose bytes depend on anything else, such as the
      time of encoding, is outside the model; [Rerun.main_rerun] is the
      theorem that relies on this.  The constructors of docx are taken to
      store their arguments and not to throw.
    - The clock is read once for a run ([env_now_iso], the default of the
      date); the environment of a run is one record [env].
    - The call [logoBuffer.toString('base64')] of [createDocument]: its
      value is never used, and [Generate.logoImageRun] leaves it out.
    - Of the file system: permissions, links, disk space, other processes.
      A read fails on a directory, a write on a missing parent or on a
      directory, the creation of a directory on a file in the way.
    - Of regular expressions: the flags [u] and [v], named groups,
      lookbehind and property escapes; the case folding is the parameter
      [Canonicalize], instantiated in the examples by the folding of
      ASCII letters.  The theorems of [Catalogue] on catalogues of
      templates assume of it what [CanonicalizeAscii] says; all others
      hold for every folding.
    - The files of the skill other than the script (the catalogue, the
      logo, the description): they are data.  The theorems hold for every
      content; [Catalogue] describes the catalogues that the
      specification calls well formed, with the block of a section at the
      end of its text.
    - Of paths: the Windows implementation.
    - Numbers of JSON are kept as sign, mantissa and decimal exponent, not
      rounded to doubles; the program only tests them for truthiness.
      The texts of [JsonText] write a numeral without a fraction; the
      grammar of [JsonGrammar] has fractions.

    ** Conventions

    - A JavaScript string is a [list N] of code units; a literal of the
      source is written [js "..."] and decoded from the UTF-8 bytes of the
      Rocq literal, exactly as the JavaScript engine decodes the source
      text.
    - A JavaScript exception is a value [Throw e] of [outcome]; the call
      [process.exit(c)] is the value [Exit c], which no [try]/[catch]
      intercepts.
    - Definitions carry the names of the functions and variables of
      generate.js that they translate.
    - The theorems are applied to concrete inputs in the lemmas named
      [..._witness]: the catalogues of the scenarios of the specification,
      a script installed under [/opt/skill/scripts] and run in
      [/home/tester] ([World.sample_env]), an encoder that refuses a table
      of one row ([Docx.sample_encoder]). *)

From stdpp Require Import base tactics numbers option list.

(** Shared vocabulary of the development: computations that may throw or
    leave the process, the monad of effectful code, automation. *)

Declare Scope prog_scope.
Delimit Scope prog_scope with prog.

Create HintDb docgen discriminated.
Create Rewrite HintDb docgen_rw.

(** ** Results of computations that may fail *)

(** [Ret a]: normal completion with value [a]; [Throw e]: a JavaScript
    exception [e] propagates; [Exit c]: [process.exit(c)] was called;
    [Unmodelled]: the computation reached a construct whose behaviour the
    development does not define (it says nothing of such runs). *)
Inductive outcome (E A : Type) : Type :=
| Ret (a : A)
| Throw (e : E)
| Exit (code : Z)
| Unmodelled.
Arguments Ret {E A} a.
Arguments Throw {E A} e.
Arguments Exit {E A} code.
Arguments Unmodelled {E A}.

#[export] Instance outcome_eq_dec {E A} `{EqDecision E, EqDecision A} :
  EqDecision (outcome E A).
Proof. solve_decision. Defined.

Definition outcome_bind {E A B} (f : A → outcome E B) (m : outcome E A) : outcome E B :=
  match m with
  | Ret a => f a
  | Throw e => Throw e
  | Exit c => Exit c
  | Unmodelled => Unmodelled
  end.

(** [try { m } catch (e) { h e }]: only thrown exceptions are caught. *)
Definition outcome_catch {E A} (m : outcome E A) (h : E → outcome E A) : outcome E A :=
  match m with
  | Throw e => h e
  | _ => m
  end.

Definition is_Ret {E A} (m : outcome E A) : Prop := ∃ a, m = Ret a.

#[export] Instance is_Ret_dec {E A} (m : outcome E A) : Decision (is_Ret m).
Proof.
  destruct m; [left; eexists; reflexivity | right; intros [? ?]; discriminate ..].
Defined.

(** ** Results of parsers

    [POk a]: the text was parsed; [PSyntaxError]: the text is ill-formed;
    [PUnsupported]: the text uses a construct the parser does not cover;
    [POutOfFuel]: the recursion budget was not enough (each parser comes
    with the theorem that its budget is). *)
Inductive pres (A : Type) : Type :=
| POk (a : A)
| PSyntaxError
| PUnsupported
| POutOfFuel.
Arguments POk {A} a.
Arguments PSyntaxError {A}.
Arguments PUnsupported {A}.
Arguments POutOfFuel {A}.

#[export] Instance pres_ret : MRet pres := λ A, POk.
#[export] Instance pres_bind : MBind pres := λ A B f m,
  match m with
  | POk a => f a
  | PSyntaxError => PSyntaxError
  | PUnsupported => PUnsupported
  | POutOfFuel => POutOfFuel
  end.

(** The result [r] of a parser on the text [s] is within its budget: the
    parser did not run out of fuel, and the text it left, [rest a], is no
    longer than [s]. *)
Definition within {A B} (rest : A → list B) (s : list B) (r : pres A) : Prop :=
  match r with
  | POk a => length (rest a) ≤ length s
  | POutOfFuel => False
  | _ => True
  end.

(** ** The monad of effectful code

    [prog W E A] is a computation over a world [W] (file system and
    console) that returns an [outcome].  The world is returned in every
    case: what was printed before an exception stays printed. *)
Definition prog (W E A : Type) : Type := W → outcome E A * W.

Section prog.
Context {W E : Type}.

Definition pret {A} (a : A) : prog W E A := λ w, (Ret a, w).

Definition pbind {A B} (m : prog W E A) (f : A → prog W E B) : prog W E B :=
  λ w, match m w with
       | (Ret a, w') => f a w'
       | (Throw e, w') => (Throw e, w')
       | (Exit c, w') => (Exit c, w')
       | (Unmodelled, w') => (Unmodelled, w')
       end.

Definition pthrow {A} (e : E) : prog W E A := λ w, (Throw e, w).

Definition pexit {A} (c : Z) : prog W E A := λ w, (Exit c, w).

Definition pcatch {A} (m : prog W E A) (h : E → prog W E A) : prog W E A :=
  λ w, match m w with
       | (Throw e, w') => h e w'
       | r => r
       end.

Definition pget : prog W E W := λ w, (Ret w, w).

Definition pmodify (f : W → W) : prog W E unit := λ w, (Ret tt, f w).

(** A pure computation that may throw, run without touching the world. *)
Definition plift {A} (m : outcome E A) : prog W E A := λ w, (m, w).

End prog.

#[export] Instance prog_ret {W E} : MRet (prog W E) := λ A, pret.
#[export] Instance prog_bind {W E} : MBind (prog W E) := λ A B f m, pbind m f.
#[export] Instance outcome_ret {E} : MRet (outcome E) := λ A, Ret.
#[export] Instance outcome_mbind {E} : MBind (outcome E) := λ A B, outcome_bind.

(** [x ← m; k] and [m;; k] are stdpp's notations for [mbind]; the scope
    [prog_scope] adds the form [try_ m catch_ h] of [try]/[catch]. *)
Notation "'try_' m 'catch_' h" := (pcatch m h)
  (at level 10, m at level 200, h at level 200) : prog_scope.

(** ** Tactics *)

(** Unfold the monad's operations and compute. *)
Ltac prog_unfold :=
  unfold mbind, mret, prog_bind, prog_ret, outcome_mbind, outcome_ret,
    pbind, pret, pthrow, pexit, pcatch, pget, pmodify, plift in *.

(** Case analysis on every [match] of the goal, closing trivial branches. *)
Ltac case_all :=
  repeat (case_match; simplify_eq/=; try done).

(** Destruct the result of running a computation that the goal matches on. *)
Ltac run_cases :=
  repeat match goal with
  | |- context [match ?m ?w with _ => _ end] =>
      let r := fresh "r" in let w' := fresh "w" in
      destruct (m w) as [[r|r|r|] w'] eqn:?; simplify_eq/=
  end.

(** Close an equation between closed terms by evaluation: the right-hand
    side is the value of the left-hand side. *)
Ltac by_compute :=
  lazymatch goal with
  | |- @eq ?T _ ?y => vm_cast_no_check (@eq_refl T y)
  end.

(** Close a decidable proposition on closed terms by evaluating its
    decision procedure. *)
Ltac by_decide := apply (bool_decide_unpack _); vm_cast_no_check I.

(** ** Laws of [outcome] and [prog] *)

Section laws.
Context {W E : Type}.

Lemma outcome_bind_Ret {A B} (f : A → outcome E B) a :
  outcome_bind f (Ret a) = f a.
Proof. done. Qed.

Lemma outcome_bind_assoc {A B C} (f : A → outcome E B) (g : B → outcome E C) m :
  outcome_bind g (outcome_bind f m) = outcome_bind (λ a, outcome_bind g (f a)) m.
Proof. by destruct m. Qed.

Lemma outcome_catch_Ret {A} (h : E → outcome E A) a :
  outcome_catch (Ret a) h = Ret a.
Proof. done. Qed.

Lemma outcome_catch_Exit {A} (h : E → outcome E A) c :
  outcome_catch (Exit c) h = Exit c.
Proof. done. Qed.

Lemma outcome_catch_total {A} (m : outcome E A) (h : E → outcome E A) :
  (∀ e, is_Ret (h e)) → (∀ c, m ≠ Exit c) → m ≠ Unmodelled →
  is_Ret (outcome_catch m h).
Proof.
  intros Hh Hm Hu. destruct m as [a|e|c|]; simpl; [by exists a|done|by destruct (Hm c)|done].
Qed.

Lemma pbind_pret_l {A B} (a : A) (f : A → prog W E B) w :
  pbind (pret a) f w = f a w.
Proof. done. Qed.

Lemma pbind_pret_r {A} (m : prog W E A) w :
  pbind m pret w = m w.
Proof. prog_unfold. by destruct (m w) as [[]]. Qed.

Lemma pbind_assoc {A B C} (m : prog W E A) (f : A → prog W E B) (g : B → prog W E C) w :
  pbind (pbind m f) g w = pbind m (λ a, pbind (f a) g) w.
Proof. prog_unfold. by destruct (m w) as [[]]. Qed.

Lemma mbind_mret {A B} (a : A) (f : A → prog W E B) w : (mret a ≫= f) w = f a w.
Proof. done. Qed.

Lemma mbind_plift_Ret {A B} (a : A) (f : A → prog W E B) w :
  (plift (Ret a) ≫= f) w = f a w.
Proof. done. Qed.

Lemma mbind_plift_Throw {A B} (e : E) (f : A → prog W E B) w :
  (plift (Throw e) ≫= f) w = (Throw e, w).
Proof. done. Qed.

(** Running a sequence: the first computation, then the rest. *)
Lemma mbind_run {A B} (m : prog W E A) (f : A → prog W E B) w :
  (m ≫= f) w =
  match m w with
  | (Ret a, w') => f a w'
  | (Throw e, w') => (Throw e, w')
  | (Exit c, w') => (Exit c, w')
  | (Unmodelled, w') => (Unmodelled, w')
  end.
Proof. done. Qed.

Lemma pcatch_pret {A} (a : A) (h : E → prog W E A) w :
  pcatch (pret a) h w = (Ret a, w).
Proof. done. Qed.

Lemma pcatch_pthrow {A} (e : E) (h : E → prog W E A) w :
  pcatch (pthrow e) h w = h e w.
Proof. done. Qed.

Lemma pcatch_pexit {A} c (h : E → prog W E A) w :
  pcatch (pexit c) h w = (Exit c, w).
Proof. done. Qed.

Lemma mbind_Ret {A B} (f : A → outcome E B) a : (Ret a ≫= f) = f a.
Proof. done. Qed.

Lemma mbind_Throw {A B} (f : A → outcome E B) e : (Throw e ≫= f) = Throw e.
Proof. done. Qed.

(** A computation that returns was built from computations that return. *)
Lemma mbind_Ret_inv {A B} (f : A → outcome E B) m b :
  m ≫= f = Ret b → ∃ a, m = Ret a ∧ f a = Ret b.
Proof. destruct m as [a| | |]; [by exists a|done..]. Qed.

(** A pure computation that returns or throws: it neither leaves the
    process nor the modelled fragment. *)
Definition returns_or_throws {A} (m : outcome E A) : Prop :=
  match m with
  | Ret _ | Throw _ => True
  | Exit _ | Unmodelled => False
  end.

Lemma outcome_bind_returns_or_throws {A B} (f : A → outcome E B) m :
  returns_or_throws m → (∀ a, returns_or_throws (f a)) →
  returns_or_throws (outcome_bind f m).
Proof. destruct m; simpl; auto. Qed.

(** [try] around a pure computation that returns or throws. *)
Lemma pcatch_plift {A B} (m : outcome E A) (f : A → B) (h : prog W E B) w :
  returns_or_throws m →
  pcatch (a ← plift m; mret (f a)) (λ _, h) w =
  match m with
  | Ret a => (Ret (f a), w)
  | _ => h w
  end.
Proof. by destruct m. Qed.

End laws.

(** ** Computations up to their runs

    Two computations are equivalent when they run alike in every world;
    [mbind] and [pcatch] respect the equivalence, so that a computation can
    be replaced by an equivalent one inside a larger one. *)

#[export] Instance prog_equiv {W E A} : Equiv (prog W E A) :=
  λ m1 m2, ∀ w, m1 w = m2 w.

#[export] Instance prog_equivalence {W E A} : Equivalence (≡@{prog W E A}).
Proof.
  split; [done | by intros m1 m2 Hm w | by intros m1 m2 m3 H12 H23 w; rewrite H12].
Qed.

#[export] Instance pbind_proper {W E A B} :
  Proper (pointwise_relation A (≡) ==> (≡) ==> (≡)) (@mbind (prog W E) _ A B).
Proof.
  intros f1 f2 Hf m1 m2 Hm w. unfold mbind, prog_bind, pbind. rewrite Hm.
  destruct (m2 w) as [[a| | |] w']; [apply Hf|done..].
Qed.

#[export] Instance pcatch_proper {W E A} :
  Proper ((≡) ==> pointwise_relation E (≡) ==> (≡)) (@pcatch W E A).
Proof.
  intros m1 m2 Hm h1 h2 Hh w. unfold pcatch. rewrite Hm.
  destruct (m2 w) as [[a|e| |] w']; [done|apply Hh|done..].
Qed.

#[export] Hint Rewrite @outcome_bind_Ret @outcome_catch_Ret @outcome_catch_Exit : docgen_rw.
#[export] Hint Rewrite @mbind_Ret @mbind_Throw : docgen_rw.
#[export] Hint Rewrite @pbind_pret_l @pcatch_pret @pcatch_pthrow @pcatch_pexit : docgen_rw.

(** ** Parsers within their budget *)

Lemma within_bind {A A' B} (rest : A → list B) (rest' : A' → list B) s s1
    (m : pres A) (f : A → pres A') :
  within rest s1 m →
  (∀ a, length (rest a) ≤ length s1 → within rest' s (f a)) →
  within rest' s (m ≫= f).
Proof. destruct m as [a| | |]; simpl; auto. Qed.

Lemma within_le {A B} (rest : A → list B) s s' (r : pres A) :
  within rest s' r → length s' ≤ length s → within rest s r.
Proof. destruct r as [a| | |]; simpl; [lia|done..]. Qed.

(** One step of a proof of [within]: the results that are values, the
    binds, the parsers called ([leaf] applies their lemmas or the induction
    hypothesis, here or on a shorter text) and the cases of the parser. *)
Ltac within_step leaf :=
  match goal with
  | x : (_ * _)%type |- _ => destruct x
  | |- (_ ≤ _)%nat => simpl in *; lia
  | |- within _ _ (POk _) => simpl in *; lia
  | |- within _ _ PSyntaxError => exact I
  | |- within _ _ PUnsupported => exact I
  | |- within _ _ (_ ≫= _) => eapply within_bind; [|intros ? ?; simpl]
  | |- within _ _ _ => first [leaf | eapply within_le; [leaf | simpl in *; lia]]
  | |- within _ _ _ => case_match
  end.

(** ** Generic lemmas on lists *)

Section lists.
Context {A : Type}.
Implicit Types l k : list A.

Lemma drop_S_lookup l i x :
  l !! i = Some x → drop i l = x :: drop (S i) l.
Proof. intros. by apply drop_S. Qed.

Lemma length_drop_lt l i :
  i < length l → length (drop (S i) l) < length (drop i l).
Proof. rewrite !length_drop. lia. Qed.

Lemma suffix_drop l i : drop i l `suffix_of` l.
Proof. exists (take i l). by rewrite take_drop. Qed.

Lemma app_eq_prefix l1 l2 k1 k2 :
  l1 ++ k1 = l2 ++ k2 → length l1 = length l2 → l1 = l2 ∧ k1 = k2.
Proof. intros. by apply app_inj_1. Qed.

(** The last element of [c :: l], with a default, is the last of [l] with
    default [c]. *)
Lemma last_cons_union (c : A) l (o : option A) :
  last (c :: l) ∪ o = last l ∪ Some c.
Proof. rewrite last_cons. by destruct (last l), o. Qed.

Lemma union_None_l (o : option A) : None ∪ o = o.
Proof. by destruct o. Qed.

Lemma suffix_drop_le l a b : a ≤ b → drop b l `suffix_of` drop a l.
Proof.
  intros Hab. replace b with (a + (b - a)) by lia.
  rewrite <-drop_drop. apply suffix_drop.
Qed.

(** Dropping the same number of elements keeps the suffix order. *)
Lemma suffix_drop_mono l k n : k `suffix_of` l → drop n k `suffix_of` drop n l.
Proof.
  intros [t ->]. rewrite drop_app.
  trans (drop (n - length t) k); [by apply suffix_drop_le; lia | by apply suffix_app_r].
Qed.

(** Induction on a list two elements at a time, as a loop with step 2
    walks it. *)
(** A list is not the list without its last element. *)
Lemma reverse_cons_ne (l : list A) x r : reverse l = x :: r → l ≠ reverse r.
Proof.
  intros Hr Heq. apply (f_equal reverse) in Heq. rewrite Hr, reverse_involutive in Heq.
  apply (f_equal length) in Heq. simpl in Heq. lia.
Qed.

Lemma list_pair_ind (P : list A → Prop) :
  P [] → (∀ x, P [x]) → (∀ x y l, P l → P (x :: y :: l)) → ∀ l, P l.
Proof.
  intros Hnil Hone Hstep l.
  assert (P l ∧ ∀ x, P (x :: l)) as [? _]; [|done].
  induction l as [|y l [IH1 IH2]]; [done|]. split; [apply IH2|]. intros x. by apply Hstep.
Qed.

End lists.

#[export] Hint Resolve suffix_drop : docgen.
