(* ===== verification/JsString.v ===== *)
(** JavaScript strings: lists of UTF-16 code units, the decoding of the
    literals of the UTF-8 source text, white space and [trim], the case
    folding of regular expressions, and case-insensitive substring search
    with its characterisation (first occurrence). *)

From stdpp Require Import base tactics numbers strings option list.
From S2P Require Import Prelude.

Local Open Scope N_scope.

(** ** Code units and literals *)

(** A string value is the list of its UTF-16 code units (each below 65536). *)
Abbreviation code_unit := N.
Abbreviation jsstring := (list N).

Definition wf_string (s : jsstring) : Prop := Forall (λ c, c < 65536) s.

#[export] Instance wf_string_dec s : Decision (wf_string s).
Proof. unfold wf_string. apply _. Defined.

(** The bytes of a literal as it stands in the UTF-8 source text. *)
Definition source_bytes (s : string) : list N :=
  Ascii.N_of_ascii <$> String.list_ascii_of_string s.

(** The state of the UTF-8 decoder inside a sequence: the code point so
    far, the number of bytes still needed, and the bounds of the next
    byte. *)
Record utf8_state : Type := Utf8State {
  u_cp : N;
  u_needed : nat;
  u_lower : N;
  u_upper : N
}.

(** A byte at the start of a sequence: the code points it yields and the
    state it leaves. *)
Definition utf8_lead (b : N) : list N * option utf8_state :=
  if b <? 128 then ([b], None)
  else if (194 <=? b) && (b <=? 223) then
    ([], Some (Utf8State (b `mod` 32) 1 128 191))
  else if (224 <=? b) && (b <=? 239) then
    ([], Some (Utf8State (b `mod` 16) 2 (if b =? 224 then 160 else 128)
                         (if b =? 237 then 159 else 191)))
  else if (240 <=? b) && (b <=? 244) then
    ([], Some (Utf8State (b `mod` 8) 3 (if b =? 240 then 144 else 128)
                         (if b =? 244 then 143 else 191)))
  else ([65533], None).

(** UTF-8 decoding to code points, as the engine decodes its source text
    and [Buffer.toString('utf-8')] decodes a file: every maximal ill-formed
    part decodes to U+FFFD. *)
Fixpoint utf8_decode_from (st : option utf8_state) (bs : list N) : list N :=
  match bs with
  | [] => if st is Some _ then [65533] else []
  | b :: bs' =>
      match st with
      | None => let '(out, st') := utf8_lead b in out ++ utf8_decode_from st' bs'
      | Some (Utf8State cp needed lower upper) =>
          if (lower <=? b) && (b <=? upper) then
            let cp' := cp * 64 + b `mod` 64 in
            match needed with
            | S (S n) => utf8_decode_from (Some (Utf8State cp' (S n) 128 191)) bs'
            | _ => cp' :: utf8_decode_from None bs'
            end
          else
            let '(out, st') := utf8_lead b in
            65533 :: out ++ utf8_decode_from st' bs'
      end
  end.

Definition utf8_decode (bs : list N) : list N := utf8_decode_from None bs.

(** A code point as one code unit or as a surrogate pair. *)
Definition utf16_encode (cp : N) : list N :=
  if cp <? 65536 then [cp]
  else [55296 + (cp - 65536) `div` 1024; 56320 + (cp - 65536) `mod` 1024].

(** [buffer.toString('utf-8')]: the text of UTF-8 bytes. *)
Definition Buffer_toString (bytes : list N) : jsstring :=
  utf8_decode bytes ≫= utf16_encode.

(** The states the decoder reaches: the bounds of the next byte lie among
    the continuation bytes, and no completion of the sequence exceeds
    U+10FFFF. *)
Definition utf8_state_ok (st : option utf8_state) : Prop :=
  match st with
  | None => True
  | Some (Utf8State cp needed lower upper) =>
      128 ≤ lower ∧ upper ≤ 191 ∧ (1 ≤ needed ≤ 3)%nat ∧
      (cp * 64 + (upper - 127)) * 64 ^ N.of_nat (pred needed) ≤ 1114112
  end.

(** The value of the string literal [s] of the source text. *)
Definition js (s : string) : jsstring := Buffer_toString (source_bytes s).

(** A literal of the examples, in which ['] stands for the double quote
    (JSON texts). *)
Definition jsq (s : string) : jsstring :=
  (λ c, if c =? 39 then 34 else c) <$> js s.

(** The double quote, which a Rocq literal cannot hold undoubled. *)
Definition dquote : N := 34.

(** The code unit of an ASCII character, and the test for it. *)
Definition ch (a : Ascii.ascii) : N := Ascii.N_of_ascii a.

Definition is_ch (a : Ascii.ascii) (c : N) : bool := c =? ch a.

(** Decimal and hexadecimal digits. *)
Definition isDigit (c : N) : bool := (48 <=? c) && (c <=? 57).

Definition hex_value (c : N) : option N :=
  if (48 <=? c) && (c <=? 57) then Some (c - 48)
  else if (65 <=? c) && (c <=? 70) then Some (c - 55)
  else if (97 <=? c) && (c <=? 102) then Some (c - 87)
  else None.

(** [p] is a prefix of [s], exactly; the rest of [s] is returned. *)
Definition strip_exact (p s : jsstring) : option jsstring :=
  if decide (take (length p) s = p) then Some (drop (length p) s) else None.

(** String concatenation of a template literal's parts. *)
Definition concat_parts (parts : list jsstring) : jsstring := mjoin parts.

(** ** White space *)

(** WhiteSpace and LineTerminator of ECMAScript: what [trim] strips and the
    class escape [\s] matches. *)
Definition isWhiteSpace (c : N) : bool :=
  bool_decide (c ∈ [9; 10; 11; 12; 13; 32; 160; 5760; 8232; 8233; 8239; 8287; 12288; 65279])
  || ((8192 <=? c) && (c <=? 8202)).

Fixpoint trimStart (s : jsstring) : jsstring :=
  match s with
  | c :: s' => if isWhiteSpace c then trimStart s' else s
  | [] => []
  end.

Definition trimEnd (s : jsstring) : jsstring := reverse (trimStart (reverse s)).

(** [String.prototype.trim]. *)
Definition trim (s : jsstring) : jsstring := trimEnd (trimStart s).

(** ** Case folding *)

(** [Canonicalize] of ECMAScript's regular expressions under the flag [i]
    (without [u]): the simple upper-case mapping of a code unit.  The
    development is parametric in it; every theorem holds for every folding
    function, the program's included. *)
Class Canonicalize := canonicalize : N → N.

(** The folding restricted to ASCII letters, used to compute examples. *)
Definition ascii_canonicalize (c : N) : N :=
  if (97 <=? c) && (c <=? 122) then c - 32 else c.

(** Two code units match under the flag [i]. *)
Definition eq_ci `{Canonicalize} (a b : N) : bool :=
  bool_decide (canonicalize a = canonicalize b).

(** What [Canonicalize] promises on ASCII: a code unit below 128 folds as
    [ascii_canonicalize] folds it, and no code unit from 128 on folds to
    one below 128 (the algorithm discards such a result). *)
Class CanonicalizeAscii `{Canonicalize} : Prop := {
  canonicalize_ascii c : c < 128 → canonicalize c = ascii_canonicalize c;
  canonicalize_high c : 128 ≤ c → 128 ≤ canonicalize c
}.

(** An ASCII code unit that is not a letter. *)
Definition symbol (k : N) : Prop := k < 65 ∨ 90 < k < 97 ∨ 122 < k < 128.

#[export] Instance symbol_dec k : Decision (symbol k).
Proof. unfold symbol. apply _. Defined.

(** ** Case-insensitive search *)

Section search.
Context `{Canonicalize}.

(** [p] is a prefix of [s] up to case; the rest of [s] is returned. *)
Fixpoint strip_prefix_ci (p s : jsstring) : option jsstring :=
  match p, s with
  | [], _ => Some s
  | a :: p', b :: s' => if eq_ci a b then strip_prefix_ci p' s' else None
  | _ :: _, [] => None
  end.

(** The first occurrence of [p] in [s] up to case: the text before it and
    the text after it. *)
Fixpoint find_ci (p s : jsstring) : option (jsstring * jsstring) :=
  match strip_prefix_ci p s with
  | Some rest => Some ([], rest)
  | None =>
      match s with
      | [] => None
      | c :: s' => prod_map (cons c) id <$> find_ci p s'
      end
  end.

(** Equality of strings up to case, position by position. *)
Definition equiv_ci (a b : jsstring) : Prop :=
  Forall2 (λ x y, canonicalize x = canonicalize y) a b.

(** [p] occurs in [s] at offset [length pre]. *)
Definition occurs_at (p pre s : jsstring) : Prop :=
  ∃ m rest, s = pre ++ m ++ rest ∧ equiv_ci p m.

End search.

(** ** Lemmas *)

Section trim_lemmas.

Lemma trimStart_suffix s : trimStart s `suffix_of` s.
Proof.
  induction s as [|c s IH]; simpl; [done|].
  destruct (isWhiteSpace c); [by apply suffix_cons_r | done].
Qed.

Lemma trimStart_head s c s' : trimStart s = c :: s' → isWhiteSpace c = false.
Proof.
  induction s as [|d s IH]; simpl; [done|].
  destruct (isWhiteSpace d) eqn:Hd; [done | by intros [= -> ->]].
Qed.

Lemma trimStart_idemp s : trimStart (trimStart s) = trimStart s.
Proof.
  destruct (trimStart s) as [|c s'] eqn:Hs; [done|].
  simpl. by rewrite (trimStart_head _ _ _ Hs).
Qed.

Lemma trimStart_nonspace c s : isWhiteSpace c = false → trimStart (c :: s) = c :: s.
Proof. simpl. by intros ->. Qed.

Lemma trimStart_app_space ws s :
  Forall (λ c, isWhiteSpace c = true) ws → trimStart (ws ++ s) = trimStart s.
Proof. induction 1 as [|c ws Hc _ IH]; simpl; [done | by rewrite Hc]. Qed.

Lemma trimEnd_app_space s ws :
  Forall (λ c, isWhiteSpace c = true) ws → trimEnd (s ++ ws) = trimEnd s.
Proof.
  intros Hws. unfold trimEnd. rewrite reverse_app, trimStart_app_space; [done|].
  by apply Forall_reverse.
Qed.

Lemma trimEnd_snoc_nonspace s c :
  isWhiteSpace c = false → trimEnd (s ++ [c]) = s ++ [c].
Proof.
  intros Hc. unfold trimEnd. rewrite reverse_snoc, trimStart_nonspace by done.
  by rewrite reverse_cons, reverse_involutive.
Qed.

Lemma trimEnd_prefix s : trimEnd s `prefix_of` s.
Proof.
  unfold trimEnd. destruct (trimStart_suffix (reverse s)) as [k Hk].
  exists (reverse k). apply (inj reverse).
  by rewrite reverse_app, !reverse_involutive.
Qed.

(** [trim] removes exactly the white space around a core that neither
    starts nor ends with white space. *)
Lemma trim_spec ws1 core ws2 :
  Forall (λ c, isWhiteSpace c = true) ws1 →
  Forall (λ c, isWhiteSpace c = true) ws2 →
  (∀ c, head core = Some c → isWhiteSpace c = false) →
  (∀ c, last core = Some c → isWhiteSpace c = false) →
  trim (ws1 ++ core ++ ws2) = core.
Proof.
  intros H1 H2 Hhd Hlast. unfold trim. rewrite trimStart_app_space by done.
  destruct core as [|c core] using rev_ind.
  - simpl. rewrite <-(app_nil_r ws2), trimStart_app_space by done. done.
  - assert (isWhiteSpace c = false) as Hc by (apply Hlast; by rewrite last_snoc).
    assert (trimStart ((core ++ [c]) ++ ws2) = (core ++ [c]) ++ ws2) as ->.
    { destruct core as [|d core]; simpl.
      - by rewrite Hc.
      - by rewrite (Hhd d eq_refl). }
    by rewrite trimEnd_app_space, trimEnd_snoc_nonspace.
Qed.

End trim_lemmas.

Section search_lemmas.
Context `{Canonicalize}.

Lemma eq_ci_refl a : eq_ci a a = true.
Proof. unfold eq_ci. by apply bool_decide_eq_true. Qed.

Lemma equiv_ci_refl s : equiv_ci s s.
Proof. unfold equiv_ci. by apply Forall2_true_refl || (induction s; constructor). Qed.

Lemma equiv_ci_length a b : equiv_ci a b → length a = length b.
Proof. apply Forall2_length. Qed.

(** [strip_prefix_ci] succeeds exactly on the strings that start with a
    case variant of the pattern. *)
Lemma strip_prefix_ci_Some p s rest :
  strip_prefix_ci p s = Some rest ↔ ∃ m, s = m ++ rest ∧ equiv_ci p m.
Proof.
  revert s. induction p as [|a p IH]; intros s; simpl.
  - split.
    + intros [= ->]. exists []. split; [done | constructor].
    + intros (m & -> & Hm). by inv Hm.
  - destruct s as [|b s].
    + split; [done|]. intros (m & Hs & Hm). inv Hm; done.
    + unfold eq_ci. case_bool_decide as Hab.
      * rewrite IH. split.
        -- intros (m & -> & Hm). exists (b :: m). split; [done | by constructor].
        -- intros (m & Hs & Hm). inv Hm; simplify_eq/=; eauto.
      * split; [done|]. intros (m & Hs & Hm). inv Hm; simplify_eq/=; done.
Qed.

Lemma strip_prefix_ci_self p rest : strip_prefix_ci p (p ++ rest) = Some rest.
Proof. apply strip_prefix_ci_Some. exists p. split; [done | apply equiv_ci_refl]. Qed.

Lemma strip_prefix_ci_None p s :
  strip_prefix_ci p s = None ↔ ¬ occurs_at p [] s.
Proof.
  split.
  - intros Hn (m & rest & -> & Hm).
    assert (strip_prefix_ci p ([] ++ m ++ rest) = Some rest) as Hs
      by (apply strip_prefix_ci_Some; eauto).
    congruence.
  - intros Hno. destruct (strip_prefix_ci p s) as [rest|] eqn:Hs; [|done].
    destruct Hno. apply strip_prefix_ci_Some in Hs as (m & -> & Hm).
    by exists m, rest.
Qed.

Lemma occurs_at_cons p c pre s :
  occurs_at p (c :: pre) (c :: s) ↔ occurs_at p pre s.
Proof.
  split; intros (m & rest & Hs & Hm); exists m, rest; split; try done.
  - by simplify_eq/=.
  - by rewrite Hs.
Qed.

(** [find_ci] returns an occurrence. *)
Lemma find_ci_occurs p s pre rest :
  find_ci p s = Some (pre, rest) →
  ∃ m, s = pre ++ m ++ rest ∧ equiv_ci p m.
Proof.
  revert pre. induction s as [|c s IH]; intros pre; simpl.
  - destruct (strip_prefix_ci p []) as [r|] eqn:Hs; [|done].
    intros [= <- <-]. by apply strip_prefix_ci_Some in Hs.
  - destruct (strip_prefix_ci p (c :: s)) as [r|] eqn:Hs.
    + intros [= <- <-]. by apply strip_prefix_ci_Some in Hs.
    + destruct (find_ci p s) as [[pre' rest']|] eqn:Hf; [|done].
      simpl. intros [= <- <-]. destruct (IH _ eq_refl) as (m & -> & Hm). eauto.
Qed.

(** [find_ci] returns the first occurrence: the pattern occurs at no
    smaller offset. *)
Lemma find_ci_first p s pre rest :
  find_ci p s = Some (pre, rest) →
  ∀ pre', occurs_at p pre' s → (length pre ≤ length pre')%nat.
Proof.
  revert pre. induction s as [|c s IH]; intros pre; simpl.
  - destruct (strip_prefix_ci p []); [|done]. intros [= <- <-] pre' _. simpl. lia.
  - destruct (strip_prefix_ci p (c :: s)) as [r|] eqn:Hs.
    + intros [= <- <-] pre' _. simpl. lia.
    + destruct (find_ci p s) as [[pre0 rest0]|] eqn:Hf; [|done].
      simpl. intros [= <- <-] pre' Hocc.
      destruct pre' as [|d pre'].
      * by apply strip_prefix_ci_None in Hs.
      * assert (d = c) as -> by (by destruct Hocc as (? & ? & [= ->] & _)).
        apply occurs_at_cons in Hocc. specialize (IH _ eq_refl _ Hocc). simpl. lia.
Qed.

(** [find_ci] fails exactly when the pattern occurs nowhere. *)
Lemma find_ci_None p s :
  find_ci p s = None ↔ ∀ pre, ¬ occurs_at p pre s.
Proof.
  induction s as [|c s IH]; simpl.
  - destruct (strip_prefix_ci p []) as [r|] eqn:Hs.
    + split; [done|]. intros Hno. apply strip_prefix_ci_Some in Hs as (m & Hs & Hm).
      destruct (Hno []). by exists m, r.
    + split; [|done]. intros _ pre (m & rest & Hs' & Hm).
      apply strip_prefix_ci_None in Hs. apply Hs.
      symmetry in Hs'. apply app_eq_nil in Hs' as [-> Hs'].
      by exists m, rest.
  - destruct (strip_prefix_ci p (c :: s)) as [r|] eqn:Hs.
    + split; [done|]. intros Hno. apply strip_prefix_ci_Some in Hs as (m & Hs & Hm).
      destruct (Hno []). by exists m, r.
    + destruct (find_ci p s) as [[pre0 rest0]|] eqn:Hf; simpl.
      * split; [done|]. intros Hno.
        destruct (find_ci_occurs _ _ _ _ Hf) as (m & -> & Hm).
        destruct (Hno (c :: pre0)). by exists m, rest0.
      * split; [|done]. intros _ [|d pre] Hocc.
        -- by apply strip_prefix_ci_None in Hs.
        -- assert (d = c) as -> by (by destruct Hocc as (? & ? & [= ->] & _)).
           apply occurs_at_cons in Hocc. by apply (proj1 IH eq_refl pre).
Qed.

Lemma strip_prefix_ci_drop p s r :
  strip_prefix_ci p s = Some r → r = drop (length p) s.
Proof.
  intros (m & -> & Hm)%strip_prefix_ci_Some.
  by rewrite (equiv_ci_length _ _ Hm), drop_app_length.
Qed.

(** Stripping the same text from a later position leaves a later rest. *)
Lemma strip_prefix_ci_suffix p s s' r r' :
  strip_prefix_ci p s = Some r → strip_prefix_ci p s' = Some r' →
  s' `suffix_of` s → r' `suffix_of` r.
Proof.
  intros ->%strip_prefix_ci_drop ->%strip_prefix_ci_drop. apply suffix_drop_mono.
Qed.

Lemma occurs_at_suffix p pre s' s :
  s' `suffix_of` s → occurs_at p pre s' → ∃ pre', occurs_at p pre' s.
Proof.
  intros [t ->] (m & rest & -> & Hm). exists (t ++ pre), m, rest.
  by rewrite <-(assoc_L (++)).
Qed.

(** A text that occurs nowhere occurs in no suffix. *)
Lemma find_ci_None_suffix p s s' :
  s' `suffix_of` s → find_ci p s = None → find_ci p s' = None.
Proof.
  rewrite !find_ci_None. intros Hs Hno pre Hocc.
  destruct (occurs_at_suffix _ _ _ _ Hs Hocc) as [pre' Hocc']. by apply (Hno pre').
Qed.

(** The rest after the first occurrence. *)
Lemma find_ci_rest p s pre rest :
  find_ci p s = Some (pre, rest) → rest = drop (length pre + length p) s.
Proof.
  intros (m & -> & Hm)%find_ci_occurs.
  rewrite (equiv_ci_length _ _ Hm), <-drop_drop, drop_app_length.
  by rewrite drop_app_length.
Qed.

Lemma find_ci_pre p s pre rest :
  find_ci p s = Some (pre, rest) → pre = take (length pre) s.
Proof. intros (m & -> & Hm)%find_ci_occurs. by rewrite take_app_length. Qed.

Lemma find_ci_app_r p s pre rest :
  find_ci p s = Some (pre, rest) → ∃ m, s = pre ++ m ++ rest ∧ length m = length p.
Proof.
  intros (m & -> & Hm)%find_ci_occurs. exists m. split; [done|].
  symmetry. by apply equiv_ci_length.
Qed.

(** Where a text occurs, each of its prefixes occurs. *)
Lemma occurs_at_prefix p q pre s : occurs_at (p ++ q) pre s → occurs_at p pre s.
Proof.
  intros (m & rest & -> & Hm). apply Forall2_app_inv_l in Hm as (m1 & m2 & H1 & H2 & ->).
  exists m1, (m2 ++ rest). by rewrite <-(assoc_L (++)).
Qed.

(** The first occurrence of a prefix of [p ++ q] ends before the first
    occurrence of [p ++ q] does. *)
Lemma find_ci_prefix p q s pre rest :
  find_ci (p ++ q) s = Some (pre, rest) →
  ∃ pre' rest', find_ci p s = Some (pre', rest') ∧ rest `suffix_of` rest'.
Proof.
  intros Hf. destruct (find_ci p s) as [[pre' rest']|] eqn:Hp.
  - exists pre', rest'. split; [done|].
    rewrite (find_ci_rest _ _ _ _ Hf), (find_ci_rest _ _ _ _ Hp).
    apply find_ci_occurs in Hf as Hocc. destruct Hocc as (m & Hs & Hm).
    assert (occurs_at p pre s) as Hocc.
    { apply (occurs_at_prefix p q). by exists m, rest. }
    pose proof (find_ci_first _ _ _ _ Hp _ Hocc). apply suffix_drop_le.
    rewrite length_app. lia.
  - apply find_ci_occurs in Hf as (m & Hs & Hm).
    rewrite find_ci_None in Hp. destruct (Hp pre).
    apply (occurs_at_prefix p q). by exists m, rest.
Qed.

(** Searching from a later position ends at a later position. *)
Lemma find_ci_later p s s' pre rest pre' rest' :
  s' `suffix_of` s →
  find_ci p s = Some (pre, rest) → find_ci p s' = Some (pre', rest') →
  rest' `suffix_of` rest.
Proof.
  intros [t ->] Hf Hf'.
  rewrite (find_ci_rest _ _ _ _ Hf), (find_ci_rest _ _ _ _ Hf').
  assert (occurs_at p (t ++ pre') (t ++ s')) as Hocc.
  { apply find_ci_occurs in Hf' as (m' & -> & Hm'). exists m', rest'.
    by rewrite <-(assoc_L (++)). }
  pose proof (find_ci_first _ _ _ _ Hf _ Hocc) as Hle. rewrite length_app in Hle.
  replace (drop (length pre' + length p) s')
    with (drop (length t + (length pre' + length p)) (t ++ s'))
    by (by rewrite <-drop_drop, drop_app_length).
  apply suffix_drop_le. lia.
Qed.

(** A text found at the start. *)
Lemma find_ci_self p rest : find_ci p (p ++ rest) = Some ([], rest).
Proof. destruct (p ++ rest) eqn:Hs; simpl; by rewrite <-Hs, strip_prefix_ci_self. Qed.

(** The search skips a text in which the first code unit of the pattern
    does not occur, up to case. *)
Lemma find_ci_skip c p pre s :
  Forall (λ x, eq_ci c x = false) pre →
  find_ci (c :: p) (pre ++ s) = prod_map (app pre) id <$> find_ci (c :: p) s.
Proof.
  induction 1 as [|x pre Hx _ IH]; simpl.
  - by destruct (find_ci (c :: p) s) as [[]|].
  - rewrite Hx. fold (find_ci (c :: p) (pre ++ s)). rewrite IH.
    by destruct (find_ci (c :: p) s) as [[]|].
Qed.

(** The first occurrence of a text lies behind a text in which its first
    code unit does not occur. *)
Lemma find_ci_at c p pre rest :
  Forall (λ x, eq_ci c x = false) pre →
  find_ci (c :: p) (pre ++ (c :: p) ++ rest) = Some (pre, rest).
Proof. intros Hp. rewrite find_ci_skip, find_ci_self by done. simpl. by rewrite app_nil_r. Qed.

(** A text without the first code unit of a pattern holds no occurrence. *)
Lemma find_ci_absent c p s : Forall (λ x, eq_ci c x = false) s → find_ci (c :: p) s = None.
Proof. intros Hs. rewrite <-(app_nil_r s). by rewrite find_ci_skip. Qed.

(** Whether a pattern starts a text depends on the first [length p] code
    units of the text. *)
Lemma strip_prefix_ci_take p s :
  is_Some (strip_prefix_ci p s) ↔ is_Some (strip_prefix_ci p (take (length p) s)).
Proof.
  revert s. induction p as [|a p IH]; intros s; simpl; [done|].
  destruct s as [|b s]; simpl; [done|]. destruct (eq_ci a b); [apply IH|done].
Qed.

Lemma strip_prefix_ci_app p q s :
  is_Some (strip_prefix_ci (p ++ q) s) → is_Some (strip_prefix_ci p s).
Proof.
  revert s. induction p as [|a p IH]; intros s; simpl; [done|].
  destruct s as [|b s]; [done|]. destruct (eq_ci a b); [apply IH|done].
Qed.

(** A common prefix is stripped from pattern and text. *)
Lemma strip_prefix_ci_common p q s : strip_prefix_ci (p ++ q) (p ++ s) = strip_prefix_ci q s.
Proof. induction p as [|a p IH]; simpl; [done|]. by rewrite eq_ci_refl. Qed.

(** What is stripped from a text is stripped from every extension. *)
Lemma strip_prefix_ci_app_r p s r t :
  strip_prefix_ci p s = Some r → strip_prefix_ci p (s ++ t) = Some (r ++ t).
Proof.
  intros (m & -> & Hm)%strip_prefix_ci_Some. apply strip_prefix_ci_Some.
  exists m. by rewrite <-(assoc_L (++)).
Qed.

Lemma find_ci_here p s r : strip_prefix_ci p s = Some r → find_ci p s = Some ([], r).
Proof. destruct s; simpl; by intros ->. Qed.

Lemma find_ci_None_here p s : find_ci p s = None → strip_prefix_ci p s = None.
Proof. destruct s; simpl; by destruct (strip_prefix_ci p _). Qed.

Lemma find_ci_None_tail p c s : find_ci p (c :: s) = None → find_ci p s = None.
Proof. apply find_ci_None_suffix. by apply suffix_cons_r. Qed.

Lemma find_ci_None_prefix p s t : find_ci p (s ++ t) = None → find_ci p s = None.
Proof.
  rewrite !find_ci_None. intros Hn pre (m & rest & -> & Hm). apply (Hn pre).
  exists m, (rest ++ t). by rewrite <-!(assoc_L (++)).
Qed.

Lemma find_ci_cons_None p c s :
  strip_prefix_ci p (c :: s) = None →
  find_ci p (c :: s) = prod_map (cons c) id <$> find_ci p s.
Proof. simpl. by intros ->. Qed.

(** The search for [q ++ p] skips a text in which [q] does not start. *)
Lemma find_ci_skip_prefix q p a b :
  find_ci q (a ++ take (pred (length q)) b) = None →
  find_ci (q ++ p) (a ++ b) = prod_map (app a) id <$> find_ci (q ++ p) b.
Proof.
  induction a as [|c a IH]; intros Hn.
  - simpl. by destruct (find_ci (q ++ p) b) as [[]|].
  - cbn [app]. rewrite find_ci_cons_None.
    + rewrite IH by (by eapply find_ci_None_tail). by destruct (find_ci (q ++ p) b) as [[]|].
    + apply eq_None_not_Some. intros Hs%strip_prefix_ci_app%strip_prefix_ci_take.
      apply find_ci_None_here, eq_None_not_Some in Hn. apply Hn, strip_prefix_ci_take.
      destruct q as [|x q]; [done|]. cbn [length pred take app] in *.
      by rewrite take_app, take_take, Nat.min_l, <-take_app by lia.
Qed.

End search_lemmas.

(** ** Decoded text is made of code units *)

(** Comparisons of code units as propositions. *)
Ltac N_bools :=
  repeat match goal with
  | H : _ && _ = true |- _ => apply andb_prop in H as [??]
  | H : (_ <? _) = true |- _ => apply N.ltb_lt in H
  | H : (_ <? _) = false |- _ => apply N.ltb_ge in H
  | H : (_ <=? _) = true |- _ => apply N.leb_le in H
  | H : (_ =? _) = true |- _ => apply N.eqb_eq in H
  | H : (_ =? _) = false |- _ => apply N.eqb_neq in H
  end.

(** Comparisons of code units in the goal, decided by arithmetic. *)
Ltac N_tests :=
  repeat match goal with
  | |- context [?a <=? ?b] =>
      first [rewrite (proj2 (N.leb_le a b)) by lia | rewrite (proj2 (N.leb_gt a b)) by lia]
  | |- context [?a <? ?b] =>
      first [rewrite (proj2 (N.ltb_lt a b)) by lia | rewrite (proj2 (N.ltb_ge a b)) by lia]
  | |- context [?a =? ?b] =>
      first [rewrite (proj2 (N.eqb_eq a b)) by lia | rewrite (proj2 (N.eqb_neq a b)) by lia]
  end.

Lemma utf8_lead_ok b :
  Forall (λ cp, cp < 1114112) (utf8_lead b).1 ∧ utf8_state_ok (utf8_lead b).2.
Proof.
  unfold utf8_lead.
  pose proof (N.Div0.div_mod b 32); pose proof (N.Div0.div_mod b 16);
    pose proof (N.Div0.div_mod b 8); pose proof (N.mod_upper_bound b 32);
    pose proof (N.mod_upper_bound b 16); pose proof (N.mod_upper_bound b 8).
  repeat case_match; simpl; repeat constructor; N_bools;
    change (64 ^ 0) with 1; change (64 ^ 1) with 64; change (64 ^ 2) with 4096; lia.
Qed.

(** The decoder yields Unicode code points. *)
Lemma utf8_decode_from_bound st bs :
  utf8_state_ok st → Forall (λ cp, cp < 1114112) (utf8_decode_from st bs).
Proof.
  revert st. induction bs as [|b bs IH]; intros st Hst; simpl.
  { destruct st; repeat constructor. }
  destruct (utf8_lead_ok b) as [Hout Hlead].
  destruct st as [[cp needed lower upper]|]; [destruct (_ && _) eqn:Hb|].
  - destruct Hst as (Hl & Hu & Hn & Hcp). N_bools.
    pose proof (N.Div0.div_mod b 64). pose proof (N.mod_upper_bound b 64).
    destruct needed as [|[|[|[|?]]]]; try lia; repeat constructor; try apply IH;
      simpl in *; repeat split; lia.
  - destruct (utf8_lead b) as [out st']. constructor; [done|].
    apply Forall_app. split; [done|by apply IH].
  - destruct (utf8_lead b) as [out st']. apply Forall_app. split; [done|by apply IH].
Qed.

Lemma utf16_encode_bound cp : cp < 1114112 → wf_string (utf16_encode cp).
Proof.
  intros Hcp. unfold utf16_encode, wf_string.
  assert ((cp - 65536) `div` 1024 < 1024) by (apply N.Div0.div_lt_upper_bound; lia).
  pose proof (N.mod_upper_bound (cp - 65536) 1024).
  case_match; N_bools; repeat (apply Forall_cons; split); try done; lia.
Qed.

(** C30. Width of the code units: whatever the bytes of a file, the text
    that [readFileSync(path, 'utf-8')] decodes is a list of 16-bit code
    units; ill-formed input decodes to U+FFFD and a code point above
    U+FFFF to a surrogate pair. *)
Theorem Buffer_toString_wf bytes : wf_string (Buffer_toString bytes).
Proof.
  unfold Buffer_toString, wf_string. apply Forall_bind.
  eapply Forall_impl; [by apply (utf8_decode_from_bound None)|]. apply utf16_encode_bound.
Qed.

(** ** Folding on ASCII *)

Lemma ascii_canonicalize_symbol k : symbol k → ascii_canonicalize k = k.
Proof. intros Hk. unfold ascii_canonicalize, symbol in *. case_match; N_bools; lia. Qed.

#[export] Instance ascii_canonicalize_ascii : @CanonicalizeAscii ascii_canonicalize.
Proof.
  split; [done|]. intros c Hc. unfold canonicalize, ascii_canonicalize.
  case_match; N_bools; lia.
Qed.

Section ascii.
Context `{CanonicalizeAscii}.

(** A symbol matches itself only. *)
Lemma eq_ci_symbol k c : symbol k → eq_ci k c = bool_decide (c = k).
Proof.
  intros Hk. unfold eq_ci. apply bool_decide_ext.
  rewrite (canonicalize_ascii k), (ascii_canonicalize_symbol k Hk) by (unfold symbol in Hk; lia).
  destruct (decide (c < 128)) as [Hc|Hc].
  - rewrite (canonicalize_ascii c Hc). unfold ascii_canonicalize, symbol in *.
    case_match; N_bools; lia.
  - pose proof (canonicalize_high c ltac:(lia)). unfold symbol in Hk. lia.
Qed.

Lemma eq_ci_symbol_r k c : symbol k → eq_ci c k = bool_decide (c = k).
Proof. intros Hk. rewrite <-(eq_ci_symbol k c Hk). unfold eq_ci. by apply bool_decide_ext. Qed.

(** A text without a symbol holds no match of it. *)
Lemma Forall_eq_ci_symbol k s :
  symbol k → Forall (λ c, c ≠ k) s → Forall (λ c, eq_ci k c = false) s.
Proof.
  intros Hk Hs. eapply Forall_impl; [exact Hs|]. intros c Hc.
  rewrite (eq_ci_symbol k c Hk). by apply bool_decide_eq_false.
Qed.

Lemma Forall_eq_ci_symbol_r k s :
  symbol k → Forall (λ c, c ≠ k) s → Forall (λ c, eq_ci c k = false) s.
Proof.
  intros Hk Hs. eapply Forall_impl; [exact Hs|]. intros c Hc.
  rewrite (eq_ci_symbol_r k c Hk). by apply bool_decide_eq_false.
Qed.

End ascii.

#[export] Hint Resolve trimStart_suffix trimEnd_prefix : docgen.
#[export] Hint Rewrite @strip_prefix_ci_self : docgen_rw.
