(* ===== verification/Utf8.v ===== *)
(** UTF-8 as it is written: the encoder of code points, and the round
    trip through the decoder of [Buffer.toString]. *)

From Stdlib Require Import Zify.
From stdpp Require Import base tactics numbers strings option list.
From S2P Require Import Prelude JsString.

Local Open Scope N_scope.

(** ** The encoder *)

(** The bytes of a code point: one to four, the first with the length and
    the high bits, the others with six bits each. *)
Definition utf8_encode (cp : N) : list N :=
  if cp <? 128 then [cp]
  else if cp <? 2048 then [192 + cp / 64; 128 + cp mod 64]
  else if cp <? 65536 then [224 + cp / 4096; 128 + (cp / 64) mod 64; 128 + cp mod 64]
  else [240 + cp / 262144; 128 + (cp / 4096) mod 64; 128 + (cp / 64) mod 64; 128 + cp mod 64].

(** The bytes of a text of code points. *)
Definition utf8_bytes (cps : list N) : list N := cps ≫= utf8_encode.

(** A Unicode scalar value: a code point that is not a surrogate. *)
Definition scalar (cp : N) : Prop := cp < 55296 ∨ 57344 ≤ cp < 1114112.

#[export] Instance scalar_dec cp : Decision (scalar cp).
Proof. unfold scalar. apply _. Defined.

(** A text of the Basic Multilingual Plane: its code units are its code
    points. *)
Definition bmp_text (s : jsstring) : Prop := Forall (λ c, scalar c ∧ c < 65536) s.

#[export] Instance bmp_text_dec s : Decision (bmp_text s).
Proof. unfold bmp_text. apply _. Defined.

(** Linear arithmetic with division and remainder by constants. *)
Ltac div_lia := zify; Z.to_euclidean_division_equations; lia.

(** ** The decoder, byte by byte *)

Lemma utf8_lead_1 b : b < 128 → utf8_lead b = ([b], None).
Proof. intros Hb. unfold utf8_lead. by N_tests. Qed.

Lemma utf8_lead_2 b :
  194 ≤ b ≤ 223 → utf8_lead b = ([], Some (Utf8State (b `mod` 32) 1 128 191)).
Proof. intros Hb. unfold utf8_lead. by N_tests. Qed.

Lemma utf8_lead_3 b :
  224 ≤ b ≤ 239 →
  utf8_lead b = ([], Some (Utf8State (b `mod` 16) 2 (if b =? 224 then 160 else 128)
                                      (if b =? 237 then 159 else 191))).
Proof.
  intros Hb. unfold utf8_lead.
  rewrite (proj2 (N.ltb_ge b 128)), (proj2 (N.leb_gt b 223)), andb_false_r by lia.
  by rewrite (proj2 (N.leb_le 224 b)), (proj2 (N.leb_le b 239)) by lia.
Qed.

Lemma utf8_lead_4 b :
  240 ≤ b ≤ 244 →
  utf8_lead b = ([], Some (Utf8State (b `mod` 8) 3 (if b =? 240 then 144 else 128)
                                      (if b =? 244 then 143 else 191))).
Proof.
  intros Hb. unfold utf8_lead.
  rewrite (proj2 (N.ltb_ge b 128)), (proj2 (N.leb_gt b 223)), (proj2 (N.leb_gt b 239)),
    !andb_false_r by lia.
  by rewrite (proj2 (N.leb_le 240 b)), (proj2 (N.leb_le b 244)) by lia.
Qed.

(** A continuation byte within the bounds of the state. *)
Lemma utf8_decode_continue cp needed lower upper b bs :
  lower ≤ b ≤ upper →
  utf8_decode_from (Some (Utf8State cp needed lower upper)) (b :: bs)
  = match needed with
    | S (S n) => utf8_decode_from (Some (Utf8State (cp * 64 + b `mod` 64) (S n) 128 191)) bs
    | _ => (cp * 64 + b `mod` 64) :: utf8_decode_from None bs
    end.
Proof.
  intros Hb. cbn [utf8_decode_from].
  by rewrite (proj2 (N.leb_le lower b)), (proj2 (N.leb_le b upper)) by lia.
Qed.

Lemma utf8_decode_lead b bs :
  utf8_decode_from None (b :: bs) = (utf8_lead b).1 ++ utf8_decode_from (utf8_lead b).2 bs.
Proof. cbn [utf8_decode_from]. by destruct (utf8_lead b). Qed.

(** The bounds of the second byte, which depend on the first. *)
Lemma second_of_three cp :
  2048 ≤ cp < 65536 → scalar cp →
  (if 224 + cp / 4096 =? 224 then 160 else 128) ≤ 128 + (cp / 64) `mod` 64
  ≤ (if 224 + cp / 4096 =? 237 then 159 else 191).
Proof.
  intros Hcp Hs. unfold scalar in Hs.
  destruct (_ =? 224) eqn:E1, (_ =? 237) eqn:E2; N_bools; div_lia.
Qed.

Lemma second_of_four cp :
  65536 ≤ cp < 1114112 →
  (if 240 + cp / 262144 =? 240 then 144 else 128) ≤ 128 + (cp / 4096) `mod` 64
  ≤ (if 240 + cp / 262144 =? 244 then 143 else 191).
Proof.
  intros Hcp. destruct (_ =? 240) eqn:E1, (_ =? 244) eqn:E2; N_bools; div_lia.
Qed.

(** ** The round trip *)

(** The decoder reads the bytes of a scalar value back as the value. *)
Lemma utf8_decode_encode cp bs :
  scalar cp →
  utf8_decode_from None (utf8_encode cp ++ bs) = cp :: utf8_decode_from None bs.
Proof.
  intros Hs. unfold utf8_encode.
  destruct (cp <? 128) eqn:E1; [|destruct (cp <? 2048) eqn:E2; [|destruct (cp <? 65536) eqn:E3]];
    N_bools; cbn [app]; rewrite utf8_decode_lead.
  - by rewrite utf8_lead_1.
  - rewrite utf8_lead_2 by div_lia. cbn [fst snd app].
    rewrite utf8_decode_continue by div_lia. f_equal. div_lia.
  - rewrite utf8_lead_3 by div_lia. cbn [fst snd app].
    rewrite utf8_decode_continue by (apply second_of_three; [lia|done]).
    rewrite utf8_decode_continue by div_lia. f_equal. div_lia.
  - assert (cp < 1114112) by (unfold scalar in Hs; lia).
    rewrite utf8_lead_4 by div_lia. cbn [fst snd app].
    rewrite utf8_decode_continue by (apply second_of_four; lia).
    rewrite !utf8_decode_continue by div_lia. f_equal. div_lia.
Qed.

Lemma utf8_decode_bytes cps : Forall scalar cps → utf8_decode (utf8_bytes cps) = cps.
Proof.
  unfold utf8_decode, utf8_bytes. induction 1 as [|cp cps Hcp _ IH]; [done|].
  cbn [mbind list_bind]. by rewrite utf8_decode_encode, IH.
Qed.

(** C28. Round trip of the decoder: the text that [Buffer.toString] decodes
    from the UTF-8 bytes of scalar values is the UTF-16 text of these
    values, each as one code unit or as a surrogate pair. *)
Theorem Buffer_toString_utf8 cps :
  Forall scalar cps → Buffer_toString (utf8_bytes cps) = cps ≫= utf16_encode.
Proof. intros Hs. unfold Buffer_toString. by rewrite utf8_decode_bytes. Qed.

(** A text of the Basic Multilingual Plane is read back as it is. *)
Lemma Buffer_toString_bmp s : bmp_text s → Buffer_toString (utf8_bytes s) = s.
Proof.
  intros Hs. unfold Buffer_toString.
  rewrite utf8_decode_bytes by (eapply Forall_impl; [exact Hs|]; by intros c [? ?]).
  induction Hs as [|c s [_ Hc] _ IH]; [done|]. cbn [mbind list_bind]. rewrite IH.
  unfold utf16_encode. by rewrite (proj2 (N.ltb_lt c 65536)).
Qed.

(** ** Examples *)

(** One code point of each length: a letter, a letter with an accent, a
    Chinese character and an emoji. *)
Lemma Buffer_toString_utf8_witness :
  Buffer_toString [97; 195; 169; 229; 144; 175; 240; 159; 153; 130]
  = [97; 233; 21551; 55357; 56898].
Proof. apply (Buffer_toString_utf8 [97; 233; 21551; 128578]). by_decide. Defined.

(** A surrogate has no bytes of its own: what the encoder writes for it
    is read as three ill-formed bytes. *)
Example utf8_surrogate_not_read_back :
  utf8_decode (utf8_encode 55296) = [65533; 65533; 65533].
Proof. by_compute. Qed.
