(* ===== verification/Regex.v ===== *)
(** Regular expressions as the program uses them: the abstract syntax of
    a pattern, the backtracking matcher of ECMAScript (sections
    "Pattern Semantics" and "RegExpBuiltinExec") under the flag [i], and
    [String.prototype.match] for a pattern without the flag [g].  The
    lemmas characterise the matcher on the shapes the program's patterns
    have: literal text, the lazy wildcard loop and capture groups. *)

From stdpp Require Import base tactics numbers option list gmap.
From S2P Require Import Prelude JsString.

Local Open Scope N_scope.

(** ** Syntax *)

(** Members of a character class. *)
Inductive class_atom : Type :=
| CChar (c : N)
| CRange (lo hi : N)
| CDigit (neg : bool)
| CSpace (neg : bool)
| CWord (neg : bool)
| CNotLineTerminator.

(** Patterns.  Groups carry their number (from 1, in the order of their
    opening parentheses); [RRepeat min max greedy] is a quantified atom,
    [max = None] standing for no upper bound. *)
Inductive regex : Type :=
| REmpty
| RChar (c : N)
| RDot
| RClass (invert : bool) (atoms : list class_atom)
| RSeq (r1 r2 : regex)
| RAlt (r1 r2 : regex)
| RRepeat (min : nat) (max : option nat) (greedy : bool) (r : regex)
| RGroup (idx : nat) (r : regex)
| RBackref (idx : nat)
| RLookahead (neg : bool) (r : regex)
| RAssertStart
| RAssertEnd
| RWordBoundary (neg : bool).

#[export] Instance class_atom_eq_dec : EqDecision class_atom.
Proof. solve_decision. Defined.

#[export] Instance regex_eq_dec : EqDecision regex.
Proof. solve_decision. Defined.

(** The pattern of a literal text followed by [r]. *)
Definition seq_lit (s : jsstring) (r : regex) : regex := foldr (λ c, RSeq (RChar c)) r s.

Definition lit (s : jsstring) : regex := seq_lit s REmpty.

(** The class [[\s\S]]: any code unit. *)
Definition any_char : regex := RClass false [CSpace false; CSpace true].

(** The numbers of the groups inside a pattern. *)
Fixpoint groups (r : regex) : list nat :=
  match r with
  | RSeq r1 r2 | RAlt r1 r2 => groups r1 ++ groups r2
  | RRepeat _ _ _ r1 | RLookahead _ r1 => groups r1
  | RGroup i r1 => i :: groups r1
  | _ => []
  end.

(** ** Character sets *)

Definition isWordChar (c : N) : bool :=
  isDigit c || ((65 <=? c) && (c <=? 90)) || ((97 <=? c) && (c <=? 122)) || (c =? 95).

Definition isLineTerminator (c : N) : bool :=
  bool_decide (c ∈ [10; 13; 8232; 8233]).

Definition in_atom (a : class_atom) (c : N) : bool :=
  match a with
  | CChar x => c =? x
  | CRange lo hi => (lo <=? c) && (c <=? hi)
  | CDigit neg => xorb neg (isDigit c)
  | CSpace neg => xorb neg (isWhiteSpace c)
  | CWord neg => xorb neg (isWordChar c)
  | CNotLineTerminator => negb (isLineTerminator c)
  end.

Definition in_set (atoms : list class_atom) (c : N) : bool :=
  existsb (λ a, in_atom a c) atoms.

(** Every code unit, for the search of a member with the same folding. *)
Definition all_code_units : list N :=
  snd (Pos.iter (λ '(n, acc), (N.succ n, n :: acc)) (0, []) 65536).
Arguments all_code_units : simpl never.

Section matcher.
Context `{Canonicalize}.

(** CharacterSetMatcher: some member of the set folds to the folding of
    the input's code unit; [invert] negates the test.  A code unit that is
    itself a member is found without the search. *)
Definition set_match (invert : bool) (atoms : list class_atom) (ch : N) : bool :=
  let found :=
    if in_set atoms ch then true
    else existsb (λ a, in_set atoms a && eq_ci a ch) all_code_units in
  xorb invert found.

(** ** Matcher states *)

(** Where the matcher stands: the code unit before the position (none at
    the start of the input), the input from the position on, and the
    captures so far (a group that did not take part is absent). *)
Record mstate : Type := MState {
  m_prev : option N;
  m_rest : jsstring;
  m_caps : gmap nat jsstring
}.

Definition cont : Type := mstate → option mstate.

(** Consume one code unit accepted by [ok]. *)
Definition char_step (ok : N → bool) (x : mstate) (k : cont) : option mstate :=
  match m_rest x with
  | c :: s' => if ok c then k (MState (Some c) s' (m_caps x)) else None
  | [] => None
  end.

(** The text between two positions of the same input. *)
Definition consumed (x y : mstate) : jsstring :=
  take (length (m_rest x) - length (m_rest y))%nat (m_rest x).

Definition set_cap (i : nat) (s : jsstring) (y : mstate) : mstate :=
  MState (m_prev y) (m_rest y) (<[i := s]> (m_caps y)).

Definition reset_caps (gs : list nat) (x : mstate) : mstate :=
  MState (m_prev x) (m_rest x) (foldr delete (m_caps x) gs).

Definition is_word_at (c : option N) : bool :=
  match c with Some c => isWordChar c | None => false end.

(** The state after the text [m] was consumed from [x], [rest] remaining. *)
Definition advance (x : mstate) (m rest : jsstring) : mstate :=
  MState (last m ∪ m_prev x) rest (m_caps x).

(** ** The loop of a quantifier (RepeatMatcher)

    [m] is the matcher of the quantified atom and [gs] the groups inside
    it, which every iteration resets.  The loop runs on fuel: an iteration
    either lowers the remaining minimum or consumes input (an iteration
    that matches the empty text when the minimum is reached is refused),
    so [min + length + 1] steps are enough. *)
Section repeat_loop.
Context (m : mstate → cont → option mstate) (gs : list nat) (greedy : bool) (k : cont).

Fixpoint repeat_loop (fuel min : nat) (max : option nat) (x : mstate) {struct fuel}
  : option mstate :=
  if decide (max = Some 0%nat) then k x else
  match fuel with
  | O => None
  | S fuel' =>
      let d : cont := λ y,
        if decide (min = 0%nat ∧ length (m_rest y) = length (m_rest x)) then None
        else repeat_loop fuel' (pred min) (pred <$> max) y in
      let xr := reset_caps gs x in
      if decide (min = 0%nat) then
        if greedy then
          match m xr d with
          | Some z => Some z
          | None => k x
          end
        else
          match k x with
          | Some z => Some z
          | None => m xr d
          end
      else m xr d
  end.

End repeat_loop.

(** ** The matcher

    [mtch r x k]: match [r] at [x] and go on with [k]; [None] is failure. *)
Fixpoint mtch (r : regex) (x : mstate) (k : cont) {struct r} : option mstate :=
  match r with
  | REmpty => k x
  | RChar c => char_step (eq_ci c) x k
  | RDot => char_step (set_match false [CNotLineTerminator]) x k
  | RClass invert atoms => char_step (set_match invert atoms) x k
  | RSeq r1 r2 => mtch r1 x (λ y, mtch r2 y k)
  | RAlt r1 r2 =>
      match mtch r1 x k with
      | Some z => Some z
      | None => mtch r2 x k
      end
  | RRepeat min max greedy r1 =>
      repeat_loop (mtch r1) (groups r1) greedy k
        (min + length (m_rest x) + 1)%nat min max x
  | RGroup i r1 => mtch r1 x (λ y, k (set_cap i (consumed x y) y))
  | RBackref i =>
      match m_caps x !! i with
      | None => k x
      | Some s =>
          match strip_prefix_ci s (m_rest x) with
          | Some rest => k (advance x (take (length s) (m_rest x)) rest)
          | None => None
          end
      end
  | RLookahead neg r1 =>
      match mtch r1 x Some with
      | Some y => if neg then None else k (MState (m_prev x) (m_rest x) (m_caps y))
      | None => if neg then k x else None
      end
  | RAssertStart => if m_prev x is None then k x else None
  | RAssertEnd => if m_rest x is [] then k x else None
  | RWordBoundary neg =>
      if xorb neg (xorb (is_word_at (m_prev x)) (is_word_at (head (m_rest x))))
      then k x else None
  end.

(** ** Search *)

(** The first position of [s], from the left, at which [k] succeeds. *)
Fixpoint scan {R} (k : mstate → option R) (prev : option N) (s : jsstring)
    (caps : gmap nat jsstring) : option R :=
  match k (MState prev s caps) with
  | Some z => Some z
  | None =>
      match s with
      | [] => None
      | c :: s' => scan k (Some c) s' caps
      end
  end.

(** The result of a successful search: where the match starts, the matched
    text and the captures. *)
Record match_result : Type := MatchResult {
  mr_index : nat;
  mr_matched : jsstring;
  mr_captures : gmap nat jsstring
}.

(** One attempt of RegExpBuiltinExec at the position [x] of [content]. *)
Definition exec_at (r : regex) (content : jsstring) (x : mstate) : option match_result :=
  y ← mtch r x Some;
  Some (MatchResult (length content - length (m_rest x))%nat (consumed x y) (m_caps y)).

(** [content.match(r)] for [r] without the flags [g] and [y]
    (RegExpBuiltinExec from [lastIndex = 0]): the match at the first
    position where the pattern matches, or [null]. *)
Definition String_match (content : jsstring) (r : regex) : option match_result :=
  scan (exec_at r content) None content ∅.

(** [m[i]] of a match: the text of group [i] or [undefined]. *)
Definition capture (m : match_result) (i : nat) : option jsstring :=
  match i with
  | O => Some (mr_matched m)
  | _ => mr_captures m !! i
  end.

(** A matcher goes forward: it calls its continuation only at positions
    of the input from its own on, so that its result depends on the
    continuation at these positions only. *)
Definition forward (m : mstate → cont → option mstate) : Prop :=
  ∀ x k k', (∀ y, (length (m_rest y) ≤ length (m_rest x))%nat → k y = k' y) →
            m x k = m x k'.

End matcher.

(** ** Lemmas on the matcher *)

Section matcher_lemmas.
Context `{Canonicalize}.
Implicit Types (x y : mstate) (k : cont) (s p : jsstring).

Lemma mstate_eta x : MState (m_prev x) (m_rest x) (m_caps x) = x.
Proof. by destruct x. Qed.

Lemma reset_caps_nil x : reset_caps [] x = x.
Proof. by destruct x. Qed.

Lemma advance_nil x : advance x [] (m_rest x) = x.
Proof. by destruct x as [[]]. Qed.

Lemma advance_cons c x m rest :
  advance (MState (Some c) (m_rest x) (m_caps x)) m rest = advance x (c :: m) rest.
Proof. unfold advance. simpl. f_equal. symmetry. apply last_cons_union. Qed.

Lemma mtch_seq r1 r2 x k : mtch (RSeq r1 r2) x k = mtch r1 x (λ y, mtch r2 y k).
Proof. done. Qed.

Lemma mtch_group i r x k :
  mtch (RGroup i r) x k = mtch r x (λ y, k (set_cap i (consumed x y) y)).
Proof. done. Qed.

Lemma mtch_empty x k : mtch REmpty x k = k x.
Proof. done. Qed.

(** The text consumed up to a later position of the same input. *)
Lemma consumed_drop x n prev caps :
  (n ≤ length (m_rest x))%nat →
  consumed x (MState prev (drop n (m_rest x)) caps) = take n (m_rest x).
Proof. intros Hn. unfold consumed. simpl. rewrite length_drop. f_equal. lia. Qed.

(** Literal text: the matcher strips it, up to case, and goes on. *)
Lemma mtch_seq_lit p r x k :
  mtch (seq_lit p r) x k =
  match strip_prefix_ci p (m_rest x) with
  | Some rest => mtch r (advance x (take (length p) (m_rest x)) rest) k
  | None => None
  end.
Proof.
  revert x. induction p as [|a p IH]; intros x; simpl.
  - by rewrite advance_nil.
  - unfold char_step. destruct x as [prev [|c s] caps]; simpl; [done|].
    destruct (eq_ci a c); [|done]. rewrite IH. simpl.
    destruct (strip_prefix_ci p s); [|done].
    f_equal. apply (advance_cons c (MState prev s caps)).
Qed.

Lemma mtch_lit p x k :
  mtch (lit p) x k =
  match strip_prefix_ci p (m_rest x) with
  | Some rest => k (advance x (take (length p) (m_rest x)) rest)
  | None => None
  end.
Proof. unfold lit. rewrite mtch_seq_lit. by destruct (strip_prefix_ci _ _). Qed.

(** The class [[\s\S]] accepts every code unit, whatever the folding. *)
Lemma set_match_any c : set_match false [CSpace false; CSpace true] c = true.
Proof.
  unfold set_match.
  assert (in_set [CSpace false; CSpace true] c = true) as ->; [|reflexivity].
  unfold in_set. cbn [existsb in_atom]. by destruct (isWhiteSpace c).
Qed.

Lemma mtch_any_char x k :
  mtch any_char x k =
  match m_rest x with
  | c :: s' => k (MState (Some c) s' (m_caps x))
  | [] => None
  end.
Proof.
  unfold any_char. simpl. unfold char_step.
  destruct (m_rest x); [done|]. by rewrite set_match_any.
Qed.

(** The lazy wildcard loop tries the continuation at every position from
    the current one on; the fuel of the matcher is enough for it. *)
Lemma repeat_fuel_enough fuel x k :
  (length (m_rest x) < fuel)%nat →
  repeat_loop (mtch any_char) [] false k fuel 0 None x
  = scan k (m_prev x) (m_rest x) (m_caps x).
Proof.
  revert x. induction fuel as [|fuel IH]; intros x Hf; [lia|].
  cbn [repeat_loop]. rewrite decide_False by done. rewrite decide_True by done.
  rewrite reset_caps_nil, mtch_any_char.
  destruct x as [prev [|c s] caps]; simpl; destruct (k _); try done.
  rewrite decide_False by (simpl; lia). apply IH. simpl in *; lia.
Qed.

Lemma mtch_lazy_any x k :
  mtch (RRepeat 0 None false any_char) x k
  = scan k (m_prev x) (m_rest x) (m_caps x).
Proof. simpl. apply repeat_fuel_enough. lia. Qed.

(** The loop does not depend on fuel beyond what is enough. *)
Lemma repeat_fuel_irrelevant fuel fuel' x k :
  (length (m_rest x) < fuel)%nat → (length (m_rest x) < fuel')%nat →
  repeat_loop (mtch any_char) [] false k fuel 0 None x
  = repeat_loop (mtch any_char) [] false k fuel' 0 None x.
Proof. intros. by rewrite !repeat_fuel_enough. Qed.

(** ** Lemmas on the search *)

Lemma scan_ext {R} (k1 k2 : mstate → option R) prev s caps :
  (∀ x, k1 x = k2 x) → scan k1 prev s caps = scan k2 prev s caps.
Proof.
  intros Hk. revert prev. induction s as [|c s IH]; intros prev; simpl; rewrite Hk.
  - done.
  - by rewrite IH.
Qed.

Lemma scan_None {R} (k : mstate → option R) prev s caps :
  (∀ prev' s', s' `suffix_of` s → k (MState prev' s' caps) = None) →
  scan k prev s caps = None.
Proof.
  revert prev. induction s as [|c s IH]; intros prev Hk; simpl; rewrite Hk by done.
  - done.
  - apply IH. intros prev' s' Hs. apply Hk. by apply suffix_cons_r.
Qed.

Lemma scan_fmap {R S} (f : R → S) (k : mstate → option R) prev s caps :
  f <$> scan k prev s caps = scan (λ x, f <$> k x) prev s caps.
Proof.
  revert prev. induction s as [|c s IH]; intros prev; simpl;
    destruct (k (MState prev _ caps)); simpl; done.
Qed.

Lemma scan_Some_here {R} (k : mstate → option R) prev s caps z :
  k (MState prev s caps) = Some z → scan k prev s caps = Some z.
Proof. intros Hk. destruct s; simpl; by rewrite Hk. Qed.

(** Search for a literal text followed by a continuation [g] whose failure
    at one position entails its failure at every later one: the search
    stops at the first occurrence of the text. *)
Lemma scan_find {R} p (g : mstate → jsstring → option R) prev s caps :
  (∀ x r x' r', r' `suffix_of` r → g x r = None → g x' r' = None) →
  scan (λ x, match strip_prefix_ci p (m_rest x) with
             | Some r => g x r
             | None => None
             end) prev s caps =
  match find_ci p s with
  | Some (pre, rest) => g (MState (last pre ∪ prev) (drop (length pre) s) caps) rest
  | None => None
  end.
Proof.
  intros Hg. revert prev. induction s as [|c s IH]; intros prev.
  - simpl. destruct (strip_prefix_ci p []) as [r|]; simpl; [|done].
    rewrite union_None_l. by destruct (g _ r).
  - cbn [scan find_ci m_rest]. destruct (strip_prefix_ci p (c :: s)) as [r|] eqn:Hp.
    + simpl. rewrite union_None_l. destruct (g _ r) eqn:Hgr; [done|].
      apply scan_None. intros prev' s' Hs'. simpl.
      destruct (strip_prefix_ci p s') as [r'|] eqn:Hp'; [|done].
      apply (Hg _ _ _ _ (strip_prefix_ci_suffix _ _ _ _ _ Hp Hp' (suffix_cons_r _ _ _ Hs')) Hgr).
    + rewrite IH. destruct (find_ci p s) as [[pre rest]|]; simpl; [|done].
      by rewrite last_cons_union.
Qed.

(** ** The budget of a quantifier is enough *)

(** The loop of a forward matcher goes forward. *)
Lemma repeat_loop_forward m gs greedy fuel :
  forward m → ∀ min max x k k',
  (∀ y, (length (m_rest y) ≤ length (m_rest x))%nat → k y = k' y) →
  repeat_loop m gs greedy k fuel min max x = repeat_loop m gs greedy k' fuel min max x.
Proof.
  intros Hm. induction fuel as [|fuel IH]; intros min max x k k' Hk; cbn [repeat_loop].
  { case_decide; [by apply Hk|done]. }
  rewrite (Hk x) by done. case_decide; [done|].
  erewrite (Hm (reset_caps gs x)); [done|].
  intros y Hy. cbv beta. case_decide; [done|]. apply IH. intros z Hz. apply Hk.
  simpl in *; lia.
Qed.

(** Two budgets above the minimum and the length of the input give the
    same result: an iteration lowers the minimum or consumes input. *)
Lemma repeat_loop_fuel m gs greedy k :
  forward m → ∀ fuel fuel' min max x,
  (min + length (m_rest x) < fuel)%nat → (min + length (m_rest x) < fuel')%nat →
  repeat_loop m gs greedy k fuel min max x = repeat_loop m gs greedy k fuel' min max x.
Proof.
  intros Hm. induction fuel as [|fuel IH]; intros [|fuel'] min max x Hf Hf'; try lia.
  cbn [repeat_loop]. case_decide; [done|].
  erewrite (Hm (reset_caps gs x)); [done|].
  intros y Hy. cbv beta. case_decide; [done|]. apply IH; simpl in *; lia.
Qed.

Lemma char_step_forward ok : forward (char_step ok).
Proof.
  intros x k k' Hk. unfold char_step. destruct (m_rest x) as [|c s'] eqn:Hx; [done|].
  case_match; [|done]. apply Hk. simpl. lia.
Qed.

(** The matcher of every pattern goes forward. *)
Lemma mtch_forward r : forward (mtch r).
Proof.
  induction r as [|c| |inv atoms|r1 IH1 r2 IH2|r1 IH1 r2 IH2|min max greedy r1 IH|i r1 IH|i
                  |neg r1 IH| | |neg]; intros x k k' Hk;
    pose proof (Hk x (le_n _)) as Hx; cbn [mtch]; rewrite ?Hx; try done;
    try (by apply char_step_forward).
  - apply IH1. intros y Hy. apply IH2. intros z Hz. apply Hk. lia.
  - by rewrite (IH1 x k k' Hk), (IH2 x k k' Hk).
  - by apply repeat_loop_forward.
  - apply IH. intros y Hy. by apply Hk.
  - destruct (m_caps x !! i) as [s|]; [|done].
    destruct (strip_prefix_ci s (m_rest x)) as [rest|] eqn:Hs; [|done].
    apply Hk. simpl. apply strip_prefix_ci_drop in Hs as ->. rewrite length_drop. lia.
  - destruct (mtch r1 x Some), neg; try done; by apply Hk.
Qed.

(** C33. The loop of a quantifier ends within its budget, for every
    pattern, every input and every continuation: a budget above the
    minimum plus the length of the input gives the result of the matcher,
    so that no match is lost to the budget. *)
Theorem repeat_budget_enough r min max greedy x k fuel :
  (min + length (m_rest x) < fuel)%nat →
  repeat_loop (mtch r) (groups r) greedy k fuel min max x
  = mtch (RRepeat min max greedy r) x k.
Proof. intros Hf. cbn [mtch]. apply repeat_loop_fuel; [apply mtch_forward|lia..]. Qed.

End matcher_lemmas.

Section witnesses.
#[local] Instance ascii_folding : Canonicalize := ascii_canonicalize.

(** The pattern [(a|ab)*] on the text [abab]. *)
Lemma repeat_budget_enough_witness :
  let r := RGroup 1 (RAlt (RChar 97) (RSeq (RChar 97) (RChar 98))) in
  let x := MState None [97; 98; 97; 98] ∅ in
  repeat_loop (mtch r) (groups r) true Some 100 0 None x
  = mtch (RRepeat 0 None true r) x Some.
Proof. apply repeat_budget_enough. simpl. lia. Defined.

End witnesses.

#[export] Hint Rewrite @mtch_seq_lit @mtch_lit @mtch_lazy_any @mtch_any_char : docgen_rw.
