(* ===== verification/RegexResults.v ===== *)
(** A reference for the matcher: the list of all matches of a pattern at
    a position, in the order in which backtracking tries them.  The
    matcher in continuation-passing style of [Regex] returns the first
    match of that list on which its continuation succeeds. *)

From stdpp Require Import base tactics numbers strings option list gmap.
From S2P Require Import Prelude JsString Regex.

(** ** First success *)

(** The first result of [k] on the elements of [l], from the left. *)
Definition first_success {A B} (k : A → option B) (l : list A) : option B := head (omap k l).

(** What follows a failure. *)
Definition or_try {B} (a b : option B) : option B :=
  match a with Some z => Some z | None => b end.

Section first_success.
Context {A B : Type}.
Implicit Types (k : A → option B) (l : list A).

Lemma first_success_cons k a l : first_success k (a :: l) = or_try (k a) (first_success k l).
Proof. unfold first_success. cbn [omap list_omap]. by destruct (k a). Qed.

Lemma first_success_app k l1 l2 :
  first_success k (l1 ++ l2) = or_try (first_success k l1) (first_success k l2).
Proof.
  induction l1 as [|a l1 IH]; [done|]. cbn [app]. rewrite !first_success_cons, IH.
  by destruct (k a).
Qed.

Lemma first_success_ext k k' l :
  (∀ a, a ∈ l → k a = k' a) → first_success k l = first_success k' l.
Proof.
  induction l as [|a l IH]; intros Hk; [done|]. rewrite !first_success_cons.
  rewrite (Hk a), IH; [done| |by left]. intros b Hb. apply Hk. by right.
Qed.

Lemma first_success_singleton k a : first_success k [a] = k a.
Proof. rewrite first_success_cons. by destruct (k a). Qed.

End first_success.

Lemma first_success_bind {A B C} (k : A → option B) (f : C → list A) (l : list C) :
  first_success k (l ≫= f) = first_success (λ c, first_success k (f c)) l.
Proof.
  induction l as [|c l IH]; [done|]. cbn [mbind list_bind].
  by rewrite first_success_app, first_success_cons, IH.
Qed.

Lemma first_success_fmap {A B C} (k : A → option B) (f : C → A) (l : list C) :
  first_success k (f <$> l) = first_success (λ c, k (f c)) l.
Proof.
  induction l as [|c l IH]; [done|]. cbn [fmap list_fmap].
  by rewrite !first_success_cons, IH.
Qed.

Lemma first_success_Some {A} (l : list A) : first_success Some l = head l.
Proof. by destruct l. Qed.

(** ** All matches *)

Section results.
Context `{Canonicalize}.

(** One code unit accepted by [ok]. *)
Definition step_results (ok : N → bool) (x : mstate) : list mstate :=
  match m_rest x with
  | c :: s' => if ok c then [MState (Some c) s' (m_caps x)] else []
  | [] => []
  end.

(** The matches of a quantified atom whose matches are [m]: the
    iterations first when the quantifier is greedy, the exit first when
    it is lazy; no iteration that matches the empty text once the minimum
    is reached. *)
Fixpoint loop_results (m : mstate → list mstate) (gs : list nat) (greedy : bool)
    (fuel min : nat) (max : option nat) (x : mstate) {struct fuel} : list mstate :=
  if decide (max = Some 0%nat) then [x] else
  match fuel with
  | O => []
  | S fuel' =>
      let iterations :=
        m (reset_caps gs x) ≫= λ y,
          if decide (min = 0%nat ∧ length (m_rest y) = length (m_rest x)) then []
          else loop_results m gs greedy fuel' (pred min) (pred <$> max) y in
      if decide (min = 0%nat) then
        if greedy then iterations ++ [x] else x :: iterations
      else iterations
  end.

(** The matches of [r] at [x], in the order of priority. *)
Fixpoint results (r : regex) (x : mstate) {struct r} : list mstate :=
  match r with
  | REmpty => [x]
  | RChar c => step_results (eq_ci c) x
  | RDot => step_results (set_match false [CNotLineTerminator]) x
  | RClass invert atoms => step_results (set_match invert atoms) x
  | RSeq r1 r2 => results r1 x ≫= results r2
  | RAlt r1 r2 => results r1 x ++ results r2 x
  | RRepeat min max greedy r1 =>
      loop_results (results r1) (groups r1) greedy
        (min + length (m_rest x) + 1)%nat min max x
  | RGroup i r1 => (λ y, set_cap i (consumed x y) y) <$> results r1 x
  | RBackref i =>
      match m_caps x !! i with
      | None => [x]
      | Some s =>
          match strip_prefix_ci s (m_rest x) with
          | Some rest => [advance x (take (length s) (m_rest x)) rest]
          | None => []
          end
      end
  | RLookahead neg r1 =>
      match head (results r1 x) with
      | Some y => if neg then [] else [MState (m_prev x) (m_rest x) (m_caps y)]
      | None => if neg then [x] else []
      end
  | RAssertStart => if m_prev x is None then [x] else []
  | RAssertEnd => if m_rest x is [] then [x] else []
  | RWordBoundary neg =>
      if xorb neg (xorb (is_word_at (m_prev x)) (is_word_at (head (m_rest x))))
      then [x] else []
  end.

(** The first match of [r] in [content], from the left, as
    [String.prototype.match] reports it. *)
Definition first_match (content : jsstring) (r : regex) : option match_result :=
  scan (λ x, (λ y, MatchResult (length content - length (m_rest x))%nat (consumed x y)
                     (m_caps y)) <$> head (results r x)) None content ∅.

(** ** The matcher returns the first success *)

Implicit Types (x y : mstate) (k : cont).

Lemma char_step_results ok x k : char_step ok x k = first_success k (step_results ok x).
Proof.
  unfold char_step, step_results. destruct (m_rest x) as [|c s]; [done|].
  destruct (ok c); [by rewrite first_success_singleton|done].
Qed.

(** The loop of a quantifier, for an atom whose matcher returns the
    first success. *)
Lemma repeat_loop_results (m : mstate → cont → option mstate) mr gs greedy k fuel min max x :
  (∀ x k, m x k = first_success k (mr x)) →
  repeat_loop m gs greedy k fuel min max x
  = first_success k (loop_results mr gs greedy fuel min max x).
Proof.
  intros Hm. revert min max x.
  induction fuel as [|fuel IH]; intros min max x; cbn [repeat_loop loop_results];
    (case_decide; [by rewrite first_success_singleton|]); [done|].
  rewrite Hm.
  rewrite (first_success_ext _ (λ y, first_success k
             (if decide (min = 0%nat ∧ length (m_rest y) = length (m_rest x)) then []
              else loop_results mr gs greedy fuel (pred min) (pred <$> max) y)))
    by (intros y _; by case_decide).
  rewrite <-first_success_bind.
  case_decide; [destruct greedy|];
    by rewrite ?first_success_app, ?first_success_singleton, ?first_success_cons.
Qed.

(** C15. The matcher against its reference: for every pattern, position
    and continuation, the backtracking matcher returns what the
    continuation returns on the first match of the pattern, in the order
    of priority (alternatives from the left, greedy quantifiers longest
    first, lazy ones shortest first), on which it succeeds. *)
Theorem mtch_results r x k : mtch r x k = first_success k (results r x).
Proof.
  revert x k.
  induction r as [| | | |r1 IH1 r2 IH2|r1 IH1 r2 IH2|min max greedy r1 IH|i r1 IH| |neg r1 IH| | |];
    intros x k; cbn [mtch results]; rewrite ?char_step_results; try done.
  - by rewrite first_success_singleton.
  - rewrite IH1, first_success_bind. by apply first_success_ext.
  - by rewrite IH1, IH2, first_success_app.
  - by apply repeat_loop_results.
  - by rewrite IH, first_success_fmap.
  - repeat case_match; by rewrite ?first_success_singleton.
  - rewrite IH, first_success_Some.
    repeat case_match; by rewrite ?first_success_singleton.
  - case_match; by rewrite ?first_success_singleton.
  - case_match; by rewrite ?first_success_singleton.
  - case_match; by rewrite ?first_success_singleton.
Qed.

(** [String.prototype.match] reports the first match at the first
    position that has one. *)
Corollary String_match_first content r : String_match content r = first_match content r.
Proof.
  unfold String_match, first_match. apply scan_ext. intros x. unfold exec_at.
  by rewrite mtch_results, first_success_Some.
Qed.

End results.

(** ** Examples *)

Section examples.
#[local] Instance ascii_folding : Canonicalize := ascii_canonicalize.

(** The texts that the matches of a pattern consume, in order. *)
Definition matched_texts (r : regex) (s : jsstring) : list jsstring :=
  consumed (MState None s ∅) <$> results r (MState None s ∅).

(** [(a|ab)*] on [abab], greedy: the longest chains of alternatives
    first, the empty match last. *)
Example results_greedy :
  matched_texts (RRepeat 0 None true (RAlt (RChar 97) (RSeq (RChar 97) (RChar 98)))) (js "abab")
  = [js "a"; js "aba"; js "abab"; js "ab"; js ""].
Proof. by_compute. Qed.

(** The same pattern, lazy: the empty match first. *)
Example results_lazy :
  matched_texts (RRepeat 0 None false (RAlt (RChar 97) (RSeq (RChar 97) (RChar 98)))) (js "abab")
  = [js ""; js "a"; js "ab"; js "aba"; js "abab"].
Proof. by_compute. Qed.

(** The matcher with a continuation that wants the end of the input
    returns the first match that reaches it. *)
Example mtch_first_success :
  consumed (MState None (js "abab") ∅)
    <$> mtch (RRepeat 0 None false (RAlt (RChar 97) (RSeq (RChar 97) (RChar 98))))
          (MState None (js "abab") ∅) (λ y, if m_rest y is [] then Some y else None)
  = Some (js "abab").
Proof. by_compute. Qed.

End examples.
