(* ===== verification/RegexSyntax.v ===== *)
(** The constructor [new RegExp(source, 'i')]: the parser of pattern
    source text (ECMAScript's pattern grammar with the web-compatibility
    extensions of Annex B, without the flag [u]) into the syntax of
    [Regex].  Source text the parser does not cover (back references and
    legacy octal escapes, [\c], look-behind, named groups) is reported as
    [Unsupported], never guessed. *)

From Stdlib Require Import Ascii.
From stdpp Require Import base tactics numbers strings option list sets.
From S2P Require Import Prelude JsString Regex.

Local Open Scope N_scope.

(** ** Characters of the grammar *)

(** Characters that are not pattern characters at the start of a term. *)
Definition syntax_chars : list N :=
  ch <$> ["^"; "$"; "\"; "."; "*"; "+"; "?"; "("; ")"; "["; "{"; "|"]%char.

(** A character that stands for itself wherever it occurs in a pattern. *)
Definition plain_char (c : N) : bool := bool_decide (c ∉ syntax_chars).

(** ** Quantifiers *)

(** The longest prefix of decimal digits, as a number, and the rest. *)
Fixpoint parse_digits (acc : nat) (s : jsstring) : nat * jsstring :=
  match s with
  | c :: s' =>
      if isDigit c then parse_digits (10 * acc + N.to_nat (c - 48))%nat s'
      else (acc, s)
  | [] => (acc, [])
  end.

(** After [{]: [n}], [n,}] or [n,m}]. *)
Definition parse_braces (s : jsstring) : option (nat * option nat * jsstring) :=
  match s with
  | c :: _ =>
      if isDigit c then
        let '(n, s1) := parse_digits 0 s in
        match s1 with
        | d :: s2 =>
            if is_ch "}" d then Some (n, Some n, s2)
            else if is_ch "," d then
              match s2 with
              | e :: s3 =>
                  if is_ch "}" e then Some (n, None, s3)
                  else if isDigit e then
                    let '(m, s4) := parse_digits 0 s2 in
                    match s4 with
                    | f :: s5 => if is_ch "}" f then Some (n, Some m, s5) else None
                    | [] => None
                    end
                  else None
              | [] => None
              end
            else None
        | [] => None
        end
      else None
  | [] => None
  end.

(** A quantifier prefix: bounds and the rest, or none. *)
Definition parse_quantifier_prefix (s : jsstring)
  : pres (option (nat * option nat) * jsstring) :=
  match s with
  | c :: s' =>
      if is_ch "*" c then POk (Some (0%nat, None), s')
      else if is_ch "+" c then POk (Some (1%nat, None), s')
      else if is_ch "?" c then POk (Some (0%nat, Some 1%nat), s')
      else if is_ch "{" c then
        match parse_braces s' with
        | Some (n, None, s'') => POk (Some (n, None), s'')
        | Some (n, Some m, s'') =>
            if decide (m < n)%nat then PSyntaxError else POk (Some (n, Some m), s'')
        | None => POk (None, s)
        end
      else POk (None, s)
  | [] => POk (None, [])
  end.

(** The quantifier that follows an atom, applied to it: a following [?]
    makes it lazy. *)
Definition apply_quantifier (atom : regex) (s : jsstring) : pres (regex * jsstring) :=
  '(q, s1) ← parse_quantifier_prefix s;
  match q with
  | None => POk (atom, s1)
  | Some (n, m) =>
      match s1 with
      | c :: s2 =>
          if is_ch "?" c then POk (RRepeat n m false atom, s2)
          else POk (RRepeat n m true atom, s1)
      | [] => POk (RRepeat n m true atom, [])
      end
  end.

(** ** Escapes *)

(** What a backslash sequence denotes. *)
Inductive escape : Type :=
| EChar (c : N)
| EClass (a : class_atom)
| EWordBoundary (neg : bool).

(** [\xHH] and [\uHHHH]; an incomplete sequence is the letter itself. *)
Definition parse_hex (letter : N) (ndigits : nat) (s : jsstring) : escape * jsstring :=
  let ds := take ndigits s in
  match mapM hex_value ds with
  | Some vs =>
      if decide (length vs = ndigits)
      then (EChar (foldl (λ acc v, 16 * acc + v) 0 vs), drop ndigits s)
      else (EChar letter, s)
  | None => (EChar letter, s)
  end.

(** After a backslash, outside ([in_class = false]) or inside a class. *)
Definition parse_escape (in_class : bool) (s : jsstring) : pres (escape * jsstring) :=
  match s with
  | [] => PSyntaxError
  | c :: s' =>
      if is_ch "d" c then POk (EClass (CDigit false), s')
      else if is_ch "D" c then POk (EClass (CDigit true), s')
      else if is_ch "s" c then POk (EClass (CSpace false), s')
      else if is_ch "S" c then POk (EClass (CSpace true), s')
      else if is_ch "w" c then POk (EClass (CWord false), s')
      else if is_ch "W" c then POk (EClass (CWord true), s')
      else if is_ch "b" c then POk (if in_class then EChar 8 else EWordBoundary false, s')
      else if is_ch "B" c then POk (if in_class then EChar c else EWordBoundary true, s')
      else if is_ch "f" c then POk (EChar 12, s')
      else if is_ch "n" c then POk (EChar 10, s')
      else if is_ch "r" c then POk (EChar 13, s')
      else if is_ch "t" c then POk (EChar 9, s')
      else if is_ch "v" c then POk (EChar 11, s')
      else if is_ch "x" c then POk (parse_hex c 2 s')
      else if is_ch "u" c then POk (parse_hex c 4 s')
      else if is_ch "c" c then PUnsupported
      else if is_ch "0" c then
        match s' with
        | d :: _ => if isDigit d then PUnsupported else POk (EChar 0, s')
        | [] => POk (EChar 0, s')
        end
      else if isDigit c then PUnsupported
      else POk (EChar c, s')
  end.

(** ** Character classes *)

(** One class atom: a character or a class escape. *)
Definition parse_class_atom (c : N) (s : jsstring) : pres (class_atom * jsstring) :=
  if is_ch "\" c then
    '(e, s') ← parse_escape true s;
    match e with
    | EChar x => POk (CChar x, s')
    | EClass a => POk (a, s')
    | EWordBoundary _ => PSyntaxError
    end
  else POk (CChar c, s).

(** The members of a class up to the closing bracket.  [a-b] is a range
    when both ends are characters, and three members otherwise. *)
Fixpoint parse_class_ranges (fuel : nat) (s : jsstring) : pres (list class_atom * jsstring) :=
  match fuel with
  | O => POutOfFuel
  | S fuel' =>
      match s with
      | [] => PSyntaxError
      | c :: s' =>
          if is_ch "]" c then POk ([], s')
          else
            '(a, s1) ← parse_class_atom c s';
            match s1 with
            | d :: e :: s2 =>
                if is_ch "-" d && negb (is_ch "]" e) then
                  '(b, s3) ← parse_class_atom e s2;
                  '(atoms, rest) ← parse_class_ranges fuel' s3;
                  match a, b with
                  | CChar lo, CChar hi =>
                      if hi <? lo then PSyntaxError
                      else POk (CRange lo hi :: atoms, rest)
                  | _, _ => POk (a :: CChar d :: b :: atoms, rest)
                  end
                else
                  '(atoms, rest) ← parse_class_ranges fuel' s1;
                  POk (a :: atoms, rest)
            | _ =>
                '(atoms, rest) ← parse_class_ranges fuel' s1;
                POk (a :: atoms, rest)
            end
      end
  end.

(** After [[]: an optional [^] and the members. *)
Definition parse_class (s : jsstring) : pres (regex * jsstring) :=
  match s with
  | c :: s' =>
      if is_ch "^" c then
        '(atoms, rest) ← parse_class_ranges (S (length s')) s';
        POk (RClass true atoms, rest)
      else
        '(atoms, rest) ← parse_class_ranges (S (length s)) s;
        POk (RClass false atoms, rest)
  | [] => PSyntaxError
  end.

(** ** Terms and disjunctions *)

(** A disjunction in the making: the rest of the current alternative and
    the alternatives after it. *)
Definition join_alt (a : regex) (d : option regex) : regex :=
  match d with
  | Some d' => RAlt a d'
  | None => a
  end.

Section term.
(** The parser of the body of a group: the alternative, the following
    alternatives, the rest (at the closing parenthesis) and the number of
    groups opened so far. *)
Context (body : jsstring → nat → pres (regex * option regex * jsstring * nat)).

(** The body of a group and its closing parenthesis. *)
Definition parse_group_body (s : jsstring) (n : nat) : pres (regex * jsstring * nat) :=
  '(a, d, rest, n') ← body s n;
  match rest with
  | c :: rest' => if is_ch ")" c then POk (join_alt a d, rest', n') else PSyntaxError
  | [] => PSyntaxError
  end.

(** After [(]: a capturing group, [(?:], a look-ahead, or what the parser
    does not cover. *)
Definition parse_group (s : jsstring) (n : nat) : pres (regex * jsstring * nat) :=
  match s with
  | c :: s1 =>
      if is_ch "?" c then
        match s1 with
        | d :: s2 =>
            if is_ch ":" d then parse_group_body s2 n
            else if is_ch "=" d then
              '(r, rest, n') ← parse_group_body s2 n; POk (RLookahead false r, rest, n')
            else if is_ch "!" d then
              '(r, rest, n') ← parse_group_body s2 n; POk (RLookahead true r, rest, n')
            else if is_ch "<" d then PUnsupported
            else PSyntaxError
        | [] => PSyntaxError
        end
      else
        '(r, rest, n') ← parse_group_body s (S n); POk (RGroup (S n) r, rest, n')
  | [] => PSyntaxError
  end.

(** One term that starts with the character [c]: an assertion, or an atom
    with its quantifier. *)
Definition parse_term (c : N) (s : jsstring) (n : nat) : pres (regex * jsstring * nat) :=
  if is_ch "^" c then POk (RAssertStart, s, n)
  else if is_ch "$" c then POk (RAssertEnd, s, n)
  else if is_ch "*" c || is_ch "+" c || is_ch "?" c then PSyntaxError
  else if is_ch "{" c then
    match parse_braces s with
    | Some _ => PSyntaxError
    | None => '(r, rest) ← apply_quantifier (RChar c) s; POk (r, rest, n)
    end
  else if is_ch "." c then '(r, rest) ← apply_quantifier RDot s; POk (r, rest, n)
  else if is_ch "[" c then
    '(cls, s1) ← parse_class s;
    '(r, rest) ← apply_quantifier cls s1; POk (r, rest, n)
  else if is_ch "(" c then
    '(g, s1, n') ← parse_group s n;
    '(r, rest) ← apply_quantifier g s1; POk (r, rest, n')
  else if is_ch "\" c then
    '(e, s1) ← parse_escape false s;
    match e with
    | EWordBoundary neg => POk (RWordBoundary neg, s1, n)
    | EChar x => '(r, rest) ← apply_quantifier (RChar x) s1; POk (r, rest, n)
    | EClass a => '(r, rest) ← apply_quantifier (RClass false [a]) s1; POk (r, rest, n)
    end
  else '(r, rest) ← apply_quantifier (RChar c) s; POk (r, rest, n).

End term.

(** A disjunction up to a closing parenthesis or the end of the source. *)
Fixpoint parse_alts (fuel : nat) (s : jsstring) (n : nat)
  : pres (regex * option regex * jsstring * nat) :=
  match fuel with
  | O => POutOfFuel
  | S fuel' =>
      match s with
      | [] => POk (REmpty, None, [], n)
      | c :: s' =>
          if is_ch ")" c then POk (REmpty, None, s, n)
          else if is_ch "|" c then
            '(a, d, rest, n') ← parse_alts fuel' s' n;
            POk (REmpty, Some (join_alt a d), rest, n')
          else
            '(t, s1, n1) ← parse_term (parse_alts fuel') c s' n;
            '(a, d, rest, n2) ← parse_alts fuel' s1 n1;
            POk (RSeq t a, d, rest, n2)
      end
  end.

(** ** The constructor *)

(** What [new RegExp(source, 'i')] gives: a pattern, a [SyntaxError], or
    source text outside the fragment the parser covers. *)
Inductive compiled : Type :=
| Compiled (r : regex)
| BadSyntax
| Unsupported.

Definition RegExp_new (source : jsstring) : compiled :=
  match parse_alts (S (length source)) source 0 with
  | POk (a, d, [], _) => Compiled (join_alt a d)
  | POk (_, _, _ :: _, _) => BadSyntax
  | PSyntaxError => BadSyntax
  | PUnsupported | POutOfFuel => Unsupported
  end.

(** ** Lemmas: plain text parses to itself *)

(** The source does not start with a quantifier. *)
Definition quant_free (s : jsstring) : Prop :=
  match s with
  | c :: _ => c ∉ (ch <$> ["*"; "+"; "?"; "{"]%char)
  | [] => True
  end.

Lemma plain_char_is_ch c a :
  plain_char c = true → ch a ∈ syntax_chars → is_ch a c = false.
Proof.
  unfold plain_char, is_ch. intros Hc%bool_decide_eq_true Ha.
  apply N.eqb_neq. by intros ->.
Qed.

Lemma plain_char_quant_free c s : plain_char c = true → quant_free (c :: s).
Proof.
  unfold plain_char, quant_free. intros Hc%bool_decide_eq_true Hin. apply Hc.
  apply list_elem_of_fmap in Hin as (a & -> & Ha). apply list_elem_of_fmap.
  exists a. split; [done|]. revert Ha. rewrite !elem_of_cons, !elem_of_nil. tauto.
Qed.

Lemma apply_quantifier_none atom s :
  quant_free s → apply_quantifier atom s = POk (atom, s).
Proof.
  destruct s as [|c s]; [done|]. unfold quant_free. cbn [fmap list_fmap]. intros Hc.
  unfold apply_quantifier, parse_quantifier_prefix, is_ch.
  rewrite !(proj2 (N.eqb_neq c _)) by set_solver. done.
Qed.

(** A plain character not followed by a quantifier is a term by itself. *)
Lemma parse_term_plain body c s n :
  plain_char c = true → quant_free s →
  parse_term body c s n = POk (RChar c, s, n).
Proof.
  intros Hc Hs. unfold parse_term.
  rewrite !(plain_char_is_ch c) by (done || unfold syntax_chars; cbn; set_solver).
  cbn [orb]. by rewrite apply_quantifier_none.
Qed.

Lemma parse_alts_plain fuel c s n :
  plain_char c = true → quant_free s →
  parse_alts (S fuel) (c :: s) n =
  '(a, d, rest, n2) ← parse_alts fuel s n; POk (RSeq (RChar c) a, d, rest, n2).
Proof.
  intros Hc Hs. cbn [parse_alts].
  rewrite !(plain_char_is_ch c) by (done || unfold syntax_chars; cbn; set_solver).
  by rewrite parse_term_plain.
Qed.

(** Plain text in front of a pattern is its literal prefix. *)
Lemma parse_alts_plain_prefix p fuel s n :
  Forall (λ c, plain_char c = true) p → quant_free s →
  parse_alts (length p + fuel) (p ++ s) n =
  '(a, d, rest, n2) ← parse_alts fuel s n; POk (seq_lit p a, d, rest, n2).
Proof.
  intros Hp Hs. induction Hp as [|c p Hc Hp IH]; cbn [length app Nat.add].
  - by destruct (parse_alts fuel s n) as [[[[??]?]?]| | |].
  - rewrite parse_alts_plain; [|done|].
    + rewrite IH. by destruct (parse_alts fuel s n) as [[[[??]?]?]| | |].
    + destruct Hp as [|d p Hd _]; [done | by apply plain_char_quant_free].
Qed.

(** ** The budget of the parser is enough

    Every parser leaves no more text than it was given, and the parsers
    with a budget consume a code unit in every step. *)

Lemma parse_digits_length acc s : (length (parse_digits acc s).2 ≤ length s)%nat.
Proof.
  revert acc. induction s as [|c s IH]; intros acc; simpl; [done|].
  case_match; [|simpl; lia]. etrans; [apply IH|lia].
Qed.

Ltac digits_bound :=
  match goal with
  | H : parse_digits ?a ?s = _ |- _ =>
      let Hl := fresh in
      pose proof (parse_digits_length a s) as Hl; rewrite H in Hl; simpl in Hl; clear H
  end.

Lemma parse_braces_length s r : parse_braces s = Some r → (length r.2 ≤ length s)%nat.
Proof.
  unfold parse_braces. intros Hr.
  repeat (case_match; simplify_eq); repeat digits_bound; simpl in *; lia.
Qed.

Ltac braces_bound :=
  match goal with
  | H : parse_braces _ = Some _ |- _ => apply parse_braces_length in H; simpl in H
  end.

Lemma within_quantifier_prefix s : within snd s (parse_quantifier_prefix s).
Proof. unfold parse_quantifier_prefix. repeat first [braces_bound | within_step fail]. Qed.

Lemma within_apply_quantifier atom s : within snd s (apply_quantifier atom s).
Proof.
  unfold apply_quantifier. repeat within_step ltac:(apply within_quantifier_prefix).
Qed.

Lemma parse_hex_length letter n s : (length (parse_hex letter n s).2 ≤ length s)%nat.
Proof. unfold parse_hex. repeat case_match; simpl; rewrite ?length_drop; lia. Qed.

Lemma within_escape in_class s : within snd s (parse_escape in_class s).
Proof.
  unfold parse_escape. destruct s as [|c s]; [done|].
  pose proof (parse_hex_length c 2 s). pose proof (parse_hex_length c 4 s).
  repeat within_step fail.
Qed.

Lemma within_class_atom c s : within snd s (parse_class_atom c s).
Proof. unfold parse_class_atom. repeat within_step ltac:(apply within_escape). Qed.

Lemma within_class_ranges fuel s :
  (length s < fuel)%nat → within snd s (parse_class_ranges fuel s).
Proof.
  revert s. induction fuel as [|fuel IH]; intros s Hf; [lia|]. cbn [parse_class_ranges].
  repeat within_step ltac:(first [apply within_class_atom | apply IH; simpl in *; lia]).
Qed.

Lemma within_class s : within snd s (parse_class s).
Proof.
  unfold parse_class. repeat within_step ltac:(apply within_class_ranges; simpl; lia).
Qed.

(** Groups and terms, for a parser [body] of disjunctions that is within
    its budget on the texts no longer than [s0]. *)
Section term_bounds.
Context (body : jsstring → nat → pres (regex * option regex * jsstring * nat)).
Context (s0 : jsstring).
Hypothesis body_within :
  ∀ s n, (length s ≤ length s0)%nat → within (λ a, a.1.2) s (body s n).

Lemma within_group_body s n :
  (length s ≤ length s0)%nat → within (λ a, a.1.2) s (parse_group_body body s n).
Proof.
  intros Hs. unfold parse_group_body. repeat within_step ltac:(by apply body_within).
Qed.

Lemma within_group s n :
  (length s ≤ length s0)%nat → within (λ a, a.1.2) s (parse_group body s n).
Proof.
  intros Hs. unfold parse_group.
  repeat within_step ltac:(apply within_group_body; simpl in *; lia).
Qed.

Lemma within_term c s n :
  (length s ≤ length s0)%nat → within (λ a, a.1.2) s (parse_term body c s n).
Proof.
  intros Hs. unfold parse_term.
  repeat within_step ltac:(first [apply within_apply_quantifier | apply within_class
                                 | apply within_escape | by apply within_group]).
Qed.

End term_bounds.

(** With a step for every code unit and one more, the parser of
    disjunctions does not run out of fuel. *)
Lemma within_alts fuel s n :
  (length s < fuel)%nat → within (λ a, a.1.2) s (parse_alts fuel s n).
Proof.
  revert s n. induction fuel as [|fuel IH]; intros s n Hf; [lia|]. cbn [parse_alts].
  destruct s as [|c s]; [simpl; lia|].
  repeat within_step ltac:(first
    [ apply IH; simpl in *; lia
    | apply (within_term _ s); [intros; apply IH; simpl in *; lia|done] ]).
Qed.

(** The parser of patterns ends within its budget: it never runs out
    of fuel, so that [RegExp_new] answers [Unsupported] only for source
    text with a construct outside the fragment, whatever its length and
    nesting. *)
Theorem RegExp_new_budget source :
  parse_alts (S (length source)) source 0 ≠ POutOfFuel ∧
  (RegExp_new source = Unsupported
   ↔ parse_alts (S (length source)) source 0 = PUnsupported).
Proof.
  unfold RegExp_new.
  pose proof (within_alts (S (length source)) source 0 (Nat.lt_succ_diag_r _)) as Hw.
  by destruct (parse_alts _ _ _) as [[[[a d] [|c rest]] n]| | |].
Qed.
