(* ===== verification/JsValue.v ===== *)
(** The values the program handles besides strings: the results of
    [JSON.parse], [undefined], JavaScript exceptions, and the operations
    the program applies to them (property access, truthiness, [forEach],
    [length]). *)

From stdpp Require Import base tactics numbers strings option list.
From S2P Require Import Prelude JsString.

(** ** Exceptions *)

(** The exceptions that can arise in the program.  The message of an
    exception raised by the engine or by a library is not determined by
    the program and is not modelled. *)
Inductive js_error : Type :=
| SyntaxError
| TypeError
| SystemError (code : string)
| EncoderError.

#[export] Instance js_error_eq_dec : EqDecision js_error.
Proof. solve_decision. Defined.

(** Computations that may throw. *)
Abbreviation result := (outcome js_error).

(** ** JSON values *)

(** A number is kept as the decimal numeral it was written as:
    [(-1)^neg * mant * 10^exp10].  The value JavaScript computes with is
    the nearest double; the only operation the program applies to it,
    truthiness, is decided from the numeral ([number_is_zero]). *)
Inductive json : Type :=
| JNull
| JBool (b : bool)
| JNumber (neg : bool) (mant : N) (exp10 : Z)
| JString (s : jsstring)
| JArray (items : list json)
| JObject (props : list (jsstring * json)).

(** A value or [undefined]. *)
Abbreviation jsval := (option json).

(** Induction with hypotheses for the members of arrays and objects. *)
Section json_ind.
Context (P : json → Prop).
Context (Hnull : P JNull) (Hbool : ∀ b, P (JBool b))
  (Hnum : ∀ neg mant e, P (JNumber neg mant e))
  (Hstr : ∀ s, P (JString s))
  (Harr : ∀ items, Forall P items → P (JArray items))
  (Hobj : ∀ props, Forall (λ kv, P kv.2) props → P (JObject props)).

Fixpoint json_ind' (v : json) : P v :=
  match v with
  | JNull => Hnull
  | JBool b => Hbool b
  | JNumber neg mant e => Hnum neg mant e
  | JString s => Hstr s
  | JArray items =>
      Harr items
        ((fix go (l : list json) : Forall P l :=
            match l with
            | [] => Forall_nil_2 P
            | x :: l' => Forall_cons_2 P x l' (json_ind' x) (go l')
            end) items)
  | JObject props =>
      Hobj props
        ((fix go (l : list (jsstring * json)) : Forall (λ kv, P kv.2) l :=
            match l with
            | [] => Forall_nil_2 _
            | kv :: l' => Forall_cons_2 _ kv l' (json_ind' kv.2) (go l')
            end) props)
  end.

End json_ind.

(** Decidable equality, by a boolean test. *)
Fixpoint json_eqb (a b : json) : bool :=
  match a, b with
  | JNull, JNull => true
  | JBool x, JBool y => bool_decide (x = y)
  | JNumber n1 m1 e1, JNumber n2 m2 e2 =>
      bool_decide (n1 = n2) && bool_decide (m1 = m2) && bool_decide (e1 = e2)
  | JString s, JString t => bool_decide (s = t)
  | JArray l1, JArray l2 =>
      (fix go (l1 l2 : list json) : bool :=
         match l1, l2 with
         | [], [] => true
         | x :: l1', y :: l2' => json_eqb x y && go l1' l2'
         | _, _ => false
         end) l1 l2
  | JObject p1, JObject p2 =>
      (fix go (p1 p2 : list (jsstring * json)) : bool :=
         match p1, p2 with
         | [], [] => true
         | (k1, x) :: p1', (k2, y) :: p2' =>
             bool_decide (k1 = k2) && json_eqb x y && go p1' p2'
         | _, _ => false
         end) p1 p2
  | _, _ => false
  end.

Lemma json_eqb_eq a b : json_eqb a b = true ↔ a = b.
Proof.
  revert b.
  induction a as [|x|n1 m1 e1|s|l1 IH|p1 IH] using json_ind';
    intros [|y|n2 m2 e2|t|l2|p2];
    simpl; try (split; [done|discriminate]); try done.
  - rewrite bool_decide_eq_true. naive_solver.
  - rewrite !andb_true_iff, !bool_decide_eq_true. naive_solver.
  - rewrite bool_decide_eq_true. naive_solver.
  - revert l2. induction IH as [|x l1 Hx _ IHl]; intros [|y l2];
      try (split; [done|discriminate]); [done|].
    rewrite andb_true_iff, Hx, IHl. naive_solver.
  - revert p2. induction IH as [|[k1 x] p1 Hx _ IHl]; intros [|[k2 y] p2];
      try (split; [done|discriminate]); [done|].
    rewrite !andb_true_iff, bool_decide_eq_true, Hx, IHl. naive_solver.
Qed.

#[export] Instance json_eq_dec : EqDecision json.
Proof.
  intros a b. refine (cast_if (decide (json_eqb a b = true))); by rewrite <-json_eqb_eq.
Defined.

(** ** Operations *)

(** The double nearest to [mant * 10^exp10] is zero: the numeral is zero,
    or at most [2^-1075], half the least positive double. *)
Definition number_is_zero (mant : N) (exp10 : Z) : bool :=
  if decide (mant = 0%N) then true
  else if decide (0 ≤ exp10)%Z then false
  else bool_decide (Z.of_N mant * 2 ^ 1075 ≤ 10 ^ (- exp10))%Z.

(** ToBoolean. *)
Definition truthy (v : jsval) : bool :=
  match v with
  | None => false
  | Some JNull => false
  | Some (JBool b) => b
  | Some (JNumber _ mant e) => negb (number_is_zero mant e)
  | Some (JString s) => negb (bool_decide (s = []))
  | Some (JArray _) | Some (JObject _) => true
  end.

(** [a || b]. *)
Definition js_or (a b : jsval) : jsval := if truthy a then a else b.

(** The own property [key] of an object built by [JSON.parse]: the last
    member with that name. *)
Definition own_property (props : list (jsstring * json)) (key : jsstring) : jsval :=
  (λ r, r.2.2) <$> list_find (λ kv, kv.1 = key) (reverse props).

(** [v.key] for a key that no prototype defines ([items], [function],
    [points]): a [TypeError] on [null] and [undefined], the own property of
    an object, [undefined] on every other value. *)
Definition get_property (v : jsval) (key : jsstring) : result jsval :=
  match v with
  | None | Some JNull => Throw TypeError
  | Some (JObject props) => Ret (own_property props key)
  | Some _ => Ret None
  end.

(** The property [key] of a value other than [null]. *)
Definition property_of (v : json) (key : jsstring) : jsval :=
  match v with
  | JObject props => own_property props key
  | _ => None
  end.

(** [v.trim()] where [v] is a string or [undefined]. *)
Definition call_trim (v : option jsstring) : result jsstring :=
  match v with
  | Some s => Ret (trim s)
  | None => Throw TypeError
  end.

(** ** Lemmas *)

Lemma get_property_returns_or_throws v key : returns_or_throws (get_property v key).
Proof. by destruct v as [[]|]. Qed.

(** Reading a property fails on [null] only. *)
Lemma get_property_Ret v key :
  v ≠ JNull → get_property (Some v) key = Ret (property_of v key).
Proof. by destruct v. Qed.

Lemma get_property_Ret_inv v key r :
  get_property (Some v) key = Ret r → v ≠ JNull ∧ r = property_of v key.
Proof. destruct v; simpl; intros; by simplify_eq. Qed.

(** A later member with the same name wins. *)
Lemma own_property_app_last props key v :
  own_property (props ++ [(key, v)]) key = Some v.
Proof. unfold own_property. rewrite reverse_snoc. simpl. by rewrite decide_True. Qed.

Lemma own_property_cons_ne props key k v :
  k ≠ key → own_property ((k, v) :: props) key = own_property props key.
Proof.
  intros Hk. unfold own_property. rewrite reverse_cons.
  destruct (list_find _ (reverse props)) as [[i kv]|] eqn:Hf.
  - by erewrite list_find_app_l.
  - rewrite list_find_app_r by done. simpl. by rewrite decide_False.
Qed.

#[export] Hint Resolve get_property_returns_or_throws : docgen.
