(* ===== verification/Json.v ===== *)
(** [JSON.parse]: the grammar of JSON text (ECMA-404, as ECMAScript's
    [JSON.parse] applies it) as a recursive-descent parser on code units,
    with the theorem that its recursion budget is enough. *)

From Stdlib Require Import Ascii.
From stdpp Require Import base tactics numbers strings option list.
From S2P Require Import Prelude JsString JsValue.

Local Open Scope N_scope.

(** ** Lexical elements *)

(** JSON white space: tab, line feed, carriage return, space. *)
Definition is_json_ws (c : N) : bool := bool_decide (c ∈ [9; 10; 13; 32]).

Fixpoint skip_ws (s : jsstring) : jsstring :=
  match s with
  | c :: s' => if is_json_ws c then skip_ws s' else s
  | [] => []
  end.

(** The character a single-letter escape denotes. *)
Definition escape_char (e : N) : option N :=
  if is_ch "034" e then Some 34
  else if is_ch "\" e then Some 92
  else if is_ch "/" e then Some 47
  else if is_ch "b" e then Some 8
  else if is_ch "f" e then Some 12
  else if is_ch "n" e then Some 10
  else if is_ch "r" e then Some 13
  else if is_ch "t" e then Some 9
  else None.

(** The characters of a string after its opening quote, up to the closing
    quote, and the rest of the text. *)
Fixpoint parse_string_body (s : jsstring) : option (jsstring * jsstring) :=
  match s with
  | [] => None
  | c :: s' =>
      if c =? 34 then Some ([], s')
      else if c =? 92 then
        match s' with
        | e :: s'' =>
            if is_ch "u" e then
              match s'' with
              | h1 :: h2 :: h3 :: h4 :: s3 =>
                  a ← hex_value h1; b ← hex_value h2; c ← hex_value h3; d ← hex_value h4;
                  '(str, rest) ← parse_string_body s3;
                  Some ((((a * 16 + b) * 16 + c) * 16 + d) :: str, rest)
              | _ => None
              end
            else
              x ← escape_char e;
              '(str, rest) ← parse_string_body s'';
              Some (x :: str, rest)
        | [] => None
        end
      else if c <? 32 then None
      else '(str, rest) ← parse_string_body s'; Some (c :: str, rest)
  end.

(** The longest prefix of digits: their number, their value after [acc],
    and the rest. *)
Fixpoint span_digits (acc : N) (s : jsstring) : nat * N * jsstring :=
  match s with
  | c :: s' =>
      if isDigit c then
        let '(n, v, rest) := span_digits (10 * acc + (c - 48)) s' in (S n, v, rest)
      else (O, acc, s)
  | [] => (O, acc, [])
  end.

(** The integer part: [0], or a nonzero digit and digits. *)
Definition parse_int (s : jsstring) : option (N * jsstring) :=
  match s with
  | c :: s' =>
      if is_ch "0" c then Some (0, s')
      else if isDigit c then let '(_, v, rest) := span_digits 0 s in Some (v, rest)
      else None
  | [] => None
  end.

(** The optional fraction, continuing the mantissa: the number of its
    digits, the mantissa and the rest. *)
Definition parse_frac (mant : N) (s : jsstring) : option (nat * N * jsstring) :=
  match s with
  | c :: s' =>
      if is_ch "." c then
        let '(n, v, rest) := span_digits mant s' in
        if decide (n = O) then None else Some (n, v, rest)
      else Some (O, mant, s)
  | [] => Some (O, mant, [])
  end.

(** The optional exponent. *)
Definition parse_exp (s : jsstring) : option (Z * jsstring) :=
  match s with
  | c :: s' =>
      if is_ch "e" c || is_ch "E" c then
        let '(neg, s1) :=
          match s' with
          | d :: s'' =>
              if is_ch "-" d then (true, s'')
              else if is_ch "+" d then (false, s'')
              else (false, s')
          | [] => (false, [])
          end in
        let '(n, v, rest) := span_digits 0 s1 in
        if decide (n = O) then None
        else Some (if neg then (- Z.of_N v)%Z else Z.of_N v, rest)
      else Some (0%Z, s)
  | [] => Some (0%Z, [])
  end.

Definition parse_number (s : jsstring) : option (json * jsstring) :=
  let '(neg, s0) :=
    match s with
    | c :: s' => if is_ch "-" c then (true, s') else (false, s)
    | [] => (false, [])
    end in
  '(i, s1) ← parse_int s0;
  '(nfrac, mant, s2) ← parse_frac i s1;
  '(e, s3) ← parse_exp s2;
  Some (JNumber neg mant (e - Z.of_nat nfrac)%Z, s3).

(** A keyword. *)
Definition parse_literal (word : string) (v : json) (s : jsstring) : pres (json * jsstring) :=
  match strip_exact (js word) s with
  | Some rest => POk (v, rest)
  | None => PSyntaxError
  end.

Definition of_option {A} (o : option A) : pres A :=
  match o with
  | Some a => POk a
  | None => PSyntaxError
  end.

(** ** Values *)

(** [parse_value]: a value after optional white space.
    [parse_elements]: the elements of a non-empty array after its opening
    bracket, up to the closing one.
    [parse_members]: the members of a non-empty object after its opening
    brace, up to the closing one. *)
Fixpoint parse_value (fuel : nat) (s : jsstring) : pres (json * jsstring) :=
  match fuel with
  | O => POutOfFuel
  | S fuel' =>
      match skip_ws s with
      | [] => PSyntaxError
      | c :: s' =>
          if is_ch "{" c then
            match skip_ws s' with
            | d :: s'' =>
                if is_ch "}" d then POk (JObject [], s'')
                else '(ms, rest) ← parse_members fuel' (d :: s''); POk (JObject ms, rest)
            | [] => PSyntaxError
            end
          else if is_ch "[" c then
            match skip_ws s' with
            | d :: s'' =>
                if is_ch "]" d then POk (JArray [], s'')
                else '(vs, rest) ← parse_elements fuel' (d :: s''); POk (JArray vs, rest)
            | [] => PSyntaxError
            end
          else if is_ch "034" c then
            '(str, rest) ← of_option (parse_string_body s'); POk (JString str, rest)
          else if is_ch "t" c then parse_literal "true" (JBool true) (c :: s')
          else if is_ch "f" c then parse_literal "false" (JBool false) (c :: s')
          else if is_ch "n" c then parse_literal "null" JNull (c :: s')
          else of_option (parse_number (c :: s'))
      end
  end
with parse_elements (fuel : nat) (s : jsstring) : pres (list json * jsstring) :=
  match fuel with
  | O => POutOfFuel
  | S fuel' =>
      '(v, s1) ← parse_value fuel' s;
      match skip_ws s1 with
      | c :: s2 =>
          if is_ch "," c then
            '(vs, rest) ← parse_elements fuel' s2; POk (v :: vs, rest)
          else if is_ch "]" c then POk ([v], s2)
          else PSyntaxError
      | [] => PSyntaxError
      end
  end
with parse_members (fuel : nat) (s : jsstring) : pres (list (jsstring * json) * jsstring) :=
  match fuel with
  | O => POutOfFuel
  | S fuel' =>
      match skip_ws s with
      | q :: s0 =>
          if is_ch "034" q then
            '(key, s1) ← of_option (parse_string_body s0);
            match skip_ws s1 with
            | c :: s2 =>
                if is_ch ":" c then
                  '(v, s3) ← parse_value fuel' s2;
                  match skip_ws s3 with
                  | d :: s4 =>
                      if is_ch "," d then
                        '(ms, rest) ← parse_members fuel' s4; POk ((key, v) :: ms, rest)
                      else if is_ch "}" d then POk ([(key, v)], s4)
                      else PSyntaxError
                  | [] => PSyntaxError
                  end
                else PSyntaxError
            | [] => PSyntaxError
            end
          else PSyntaxError
      | [] => PSyntaxError
      end
  end.

(** The recursion budget for a text. *)
Definition json_fuel (text : jsstring) : nat := (2 * length text + 2)%nat.

(** [JSON.parse(text)]: the value of the text, or a [SyntaxError]. *)
Definition JSON_parse (text : jsstring) : result json :=
  match parse_value (json_fuel text) text with
  | POk (v, rest) => if skip_ws rest is [] then Ret v else Throw SyntaxError
  | _ => Throw SyntaxError
  end.

(** ** Lemmas *)

(** [JSON.parse] returns a value or throws a [SyntaxError]. *)
Lemma JSON_parse_cases text :
  (∃ v, JSON_parse text = Ret v) ∨ JSON_parse text = Throw SyntaxError.
Proof. unfold JSON_parse. repeat case_match; eauto. Qed.

Lemma JSON_parse_returns_or_throws text : returns_or_throws (JSON_parse text).
Proof. by destruct (JSON_parse_cases text) as [[v ->]| ->]. Qed.

#[export] Hint Resolve JSON_parse_returns_or_throws : docgen.

(** ** The recursion budget is enough *)

(** No lexical function returns more text than it was given. *)
Lemma skip_ws_length s : (length (skip_ws s) ≤ length s)%nat.
Proof. induction s as [|c s IH]; simpl; [done|]. case_match; simpl; lia. Qed.

Lemma skip_ws_cons s c s' : skip_ws s = c :: s' → (length s' < length s)%nat.
Proof. intros Hs. pose proof (skip_ws_length s) as Hl. rewrite Hs in Hl. simpl in Hl. lia. Qed.

Lemma parse_string_body_length s str rest :
  parse_string_body s = Some (str, rest) → (length rest < length s)%nat.
Proof.
  revert str rest. induction s as [s IH] using (induction_ltof1 _ length); unfold ltof in IH.
  intros str rest. destruct s as [|c s]; simpl; [done|].
  repeat case_match; intros; simplify_option_eq; try (simpl; lia).
  all: repeat match goal with x : (_ * _)%type |- _ => destruct x end; simplify_eq.
  all: match goal with H : parse_string_body _ = Some _ |- _ => apply IH in H; simpl in *; lia end.
Qed.

Lemma span_digits_length acc s : (length (span_digits acc s).2 ≤ length s)%nat.
Proof.
  revert acc. induction s as [|c s IH]; intros acc; simpl; [done|].
  case_match; [|simpl; lia]. specialize (IH (10 * acc + (c - 48))).
  destruct (span_digits _ s) as [[??]?]. simpl in *. lia.
Qed.

Ltac span_bound :=
  repeat match goal with
  | H : span_digits ?a ?s = _ |- _ =>
      let Hl := fresh in
      pose proof (span_digits_length a s) as Hl; rewrite H in Hl; simpl in Hl; clear H
  end.

Lemma parse_int_length s v rest :
  parse_int s = Some (v, rest) → (length rest ≤ length s)%nat.
Proof.
  destruct s; simpl; [done|].
  repeat case_match; intros; simplify_eq; span_bound; simpl in *; lia.
Qed.

Lemma parse_frac_length mant s r rest :
  parse_frac mant s = Some (r, rest) → (length rest ≤ length s)%nat.
Proof.
  destruct s; simpl; [by intros [= _ <-]|].
  repeat case_match; intros; simplify_eq; span_bound; simpl in *; lia.
Qed.

Lemma parse_exp_length s v rest :
  parse_exp s = Some (v, rest) → (length rest ≤ length s)%nat.
Proof.
  destruct s; simpl; [by intros [= _ <-]|].
  repeat case_match; intros; simplify_eq; span_bound; simpl in *; lia.
Qed.

Lemma parse_number_length s v rest :
  parse_number s = Some (v, rest) → (length rest ≤ length s)%nat.
Proof.
  unfold parse_number. intros Hn.
  repeat (case_match; simplify_option_eq); simplify_eq.
  all: repeat match goal with x : (_ * _)%type |- _ => destruct x end; simplify_eq.
  all: repeat match goal with
       | H : parse_int _ = Some _ |- _ => apply parse_int_length in H
       | H : parse_frac _ _ = Some _ |- _ => apply parse_frac_length in H
       | H : parse_exp _ = Some _ |- _ => apply parse_exp_length in H
       end; span_bound; simpl in *; lia.
Qed.

Lemma strip_exact_length p s rest :
  strip_exact p s = Some rest → (length rest ≤ length s)%nat.
Proof. unfold strip_exact. case_decide; intros; simplify_eq. rewrite length_drop. lia. Qed.

Lemma within_of_option {A} (s : jsstring) (m : option (A * jsstring)) :
  (∀ a rest, m = Some (a, rest) → (length rest ≤ length s)%nat) →
  within snd s (of_option m).
Proof. destruct m as [[a rest]|]; simpl; [|done]. intros Hm. by apply (Hm a rest). Qed.

Lemma within_string s : within snd s (of_option (parse_string_body s)).
Proof. apply within_of_option. intros a rest ?%parse_string_body_length. lia. Qed.

Lemma within_number s : within snd s (of_option (parse_number s)).
Proof. apply within_of_option, parse_number_length. Qed.

Lemma within_literal word v s : within snd s (parse_literal word v s).
Proof.
  unfold parse_literal. destruct (strip_exact _ _) eqn:Hs; [|done].
  by apply strip_exact_length in Hs.
Qed.

(** The parsers a parser of values calls: the lexical functions, and the
    parsers of values with less fuel. *)
Ltac json_leaf :=
  first
    [ apply within_string | apply within_number | apply within_literal
    | match goal with
      | H : ∀ s, _ → within _ s (?p _ s) |- within _ _ (?p _ _) => apply H; simpl in *; lia
      end ].

(** What is left after white space is no longer than the text. *)
Ltac ws_bound :=
  match goal with
  | H : skip_ws _ = _ :: _ |- _ => apply skip_ws_cons in H
  end.

(** With two steps for every code unit and two more, no parser of values
    runs out of fuel, and none returns more text than it was given. *)
Lemma parse_fuel_enough fuel s :
  ((2 * length s + 1 ≤ fuel)%nat → within snd s (parse_value fuel s)) ∧
  ((2 * length s + 2 ≤ fuel)%nat → within snd s (parse_elements fuel s)) ∧
  ((2 * length s + 2 ≤ fuel)%nat → within snd s (parse_members fuel s)).
Proof.
  revert s. induction fuel as [|fuel IH]; intros s; [split_and!; lia|].
  pose proof (λ s, proj1 (IH s)) as IHv.
  pose proof (λ s, proj1 (proj2 (IH s))) as IHe.
  pose proof (λ s, proj2 (proj2 (IH s))) as IHm. clear IH.
  split_and!; intros Hf; cbn [parse_value parse_elements parse_members];
    repeat first [ws_bound | within_step json_leaf].
Qed.

(** [JSON.parse] never runs out of its budget. *)
Theorem JSON_parse_fuel text : parse_value (json_fuel text) text ≠ POutOfFuel.
Proof.
  intros Hp. pose proof (proj1 (parse_fuel_enough (json_fuel text) text)) as Hw.
  rewrite Hp in Hw. apply Hw. unfold json_fuel. lia.
Qed.

Lemma bind_fuel_step {A B} (m m' : pres A) (k k' : A → pres B) :
  (m ≠ POutOfFuel → m' = m) →
  (∀ a, k a ≠ POutOfFuel → k' a = k a) →
  m ≫= k ≠ POutOfFuel → m' ≫= k' = m ≫= k.
Proof. destruct m; simpl; intros Hm Hk Hn; try (rewrite Hm by done); simpl; auto; done. Qed.

Lemma parse_fuel_step fuel s :
  (parse_value fuel s ≠ POutOfFuel → parse_value (S fuel) s = parse_value fuel s) ∧
  (parse_elements fuel s ≠ POutOfFuel → parse_elements (S fuel) s = parse_elements fuel s) ∧
  (parse_members fuel s ≠ POutOfFuel → parse_members (S fuel) s = parse_members fuel s).
Proof.
  revert s. induction fuel as [|fuel IH]; intros s; [done|].
  pose proof (λ s, proj1 (IH s)) as IHv.
  pose proof (λ s, proj1 (proj2 (IH s))) as IHe.
  pose proof (λ s, proj2 (proj2 (IH s))) as IHm. clear IH.
  remember (S fuel) as fuel1 eqn:Hfuel.
  split_and!; cbn [parse_value parse_elements parse_members]; subst fuel1;
    cbn [parse_value parse_elements parse_members];
    repeat first
      [ done
      | apply bind_fuel_step; [first [apply IHv | apply IHe | apply IHm | done]|intros [??]]
      | case_match ].
Qed.

(** More fuel does not change a result that was reached. *)
Lemma parse_value_fuel_le fuel fuel' s :
  (fuel ≤ fuel')%nat → parse_value fuel s ≠ POutOfFuel →
  parse_value fuel' s = parse_value fuel s.
Proof.
  induction 1 as [|fuel' _ IH]; [done|]. intros Hn. rewrite <-(IH Hn).
  apply parse_fuel_step. by rewrite IH.
Qed.

(** C12. The parser of [JSON.parse] terminates within its budget: with
    [json_fuel text] steps or more it never runs out of fuel, and its
    result is the same for every such budget, so that a [SyntaxError] of
    [JSON_parse] is one of the grammar. *)
Theorem JSON_parse_fuel_irrelevant text fuel :
  (json_fuel text ≤ fuel)%nat →
  parse_value fuel text ≠ POutOfFuel ∧
  parse_value fuel text = parse_value (json_fuel text) text.
Proof.
  intros Hle. pose proof (JSON_parse_fuel text) as Hn.
  by rewrite (parse_value_fuel_le _ _ _ Hle Hn).
Qed.

(** A value that the parser reaches with some budget is the value of
    [JSON.parse], when only white space follows it. *)
Lemma JSON_parse_reached fuel text v rest :
  parse_value fuel text = POk (v, rest) → skip_ws rest = [] → JSON_parse text = Ret v.
Proof.
  intros Hp Hr. unfold JSON_parse.
  assert (parse_value (json_fuel text) text = POk (v, rest)) as ->; [|by rewrite Hr].
  destruct (decide (fuel ≤ json_fuel text)%nat) as [Hle|Hgt].
  - by rewrite (parse_value_fuel_le _ _ _ Hle) by (by rewrite Hp).
  - by rewrite <-(parse_value_fuel_le (json_fuel text) fuel)
      by (lia || apply JSON_parse_fuel).
Qed.

Lemma JSON_parse_fuel_irrelevant_witness :
  let text := jsq "{'items': [1, true]}" in
  parse_value 100 text ≠ POutOfFuel ∧ parse_value 100 text = parse_value (json_fuel text) text.
Proof. apply JSON_parse_fuel_irrelevant. vm_compute. lia. Defined.
