(* ===== verification/JsonGrammar.v ===== *)
(** The grammar of JSON texts (ECMA-404), as relations between a text and
    the value it denotes, and the theorem that [JSON.parse] accepts
    exactly the texts of the grammar, each with its value. *)

From Stdlib Require Import Ascii.
From stdpp Require Import base tactics numbers strings option list.
From S2P Require Import Prelude JsString JsValue Json.

Local Open Scope N_scope.

(** ** The grammar *)

(** White space of JSON, and sequences of decimal digits with their
    value after [acc]. *)
Definition white (s : jsstring) : Prop := Forall (λ c, is_json_ws c = true) s.

Definition all_digits (ds : jsstring) : Prop := Forall (λ c, isDigit c = true) ds.

Definition digits_value (acc : N) (ds : jsstring) : N :=
  fold_left (λ a c, 10 * a + (c - 48)) ds acc.

(** The characters of a string: the text between the quotes and the code
    units it denotes.  A character is written as it is unless it is a
    quote, a backslash or a control character, or as an escape of one
    letter, or as [\u] and four hexadecimal digits. *)
Inductive chars_text : jsstring → jsstring → Prop :=
| chars_nil : chars_text [] []
| chars_plain c t s :
    32 ≤ c → c ≠ 34 → c ≠ 92 → chars_text t s → chars_text (c :: t) (c :: s)
| chars_escape e x t s :
    escape_char e = Some x → chars_text t s → chars_text (92 :: e :: t) (x :: s)
| chars_unicode h1 h2 h3 h4 a b c d t s :
    hex_value h1 = Some a → hex_value h2 = Some b →
    hex_value h3 = Some c → hex_value h4 = Some d →
    chars_text t s →
    chars_text (92 :: 117 :: h1 :: h2 :: h3 :: h4 :: t)
               ((((a * 16 + b) * 16 + c) * 16 + d) :: s).

(** The integer part of a numeral: a zero, or digits that do not start
    with a zero. *)
Inductive int_text : jsstring → Prop :=
| int_zero : int_text [48]
| int_digits c ds : isDigit c = true → c ≠ 48 → all_digits ds → int_text (c :: ds).

(** The fraction, with its digits: nothing, or a point and digits. *)
Inductive frac_text : jsstring → jsstring → Prop :=
| frac_none : frac_text [] []
| frac_digits ds : all_digits ds → ds ≠ [] → frac_text (46 :: ds) ds.

(** The sign of an exponent. *)
Inductive sign_text : jsstring → bool → Prop :=
| sign_none : sign_text [] false
| sign_plus : sign_text [43] false
| sign_minus : sign_text [45] true.

(** The exponent, with its value: nothing, or [e] or [E], a sign and
    digits. *)
Inductive exp_text : jsstring → Z → Prop :=
| exp_none : exp_text [] 0
| exp_digits m sign (neg : bool) ds :
    m = 101 ∨ m = 69 → sign_text sign neg → all_digits ds → ds ≠ [] →
    exp_text (m :: sign ++ ds)
             (if neg then - Z.of_N (digits_value 0 ds) else Z.of_N (digits_value 0 ds)).

(** A numeral and the number it denotes, [(-1)^neg * mant * 10^e]: the
    mantissa is the value of the digits of the integer part and of the
    fraction, the exponent is lowered by the number of digits of the
    fraction. *)
Definition numeral (t : jsstring) (neg : bool) (mant : N) (e : Z) : Prop :=
  ∃ i f fds x ex,
    t = (if neg then [45] else []) ++ i ++ f ++ x
    ∧ int_text i ∧ frac_text f fds ∧ exp_text x ex
    ∧ mant = digits_value 0 (i ++ fds) ∧ e = (ex - Z.of_nat (length fds))%Z.

(** Texts between white space and separated by commas, one for each
    item of a list; white space only for the empty list. *)
Inductive separated : list (jsstring → Prop) → jsstring → Prop :=
| separated_nil g : white g → separated [] g
| separated_one (p : jsstring → Prop) g1 t g2 :
    white g1 → p t → white g2 → separated [p] (g1 ++ t ++ g2)
| separated_cons (p q : jsstring → Prop) ps g1 t g2 ts :
    white g1 → p t → white g2 → separated (q :: ps) ts →
    separated (p :: q :: ps) (g1 ++ t ++ g2 ++ 44 :: ts).

(** A member of an object: the key as a string, a colon, the value. *)
Definition member_text (k : jsstring) (value : jsstring → Prop) (t : jsstring) : Prop :=
  ∃ tk g1 g2 tv,
    t = 34 :: tk ++ 34 :: g1 ++ 58 :: g2 ++ tv
    ∧ chars_text tk k ∧ white g1 ∧ white g2 ∧ value tv.

(** [value_text v t]: [t] is a text of the value [v], without white space
    around it. *)
Fixpoint value_text (v : json) (t : jsstring) : Prop :=
  match v with
  | JNull => t = js "null"
  | JBool b => t = if b then js "true" else js "false"
  | JNumber neg mant e => numeral t neg mant e
  | JString s => ∃ body, t = 34 :: body ++ [34] ∧ chars_text body s
  | JArray vs =>
      ∃ body, t = 91 :: body ++ [93] ∧ separated ((λ v t, value_text v t) <$> vs) body
  | JObject ms =>
      ∃ body, t = 123 :: body ++ [125]
              ∧ separated ((λ kv, member_text kv.1 (λ t, value_text kv.2 t)) <$> ms) body
  end.

(** A JSON text: a text of a value, between white space. *)
Definition json_text_of (v : json) (text : jsstring) : Prop :=
  ∃ g1 t g2, text = g1 ++ t ++ g2 ∧ white g1 ∧ value_text v t ∧ white g2.

(** A text that is a JSON text of some value. *)
Definition is_json_text (text : jsstring) : Prop := ∃ v, json_text_of v text.

(** The recursion budget that a text of a value needs. *)
Fixpoint json_size (v : json) : nat :=
  match v with
  | JArray items => S (sum_list ((λ x, S (json_size x)) <$> items))
  | JObject props => S (sum_list ((λ kv, S (json_size kv.2)) <$> props))
  | _ => 1
  end.

(** A character that continues no numeral: no digit, no decimal point, no
    exponent mark. *)
Definition ends_numeral (c : N) : bool :=
  negb (isDigit c || is_ch "." c || is_ch "e" c || is_ch "E" c).

(** A text that does not continue a numeral, and one that does not
    continue a sequence of digits. *)
Definition delimited (rest : jsstring) : Prop :=
  match rest with
  | c :: _ => ends_numeral c = true
  | [] => True
  end.

Definition ends_digits (rest : jsstring) : Prop :=
  match rest with
  | c :: _ => isDigit c = false
  | [] => True
  end.

(** A text that continues neither the digits nor the fraction of a
    numeral: it starts with no digit and no decimal point. *)
Definition ends_fraction (rest : jsstring) : Prop :=
  match rest with
  | c :: _ => isDigit c = false ∧ is_ch "." c = false
  | [] => True
  end.

(** [v] is read back from each of its texts, before every text that does
    not continue a numeral. *)
Definition read_back (v : json) : Prop :=
  ∀ t fuel rest, value_text v t → (json_size v ≤ fuel)%nat → delimited rest →
    parse_value fuel (t ++ rest) = POk (v, rest).

Local Notation sizes f l := (sum_list ((λ x, S (json_size (f x))) <$> l)).
Local Notation values vs := ((λ v t, value_text v t) <$> vs).
Local Notation members ms :=
  ((λ kv : jsstring * json, member_text kv.1 (λ t, value_text kv.2 t)) <$> ms).

(** The texts of the values and of the members that the parsers of
    elements and of members have read, up to the closing character. *)
Definition elements_read (vs : list json) (s rest : jsstring) : Prop :=
  vs ≠ [] ∧ ∃ body, s = body ++ 93 :: rest ∧ separated (values vs) body.

Definition members_read (ms : list (jsstring * json)) (s rest : jsstring) : Prop :=
  ms ≠ [] ∧ ∃ body, s = body ++ 125 :: rest ∧ separated (members ms) body.

Definition value_read (v : json) (s rest : jsstring) : Prop :=
  ∃ g t, s = g ++ t ++ rest ∧ white g ∧ value_text v t.

(** ** White space *)

Lemma white_nil : white [].
Proof. constructor. Qed.

Lemma all_digits_nil : all_digits [].
Proof. constructor. Qed.

#[export] Hint Resolve white_nil all_digits_nil : core.

Lemma skip_ws_white g s : white g → skip_ws (g ++ s) = skip_ws s.
Proof. induction 1 as [|c g Hc _ IH]; [done|]. simpl. by rewrite Hc. Qed.

Lemma skip_ws_token c s : is_json_ws c = false → skip_ws (c :: s) = c :: s.
Proof. intros Hc. simpl. by rewrite Hc. Qed.

Lemma skip_ws_gap g c s : white g → is_json_ws c = false → skip_ws (g ++ c :: s) = c :: s.
Proof. intros Hg Hc. by rewrite skip_ws_white, skip_ws_token. Qed.

(** What [skip_ws] skips is white space, and what it leaves starts with
    none. *)
Lemma skip_ws_split s : ∃ g, s = g ++ skip_ws s ∧ white g.
Proof.
  induction s as [|c s (g & Hs & Hg)]; [by exists []|]. simpl.
  destruct (is_json_ws c) eqn:Hc; [|by exists []].
  exists (c :: g). split; [by rewrite Hs at 1|by constructor].
Qed.

Lemma skip_ws_cons_split s c s' :
  skip_ws s = c :: s' → ∃ g, s = g ++ c :: s' ∧ white g ∧ is_json_ws c = false.
Proof.
  intros Hs. destruct (skip_ws_split s) as (g & Heq & Hg). rewrite Hs in Heq.
  exists g. split_and!; [done..|]. clear Heq Hg. revert Hs.
  induction s as [|d s IH]; [done|]. simpl.
  destruct (is_json_ws d) eqn:Hd; [done|]. by intros [= <- <-].
Qed.

Lemma skip_ws_nil s : skip_ws s = [] → white s.
Proof. intros Hs. destruct (skip_ws_split s) as (g & Heq & Hg). by rewrite Heq, Hs, app_nil_r. Qed.

Lemma white_app g1 g2 : white g1 → white g2 → white (g1 ++ g2).
Proof. intros. by apply Forall_app. Qed.

Lemma white_ends_numeral c : is_json_ws c = true → ends_numeral c = true.
Proof.
  unfold is_json_ws. rewrite bool_decide_eq_true, !elem_of_cons, elem_of_nil.
  intros Hc. by destruct_or! Hc; subst c.
Qed.

Lemma delimited_gap g c s : white g → ends_numeral c = true → delimited (g ++ c :: s).
Proof. intros [|d g' Hd _] Hc; [done|]. by apply white_ends_numeral. Qed.

Lemma delimited_white g : white g → delimited g.
Proof. intros [|d g' Hd _]; [done|]. by apply white_ends_numeral. Qed.

#[export] Hint Resolve white_app delimited_gap delimited_white : docgen.

(** ** Strings *)

(** The code units of the characters named in the goal. *)
Ltac ch_values :=
  repeat match goal with
  | |- context [ch ?a] => let v := eval vm_compute in (ch a) in change (ch a) with v
  end.

(** A [\u] escape is the code unit of its four digits. *)
Lemma parse_string_body_u h1 h2 h3 h4 s :
  parse_string_body (92 :: 117 :: h1 :: h2 :: h3 :: h4 :: s)
  = a ← hex_value h1; b ← hex_value h2; c ← hex_value h3; d ← hex_value h4;
    '(str, rest) ← parse_string_body s;
    Some ((((a * 16 + b) * 16 + c) * 16 + d) :: str, rest).
Proof. done. Qed.

(** An escape of one letter. *)
Lemma parse_string_body_escape e s :
  e ≠ 117 →
  parse_string_body (92 :: e :: s)
  = x ← escape_char e; '(str, rest) ← parse_string_body s; Some (x :: str, rest).
Proof.
  intros He. cbn [parse_string_body]. change (92 =? 34) with false.
  change (92 =? 92) with true. cbv iota. unfold is_ch. ch_values. by N_tests.
Qed.

(** A character that stands for itself. *)
Lemma parse_string_body_plain c s :
  32 ≤ c → c ≠ 34 → c ≠ 92 →
  parse_string_body (c :: s) = '(str, rest) ← parse_string_body s; Some (c :: str, rest).
Proof. intros. cbn [parse_string_body]. by N_tests. Qed.

Lemma escape_char_not_u e x : escape_char e = Some x → e ≠ 117.
Proof. by intros He ->. Qed.

(** The characters of a string are read up to the closing quote. *)
Lemma parse_string_body_complete t s rest :
  chars_text t s → parse_string_body (t ++ 34 :: rest) = Some (s, rest).
Proof.
  induction 1 as [|c t s ??? _ IH|e x t s He _ IH|h1 h2 h3 h4 a b c d t s H1 H2 H3 H4 _ IH];
    cbn [app].
  - done.
  - by rewrite parse_string_body_plain, IH.
  - by rewrite parse_string_body_escape, He, IH by by eapply escape_char_not_u.
  - by rewrite parse_string_body_u, H1, H2, H3, H4, IH.
Qed.

(** What [parse_string_body] reads are characters of the grammar, up to
    a closing quote. *)
Lemma parse_string_body_sound s str rest :
  parse_string_body s = Some (str, rest) → ∃ t, s = t ++ 34 :: rest ∧ chars_text t str.
Proof.
  revert str rest. induction s as [s IH] using (induction_ltof1 _ length); unfold ltof in IH.
  intros str rest. destruct s as [|c s]; [done|]. cbn [parse_string_body].
  destruct (c =? 34) eqn:E1; N_bools.
  { intros [= <- <-]. exists []. by split; [subst c|constructor]. }
  destruct (c =? 92) eqn:E2; N_bools.
  - subst c. destruct s as [|e s]; [done|]. destruct (is_ch "u" e) eqn:Eu.
    + unfold is_ch in Eu. N_bools. subst e.
      destruct s as [|h1 [|h2 [|h3 [|h4 s]]]]; try done.
      intros Hp. simplify_option_eq.
      destruct (parse_string_body s) as [[str' rest']|] eqn:Hs; simplify_option_eq.
      destruct (IH s ltac:(simpl; lia) _ _ Hs) as (t & -> & Ht).
      eexists (92 :: 117 :: h1 :: h2 :: h3 :: h4 :: t). split; [done|by constructor].
    + intros Hp. simplify_option_eq.
      destruct (parse_string_body s) as [[str' rest']|] eqn:Hs; simplify_option_eq.
      destruct (IH s ltac:(simpl; lia) _ _ Hs) as (t & -> & Ht).
      exists (92 :: e :: t). split; [done|by constructor].
  - destruct (c <? 32) eqn:E3; [done|]. N_bools. intros Hp.
    destruct (parse_string_body s) as [[str' rest']|] eqn:Hs; simplify_option_eq.
    destruct (IH s ltac:(simpl; lia) _ _ Hs) as (t & -> & Ht).
    exists (c :: t). split; [done|by constructor].
Qed.

(** ** Numerals *)

Lemma digits_value_app acc ds ds' :
  digits_value acc (ds ++ ds') = digits_value (digits_value acc ds) ds'.
Proof. apply fold_left_app. Qed.

Lemma span_digits_app ds acc rest :
  all_digits ds → ends_digits rest →
  span_digits acc (ds ++ rest) = (length ds, digits_value acc ds, rest).
Proof.
  intros Hds Hr. revert acc. induction Hds as [|c ds Hc _ IH]; intros acc.
  - destruct rest as [|c rest]; simpl in *; [done|]. by rewrite Hr.
  - simpl. by rewrite Hc, IH.
Qed.

Lemma span_digits_sound acc s n v rest :
  span_digits acc s = (n, v, rest) →
  ∃ ds, s = ds ++ rest ∧ all_digits ds ∧ n = length ds ∧ v = digits_value acc ds.
Proof.
  revert acc n v. induction s as [|c s IH]; intros acc n v; simpl.
  { intros [= <- <- <-]. by exists []. }
  destruct (isDigit c) eqn:Hc; [|intros [= <- <- <-]; by exists []].
  destruct (span_digits _ s) as [[n' v'] rest'] eqn:Hs. intros [= <- <- <-].
  destruct (IH _ _ _ Hs) as (ds & -> & Hds & -> & ->).
  exists (c :: ds). split_and!; [done|by constructor|done..].
Qed.

Lemma delimited_cases rest :
  delimited rest → ends_digits rest ∧ ends_fraction rest ∧ parse_exp rest = Some (0%Z, rest).
Proof.
  destruct rest as [|c rest]; [done|]. unfold delimited, ends_numeral.
  rewrite negb_true_iff, !orb_false_iff. intros [[[Hd Hp] He] HE].
  cbn [ends_digits ends_fraction parse_exp]. by rewrite He, HE.
Qed.

Lemma ends_fraction_digits rest : ends_fraction rest → ends_digits rest.
Proof. destruct rest; [done|]. by intros [? _]. Qed.

(** The integer part. *)
Lemma parse_int_complete i rest :
  int_text i → ends_digits rest → parse_int (i ++ rest) = Some (digits_value 0 i, rest).
Proof.
  intros [|c ds Hc Hz Hds] Hr; [done|].
  pose proof (span_digits_app (c :: ds) 0 rest ltac:(by constructor) Hr) as Hs.
  cbn [app parse_int] in *. unfold is_ch. ch_values. N_tests. by rewrite Hc, Hs.
Qed.

Lemma parse_int_sound s v rest :
  parse_int s = Some (v, rest) → ∃ i, s = i ++ rest ∧ int_text i ∧ v = digits_value 0 i.
Proof.
  destruct s as [|c s]; [done|]. cbn [parse_int]. destruct (is_ch "0" c) eqn:E0.
  { unfold is_ch in E0. N_bools. intros [= <- <-]. exists [48]. by split_and!; [subst c|constructor|]. }
  destruct (isDigit c) eqn:Hc; [|done]. cbn [span_digits]. rewrite Hc.
  destruct (span_digits _ s) as [[n v'] rest'] eqn:Hs. intros [= <- <-].
  destruct (span_digits_sound _ _ _ _ _ Hs) as (ds & -> & Hds & _ & ->).
  exists (c :: ds). split_and!; [done| |done].
  constructor; [done| |done]. unfold is_ch in E0. by N_bools.
Qed.

(** The fraction. *)
Lemma parse_frac_complete mant f fds rest :
  frac_text f fds → ends_fraction rest →
  parse_frac mant (f ++ rest) = Some (length fds, digits_value mant fds, rest)
  ∧ ends_digits (f ++ rest).
Proof.
  intros [|ds Hds Hne] Hr.
  - split; [|by apply ends_fraction_digits]. destruct rest as [|c rest]; [done|].
    destruct Hr as [_ Hp]. cbn [app parse_frac]. by rewrite Hp.
  - split; [|done]. cbn [app parse_frac]. change (is_ch "." 46) with true. cbv iota.
    rewrite span_digits_app by (done || by apply ends_fraction_digits).
    rewrite decide_False; [done|by destruct ds].
Qed.

Lemma parse_frac_sound mant s n v rest :
  parse_frac mant s = Some (n, v, rest) →
  ∃ f fds, s = f ++ rest ∧ frac_text f fds ∧ n = length fds ∧ v = digits_value mant fds.
Proof.
  assert (Some (0%nat, mant, s) = Some (n, v, rest) →
          ∃ f fds, s = f ++ rest ∧ frac_text f fds ∧ n = length fds
                   ∧ v = digits_value mant fds) as Hnone.
  { intros [= <- <- <-]. exists [], []. by split_and!; [|constructor|..]. }
  destruct s as [|c s]; [done|]. cbn [parse_frac]. destruct (is_ch "." c) eqn:Ep; [|done].
  unfold is_ch in Ep. N_bools. subst c.
  destruct (span_digits mant s) as [[n' v'] rest'] eqn:Hs. case_decide as Hn; [done|].
  intros [= <- <- <-]. destruct (span_digits_sound _ _ _ _ _ Hs) as (ds & -> & Hds & -> & ->).
  exists (46 :: ds), ds. split_and!; [done| |done..]. constructor; [done|by destruct ds].
Qed.

(** The exponent. *)
Lemma isDigit_not_sign c :
  isDigit c = true → is_ch "-" c = false ∧ is_ch "+" c = false.
Proof. unfold isDigit, is_ch. ch_values. intros. N_bools. split; by N_tests. Qed.

Lemma parse_exp_mark m s :
  m = 101 ∨ m = 69 →
  parse_exp (m :: s)
  = let '(neg, s1) :=
      match s with
      | d :: s'' =>
          if is_ch "-" d then (true, s'')
          else if is_ch "+" d then (false, s'')
          else (false, s)
      | [] => (false, [])
      end in
    let '(n, v, rest) := span_digits 0 s1 in
    if decide (n = O) then None
    else Some (if neg then (- Z.of_N v)%Z else Z.of_N v, rest).
Proof. by intros [-> | ->]. Qed.

Lemma parse_exp_complete x ex rest :
  exp_text x ex → delimited rest →
  parse_exp (x ++ rest) = Some (ex, rest) ∧ ends_fraction (x ++ rest).
Proof.
  intros [|m sign neg ds Hm Hsign Hds Hne] Hr.
  { by destruct (delimited_cases rest Hr) as (_ & ? & ?). }
  split; [|by destruct Hm as [-> | ->]].
  destruct (delimited_cases rest Hr) as (Hd & _ & _).
  pose proof (span_digits_app ds 0 rest Hds Hd) as Hs.
  cbn [app]. rewrite parse_exp_mark by done.
  destruct ds as [|d ds]; [done|]. apply Forall_cons in Hds as [Hdig _].
  destruct (isDigit_not_sign d Hdig) as [Hm' Hp'].
  destruct Hsign; cbn [app] in *.
  - by rewrite Hm', Hp', Hs.
  - change (is_ch "-" 43) with false. change (is_ch "+" 43) with true. cbv iota.
    by rewrite Hs.
  - change (is_ch "-" 45) with true. cbv iota. by rewrite Hs.
Qed.

Lemma parse_exp_sound s e rest :
  parse_exp s = Some (e, rest) → ∃ x, s = x ++ rest ∧ exp_text x e.
Proof.
  assert (Some (0%Z, s) = Some (e, rest) → ∃ x, s = x ++ rest ∧ exp_text x e) as Hnone.
  { intros [= <- <-]. exists []. by split; [|constructor]. }
  destruct s as [|m s]; [done|]. cbn [parse_exp].
  destruct (is_ch "e" m || is_ch "E" m) eqn:Em; [|done]. clear Hnone.
  assert (m = 101 ∨ m = 69) as Hm.
  { unfold is_ch in Em. apply orb_prop in Em as [?|?]; N_bools; auto. }
  assert (∀ sign neg s1, s = sign ++ s1 → sign_text sign neg →
            (let '(n, v, rest) := span_digits 0 s1 in
             if decide (n = O) then None
             else Some (if neg then (- Z.of_N v)%Z else Z.of_N v, rest)) = Some (e, rest) →
            ∃ x, m :: s = x ++ rest ∧ exp_text x e) as Hsign.
  { intros sign neg s1 -> Hsign. destruct (span_digits 0 s1) as [[n v] rest'] eqn:Hs.
    case_decide as Hn; [done|]. intros [= <- <-].
    destruct (span_digits_sound _ _ _ _ _ Hs) as (ds & -> & Hds & -> & ->).
    exists (m :: sign ++ ds). split; [cbn [app]; by rewrite <-(assoc_L (++))|].
    constructor; [done..|by destruct ds]. }
  destruct s as [|d s]; [apply (Hsign [] false); [done|constructor]|].
  destruct (is_ch "-" d) eqn:E1; [|destruct (is_ch "+" d) eqn:E2]; unfold is_ch in *; N_bools.
  - subst d. apply (Hsign [45] true); [done|constructor].
  - subst d. apply (Hsign [43] false); [done|constructor].
  - apply (Hsign [] false); [done|constructor].
Qed.

(** The sign of a numeral, as [parse_number] reads it. *)
Lemma int_text_head i : int_text i → ∃ c t, i = c :: t ∧ isDigit c = true.
Proof. intros [|c ds Hc _ _]; by eexists _, _. Qed.

Lemma parse_number_sign (neg : bool) i s :
  int_text i →
  parse_number ((if neg then [45] else []) ++ i ++ s)
  = '(v, s1) ← parse_int (i ++ s);
    '(nfrac, mant, s2) ← parse_frac v s1;
    '(e, s3) ← parse_exp s2;
    Some (JNumber neg mant (e - Z.of_nat nfrac)%Z, s3).
Proof.
  intros (c & t & -> & Hc)%int_text_head. destruct neg; [done|].
  destruct (isDigit_not_sign c Hc) as [Hm _].
  unfold parse_number. cbn [app]. by rewrite Hm.
Qed.

(** A numeral is read as the number it denotes. *)
Lemma parse_number_complete t neg mant e rest :
  numeral t neg mant e → delimited rest →
  parse_number (t ++ rest) = Some (JNumber neg mant e, rest).
Proof.
  intros (i & f & fds & x & ex & -> & Hi & Hf & Hx & -> & ->) Hr.
  destruct (parse_exp_complete x ex rest Hx Hr) as [He Hx'].
  destruct (parse_frac_complete (digits_value 0 i) f fds _ Hf Hx') as [Hfr Hf'].
  rewrite <-!(assoc_L (++)), parse_number_sign, parse_int_complete by done.
  cbn [mbind option_bind]. rewrite Hfr. cbn [mbind option_bind]. rewrite He.
  cbn [mbind option_bind]. by rewrite digits_value_app.
Qed.

(** What [parse_number] reads is a numeral of the number it returns. *)
Lemma parse_number_sound s v rest :
  parse_number s = Some (v, rest) →
  ∃ t neg mant e, v = JNumber neg mant e ∧ s = t ++ rest ∧ numeral t neg mant e.
Proof.
  assert (∀ (neg : bool) s0, s = (if neg then [45] else []) ++ s0 →
            ('(i, s1) ← parse_int s0; '(nfrac, mant, s2) ← parse_frac i s1;
             '(e, s3) ← parse_exp s2; Some (JNumber neg mant (e - Z.of_nat nfrac)%Z, s3))
            = Some (v, rest) →
            ∃ t neg mant e, v = JNumber neg mant e ∧ s = t ++ rest ∧ numeral t neg mant e)
    as Hsign.
  { intros neg s0 -> Hp.
    destruct (parse_int s0) as [[i s1]|] eqn:Hi; [|done]. cbn [mbind option_bind] in Hp.
    destruct (parse_frac i s1) as [[[n mant] s2]|] eqn:Hf; [|done].
    cbn [mbind option_bind] in Hp.
    destruct (parse_exp s2) as [[e s3]|] eqn:He; [|done]. injection Hp as <- <-.
    apply parse_int_sound in Hi as (ti & -> & Hi & ->).
    apply parse_frac_sound in Hf as (f & fds & -> & Hf & -> & ->).
    apply parse_exp_sound in He as (x & -> & Hx).
    exists ((if neg then [45] else []) ++ ti ++ f ++ x), neg, (digits_value 0 (ti ++ fds)),
      (e - Z.of_nat (length fds))%Z.
    split_and!; [by rewrite digits_value_app|by rewrite <-!(assoc_L (++))|].
    by exists ti, f, fds, x, e. }
  unfold parse_number. destruct s as [|c s]; [done|].
  destruct (is_ch "-" c) eqn:Ec.
  - unfold is_ch in Ec. N_bools. subst c. by apply (Hsign true).
  - by apply (Hsign false).
Qed.

(** ** Values: what [parse_value] does at the first character *)

(** The parsers skip the white space before a value and before a member. *)
Lemma parse_value_skip fuel g s : white g → parse_value fuel (g ++ s) = parse_value fuel s.
Proof. intros Hg. destruct fuel; [done|]. cbn [parse_value]. by rewrite skip_ws_white. Qed.

Lemma parse_elements_skip fuel g s :
  white g → parse_elements fuel (g ++ s) = parse_elements fuel s.
Proof. intros Hg. destruct fuel; [done|]. cbn [parse_elements]. by rewrite parse_value_skip. Qed.

Lemma parse_members_skip fuel g s :
  white g → parse_members fuel (g ++ s) = parse_members fuel s.
Proof. intros Hg. destruct fuel; [done|]. cbn [parse_members]. by rewrite skip_ws_white. Qed.

(** A printable character is no white space. *)
Lemma printable_token c : 33 ≤ c ≤ 126 → is_json_ws c = false.
Proof. intros Hc. apply bool_decide_eq_false. rewrite !elem_of_cons, elem_of_nil. lia. Qed.

Lemma parse_value_null fuel rest : parse_value (S fuel) (js "null" ++ rest) = POk (JNull, rest).
Proof. by vm_compute. Qed.

Lemma parse_value_bool fuel (b : bool) rest :
  parse_value (S fuel) ((if b then js "true" else js "false") ++ rest) = POk (JBool b, rest).
Proof. destruct b; by vm_compute. Qed.

Lemma parse_value_quote fuel s :
  parse_value (S fuel) (34 :: s)
  = '(str, rest) ← of_option (parse_string_body s); POk (JString str, rest).
Proof. done. Qed.

Lemma parse_value_string fuel t s rest :
  chars_text t s → parse_value (S fuel) (34 :: t ++ 34 :: rest) = POk (JString s, rest).
Proof. intros Ht. by rewrite parse_value_quote, (parse_string_body_complete _ _ _ Ht). Qed.

(** A numeral starts with its sign or a digit. *)
Lemma numeral_head t neg mant e :
  numeral t neg mant e → ∃ c t', t = c :: t' ∧ 45 ≤ c ≤ 57.
Proof.
  intros (i & f & fds & x & ex & -> & (c & t' & -> & Hc)%int_text_head & _).
  destruct neg; [exists 45; eexists; split; [done|lia]|].
  exists c. eexists. split; [done|]. unfold isDigit in Hc. N_bools. lia.
Qed.

Lemma parse_value_digit fuel c s :
  45 ≤ c ≤ 57 → parse_value (S fuel) (c :: s) = of_option (parse_number (c :: s)).
Proof.
  intros Hc. cbn [parse_value skip_ws]. rewrite printable_token by lia.
  unfold is_ch. ch_values. by N_tests.
Qed.

Lemma parse_value_number fuel t neg mant e rest :
  numeral t neg mant e → delimited rest →
  parse_value (S fuel) (t ++ rest) = POk (JNumber neg mant e, rest).
Proof.
  intros Hn Hr. pose proof (parse_number_complete _ _ _ _ rest Hn Hr) as Hp.
  destruct (numeral_head _ _ _ _ Hn) as (c & t' & -> & Hc).
  cbn [app] in *. rewrite parse_value_digit by done. by rewrite Hp.
Qed.

(** [parse_value] at an opening bracket and at an opening brace. *)
Lemma parse_value_array fuel s :
  parse_value (S fuel) (91 :: s)
  = match skip_ws s with
    | d :: s'' =>
        if is_ch "]" d then POk (JArray [], s'')
        else '(vs, rest) ← parse_elements fuel (d :: s''); POk (JArray vs, rest)
    | [] => PSyntaxError
    end.
Proof. done. Qed.

Lemma parse_value_object fuel s :
  parse_value (S fuel) (123 :: s)
  = match skip_ws s with
    | d :: s'' =>
        if is_ch "}" d then POk (JObject [], s'')
        else '(ms, rest) ← parse_members fuel (d :: s''); POk (JObject ms, rest)
    | [] => PSyntaxError
    end.
Proof. done. Qed.

(** An array or an object that is empty. *)
Lemma parse_value_empty_array fuel g rest :
  white g → parse_value (S fuel) (91 :: g ++ 93 :: rest) = POk (JArray [], rest).
Proof. intros Hg. by rewrite parse_value_array, skip_ws_gap. Qed.

Lemma parse_value_empty_object fuel g rest :
  white g → parse_value (S fuel) (123 :: g ++ 125 :: rest) = POk (JObject [], rest).
Proof. intros Hg. by rewrite parse_value_object, skip_ws_gap. Qed.

(** An array or an object that is not empty. *)
Lemma parse_value_elements fuel g c t :
  white g → is_json_ws c = false → is_ch "]" c = false →
  parse_value (S fuel) (91 :: g ++ c :: t)
  = '(vs, rest) ← parse_elements fuel (g ++ c :: t); POk (JArray vs, rest).
Proof.
  intros Hg Hc Hb. by rewrite parse_value_array, parse_elements_skip, skip_ws_gap, Hb.
Qed.

Lemma parse_value_members fuel g t :
  white g →
  parse_value (S fuel) (123 :: g ++ 34 :: t)
  = '(ms, rest) ← parse_members fuel (g ++ 34 :: t); POk (JObject ms, rest).
Proof. intros Hg. by rewrite parse_value_object, parse_members_skip, skip_ws_gap. Qed.

(** ** Elements and members, one at a time *)

Lemma parse_elements_last fuel s v g rest :
  white g → parse_value fuel s = POk (v, g ++ 93 :: rest) →
  parse_elements (S fuel) s = POk ([v], rest).
Proof.
  intros Hg Hv. cbn [parse_elements]. rewrite Hv. cbn [mbind pres_bind].
  by rewrite skip_ws_gap.
Qed.

Lemma parse_elements_more fuel s v g s2 vs rest :
  white g → parse_value fuel s = POk (v, g ++ 44 :: s2) →
  parse_elements fuel s2 = POk (vs, rest) →
  parse_elements (S fuel) s = POk (v :: vs, rest).
Proof.
  intros Hg Hv Hvs. cbn [parse_elements]. rewrite Hv. cbn [mbind pres_bind].
  rewrite skip_ws_gap by done. change (is_ch "," 44) with true. cbv iota. by rewrite Hvs.
Qed.

(** A member, after its key and colon. *)
Lemma parse_members_key fuel g tk k g1 s :
  white g → chars_text tk k → white g1 →
  parse_members (S fuel) (g ++ 34 :: tk ++ 34 :: g1 ++ 58 :: s)
  = '(v, s3) ← parse_value fuel s;
    match skip_ws s3 with
    | d :: s4 =>
        if is_ch "," d then '(ms, rest) ← parse_members fuel s4; POk ((k, v) :: ms, rest)
        else if is_ch "}" d then POk ([(k, v)], s4)
        else PSyntaxError
    | [] => PSyntaxError
    end.
Proof.
  intros Hg Hk Hg1. cbn [parse_members]. rewrite skip_ws_gap by done.
  change (is_ch "034" 34) with true. cbv iota.
  rewrite (parse_string_body_complete _ _ _ Hk). cbn [of_option mbind pres_bind].
  by rewrite skip_ws_gap.
Qed.

Lemma parse_members_last fuel g tk k g1 s v g2 rest :
  white g → chars_text tk k → white g1 → white g2 →
  parse_value fuel s = POk (v, g2 ++ 125 :: rest) →
  parse_members (S fuel) (g ++ 34 :: tk ++ 34 :: g1 ++ 58 :: s) = POk ([(k, v)], rest).
Proof.
  intros Hg Hk Hg1 Hg2 Hv. rewrite (parse_members_key _ _ _ k), Hv by done. cbn [mbind pres_bind].
  by rewrite skip_ws_gap.
Qed.

Lemma parse_members_more fuel g tk k g1 s v g2 s4 ms rest :
  white g → chars_text tk k → white g1 → white g2 →
  parse_value fuel s = POk (v, g2 ++ 44 :: s4) → parse_members fuel s4 = POk (ms, rest) →
  parse_members (S fuel) (g ++ 34 :: tk ++ 34 :: g1 ++ 58 :: s) = POk ((k, v) :: ms, rest).
Proof.
  intros Hg Hk Hg1 Hg2 Hv Hms. rewrite (parse_members_key _ _ _ k), Hv by done. cbn [mbind pres_bind].
  rewrite skip_ws_gap by done. change (is_ch "," 44) with true. cbv iota. by rewrite Hms.
Qed.

(** ** Completeness: the parser reads every text of the grammar *)

Lemma separated_nil_inv body : separated [] body → white body.
Proof. by inversion 1. Qed.

Lemma separated_one_inv p body :
  separated [p] body → ∃ g1 t g2, body = g1 ++ t ++ g2 ∧ white g1 ∧ p t ∧ white g2.
Proof. inversion 1; simplify_eq. by eexists _, _, _. Qed.

Lemma separated_cons_inv p q ps body :
  separated (p :: q :: ps) body →
  ∃ g1 t g2 ts, body = g1 ++ t ++ g2 ++ 44 :: ts ∧ white g1 ∧ p t ∧ white g2
                ∧ separated (q :: ps) ts.
Proof. inversion 1; simplify_eq. by eexists _, _, _, _. Qed.

Lemma parse_elements_complete vs :
  Forall read_back vs → ∀ v body fuel rest,
  read_back v → separated (values (v :: vs)) body → (sizes id (v :: vs) ≤ fuel)%nat →
  parse_elements fuel (body ++ 93 :: rest) = POk (v :: vs, rest).
Proof.
  induction 1 as [|x vs Hx _ IH]; intros v body fuel rest Hv Hs Hf;
    (destruct fuel as [|fuel]; [simpl in Hf; lia|]); cbn [fmap list_fmap] in Hs;
    simpl in Hf.
  - apply separated_one_inv in Hs as (g1 & t & g2 & -> & Hg1 & Ht & Hg2).
    rewrite <-!(assoc_L (++)), parse_elements_skip by done.
    apply parse_elements_last with g2; [done|].
    apply Hv; [done|lia|by apply delimited_gap].
  - apply separated_cons_inv in Hs as (g1 & t & g2 & ts & -> & Hg1 & Ht & Hg2 & Hs).
    rewrite <-!(assoc_L (++)), parse_elements_skip by done. cbn [app].
    apply parse_elements_more with g2 (ts ++ 93 :: rest); [done| |].
    + apply Hv; [done|lia|by apply delimited_gap].
    + apply IH; [done..|simpl; lia].
Qed.

(** Concatenations to the right, with the characters in front. *)
Ltac app_right := repeat progress (rewrite <-?(assoc_L (++)); cbn [app]).

Lemma parse_members_complete ms :
  Forall (λ kv, read_back kv.2) ms → ∀ kv body fuel rest,
  read_back kv.2 → separated (members (kv :: ms)) body → (sizes snd (kv :: ms) ≤ fuel)%nat →
  parse_members fuel (body ++ 125 :: rest) = POk (kv :: ms, rest).
Proof.
  induction 1 as [|x ms Hx _ IH]; intros [k v] body fuel rest Hv Hs Hf;
    (destruct fuel as [|fuel]; [simpl in Hf; lia|]); cbn [fmap list_fmap fst snd] in *;
    simpl in Hf.
  - apply separated_one_inv in Hs
      as (g1 & ? & g2 & -> & Hg1 & (tk & g3 & g4 & tv & -> & Hk & Hg3 & Hg4 & Ht) & Hg2).
    app_right. apply parse_members_last with g2; [done..|].
    rewrite parse_value_skip by done. apply Hv; [done|lia|by apply delimited_gap].
  - apply separated_cons_inv in Hs
      as (g1 & ? & g2 & ts & -> & Hg1 & (tk & g3 & g4 & tv & -> & Hk & Hg3 & Hg4 & Ht) & Hg2
          & Hs).
    app_right. apply parse_members_more with g2 (ts ++ 125 :: rest); [done..| |].
    + rewrite parse_value_skip by done. apply Hv; [done|lia|by apply delimited_gap].
    + apply IH; [done..|simpl; lia].
Qed.

(** The first and the last character of a text of a value are printable,
    and the first closes no array. *)
Lemma value_text_head v t : value_text v t → ∃ c t', t = c :: t' ∧ 33 ≤ c ≤ 126 ∧ c ≠ 93.
Proof.
  intros Ht. destruct v as [|[]|neg mant e|s|items|props]; cbn [value_text] in Ht.
  1-3: by subst t; eexists _, _; split_and!; [vm_compute; reflexivity|..].
  - destruct (numeral_head _ _ _ _ Ht) as (c & t' & -> & Hc). exists c, t'.
    split_and!; [done|lia..].
  - destruct Ht as (body' & -> & _). by eexists _, _.
  - destruct Ht as (body' & -> & _). by eexists _, _.
  - destruct Ht as (body' & -> & _). by eexists _, _.
Qed.

Lemma all_digits_last ds :
  all_digits ds → ds ≠ [] → ∃ ds' c, ds = ds' ++ [c] ∧ 33 ≤ c ≤ 126.
Proof.
  destruct ds as [|c ds' _] using rev_ind; [done|]. intros [_ Hc%Forall_inv]%Forall_app _.
  exists ds', c. split; [done|]. unfold isDigit in Hc. N_bools. lia.
Qed.

Lemma int_text_digits i : int_text i → all_digits i ∧ i ≠ [].
Proof. intros [|c ds Hc _ Hds]; by repeat constructor. Qed.

Lemma numeral_last t neg mant e : numeral t neg mant e → ∃ t' c, t = t' ++ [c] ∧ 33 ≤ c ≤ 126.
Proof.
  intros (i & f & fds & x & ex & -> & [Hi Hne]%int_text_digits & Hf & Hx & _).
  destruct Hx as [|m sign neg' ds _ _ Hds Hds'].
  - destruct Hf as [|ds Hds Hds'].
    + destruct (all_digits_last i Hi Hne) as (ds' & c & -> & Hc). eexists _, c.
      split; [|done]. by rewrite !app_nil_r, (assoc_L (++)).
    + destruct (all_digits_last ds Hds Hds') as (ds' & c & -> & Hc). eexists _, c.
      split; [|done]. by rewrite app_nil_r, app_comm_cons, !(assoc_L (++)).
  - destruct (all_digits_last ds Hds Hds') as (ds' & c & -> & Hc). eexists _, c.
    split; [|done]. by rewrite app_comm_cons, !(assoc_L (++)).
Qed.

Lemma value_text_last v t : value_text v t → ∃ t' c, t = t' ++ [c] ∧ 33 ≤ c ≤ 126.
Proof.
  intros Ht. destruct v as [|[]|neg mant e|s|items|props]; cbn [value_text] in Ht.
  - subst t. by exists (js "nul"), 108.
  - subst t. by exists (js "tru"), 101.
  - subst t. by exists (js "fals"), 101.
  - by eapply numeral_last.
  - destruct Ht as (body & -> & _). by exists (34 :: body), 34.
  - destruct Ht as (body & -> & _). by exists (91 :: body), 93.
  - destruct Ht as (body & -> & _). by exists (123 :: body), 125.
Qed.

(** The first text of a list of texts is a token that closes no array. *)
Lemma separated_values_head v vs body :
  separated (values (v :: vs)) body →
  ∃ g c t, body = g ++ c :: t ∧ white g ∧ is_json_ws c = false ∧ is_ch "]" c = false.
Proof.
  assert (∀ g1 t rest', white g1 → value_text v t →
            ∃ g c t', g1 ++ t ++ rest' = g ++ c :: t' ∧ white g ∧ is_json_ws c = false
                      ∧ is_ch "]" c = false) as Hone.
  { intros g1 t rest' Hg1 (c & t' & -> & Hc & Hb)%value_text_head. exists g1, c, (t' ++ rest').
    split_and!; [done..|by apply printable_token|]. unfold is_ch. ch_values. by N_tests. }
  cbn [fmap list_fmap]. destruct vs as [|x vs].
  - intros (g1 & t & g2 & -> & Hg1 & Ht & _)%separated_one_inv. by apply Hone.
  - intros (g1 & t & g2 & ts & -> & Hg1 & Ht & _)%separated_cons_inv. by apply Hone.
Qed.

Lemma separated_members_head kv ms body :
  separated (members (kv :: ms)) body → ∃ g t, body = g ++ 34 :: t ∧ white g.
Proof.
  cbn [fmap list_fmap]. destruct ms as [|x ms].
  - intros (g1 & ? & g2 & -> & Hg1 & (tk & g3 & g4 & tv & -> & _) & _)%separated_one_inv.
    by eexists _, _.
  - intros (g1 & ? & g2 & ts & -> & Hg1 & (tk & g3 & g4 & tv & -> & _) & _)%separated_cons_inv.
    by eexists _, _.
Qed.

(** The parser reads every value back from each of its texts, with the
    budget [json_size] or more. *)
Lemma parse_value_complete v : read_back v.
Proof.
  induction v as [|b|neg mant e|s|items IH|props IH] using json_ind';
    intros t fuel rest Ht Hf Hr; (destruct fuel as [|fuel]; [simpl in Hf; lia|]);
    cbn [value_text] in Ht.
  - subst t. apply parse_value_null.
  - subst t. apply parse_value_bool.
  - by apply parse_value_number.
  - destruct Ht as (body & -> & Hb). cbn [app]. rewrite <-(assoc_L (++)).
    by apply parse_value_string.
  - destruct Ht as (body & -> & Hb). cbn [app]. rewrite <-(assoc_L (++)). cbn [app].
    destruct items as [|v vs]; [by apply parse_value_empty_array, separated_nil_inv|].
    apply Forall_cons in IH as [Hv IH].
    pose proof (parse_elements_complete vs IH v body fuel rest Hv Hb (le_S_n _ _ Hf)) as He.
    destruct (separated_values_head _ _ _ Hb) as (g & c & t & -> & Hg & Hc & Hc').
    rewrite <-(assoc_L (++)) in *. cbn [app] in *. by rewrite parse_value_elements, He.
  - destruct Ht as (body & -> & Hb). cbn [app]. rewrite <-(assoc_L (++)). cbn [app].
    destruct props as [|kv ms]; [by apply parse_value_empty_object, separated_nil_inv|].
    apply Forall_cons in IH as [Hv IH].
    pose proof (parse_members_complete ms IH kv body fuel rest Hv Hb (le_S_n _ _ Hf)) as He.
    destruct (separated_members_head _ _ _ Hb) as (g & t & -> & Hg).
    rewrite <-(assoc_L (++)) in *. cbn [app] in *. by rewrite parse_value_members, He.
Qed.

(** ** Soundness: what the parser reads is a text of the grammar *)

Lemma strip_exact_Some p s rest : strip_exact p s = Some rest → s = p ++ rest.
Proof.
  unfold strip_exact. case_decide as Hp; [|done]. intros [= <-].
  by rewrite <-Hp at 1; rewrite take_drop.
Qed.

Lemma parse_literal_sound word v s r rest :
  parse_literal word v s = POk (r, rest) → r = v ∧ s = js word ++ rest.
Proof.
  unfold parse_literal. destruct (strip_exact _ _) eqn:Hs; [|done].
  intros [= <- <-]. by apply strip_exact_Some in Hs.
Qed.

(** White space before the first of the texts. *)
Lemma separated_white g p ps body :
  white g → separated (p :: ps) body → separated (p :: ps) (g ++ body).
Proof.
  intros Hg. inversion 1; simplify_eq; rewrite (assoc_L (++) g); constructor; auto with docgen.
Qed.

Section sound.
Context (fuel : nat).
Hypothesis IHv : ∀ s v rest, parse_value fuel s = POk (v, rest) → value_read v s rest.
Hypothesis IHe : ∀ s vs rest, parse_elements fuel s = POk (vs, rest) → elements_read vs s rest.
Hypothesis IHm : ∀ s ms rest, parse_members fuel s = POk (ms, rest) → members_read ms s rest.

Lemma parse_value_sound_step s v rest :
  parse_value (S fuel) s = POk (v, rest) → value_read v s rest.
Proof.
  cbn [parse_value]. destruct (skip_ws s) as [|c s'] eqn:Hws; [done|].
  apply skip_ws_cons_split in Hws as (g & -> & Hg & Hc). unfold is_ch.
  repeat match goal with
  | |- context [if c =? ?k then _ else _] => destruct (c =? k) eqn:?; N_bools; [subst c|]
  end.
  - destruct (skip_ws s') as [|d s''] eqn:Hws'; [done|].
    apply skip_ws_cons_split in Hws' as (g' & -> & Hg' & Hd).
    destruct (d =? _) eqn:Ed; N_bools.
    + intros [= <- <-]. subst d. exists g, (123 :: g' ++ [125]).
      split_and!; [by app_right|done|]. exists g'. by split; [|constructor].
    + destruct (parse_members fuel (d :: s'')) as [[ms r]| | |] eqn:Hm; try done.
      intros [= <- <-]. apply IHm in Hm as (Hne & body & -> & Hb).
      exists g, (123 :: (g' ++ body) ++ [125]). split_and!; [by app_right|done|].
      exists (g' ++ body). split; [done|]. destruct ms; [done|]. by apply separated_white.
  - destruct (skip_ws s') as [|d s''] eqn:Hws'; [done|].
    apply skip_ws_cons_split in Hws' as (g' & -> & Hg' & Hd).
    destruct (d =? _) eqn:Ed; N_bools.
    + intros [= <- <-]. subst d. exists g, (91 :: g' ++ [93]).
      split_and!; [by app_right|done|]. exists g'. by split; [|constructor].
    + destruct (parse_elements fuel (d :: s'')) as [[vs r]| | |] eqn:He; try done.
      intros [= <- <-]. apply IHe in He as (Hne & body & -> & Hb).
      exists g, (91 :: (g' ++ body) ++ [93]). split_and!; [by app_right|done|].
      exists (g' ++ body). split; [done|]. destruct vs; [done|]. by apply separated_white.
  - destruct (parse_string_body s') as [[str r]|] eqn:Hs; [|done].
    intros [= <- <-]. apply parse_string_body_sound in Hs as (t & -> & Ht).
    exists g, (34 :: t ++ [34]). split_and!; [by app_right|done|]. by exists t.
  - intros [-> Hs]%parse_literal_sound. exists g, (js "true").
    split_and!; [by rewrite Hs|done..].
  - intros [-> Hs]%parse_literal_sound. exists g, (js "false").
    split_and!; [by rewrite Hs|done..].
  - intros [-> Hs]%parse_literal_sound. exists g, (js "null").
    split_and!; [by rewrite Hs|done..].
  - destruct (parse_number (c :: s')) as [[v' r]|] eqn:Hn; [|done]. intros [= <- <-].
    apply parse_number_sound in Hn as (t & neg & mant & e & -> & Hs & Hn).
    exists g, t. split_and!; [by rewrite Hs|done..].
Qed.

Lemma parse_elements_sound_step s vs rest :
  parse_elements (S fuel) s = POk (vs, rest) → elements_read vs s rest.
Proof.
  cbn [parse_elements].
  destruct (parse_value fuel s) as [[v s1]| | |] eqn:Hv; try done. cbn [mbind pres_bind].
  apply IHv in Hv as (g & t & -> & Hg & Ht).
  destruct (skip_ws s1) as [|c s2] eqn:Hws; [done|].
  apply skip_ws_cons_split in Hws as (g2 & -> & Hg2 & Hc). unfold is_ch.
  destruct (c =? _) eqn:E1; N_bools; [subst c|destruct (c =? _) eqn:E2; N_bools; [subst c|done]].
  - destruct (parse_elements fuel s2) as [[vs' r]| | |] eqn:He; try done.
    intros [= <- <-]. apply IHe in He as (Hne & body & -> & Hb). split; [done|].
    exists (g ++ t ++ g2 ++ 44 :: body). split; [by app_right|].
    destruct vs' as [|x vs']; [done|]. by constructor.
  - intros [= <- <-]. split; [done|]. exists (g ++ t ++ g2). split; [by app_right|].
    by constructor.
Qed.

Lemma parse_members_sound_step s ms rest :
  parse_members (S fuel) s = POk (ms, rest) → members_read ms s rest.
Proof.
  cbn [parse_members]. destruct (skip_ws s) as [|q s0] eqn:Hws; [done|].
  apply skip_ws_cons_split in Hws as (g & -> & Hg & Hq). unfold is_ch.
  destruct (q =? _) eqn:Eq; N_bools; [subst q|done].
  destruct (parse_string_body s0) as [[key s1]|] eqn:Hk; [|done]. cbn [of_option mbind pres_bind].
  apply parse_string_body_sound in Hk as (tk & -> & Hk).
  destruct (skip_ws s1) as [|c s2] eqn:Hws1; [done|].
  apply skip_ws_cons_split in Hws1 as (g1 & -> & Hg1 & Hc).
  destruct (c =? _) eqn:Ec; N_bools; [subst c|done].
  destruct (parse_value fuel s2) as [[v s3]| | |] eqn:Hv; try done. cbn [mbind pres_bind].
  apply IHv in Hv as (g2 & t & -> & Hg2 & Ht).
  destruct (skip_ws s3) as [|d s4] eqn:Hws3; [done|].
  apply skip_ws_cons_split in Hws3 as (g3 & -> & Hg3 & Hd).
  assert (member_text key (λ t, value_text v t) (34 :: tk ++ 34 :: g1 ++ 58 :: g2 ++ t)) as Hm
    by (by exists tk, g1, g2, t).
  destruct (d =? _) eqn:E1; N_bools; [subst d|destruct (d =? _) eqn:E2; N_bools; [subst d|done]].
  - destruct (parse_members fuel s4) as [[ms' r]| | |] eqn:Hms; try done.
    intros [= <- <-]. apply IHm in Hms as (Hne & body & -> & Hb). split; [done|].
    exists (g ++ (34 :: tk ++ 34 :: g1 ++ 58 :: g2 ++ t) ++ g3 ++ 44 :: body).
    split; [by app_right|]. destruct ms' as [|x ms']; [done|]. by constructor.
  - intros [= <- <-]. split; [done|].
    exists (g ++ (34 :: tk ++ 34 :: g1 ++ 58 :: g2 ++ t) ++ g3). split; [by app_right|].
    by constructor.
Qed.

End sound.

(** What the parsers return, they have read as the grammar says. *)
Lemma parse_sound fuel :
  (∀ s v rest, parse_value fuel s = POk (v, rest) → value_read v s rest)
  ∧ (∀ s vs rest, parse_elements fuel s = POk (vs, rest) → elements_read vs s rest)
  ∧ (∀ s ms rest, parse_members fuel s = POk (ms, rest) → members_read ms s rest).
Proof.
  induction fuel as [|fuel (IHv & IHe & IHm)]; [done|]. split_and!.
  - by apply parse_value_sound_step.
  - by apply parse_elements_sound_step.
  - by apply parse_members_sound_step.
Qed.

(** ** [JSON.parse] and the grammar *)

(** A text of a value between white space is parsed to that value. *)
Lemma JSON_parse_complete v g1 t g2 :
  white g1 → value_text v t → white g2 → JSON_parse (g1 ++ t ++ g2) = Ret v.
Proof.
  intros Hg1 Ht Hg2. apply (JSON_parse_reached (json_size v) _ _ g2).
  - rewrite parse_value_skip by done. apply parse_value_complete; auto with docgen.
  - rewrite <-(app_nil_r g2). by rewrite skip_ws_white.
Qed.

(** White space of JSON is white space of ECMAScript, and a printable
    character is none. *)
Lemma white_space g : white g → Forall (λ c, isWhiteSpace c = true) g.
Proof.
  intros Hg. eapply Forall_impl; [exact Hg|]. intros c. unfold is_json_ws.
  rewrite bool_decide_eq_true, !elem_of_cons, elem_of_nil.
  intros Hc. by destruct_or! Hc; subst c.
Qed.

Lemma printable_not_space c : 33 ≤ c ≤ 126 → isWhiteSpace c = false.
Proof.
  intros Hc. unfold isWhiteSpace. N_tests. rewrite orb_false_r.
  apply bool_decide_eq_false. rewrite !elem_of_cons, elem_of_nil. lia.
Qed.

(** [trim] takes the white space around a text of a value, and no more. *)
Lemma trim_value_text v g1 t g2 :
  white g1 → value_text v t → white g2 → trim (g1 ++ t ++ g2) = t.
Proof.
  intros Hg1 Ht Hg2. apply trim_spec; [by apply white_space..| |].
  - destruct (value_text_head _ _ Ht) as (c & t' & -> & Hc & _).
    intros ? [= <-]. by apply printable_not_space.
  - destruct (value_text_last _ _ Ht) as (t' & c & -> & Hc).
    rewrite last_snoc. intros ? [= <-]. by apply printable_not_space.
Qed.

(** [JSON.parse(text.trim())] on a JSON text. *)
Lemma JSON_parse_trim v text : json_text_of v text → JSON_parse (trim text) = Ret v.
Proof.
  intros (g1 & t & g2 & -> & Hg1 & Ht & Hg2). rewrite (trim_value_text v) by done.
  rewrite <-(app_nil_r t). by apply (JSON_parse_complete v []).
Qed.

(** What [JSON.parse] returns on a text, the grammar gives to the text. *)
Lemma JSON_parse_sound text v : JSON_parse text = Ret v → json_text_of v text.
Proof.
  unfold JSON_parse.
  destruct (parse_value _ text) as [[v' rest]| | |] eqn:Hp; try done.
  destruct (skip_ws rest) eqn:Hr; [|done]. intros [= <-].
  apply parse_sound in Hp as (g & t & -> & Hg & Ht).
  exists g, t, rest. split_and!; [done..|by apply skip_ws_nil].
Qed.

(** C13. [JSON.parse] implements the grammar of JSON: it returns a value
    exactly on the texts that the grammar gives to that value, between
    white space, and throws a [SyntaxError] on every other text. *)
Theorem JSON_parse_grammar text v : JSON_parse text = Ret v ↔ json_text_of v text.
Proof.
  split; [apply JSON_parse_sound|].
  intros (g1 & t & g2 & -> & Hg1 & Ht & Hg2). by apply JSON_parse_complete.
Qed.

(** [JSON.parse] throws exactly on the texts that are no JSON texts. *)
Corollary JSON_parse_rejects text :
  JSON_parse text = Throw SyntaxError ↔ ¬ is_json_text text.
Proof.
  split.
  - intros Hp (v & g1 & t & g2 & -> & Hg1 & Ht & Hg2).
    by rewrite (JSON_parse_complete v) in Hp.
  - intros Hn. destruct (JSON_parse_cases text) as [[v Hv]|]; [|done].
    destruct Hn. exists v. by apply JSON_parse_sound.
Qed.

(** A text has one value. *)
Corollary json_text_of_inj v1 v2 text : json_text_of v1 text → json_text_of v2 text → v1 = v2.
Proof.
  intros (g1 & t1 & h1 & -> & ? & ? & ?) (g2 & t2 & h2 & Heq & ? & ? & ?).
  pose proof (JSON_parse_complete v1 g1 t1 h1) as P1.
  pose proof (JSON_parse_complete v2 g2 t2 h2) as P2.
  rewrite Heq, P2 in P1 by done. naive_solver.
Qed.
