(* ===== verification/JsonText.v ===== *)
(** A text for every JSON value and every layout of the white space
    between its tokens: each is a text of the grammar, so that
    [JSON.parse] reads the value back, and every value is the value of
    some text. *)

From Stdlib Require Import Ascii.
From stdpp Require Import base tactics numbers strings option list.
From S2P Require Import Prelude JsString JsValue Json JsonGrammar.

Local Open Scope N_scope.

(** ** Texts *)

(** The lower-case hexadecimal digit of [d < 16]. *)
Definition hex_digit (d : N) : N := if d <? 10 then 48 + d else 87 + d.

(** One code unit inside a string, as QuoteJSONString writes it: the quote
    and the backslash behind a backslash, backspace, tab, line feed, form
    feed and carriage return as their letters, any other control
    character as [\u00XX], any other code unit as it is. *)
Definition quote_unit (c : N) : jsstring :=
  if c =? 34 then [92; 34]
  else if c =? 92 then [92; 92]
  else if c =? 8 then [92; 98]
  else if c =? 9 then [92; 116]
  else if c =? 10 then [92; 110]
  else if c =? 12 then [92; 102]
  else if c =? 13 then [92; 114]
  else if c <? 32 then [92; 117; 48; 48; hex_digit (c / 16); hex_digit (c mod 16)]
  else [c].

Definition quote (s : jsstring) : jsstring := 34 :: (s ≫= quote_unit) ++ [34].

(** The decimal digits of [n], the most significant first. *)
Fixpoint digits_go (fuel : nat) (n : N) : jsstring :=
  match fuel with
  | O => []
  | S fuel' => (if n <? 10 then [] else digits_go fuel' (n / 10)) ++ [48 + n mod 10]
  end.

Definition digits (n : N) : jsstring := digits_go (S (N.to_nat (N.log2 n))) n.

(** The numeral [(-1)^neg * mant * 10^e]: sign, mantissa, and the exponent
    when it is not zero. *)
Definition exponent_text (e : Z) : jsstring :=
  if decide (e = 0)%Z then []
  else 101 :: (if decide (e < 0)%Z then [45] else []) ++ digits (Z.abs_N e).

Definition number_text (neg : bool) (mant : N) (e : Z) : jsstring :=
  (if neg then [45] else []) ++ digits mant ++ exponent_text e.

(** Where a text has white space: [gap d] before every element or member
    at depth [d] and before the bracket that closes depth [d];
    [colon_gap] after the colon of a member. *)
Record layout : Type := Layout {
  gap : nat → jsstring;
  colon_gap : jsstring
}.

Definition layout_ok (L : layout) : Prop := (∀ d, white (gap L d)) ∧ white (colon_gap L).

(** No white space, and every element on a line of its own, indented by
    [n] spaces for each level. *)
Definition compact : layout := Layout (λ _, []) [].
Definition indented (n : nat) : layout := Layout (λ d, 10 :: replicate (n * d) 32) [32].

Section text.
Context (L : layout).

(** The texts of elements or members, each after its gap, with commas
    between them. *)
Definition items_text (d : nat) (texts : list jsstring) : jsstring :=
  match texts with
  | [] => []
  | t :: ts => gap L d ++ t ++ (ts ≫= λ x, 44 :: gap L d ++ x)
  end.

(** The text of [v] inside [d] brackets. *)
Fixpoint json_text (d : nat) (v : json) : jsstring :=
  match v with
  | JNull => js "null"
  | JBool b => if b then js "true" else js "false"
  | JNumber neg mant e => number_text neg mant e
  | JString s => quote s
  | JArray items =>
      91 :: items_text (S d) (json_text (S d) <$> items) ++ gap L d ++ [93]
  | JObject props =>
      123 :: items_text (S d)
               ((λ kv, quote kv.1 ++ 58 :: colon_gap L ++ json_text (S d) kv.2) <$> props)
          ++ gap L d ++ [125]
  end.

End text.

(** ** Strings *)

Lemma hex_value_digit d : d < 16 → hex_value (hex_digit d) = Some d.
Proof.
  intros Hd. unfold hex_digit, hex_value.
  destruct (d <? 10) eqn:E; N_bools; N_tests; simpl; f_equal; lia.
Qed.

(** A control character as [\u00XX]. *)
Lemma chars_text_control c t s :
  c < 32 → chars_text t s →
  chars_text (92 :: 117 :: 48 :: 48 :: hex_digit (c / 16) :: hex_digit (c mod 16) :: t)
             (c :: s).
Proof.
  intros Hc Ht. pose proof (N.Div0.div_mod c 16). pose proof (N.mod_upper_bound c 16).
  assert (c / 16 < 16) by (apply N.Div0.div_lt_upper_bound; lia).
  pose proof (chars_unicode 48 48 _ _ 0 0 _ _ t s eq_refl eq_refl
                (hex_value_digit (c / 16) ltac:(lia)) (hex_value_digit (c mod 16) ltac:(lia))
                Ht) as Hu.
  by replace (((0 * 16 + 0) * 16 + c / 16) * 16 + c mod 16) with c in Hu by lia.
Qed.

Lemma chars_text_quote_unit c t s :
  chars_text t s → chars_text (quote_unit c ++ t) (c :: s).
Proof.
  intros Ht. unfold quote_unit.
  repeat match goal with
  | |- context [if c =? ?k then _ else _] =>
      destruct (c =? k) eqn:?; [N_bools; subst c; by apply chars_escape|]
  end.
  destruct (c <? 32) eqn:E; N_bools; [by apply chars_text_control|by apply chars_plain].
Qed.

(** A quoted string is a text of the string. *)
Lemma chars_text_quote s : chars_text (s ≫= quote_unit) s.
Proof.
  induction s as [|c s IH]; [constructor|]. cbn [mbind list_bind].
  by apply chars_text_quote_unit.
Qed.

(** ** Numerals *)

Lemma isDigit_digit r : r < 10 → isDigit (48 + r) = true.
Proof. intros Hr. unfold isDigit. by N_tests. Qed.

Lemma digits_go_digit fuel n : all_digits (digits_go fuel n).
Proof.
  revert n. induction fuel as [|fuel IH]; intros n; cbn [digits_go]; [done|].
  apply Forall_app. split; [case_match; [constructor|apply IH]|].
  by apply Forall_singleton, isDigit_digit, N.mod_upper_bound.
Qed.

Lemma digits_value_snoc acc ds c :
  digits_value acc (ds ++ [c]) = 10 * digits_value acc ds + (c - 48).
Proof. unfold digits_value. by rewrite fold_left_app. Qed.

Lemma digits_go_value fuel n : n < 2 ^ N.of_nat fuel → digits_value 0 (digits_go fuel n) = n.
Proof.
  revert n. induction fuel as [|fuel IH]; intros n.
  - simpl. intros ?. unfold digits_value. simpl. lia.
  - rewrite Nat2N.inj_succ, N.pow_succ_r'. intros Hn. cbn [digits_go].
    rewrite digits_value_snoc, (N.add_comm 48), N.add_sub.
    etrans; [|symmetry; apply (N.Div0.div_mod n 10)]. do 2 f_equal.
    destruct (n <? 10) eqn:E; N_bools; [by rewrite N.div_small|].
    apply IH, N.Div0.div_lt_upper_bound. lia.
Qed.

(** The numeral of a positive number does not start with a zero. *)
Lemma digits_go_head fuel n :
  0 < n → n < 2 ^ N.of_nat fuel →
  ∃ c ds, digits_go fuel n = c :: ds ∧ isDigit c = true ∧ c ≠ 48.
Proof.
  revert n. induction fuel as [|fuel IH]; intros n Hpos.
  - simpl. lia.
  - rewrite Nat2N.inj_succ, N.pow_succ_r'. intros Hn. cbn [digits_go].
    destruct (n <? 10) eqn:E; N_bools.
    + exists (48 + n mod 10), []. rewrite N.mod_small by done.
      split_and!; [done|by apply isDigit_digit|lia].
    + destruct (IH (n / 10)) as (c & ds & -> & Hc & Hne).
      * apply N.div_str_pos. lia.
      * apply N.Div0.div_lt_upper_bound. lia.
      * by exists c, (ds ++ [48 + n mod 10]).
Qed.

Lemma digits_fuel n : n < 2 ^ N.of_nat (S (N.to_nat (N.log2 n))).
Proof.
  rewrite Nat2N.inj_succ, N2Nat.id. destruct (decide (n = 0)) as [->|Hn]; [done|].
  apply N.log2_spec. lia.
Qed.

Lemma digits_value_digits n : digits_value 0 (digits n) = n.
Proof. apply digits_go_value, digits_fuel. Qed.

(** The digits of a number are an integer part, not empty. *)
Lemma digits_int_text n : int_text (digits n) ∧ digits n ≠ [].
Proof.
  destruct (decide (n = 0)) as [->|Hn]; [by split; [constructor|]|].
  pose proof (digits_go_digit (S (N.to_nat (N.log2 n))) n) as Hd. fold (digits n) in Hd.
  destruct (digits_go_head _ n ltac:(lia) (digits_fuel n)) as (c & ds & Heq & Hc & Hne).
  fold (digits n) in Heq. rewrite Heq in *. split; [|done].
  apply Forall_cons in Hd as [_ Hd]. by constructor.
Qed.

Lemma exp_text_exponent e : exp_text (exponent_text e) e.
Proof.
  unfold exponent_text. case_decide as H0; [subst e; constructor|].
  pose proof (exp_digits 101 (if decide (e < 0)%Z then [45] else []) (bool_decide (e < 0)%Z)
                (digits (Z.abs_N e)) ltac:(by left)) as He.
  rewrite digits_value_digits in He.
  replace (if bool_decide (e < 0)%Z then (- Z.of_N (Z.abs_N e))%Z else Z.of_N (Z.abs_N e))
    with e in He by (case_bool_decide; lia).
  apply He; [|apply digits_go_digit|apply digits_int_text].
  case_bool_decide; [rewrite decide_True by done|rewrite decide_False by done]; constructor.
Qed.

(** The text of a number is a numeral of it. *)
Lemma numeral_number_text neg mant e : numeral (number_text neg mant e) neg mant e.
Proof.
  exists (digits mant), [], [], (exponent_text e), e. rewrite app_nil_r, digits_value_digits.
  split_and!; [done|apply digits_int_text|constructor|apply exp_text_exponent|done|simpl; lia].
Qed.

(** ** Values *)

(** The text of a list of elements or members, one at a time. *)
Lemma items_text_one L d t s : items_text L d [t] ++ s = gap L d ++ t ++ s.
Proof. unfold items_text. cbn [mbind list_bind]. by rewrite app_nil_r, <-!(assoc_L (++)). Qed.

Lemma items_text_cons L d t t' ts s :
  items_text L d (t :: t' :: ts) ++ s = gap L d ++ t ++ 44 :: items_text L d (t' :: ts) ++ s.
Proof. unfold items_text. cbn [mbind list_bind]. by app_right. Qed.

Section grammar.
Context (L : layout) (HL : layout_ok L).

Lemma white_gap d : white (gap L d).
Proof. apply HL. Qed.

Lemma white_colon_gap : white (colon_gap L).
Proof. apply HL. Qed.

(** Texts with gaps and commas are separated texts. *)
Lemma separated_items_text d g ps texts :
  Forall2 (λ (p : jsstring → Prop) t, p t) ps texts → white g →
  separated ps (items_text L d texts ++ g).
Proof.
  intros Hps Hg. induction Hps as [|p t ps texts Hp Hps IH]; [by constructor|].
  destruct Hps as [|q t' ps texts Hq Hps].
  - rewrite items_text_one. constructor; auto using white_gap.
  - rewrite items_text_cons.
    apply (separated_cons p q ps (gap L d) t []); auto using white_gap.
Qed.

(** The text of a value is a text of the grammar. *)
Lemma json_text_grammar v d : value_text v (json_text L d v).
Proof.
  revert d. induction v as [|b|neg mant e|s|items IH|props IH] using json_ind'; intros d;
    cbn [json_text value_text]; [done..|apply numeral_number_text| | |].
  - exists (s ≫= quote_unit). split; [done|apply chars_text_quote].
  - eexists (_ ++ gap L d). split; [by rewrite <-(assoc_L (++))|].
    apply separated_items_text, white_gap.
    apply Forall2_fmap, Forall_Forall2_diag. eapply Forall_impl; [exact IH|]. by intros v Hv.
  - eexists (_ ++ gap L d). split; [by rewrite <-(assoc_L (++))|].
    apply separated_items_text, white_gap.
    apply Forall2_fmap, Forall_Forall2_diag. eapply Forall_impl; [exact IH|].
    intros [k v] Hv. exists (k ≫= quote_unit), [], (colon_gap L), (json_text L (S d) v).
    split_and!; [by unfold quote; app_right|apply chars_text_quote|done
                |apply white_colon_gap|apply Hv].
Qed.

(** C14. Round trip of [JSON.parse]: the text of a value, written with
    any layout of white space between its tokens, with the escapes of
    QuoteJSONString in its strings and between any white space, is parsed
    back to the value. *)
Theorem JSON_parse_json_text d v pre post :
  white pre → white post → JSON_parse (pre ++ json_text L d v ++ post) = Ret v.
Proof. intros Hpre Hpost. by apply JSON_parse_complete; [|apply json_text_grammar|]. Qed.

End grammar.

(** ** Layouts *)

Lemma compact_ok : layout_ok compact.
Proof. by split; [intros d|]; constructor. Qed.

Lemma indented_ok n : layout_ok (indented n).
Proof.
  split; [intros d|by repeat constructor].
  constructor; [done|]. by apply Forall_replicate.
Qed.

(** Every value is the value of a text: [JSON.parse] yields all of
    [json]. *)
Corollary JSON_parse_onto v : ∃ text, JSON_parse text = Ret v.
Proof.
  exists (json_text compact 0 v). rewrite <-(app_nil_r (json_text compact 0 v)).
  by apply (JSON_parse_complete v []); [|apply json_text_grammar, compact_ok|].
Qed.

(** ** Examples *)

Example json_text_compact :
  json_text compact 0
    (JObject [(js "items", JArray [JString (js "a"); JNumber true 15 (-1); JNumber false 7 0;
                                   JBool true; JString [9; 1; 92]])])
  = jsq "{'items':['a',-15e-1,7,true,'\t\u0001\\']}".
Proof. by_compute. Qed.

Example json_text_indented :
  json_text (indented 2) 0 (JObject [(js "items", JArray [JString (jsq "a'b"); JNull])])
  = jsq "{
  'items': [
    'a\'b',
    null
  ]
}".
Proof. by_compute. Qed.

Lemma JSON_parse_json_text_witness :
  JSON_parse (js " " ++ json_text (indented 2) 1
                          (JArray [JNumber false 120 3; JString [9; 1; 92]; JArray []])
              ++ [10])
  = Ret (JArray [JNumber false 120 3; JString [9; 1; 92]; JArray []]).
Proof. apply (JSON_parse_json_text _ (indented_ok 2)); by repeat constructor. Defined.
