(* ===== verification/Path.v ===== *)
(** The functions of Node's [path] module that the program calls, in their
    POSIX form: [path.join], [path.resolve] and [path.dirname], with the
    normalisation they share. *)

From Stdlib Require Import Ascii.
From stdpp Require Import base tactics numbers strings option list.
From S2P Require Import Prelude JsString.

Local Open Scope N_scope.

Definition slash : N := 47.

(** ** Segments *)

(** The texts between the separators of a path. *)
Fixpoint split_path (s : jsstring) : list jsstring :=
  match s with
  | [] => [[]]
  | c :: s' =>
      if c =? slash then [] :: split_path s'
      else
        match split_path s' with
        | seg :: segs => (c :: seg) :: segs
        | [] => [[c]]
        end
  end.

(** Segments joined by separators. *)
Definition join_segments (segs : list jsstring) : jsstring :=
  match segs with
  | [] => []
  | seg :: segs' => seg ++ (segs' ≫= λ s, slash :: s)
  end.

Definition dot : jsstring := [46].
Definition dotdot : jsstring := [46; 46].

(** One segment pushed on the segments resolved so far (last first):
    empty segments and [.] vanish, [..] removes the segment before it, or
    stays when there is none and the path is relative. *)
Definition push_segment (allowAboveRoot : bool) (acc : list jsstring) (seg : jsstring)
  : list jsstring :=
  if decide (seg = [] ∨ seg = dot) then acc
  else if decide (seg = dotdot) then
    match acc with
    | last :: acc' =>
        if decide (last = dotdot) then seg :: acc else acc'
    | [] => if allowAboveRoot then [seg] else []
    end
  else seg :: acc.

(** normalizeString: the resolved segments of a path. *)
Definition normalize_segments (allowAboveRoot : bool) (s : jsstring) : list jsstring :=
  reverse (foldl (push_segment allowAboveRoot) [] (split_path s)).

Definition isAbsolute (s : jsstring) : bool :=
  match s with
  | c :: _ => c =? slash
  | [] => false
  end.

Definition has_trailing_slash (s : jsstring) : bool :=
  match last s with
  | Some c => c =? slash
  | None => false
  end.

(** ** The functions *)

(** [path.normalize]. *)
Definition normalize (p : jsstring) : jsstring :=
  match p with
  | [] => dot
  | _ =>
      let body := join_segments (normalize_segments (negb (isAbsolute p)) p) in
      match body with
      | [] =>
          if isAbsolute p then [slash]
          else if has_trailing_slash p then dot ++ [slash] else dot
      | _ =>
          (if isAbsolute p then [slash] else [])
          ++ body ++ (if has_trailing_slash p then [slash] else [])
      end
  end.

(** [path.join(...parts)]. *)
Definition path_join (parts : list jsstring) : jsstring :=
  match filter (λ p, p ≠ []) parts with
  | [] => dot
  | ps => normalize (join_segments ps)
  end.

(** The arguments of [path.resolve] from the right, up to the first
    absolute one: the path they form, and whether it is absolute. *)
Fixpoint resolve_args (rev_parts : list jsstring) : jsstring * bool :=
  match rev_parts with
  | [] => ([], false)
  | p :: rest =>
      if decide (p = []) then resolve_args rest
      else if isAbsolute p then (p ++ [slash], true)
      else let '(r, abs) := resolve_args rest in (r ++ p ++ [slash], abs)
  end.

(** [path.resolve(...parts)] in the working directory [cwd] (an absolute
    path). *)
Definition path_resolve (cwd : jsstring) (parts : list jsstring) : jsstring :=
  let '(r, abs) := resolve_args (reverse parts) in
  let full := if abs then r else cwd ++ [slash] ++ r in
  slash :: join_segments (normalize_segments false full).

(** The segments of an absolute path: the key of a file-system entry. *)
Definition path_key (p : jsstring) : list jsstring := normalize_segments false p.

(** [path.dirname] on the result of [path.resolve]: the path without its
    last segment. *)
Definition path_dirname (p : jsstring) : jsstring :=
  match reverse (path_key p) with
  | _ :: parent => slash :: join_segments (reverse parent)
  | [] => [slash]
  end.

(** A segment of a resolved path: not empty, not [.], not [..], without a
    separator. *)
Definition proper_segment (seg : jsstring) : Prop :=
  seg ≠ [] ∧ seg ≠ dot ∧ seg ≠ dotdot ∧ slash ∉ seg.

#[export] Instance proper_segment_dec seg : Decision (proper_segment seg).
Proof. unfold proper_segment. apply _. Defined.

(** ** Lemmas *)

Lemma split_path_nonempty s : split_path s ≠ [].
Proof. induction s as [|c s IH]; simpl; [done|]. by repeat case_match. Qed.

(** The segments of a path hold no separator. *)
Lemma split_path_no_slash s : Forall (λ seg, slash ∉ seg) (split_path s).
Proof.
  induction s as [|c s IH]; simpl; [by repeat constructor; intros ?%elem_of_nil|].
  destruct (c =? slash) eqn:Hc; [constructor; [by intros ?%elem_of_nil|done]|].
  apply N.eqb_neq in Hc. destruct (split_path s) as [|seg segs]; inv IH.
  - repeat constructor. by intros [?|?%elem_of_nil]%elem_of_cons.
  - constructor; [|done]. by intros [?|?]%elem_of_cons.
Qed.

(** A text without a separator is one segment. *)
Lemma split_path_segment seg : slash ∉ seg → split_path seg = [seg].
Proof.
  induction seg as [|c seg IH]; [done|]. intros Hn. simpl.
  rewrite (proj2 (N.eqb_neq c slash)) by (intros ->; apply Hn; constructor).
  rewrite IH; [done|]. intros Hin. apply Hn. by constructor.
Qed.

Lemma split_path_app seg rest :
  slash ∉ seg → split_path (seg ++ slash :: rest) = seg :: split_path rest.
Proof.
  induction seg as [|c seg IH]; intros Hn; simpl; [done|].
  rewrite (proj2 (N.eqb_neq c slash)) by (intros ->; apply Hn; constructor).
  rewrite IH; [done|]. intros Hin. apply Hn. by constructor.
Qed.

(** Joining segments and splitting the result gives the segments back. *)
Lemma split_path_join seg segs :
  Forall (λ s, slash ∉ s) (seg :: segs) → split_path (join_segments (seg :: segs)) = seg :: segs.
Proof.
  revert seg. induction segs as [|seg' segs IH]; intros seg Hs; simpl.
  - rewrite app_nil_r. apply split_path_segment. by inv Hs.
  - inv Hs. rewrite split_path_app by done. f_equal. by apply (IH seg').
Qed.

(** Proper segments are pushed as they are. *)
Lemma foldl_push_proper allowAboveRoot acc segs :
  Forall proper_segment segs →
  foldl (push_segment allowAboveRoot) acc segs = reverse segs ++ acc.
Proof.
  intros Hs. revert acc. induction Hs as [|seg segs (Hne & Hd & Hdd & _) _ IH]; intros acc; [done|].
  simpl. rewrite IH, reverse_cons, <-(assoc_L (++)). f_equal.
  unfold push_segment. rewrite decide_False by (intros [?|?]; done).
  by rewrite decide_False.
Qed.

Lemma push_segment_no_slash allowAboveRoot acc seg :
  slash ∉ seg → Forall (λ s, slash ∉ s) acc →
  Forall (λ s, slash ∉ s) (push_segment allowAboveRoot acc seg).
Proof.
  intros Hs Hacc. unfold push_segment. repeat case_decide; try done.
  - destruct acc as [|l acc]; [by destruct allowAboveRoot; repeat constructor|].
    case_decide; [by constructor | by inv Hacc].
  - by constructor.
Qed.

Lemma normalize_segments_no_slash allowAboveRoot s :
  Forall (λ seg, slash ∉ seg) (normalize_segments allowAboveRoot s).
Proof.
  unfold normalize_segments. apply Forall_reverse.
  pose proof (split_path_no_slash s) as Hs. revert Hs. generalize (split_path s). intros segs Hs.
  assert (Forall (λ seg : jsstring, slash ∉ seg) []) as Hnil by constructor.
  revert Hnil. generalize (@nil jsstring) as acc.
  induction Hs as [|seg segs Hseg _ IH]; intros acc Hacc; simpl; [done|].
  apply IH. by apply push_segment_no_slash.
Qed.

Lemma push_segment_no_dot allowAboveRoot acc seg :
  Forall (λ s, s ≠ [] ∧ s ≠ dot) acc →
  Forall (λ s, s ≠ [] ∧ s ≠ dot) (push_segment allowAboveRoot acc seg).
Proof.
  intros Hacc. unfold push_segment.
  repeat case_decide; try done.
  - destruct acc as [|l acc]; [by destruct allowAboveRoot; repeat constructor; subst|].
    case_decide; [|by inv Hacc]. constructor; [by subst|done].
  - constructor; [tauto | done].
Qed.

(** Resolved segments are never empty and never [.]. *)
Lemma normalize_segments_no_dot allowAboveRoot s :
  Forall (λ seg, seg ≠ [] ∧ seg ≠ dot) (normalize_segments allowAboveRoot s).
Proof.
  unfold normalize_segments. apply Forall_reverse.
  generalize (split_path s). intros segs.
  assert (Forall (λ seg : jsstring, seg ≠ [] ∧ seg ≠ dot) []) as Hnil by constructor.
  revert Hnil. generalize (@nil jsstring) as acc.
  induction segs as [|seg segs IH]; intros acc Hacc; simpl; [done|].
  apply IH. by apply push_segment_no_dot.
Qed.

Lemma push_segment_no_dotdot acc seg :
  Forall (λ s, s ≠ dotdot) acc → Forall (λ s, s ≠ dotdot) (push_segment false acc seg).
Proof.
  intros Hacc. unfold push_segment.
  repeat case_decide; try done.
  - destruct acc as [|l acc]; [done|]. case_decide; [by inv Hacc | by inv Hacc].
  - by constructor.
Qed.

(** An absolute path resolves to segments without [..]: it names an entry
    below the root. *)
Lemma path_key_no_dotdot p : Forall (λ seg, seg ≠ dotdot) (path_key p).
Proof.
  unfold path_key, normalize_segments. apply Forall_reverse.
  generalize (split_path p). intros segs.
  assert (Forall (λ seg : jsstring, seg ≠ dotdot) []) as Hnil by constructor.
  revert Hnil. generalize (@nil jsstring) as acc.
  induction segs as [|seg segs IH]; intros acc Hacc; simpl; [done|].
  apply IH. by apply push_segment_no_dotdot.
Qed.

(** The key of a path consists of proper segments. *)
Lemma path_key_proper p : Forall proper_segment (path_key p).
Proof.
  pose proof (normalize_segments_no_dot false p) as H1.
  pose proof (path_key_no_dotdot p) as H2.
  pose proof (normalize_segments_no_slash false p) as H3.
  unfold path_key in *. rewrite Forall_forall in *. intros seg Hin.
  specialize (H1 seg Hin). specialize (H2 seg Hin). specialize (H3 seg Hin).
  unfold proper_segment. tauto.
Qed.

(** The key of the path written from proper segments is the segments. *)
Lemma path_key_join segs :
  Forall proper_segment segs → path_key (slash :: join_segments segs) = segs.
Proof.
  intros Hs. unfold path_key, normalize_segments.
  change (split_path (slash :: join_segments segs))
    with ([] :: split_path (join_segments segs)).
  destruct segs as [|seg segs]; [done|].
  rewrite split_path_join by (eapply Forall_impl; [done|]; by intros ? (_ & _ & _ & ?)).
  change (foldl (push_segment false) [] ([] :: seg :: segs))
    with (foldl (push_segment false) [] (seg :: segs)).
  rewrite foldl_push_proper by done. by rewrite app_nil_r, reverse_involutive.
Qed.

(** [path.resolve] returns a path whose key is the segments it resolved. *)
Lemma path_key_resolve cwd parts :
  path_key (path_resolve cwd parts)
  = (let '(r, abs) := resolve_args (reverse parts) in
     normalize_segments false (if abs then r else cwd ++ [slash] ++ r)).
Proof.
  unfold path_resolve. destruct (resolve_args (reverse parts)) as [r abs].
  apply path_key_join, (path_key_proper (if abs then r else cwd ++ [slash] ++ r)).
Qed.

(** Splitting at a separator. *)
Lemma split_path_app_slash a b :
  split_path (a ++ slash :: b) = split_path a ++ split_path b.
Proof.
  induction a as [|c a IH]; [done|]. cbn [app split_path]. rewrite IH.
  destruct (c =? slash); [done|].
  pose proof (split_path_nonempty a). by destruct (split_path a).
Qed.

(** A proper segment at the end of a path that ends with a separator is
    the last segment of its key. *)
Lemma normalize_segments_snoc allowAboveRoot base seg :
  proper_segment seg →
  normalize_segments allowAboveRoot ((base ++ [slash]) ++ seg ++ [slash])
  = normalize_segments allowAboveRoot (base ++ [slash]) ++ [seg].
Proof.
  intros Hseg. unfold normalize_segments.
  rewrite <-(assoc_L (++)). cbn [app]. rewrite !split_path_app_slash.
  rewrite (split_path_segment seg) by apply Hseg. rewrite !foldl_app. cbn [split_path foldl].
  set (acc := foldl _ [] (split_path base)).
  change (push_segment allowAboveRoot acc []) with acc.
  assert (push_segment allowAboveRoot acc seg = seg :: acc) as ->.
  { apply (foldl_push_proper allowAboveRoot acc [seg]). by constructor. }
  change (push_segment allowAboveRoot (seg :: acc) []) with (seg :: acc).
  by rewrite reverse_cons.
Qed.

(** What [path.resolve] normalises ends with a separator. *)
Lemma resolve_args_slash rev_parts r abs :
  resolve_args rev_parts = (r, abs) → r = [] ∧ abs = false ∨ ∃ r', r = r' ++ [slash].
Proof.
  revert r abs. induction rev_parts as [|p rest IH]; intros r abs; simpl.
  - intros [= <- <-]. by left.
  - case_decide; [apply IH|]. destruct (isAbsolute p).
    + intros [= <- <-]. right. by exists p.
    + destruct (resolve_args rest) as [r0 abs0]. intros [= <- <-]. right.
      exists (r0 ++ p). by rewrite <-(assoc_L (++)).
Qed.

(** A file name resolved in a directory: the key is the key of the
    directory and the name. *)
Lemma path_key_resolve_file cwd dir file :
  proper_segment file →
  path_key (path_resolve cwd [dir; file]) = path_key (path_resolve cwd [dir]) ++ [file].
Proof.
  intros Hf. rewrite !path_key_resolve. change (reverse [dir; file]) with [file; dir].
  change (reverse [dir]) with [dir]. cbn [resolve_args].
  destruct Hf as (Hne & Hd & Hdd & Hs). rewrite (decide_False (P := file = [])) by done.
  assert (isAbsolute file = false) as ->.
  { destruct file as [|c file]; [done|]. simpl. apply N.eqb_neq. intros ->. apply Hs. constructor. }
  destruct (if decide (dir = []) then _ else _) as [r abs] eqn:Hr.
  assert (∃ base, (if abs then r else cwd ++ [slash] ++ r) = base ++ [slash]) as [base Hb].
  { destruct (resolve_args_slash [dir] r abs Hr) as [[-> ->]|[r' ->]].
    - exists cwd. by rewrite app_nil_r.
    - destruct abs; [by exists r'|]. exists (cwd ++ [slash] ++ r'). by rewrite <-!(assoc_L (++)). }
  replace (if abs then r ++ file ++ [slash] else cwd ++ [slash] ++ r ++ file ++ [slash])
    with ((if abs then r else cwd ++ [slash] ++ r) ++ file ++ [slash])
    by (destruct abs; by rewrite <-?(assoc_L (++))).
  rewrite Hb. by apply normalize_segments_snoc.
Qed.

(** A segment followed by [..] is as if neither were written. *)
Lemma normalize_segments_cancel allowAboveRoot base seg rest :
  proper_segment seg →
  normalize_segments allowAboveRoot ((base ++ [slash]) ++ seg ++ slash :: dotdot ++ slash :: rest)
  = normalize_segments allowAboveRoot ((base ++ [slash]) ++ rest).
Proof.
  intros (Hne & Hd & Hdd & Hs). unfold normalize_segments. f_equal.
  rewrite <-!(assoc_L (++)). cbn [app]. rewrite !split_path_app_slash.
  rewrite (split_path_segment seg) by done. change (split_path dotdot) with [dotdot].
  rewrite !foldl_app. cbn [foldl]. f_equal.
  set (acc := foldl _ [] (split_path base)). unfold push_segment at 2.
  rewrite decide_False, decide_False by (done || intros [?|?]; done).
  unfold push_segment. rewrite decide_False, decide_True, decide_False by (done || by_decide).
  done.
Qed.

(** [path.resolve] of a name that starts with a segment and [..]: the
    segment is cancelled, the rest of the name is resolved in the
    directory. *)
Lemma path_key_resolve_cancel cwd dir seg rest :
  proper_segment seg → rest ≠ [] → isAbsolute rest = false →
  path_key (path_resolve cwd [dir; seg ++ slash :: dotdot ++ slash :: rest])
  = path_key (path_resolve cwd [dir; rest]).
Proof.
  intros Hseg Hr Ha. rewrite !path_key_resolve.
  change (reverse [dir; ?f]) with [f; dir]. cbn [resolve_args].
  rewrite (decide_False (P := rest = [])), Ha by done.
  rewrite (decide_False (P := _ ++ _ = [])) by (destruct Hseg as [? _]; by destruct seg).
  assert (isAbsolute (seg ++ slash :: dotdot ++ slash :: rest) = false) as ->.
  { destruct Hseg as (? & _ & _ & Hs), seg as [|c seg]; [done|]. simpl.
    apply N.eqb_neq. intros ->. apply Hs. constructor. }
  destruct (if decide (dir = []) then _ else _) as [r abs] eqn:Hd.
  assert (∃ base, ∀ x, (if abs then r ++ x else cwd ++ [slash] ++ r ++ x)
                       = (base ++ [slash]) ++ x) as [base Hb].
  { destruct (resolve_args_slash [dir] r abs Hd) as [[-> ->]|[r' ->]].
    - exists cwd. intros x. by rewrite <-(assoc_L (++)).
    - destruct abs; [by exists r'|].
      exists (cwd ++ [slash] ++ r'). intros x. by rewrite <-!(assoc_L (++)). }
  rewrite !Hb, <-!(assoc_L (++) seg). cbn [app].
  by rewrite (normalize_segments_cancel _ base seg (rest ++ [slash]) Hseg).
Qed.

(** The key of [path.dirname] of a resolved path is the key of the path
    without its last segment. *)
Lemma path_key_dirname p :
  path_key (path_dirname p) = reverse (tail (reverse (path_key p))).
Proof.
  unfold path_dirname. pose proof (path_key_proper p) as Hp.
  destruct (reverse (path_key p)) as [|seg rparent] eqn:Hr; [done|].
  apply path_key_join. apply Forall_reverse.
  apply Forall_reverse in Hp. rewrite Hr in Hp. by inv Hp.
Qed.

(** The directory of a path lies on the way to it. *)
Lemma path_key_dirname_prefix p : path_key (path_dirname p) `prefix_of` path_key p.
Proof.
  rewrite path_key_dirname. destruct (path_key p) as [|seg segs _] using rev_ind; [done|].
  rewrite reverse_snoc. simpl. rewrite reverse_involutive. by apply prefix_app_r.
Qed.
