(* ===== verification/World.v ===== *)
(** What the program acts on: a file system (a tree of directories and
    files keyed by resolved path segments), the console, and the process
    environment; the functions of Node's [fs] module and of [console] that
    the program calls, as computations of the monad [prog]. *)

From stdpp Require Import base tactics numbers strings option list gmap.
From S2P Require Import Prelude JsString JsValue Path.

(** ** State *)

Inductive node : Type :=
| File (bytes : list N)
| Dir.

#[export] Instance node_eq_dec : EqDecision node.
Proof. solve_decision. Defined.

Inductive stream : Type := Log | Warn | Error.

#[export] Instance stream_eq_dec : EqDecision stream.
Proof. solve_decision. Defined.

(** An argument of a console call: a string, or the message of an
    exception (which the engine or a library chose). *)
Inductive cval : Type :=
| CStr (s : jsstring)
| CMessage (e : js_error).

#[export] Instance cval_eq_dec : EqDecision cval.
Proof. solve_decision. Defined.

(** The file system maps the segments of an absolute path to the entry at
    that path; the console is the list of calls made, first call first. *)
Record world : Type := World {
  w_fs : gmap (list jsstring) node;
  w_console : list (stream * list cval)
}.

(** The process environment: the directory of the script ([__dirname]),
    the working directory, the command-line arguments after the script
    name, and the date of the run as [toISOString] prints it. *)
Record env : Type := Env {
  env_dirname : jsstring;
  env_cwd : jsstring;
  env_argv : list jsstring;
  env_now_iso : jsstring
}.

(** Effectful code of the program. *)
Abbreviation io := (prog world js_error).

(** Every entry but the root lies in a directory. *)
Definition fs_wf (fs : gmap (list jsstring) node) : Prop :=
  fs !! [] = Some Dir ∧
  ∀ p seg n, fs !! (p ++ [seg]) = Some n → fs !! p = Some Dir.

(** ** Console *)

Definition console (st : stream) (args : list cval) : io unit :=
  pmodify (λ w, World (w_fs w) (w_console w ++ [(st, args)])).

Abbreviation console_log := (console Log).
Abbreviation console_warn := (console Warn).
Abbreviation console_error := (console Error).

(** ** File system *)

(** [fs.existsSync(path)]. *)
Definition existsSync (path : jsstring) : io bool :=
  w ← pget; mret (bool_decide (is_Some (w_fs w !! path_key path))).

(** The bytes of the file at [path]. *)
Definition read_bytes (path : jsstring) : io (list N) :=
  w ← pget;
  match w_fs w !! path_key path with
  | Some (File bytes) => mret bytes
  | Some Dir => pthrow (SystemError "EISDIR")
  | None => pthrow (SystemError "ENOENT")
  end.

(** [fs.readFileSync(path)]: a buffer. *)
Definition readFileSync (path : jsstring) : io (list N) := read_bytes path.

(** [fs.readFileSync(path, 'utf-8')]: the text of the file. *)
Definition readFileSync_utf8 (path : jsstring) : io jsstring :=
  bytes ← read_bytes path; mret (Buffer_toString bytes).

(** The directories to create for [key], outermost first, or the error
    when an entry on the way is a file. *)
Fixpoint mkdir_p (fs : gmap (list jsstring) node) (prefix : list jsstring)
    (segs : list jsstring) : result (gmap (list jsstring) node) :=
  match segs with
  | [] => Ret fs
  | seg :: segs' =>
      let p := prefix ++ [seg] in
      match fs !! p with
      | Some Dir => mkdir_p fs p segs'
      | Some (File _) =>
          Throw (SystemError (if segs' is [] then "EEXIST" else "ENOTDIR"))
      | None => mkdir_p (<[p := Dir]> fs) p segs'
      end
  end.

(** [fs.mkdirSync(path, { recursive: true })]. *)
Definition mkdirSync_recursive (path : jsstring) : io unit :=
  w ← pget;
  fs' ← plift (mkdir_p (w_fs w) [] (path_key path));
  pmodify (λ w, World fs' (w_console w)).

(** [fs.writeFileSync(path, data)]. *)
Definition writeFileSync (path : jsstring) (data : list N) : io unit :=
  w ← pget;
  let key := path_key path in
  match reverse key with
  | [] => pthrow (SystemError "EISDIR")
  | _ :: rparent =>
      match w_fs w !! reverse rparent with
      | Some Dir =>
          match w_fs w !! key with
          | Some Dir => pthrow (SystemError "EISDIR")
          | _ => pmodify (λ w, World (<[key := File data]> (w_fs w)) (w_console w))
          end
      | Some (File _) => pthrow (SystemError "ENOTDIR")
      | None => pthrow (SystemError "ENOENT")
      end
  end.

(** ** Properties of computations *)

(** The invariant of worlds: the file system is well formed. *)
Definition wf_world (w : world) : Prop := fs_wf (w_fs w).

(** An invariant of the file system: it does not depend on the console. *)
Class FsInvariant (I : world → Prop) : Prop :=
  fs_invariant : ∀ fs out out', I (World fs out) → I (World fs out').

(** [m] keeps the invariant [I] of the world, however it ends. *)
Definition preserves {A} (I : world → Prop) (m : io A) : Prop :=
  ∀ w, I w → I (m w).2.

(** An outcome of a computation that stays in the modelled fragment and
    leaves the process with code 1 only. *)
Definition tame_outcome {A} (r : result A) : Prop :=
  match r with
  | Ret _ | Throw _ => True
  | Exit c => c = 1%Z
  | Unmodelled => False
  end.

(** [m] has a tame outcome in every world. *)
Definition tame {A} (m : io A) : Prop := ∀ w, tame_outcome (m w).1.

(** The footprint of a run that writes one file: [fs'] is [fs] but for the
    entry at [key] and for new directories on the way to [dir]. *)
Definition changes_only (key dir : list jsstring)
    (fs fs' : gmap (list jsstring) node) : Prop :=
  ∀ k, fs' !! k = fs !! k ∨ k = key
       ∨ (fs !! k = None ∧ fs' !! k = Some Dir ∧ k `prefix_of` dir).

(** What may become of an entry: [b] stands where [a] stood.  An entry is
    never removed, and a directory stays a directory. *)
Definition grows (a b : option node) : Prop :=
  (is_Some a → is_Some b) ∧ (a = Some Dir → b = Some Dir).

(** Two file systems hold the same at the keys of [K]. *)
Definition agree (K : list (list jsstring)) (fs fs' : gmap (list jsstring) node) : Prop :=
  ∀ k, k ∈ K → fs !! k = fs' !! k.

(** [m] reads the file system at the keys of [K] only, and writes no
    file: its outcome is the same in worlds that agree on [K], whatever
    else they hold and whatever the console shows. *)
Definition reads {A} (K : list (list jsstring)) (m : io A) : Prop :=
  ∀ w w', agree K (w_fs w) (w_fs w') → (m w).1 = (m w').1 ∧ w_fs (m w).2 = w_fs w.

(** The world after the lines [ls] were printed on the stream [st]. *)
Definition printed (st : stream) (ls : list (list cval)) (w : world) : world :=
  World (w_fs w) (w_console w ++ ((λ args, (st, args)) <$> ls)).

(** ** Worlds of examples *)

(** The file system with the root directory only. *)
Definition empty_fs : gmap (list jsstring) node := {[ [] := Dir ]}.

(** [fs] with a file at [path], in directories created as needed; [fs]
    itself when the file cannot be put there. *)
Definition add_file (path : jsstring) (bytes : list N)
    (fs : gmap (list jsstring) node) : gmap (list jsstring) node :=
  match reverse (path_key path) with
  | name :: rparent =>
      match mkdir_p fs [] (reverse rparent) with
      | Ret fs' =>
          if decide (fs' !! (reverse rparent ++ [name]) = Some Dir) then fs
          else <[reverse rparent ++ [name] := File bytes]> fs'
      | _ => fs
      end
  | [] => fs
  end.

(** The UTF-8 bytes of a text of the examples, in which ['] stands for
    the double quote. *)
Definition text_bytes (s : string) : list N :=
  (λ b, if (b =? 39)%N then 34%N else b) <$> source_bytes s.

(** [fs] with the directory [path] and its ancestors; [fs] itself when a
    file is in the way. *)
Definition add_dir (path : jsstring) (fs : gmap (list jsstring) node) :
    gmap (list jsstring) node :=
  match mkdir_p fs [] (path_key path) with Ret fs' => fs' | _ => fs end.

(** A world with the given file system and nothing printed. *)
Definition quiet (fs : gmap (list jsstring) node) : world := World fs [].

(** An environment of the examples: the script is installed under
    [/opt/skill/scripts] and run in [/home/tester]. *)
Definition sample_env (argv : list jsstring) : env :=
  {| env_dirname := js "/opt/skill/scripts";
     env_cwd := js "/home/tester";
     env_argv := argv;
     env_now_iso := js "2024-01-01T08:30:00.000Z" |}.

(** Run a computation that only prints: unfold the console calls and the
    monad, and compute. *)
Ltac run_io :=
  unfold console in *; prog_unfold; cbn.

(** ** Lemmas *)

Section world_lemmas.
Implicit Types (fs : gmap (list jsstring) node) (w : world).

Lemma console_run st args w :
  console st args w = (Ret tt, World (w_fs w) (w_console w ++ [(st, args)])).
Proof. done. Qed.

Lemma existsSync_run path w :
  existsSync path w = (Ret (bool_decide (is_Some (w_fs w !! path_key path))), w).
Proof. done. Qed.

Lemma existsSync_bind_Some {A} path (k : bool → io A) w n :
  w_fs w !! path_key path = Some n → (existsSync path ≫= k) w = k true w.
Proof.
  intros Hf. unfold mbind at 1, prog_bind, pbind. by rewrite existsSync_run, Hf.
Qed.

Lemma existsSync_bind_None {A} path (k : bool → io A) w :
  w_fs w !! path_key path = None → (existsSync path ≫= k) w = k false w.
Proof.
  intros Hf. unfold mbind at 1, prog_bind, pbind. by rewrite existsSync_run, Hf.
Qed.

Lemma readFileSync_utf8_file path w bytes :
  w_fs w !! path_key path = Some (File bytes) →
  readFileSync_utf8 path w = (Ret (Buffer_toString bytes), w).
Proof. intros Hf. unfold readFileSync_utf8, read_bytes. prog_unfold. by rewrite Hf. Qed.

Lemma readFileSync_utf8_dir path w :
  w_fs w !! path_key path = Some Dir →
  readFileSync_utf8 path w = (Throw (SystemError "EISDIR"), w).
Proof. intros Hf. unfold readFileSync_utf8, read_bytes. prog_unfold. by rewrite Hf. Qed.

Lemma readFileSync_utf8_bind {A} path (k : jsstring → io A) w bytes :
  w_fs w !! path_key path = Some (File bytes) →
  (readFileSync_utf8 path ≫= k) w = k (Buffer_toString bytes) w.
Proof.
  intros Hf. unfold mbind at 1, prog_bind, pbind.
  by rewrite (readFileSync_utf8_file _ _ _ Hf).
Qed.

Lemma readFileSync_utf8_dir_bind {A} path (k : jsstring → io A) w :
  w_fs w !! path_key path = Some Dir →
  (readFileSync_utf8 path ≫= k) w = (Throw (SystemError "EISDIR"), w).
Proof.
  intros Hf. unfold mbind at 1, prog_bind, pbind.
  by rewrite (readFileSync_utf8_dir _ _ Hf).
Qed.

(** Reading never changes the world. *)
Lemma readFileSync_utf8_world path w : (readFileSync_utf8 path w).2 = w.
Proof.
  unfold readFileSync_utf8, read_bytes. prog_unfold.
  by destruct (w_fs w !! path_key path) as [[]|].
Qed.

(** [mkdir_p] keeps the entries that exist. *)
Lemma mkdir_p_lookup fs prefix segs fs' p n :
  mkdir_p fs prefix segs = Ret fs' → fs !! p = Some n → fs' !! p = Some n.
Proof.
  revert fs prefix. induction segs as [|seg segs IH]; intros fs prefix; simpl.
  - by intros [= ->].
  - destruct (fs !! (prefix ++ [seg])) as [[]|] eqn:Hp; try done.
    + apply IH.
    + intros Hm Hl. eapply IH; [done|].
      rewrite lookup_insert_ne; [done|]. by intros <-; simplify_eq.
Qed.

(** [mkdir_p] keeps the file system well formed, when the directory it
    starts from exists. *)
Lemma mkdir_p_wf fs prefix segs fs' :
  fs_wf fs → fs !! prefix = Some Dir →
  mkdir_p fs prefix segs = Ret fs' → fs_wf fs'.
Proof.
  revert fs prefix. induction segs as [|seg segs IH]; intros fs prefix Hwf Hpre; simpl.
  - by intros [= ->].
  - destruct (fs !! (prefix ++ [seg])) as [[]|] eqn:Hp; try done.
    + by apply IH.
    + apply IH; [|by rewrite lookup_insert_eq].
      destruct Hwf as [Hroot Hpar]. split.
      * rewrite lookup_insert_ne; [done|]. by destruct prefix.
      * intros p s n. destruct (decide (prefix ++ [seg] = p ++ [s])) as [Heq|Hne].
        -- apply app_inj_tail in Heq as [<- <-]. intros _.
           rewrite lookup_insert_ne; [done|]. intros Heq.
           apply (f_equal length) in Heq. rewrite length_app in Heq. simpl in Heq. lia.
        -- rewrite lookup_insert_ne by done. intros Hl.
           destruct (decide (prefix ++ [seg] = p)) as [<-|Hne'].
           ++ specialize (Hpar _ _ _ Hl). congruence.
           ++ rewrite lookup_insert_ne by done. by eapply Hpar.
Qed.

(** After [mkdir_p] the directory exists. *)
Lemma mkdir_p_creates fs prefix segs fs' :
  fs !! prefix = Some Dir →
  mkdir_p fs prefix segs = Ret fs' → fs' !! (prefix ++ segs) = Some Dir.
Proof.
  revert fs prefix. induction segs as [|seg segs IH]; intros fs prefix Hpre; simpl.
  - intros [= <-]. by rewrite app_nil_r.
  - replace (prefix ++ seg :: segs) with ((prefix ++ [seg]) ++ segs)
      by (by rewrite <-(assoc_L (++))).
    destruct (fs !! (prefix ++ [seg])) as [[]|] eqn:Hp; try done.
    + by apply IH.
    + apply IH. by rewrite lookup_insert_eq.
Qed.

Lemma mkdir_p_creates_root fs segs fs' :
  fs !! [] = Some Dir → mkdir_p fs [] segs = Ret fs' → fs' !! segs = Some Dir.
Proof. apply (mkdir_p_creates fs [] segs fs'). Qed.

(** Every entry lies below directories. *)
Lemma fs_wf_ancestor fs p q n :
  fs_wf fs → fs !! (p ++ q) = Some n → q ≠ [] → fs !! p = Some Dir.
Proof.
  intros [_ Hpar]. revert n. induction q as [|s q IH] using rev_ind; intros n Hl Hq; [done|].
  rewrite (assoc_L (++)) in Hl. apply Hpar in Hl.
  destruct q as [|s' q]; [by rewrite app_nil_r in Hl|]. by eapply IH.
Qed.

(** [mkdir_p] on a directory that exists changes nothing. *)
Lemma mkdir_p_existing fs prefix segs :
  fs_wf fs → fs !! (prefix ++ segs) = Some Dir → mkdir_p fs prefix segs = Ret fs.
Proof.
  intros Hwf. revert prefix. induction segs as [|seg segs IH]; intros prefix Hl; [done|].
  replace (prefix ++ seg :: segs) with ((prefix ++ [seg]) ++ segs) in Hl
    by (by rewrite <-(assoc_L (++))).
  simpl. assert (fs !! (prefix ++ [seg]) = Some Dir) as ->; [|by apply IH].
  destruct segs as [|seg' segs]; [by rewrite app_nil_r in Hl|].
  by eapply fs_wf_ancestor.
Qed.

(** When [mkdir_p] succeeds, what stood at the path was a directory. *)
Lemma mkdir_p_was_dir fs segs fs' n :
  fs_wf fs → mkdir_p fs [] segs = Ret fs' → fs !! segs = Some n → n = Dir.
Proof.
  intros [Hroot _] Hm Hl. apply (mkdir_p_lookup _ _ _ _ _ _ Hm) in Hl.
  apply mkdir_p_creates_root in Hm; [|done]. congruence.
Qed.

Lemma mkdirSync_recursive_run path w fs' :
  mkdir_p (w_fs w) [] (path_key path) = Ret fs' →
  mkdirSync_recursive path w = (Ret tt, World fs' (w_console w)).
Proof. intros Hm. unfold mkdirSync_recursive. prog_unfold. by rewrite Hm. Qed.

Lemma mkdirSync_recursive_throw path w err :
  mkdir_p (w_fs w) [] (path_key path) = Throw err →
  mkdirSync_recursive path w = (Throw err, w).
Proof. intros Hm. unfold mkdirSync_recursive. prog_unfold. by rewrite Hm. Qed.

(** A path whose entry is not a directory has a parent: its key is the key
    of its [dirname] and a name. *)
Lemma key_parent fs path :
  fs_wf fs → fs !! path_key path ≠ Some Dir →
  ∃ name, path_key path = path_key (path_dirname path) ++ [name].
Proof.
  intros [Hroot _] Hn. rewrite path_key_dirname.
  destruct (reverse (path_key path)) as [|name rparent] eqn:Hr.
  - apply (f_equal reverse) in Hr. rewrite reverse_involutive in Hr.
    by rewrite Hr in Hn.
  - exists name. apply (f_equal reverse) in Hr.
    by rewrite reverse_involutive, reverse_cons in Hr.
Qed.

(** [if (!fs.existsSync(dir)) fs.mkdirSync(dir, { recursive: true })] when
    the directory exists or can be made: the file system afterwards is the
    one that [mkdir_p] yields. *)
Lemma ensure_dir_run {A} dir (k : unit → io A) w fs' :
  wf_world w →
  mkdir_p (w_fs w) [] (path_key dir) = Ret fs' →
  (ex ← existsSync dir; (if negb ex then mkdirSync_recursive dir else mret tt) ≫= k) w
  = k tt (World fs' (w_console w)).
Proof.
  intros Hwf Hm. destruct (w_fs w !! path_key dir) as [n|] eqn:Hex.
  - rewrite (existsSync_bind_Some _ _ _ _ Hex). cbn [negb].
    pose proof (mkdir_p_was_dir _ _ _ _ Hwf Hm Hex) as ->.
    rewrite (mkdir_p_existing _ [] _ Hwf Hex) in Hm. injection Hm as <-.
    rewrite mbind_mret. by destruct w.
  - rewrite (existsSync_bind_None _ _ _ Hex). cbn [negb].
    by rewrite mbind_run, (mkdirSync_recursive_run _ _ _ Hm).
Qed.

(** The same when the directory cannot be made. *)
Lemma ensure_dir_throw {A} dir (k : unit → io A) w err :
  mkdir_p (w_fs w) [] (path_key dir) = Throw err →
  w_fs w !! path_key dir = None →
  (ex ← existsSync dir; (if negb ex then mkdirSync_recursive dir else mret tt) ≫= k) w
  = (Throw err, w).
Proof.
  intros Hm Hex. rewrite (existsSync_bind_None _ _ _ Hex). cbn [negb].
  by rewrite mbind_run, (mkdirSync_recursive_throw _ _ _ Hm).
Qed.

(** Writing a file into a directory that exists. *)
Lemma writeFileSync_run path data w parent name :
  path_key path = parent ++ [name] →
  w_fs w !! parent = Some Dir →
  w_fs w !! path_key path ≠ Some Dir →
  writeFileSync path data w
  = (Ret tt, World (<[path_key path := File data]> (w_fs w)) (w_console w)).
Proof.
  intros Hk Hp Hn. unfold writeFileSync. prog_unfold.
  rewrite Hk, reverse_snoc, reverse_involutive, Hp, <-Hk.
  by destruct (w_fs w !! path_key path) as [[]|].
Qed.

End world_lemmas.

(** ** Rules for [preserves] and [tame] *)

Section rules.
Context {A B : Type} (I : world → Prop).
Implicit Types (m : io A) (f : A → io B).

Lemma preserves_ret (a : A) : preserves I (mret a).
Proof. by intros w. Qed.

Lemma preserves_plift (r : result A) : preserves I (plift r).
Proof. by intros w. Qed.

Lemma preserves_pexit c : preserves I (pexit (A:=A) c).
Proof. by intros w. Qed.

Lemma preserves_bind m f :
  preserves I m → (∀ a, preserves I (f a)) → preserves I (m ≫= f).
Proof.
  intros Hm Hf w Hw. specialize (Hm w Hw). unfold mbind, prog_bind, pbind.
  destruct (m w) as [[a| | |] w']; [by apply Hf|done..].
Qed.

Lemma preserves_catch m (h : js_error → io A) :
  preserves I m → (∀ err, preserves I (h err)) → preserves I (pcatch m h).
Proof.
  intros Hm Hh w Hw. specialize (Hm w Hw). unfold pcatch.
  destruct (m w) as [[a|err| |] w']; [done|by apply Hh|done..].
Qed.

Lemma tame_ret (a : A) : tame (mret a).
Proof. by intros w. Qed.

Lemma tame_plift (r : result A) : returns_or_throws r → tame (plift r).
Proof. intros Hr w. by destruct r. Qed.

Lemma tame_pexit_1 : tame (pexit (A:=A) 1).
Proof. by intros w. Qed.

Lemma tame_bind m f : tame m → (∀ a, tame (f a)) → tame (m ≫= f).
Proof.
  intros Hm Hf w. specialize (Hm w). unfold mbind, prog_bind, pbind.
  destruct (m w) as [[a| | |] w']; [apply Hf|done..].
Qed.

Lemma tame_catch m (h : js_error → io A) :
  tame m → (∀ err, tame (h err)) → tame (pcatch m h).
Proof.
  intros Hm Hh w. specialize (Hm w). unfold pcatch.
  destruct (m w) as [[a|err| |] w']; [done|apply Hh|done..].
Qed.

End rules.

(** The calls of [console] and [fs] are tame. *)
Lemma tame_console st args : tame (console st args).
Proof. by intros w. Qed.

Lemma tame_existsSync path : tame (existsSync path).
Proof. by intros w. Qed.

Lemma tame_read_bytes path : tame (read_bytes path).
Proof.
  intros w. unfold read_bytes. prog_unfold. by destruct (w_fs w !! path_key path) as [[]|].
Qed.

Lemma tame_readFileSync_utf8 path : tame (readFileSync_utf8 path).
Proof. apply tame_bind; [apply tame_read_bytes | intros; apply tame_ret]. Qed.

Lemma mkdir_p_returns_or_throws fs prefix segs : returns_or_throws (mkdir_p fs prefix segs).
Proof.
  revert fs prefix. induction segs as [|seg segs IH]; intros fs prefix; simpl; [done|].
  by destruct (fs !! (prefix ++ [seg])) as [[]|].
Qed.

Lemma tame_mkdirSync_recursive path : tame (mkdirSync_recursive path).
Proof.
  intros w. unfold mkdirSync_recursive. prog_unfold.
  pose proof (mkdir_p_returns_or_throws (w_fs w) [] (path_key path)).
  by destruct (mkdir_p _ _ _).
Qed.

Lemma tame_writeFileSync path data : tame (writeFileSync path data).
Proof.
  intros w. unfold writeFileSync. prog_unfold.
  destruct (reverse (path_key path)) as [|? rparent]; [done|].
  destruct (w_fs w !! reverse rparent) as [[]|]; [done| |done].
  by destruct (w_fs w !! path_key path) as [[]|].
Qed.

#[export] Hint Resolve tame_ret tame_plift tame_pexit_1 tame_bind tame_catch
  tame_console tame_existsSync tame_read_bytes tame_readFileSync_utf8
  tame_mkdirSync_recursive tame_writeFileSync : docgen.

(** Printing and reading keep every invariant of the file system. *)
Section fs_invariant.
Context (I : world → Prop) `{!FsInvariant I}.

Lemma preserves_console st args : preserves I (console st args).
Proof. intros [fs out] Hw. by eapply fs_invariant. Qed.

Lemma preserves_existsSync path : preserves I (existsSync path).
Proof. by intros w. Qed.

Lemma preserves_read_bytes path : preserves I (read_bytes path).
Proof.
  intros w Hw. unfold read_bytes. prog_unfold. by destruct (w_fs w !! path_key path) as [[]|].
Qed.

Lemma preserves_readFileSync_utf8 path : preserves I (readFileSync_utf8 path).
Proof. apply preserves_bind; [apply preserves_read_bytes | intros; apply preserves_ret]. Qed.

End fs_invariant.

#[export] Instance wf_world_fs_invariant : FsInvariant wf_world.
Proof. by intros fs c c'. Qed.

(** "The file system is [fs]" is an invariant of the file system: what
    keeps every invariant writes no file. *)
#[export] Instance same_fs_invariant fs : FsInvariant (λ w, w_fs w = fs).
Proof. by intros fs' c c'. Qed.

(** The file system of a well-formed world stays well formed. *)
Lemma wf_mkdirSync_recursive path : preserves wf_world (mkdirSync_recursive path).
Proof.
  intros w Hw. unfold mkdirSync_recursive. prog_unfold.
  destruct (mkdir_p _ _ _) as [fs'| | |] eqn:Hm; try done.
  eapply mkdir_p_wf; [done| |done]. apply Hw.
Qed.

(** A file put into a directory, where no directory stands, keeps the
    file system well formed. *)
Lemma insert_file_wf fs parent name data :
  fs_wf fs → fs !! parent = Some Dir → fs !! (parent ++ [name]) ≠ Some Dir →
  fs_wf (<[parent ++ [name] := File data]> fs).
Proof.
  intros [Hroot Hpar] Hp Hnd. split.
  - rewrite lookup_insert_ne; [done|]. by destruct parent.
  - intros p s n. destruct (decide (parent ++ [name] = p ++ [s])) as [Heq|Hne].
    + apply app_inj_tail in Heq as [<- <-]. intros _. rewrite lookup_insert_ne; [done|].
      intros Heq. apply (f_equal length) in Heq. rewrite length_app in Heq. simpl in Heq. lia.
    + rewrite lookup_insert_ne by done. intros Hl%Hpar.
      rewrite lookup_insert_ne; [done|]. by intros <-.
Qed.

(** Writing a file keeps the file system well formed: the parent is a
    directory and the entry written is not one. *)
Lemma wf_writeFileSync path data : preserves wf_world (writeFileSync path data).
Proof.
  intros w Hwf. unfold writeFileSync. prog_unfold.
  destruct (reverse (path_key path)) as [|seg rparent] eqn:Hk; [done|].
  apply (f_equal reverse) in Hk. rewrite reverse_involutive, reverse_cons in Hk.
  destruct (w_fs w !! reverse rparent) as [[]|] eqn:Hp; [done| |done].
  destruct (decide (w_fs w !! path_key path = Some Dir)) as [->|Hnd]; [done|].
  assert (wf_world (World (<[path_key path := File data]> (w_fs w)) (w_console w))).
  { rewrite Hk in *. by apply insert_file_wf. }
  by destruct (w_fs w !! path_key path) as [[]|].
Qed.

(** ** A file in the way *)

(** [mkdir_p] throws when an entry at or above the path is a file, and
    has created nothing by then: the entries above a file are
    directories. *)
Lemma mkdir_p_blocked fs prefix p q b :
  fs_wf fs → p ≠ [] → fs !! (prefix ++ p) = Some (File b) →
  mkdir_p fs prefix (p ++ q)
  = Throw (SystemError (if q is [] then "EEXIST" else "ENOTDIR")).
Proof.
  intros Hwf. revert prefix. induction p as [|s p IH]; intros prefix Hp Hl; [done|].
  replace (prefix ++ s :: p) with ((prefix ++ [s]) ++ p) in Hl
    by (by rewrite <-(assoc_L (++))).
  cbn [app mkdir_p]. destruct p as [|s' p].
  - rewrite app_nil_r in Hl. by rewrite Hl.
  - rewrite (fs_wf_ancestor _ _ _ _ Hwf Hl) by done. by apply IH.
Qed.

(** The file system [fs] holds a file at [p]: neither a directory at or
    under [p] can be made, nor a file written into it, and both calls
    leave the file system as it is. *)
Section blocked.
Context (fs : gmap (list jsstring) node) (p q : list jsstring) (b : list N).
Hypothesis (Hwf : fs_wf fs) (Hp : fs !! p = Some (File b)).

Lemma blocked_lookup : fs !! (p ++ q) ≠ Some Dir.
Proof.
  destruct q as [|s q'] eqn:Hq; [by rewrite app_nil_r, Hp|]. intros Hl.
  by rewrite (fs_wf_ancestor _ _ _ _ Hwf Hl) in Hp.
Qed.

Lemma blocked_mkdirSync_recursive dir :
  path_key dir = p ++ q → preserves (λ w, w_fs w = fs) (mkdirSync_recursive dir).
Proof.
  intros Hk w Hw. unfold mkdirSync_recursive. prog_unfold. rewrite Hk, Hw.
  rewrite (mkdir_p_blocked fs [] p q b); [done..| |done].
  intros ->. destruct Hwf as [Hroot _]. congruence.
Qed.

Lemma blocked_writeFileSync path data :
  path_key (path_dirname path) = p ++ q →
  preserves (λ w, w_fs w = fs) (writeFileSync path data).
Proof.
  intros Hk w Hw. unfold writeFileSync. prog_unfold. rewrite path_key_dirname in Hk.
  destruct (reverse (path_key path)) as [|seg rparent]; [done|]. cbn [tail] in Hk.
  rewrite Hk, Hw. pose proof blocked_lookup. by destruct (fs !! (p ++ q)) as [[]|].
Qed.

End blocked.

(** ** What a computation reads *)

#[export] Instance agree_equivalence K : Equivalence (agree K).
Proof.
  split; [done|by intros fs fs' Ha k Hk; rewrite Ha|].
  intros fs1 fs2 fs3 H12 H23 k Hk. by rewrite H12, H23.
Qed.

Section reads_rules.
Context {A B : Type} (K : list (list jsstring)).
Implicit Types (m : io A) (f : A → io B).

Lemma reads_ret (a : A) : reads K (mret a).
Proof. by intros w w'. Qed.

Lemma reads_plift (r : result A) : reads K (plift r).
Proof. by intros w w'. Qed.

Lemma reads_pexit c : reads K (pexit (A:=A) c).
Proof. by intros w w'. Qed.

(** The worlds that a reader leaves agree where the worlds it started in
    agree, and its outcome is the same. *)
Lemma reads_step m w w' :
  reads K m → agree K (w_fs w) (w_fs w') →
  (m w).1 = (m w').1 ∧ agree K (w_fs (m w).2) (w_fs (m w').2) ∧ w_fs (m w).2 = w_fs w.
Proof.
  intros Hm Ha. destruct (Hm w w' Ha) as [Ho Hfs], (Hm w' w' (reflexivity _)) as [_ Hfs'].
  by rewrite Hfs, Hfs'.
Qed.

Lemma reads_bind m f : reads K m → (∀ a, reads K (f a)) → reads K (m ≫= f).
Proof.
  intros Hm Hf w w' Ha. destruct (reads_step m w w' Hm Ha) as (Ho & Ha1 & Hfs).
  rewrite !mbind_run. destruct (m w) as [r w1], (m w') as [r' w1']. simpl in *. subst r'.
  destruct r as [a| | |]; [|done..]. destruct (Hf a w1 w1' Ha1) as [? ?]. split; congruence.
Qed.

Lemma reads_catch m (h : js_error → io A) :
  reads K m → (∀ err, reads K (h err)) → reads K (pcatch m h).
Proof.
  intros Hm Hh w w' Ha. destruct (reads_step m w w' Hm Ha) as (Ho & Ha1 & Hfs).
  unfold pcatch. destruct (m w) as [r w1], (m w') as [r' w1']. simpl in *. subst r'.
  destruct r as [|err| |]; [done| |done..]. destruct (Hh err w1 w1' Ha1) as [? ?].
  split; congruence.
Qed.

End reads_rules.

(** The console is written, never read; a call of [fs] reads its path. *)
Lemma reads_console K st args : reads K (console st args).
Proof. by intros w w'. Qed.

Lemma reads_existsSync K path : path_key path ∈ K → reads K (existsSync path).
Proof. intros Hk w w' Ha. rewrite !existsSync_run. simpl. by rewrite (Ha _ Hk). Qed.

Lemma reads_read_bytes K path : path_key path ∈ K → reads K (read_bytes path).
Proof.
  intros Hk w w' Ha. unfold read_bytes. prog_unfold. rewrite <-(Ha _ Hk).
  by destruct (w_fs w !! path_key path) as [[]|].
Qed.

Lemma reads_readFileSync_utf8 K path : path_key path ∈ K → reads K (readFileSync_utf8 path).
Proof.
  intros Hk. apply reads_bind; [by apply reads_read_bytes | intros; apply reads_ret].
Qed.

(** ** The footprint of writes *)

#[export] Instance changes_only_preorder key dir : PreOrder (changes_only key dir).
Proof.
  split; [by left|]. intros fs1 fs2 fs3 H12 H23 k.
  destruct (H23 k) as [->|[->|(H2 & H3 & Hk)]]; [done|by auto|].
  destruct (H12 k) as [H1|[->|(_ & ? & _)]]; [|by auto|congruence].
  right; right. by rewrite <-H1.
Qed.

#[export] Instance changes_only_fs_invariant key dir fs :
  FsInvariant (λ w, changes_only key dir fs (w_fs w)).
Proof. by intros fs' c c'. Qed.

(** [mkdir_p] adds directories on the way to its target, and nothing
    else. *)
Lemma mkdir_p_changes key fs prefix segs fs' :
  mkdir_p fs prefix segs = Ret fs' → changes_only key (prefix ++ segs) fs fs'.
Proof.
  revert fs prefix. induction segs as [|seg segs IH]; intros fs prefix; simpl.
  { intros [= ->]. by left. }
  replace (prefix ++ seg :: segs) with ((prefix ++ [seg]) ++ segs)
    by (by rewrite <-(assoc_L (++))).
  destruct (fs !! (prefix ++ [seg])) as [[]|] eqn:Hp; [done|by apply IH|].
  intros Hm%IH. etrans; [|done]. intros k.
  destruct (decide (k = prefix ++ [seg])) as [->|Hk].
  - right; right. rewrite lookup_insert_eq. split_and!; [done..|by apply prefix_app_r].
  - left. by rewrite lookup_insert_ne.
Qed.

Lemma changes_mkdirSync_recursive key dir fs :
  preserves (λ w, changes_only key (path_key dir) fs (w_fs w)) (mkdirSync_recursive dir).
Proof.
  intros w Hw. unfold mkdirSync_recursive. prog_unfold.
  destruct (mkdir_p _ _ _) as [fs'| | |] eqn:Hm; try done.
  etrans; [done|]. by apply (mkdir_p_changes key) in Hm.
Qed.

Lemma changes_writeFileSync path data dir fs :
  preserves (λ w, changes_only (path_key path) dir fs (w_fs w)) (writeFileSync path data).
Proof.
  intros w Hw. unfold writeFileSync. prog_unfold.
  assert (changes_only (path_key path) dir fs (<[path_key path := File data]> (w_fs w))).
  { etrans; [done|]. intros k. destruct (decide (k = path_key path)) as [->|Hk]; [by auto|].
    left. by rewrite lookup_insert_ne. }
  by repeat case_match.
Qed.

(** ** Entries stay *)

#[export] Instance grows_preorder : PreOrder grows.
Proof. split; [done|]. intros a b c [? ?] [? ?]. split; auto. Qed.

#[export] Instance grows_fs_invariant a k : FsInvariant (λ w, grows a (w_fs w !! k)).
Proof. by intros fs c c'. Qed.

(** [mkdirSync] removes nothing and replaces nothing. *)
Lemma grows_mkdirSync_recursive a k path :
  preserves (λ w, grows a (w_fs w !! k)) (mkdirSync_recursive path).
Proof.
  intros w Hw. unfold mkdirSync_recursive. prog_unfold.
  destruct (mkdir_p _ _ _) as [fs'| | |] eqn:Hm; try done. simpl. etrans; [done|].
  split; [intros [n Hn]; exists n|intros Hn]; by eapply mkdir_p_lookup.
Qed.

(** [writeFileSync] removes nothing and replaces no directory. *)
Lemma grows_writeFileSync a k path data :
  preserves (λ w, grows a (w_fs w !! k)) (writeFileSync path data).
Proof.
  intros w Hw. unfold writeFileSync. prog_unfold.
  destruct (reverse (path_key path)) as [|name rparent]; [done|].
  destruct (w_fs w !! reverse rparent) as [[]|]; [done| |done].
  destruct (w_fs w !! path_key path) as [[]|] eqn:Hk; [|done|]; simpl.
  all: etrans; [done|]; destruct (decide (k = path_key path)) as [->|];
    [|by rewrite lookup_insert_ne].
  all: rewrite lookup_insert_eq, Hk; split; [by eexists|done].
Qed.

(** The worlds of the examples are well formed. *)
Lemma empty_fs_wf : fs_wf empty_fs.
Proof.
  split; [done|]. intros p seg n Hl. unfold empty_fs in Hl.
  apply lookup_singleton_Some in Hl as [Hl _]. by destruct p.
Qed.

Lemma add_file_wf path bytes fs : fs_wf fs → fs_wf (add_file path bytes fs).
Proof.
  intros Hwf. unfold add_file.
  destruct (reverse (path_key path)) as [|name rparent]; [done|].
  destruct (mkdir_p fs [] (reverse rparent)) as [fs'| | |] eqn:Hm; try done.
  case_decide; [done|]. apply insert_file_wf; [|by eapply mkdir_p_creates_root, Hm; apply Hwf|done].
  eapply mkdir_p_wf; [done|apply Hwf|done].
Qed.

#[export] Hint Resolve empty_fs_wf add_file_wf : docgen.

#[export] Hint Resolve preserves_ret preserves_plift preserves_pexit preserves_bind
  preserves_catch preserves_console preserves_existsSync preserves_read_bytes
  preserves_readFileSync_utf8 wf_mkdirSync_recursive wf_writeFileSync
  changes_mkdirSync_recursive changes_writeFileSync
  grows_mkdirSync_recursive grows_writeFileSync : docgen.

#[export] Hint Resolve reads_ret reads_plift reads_pexit reads_bind reads_catch
  reads_console reads_existsSync reads_read_bytes reads_readFileSync_utf8
  list_elem_of_here list_elem_of_further : docgen.

(** Prove [tame m], [preserves I m] or [reads K m] by the rules, following
    the structure of [m]. *)
Ltac io_rules :=
  repeat first
    [ progress auto with docgen
    | apply tame_bind; [|intro]
    | apply tame_catch; [|intro]
    | apply preserves_bind; [|intro]
    | apply preserves_catch; [|intro]
    | apply reads_bind; [|intro]
    | apply reads_catch; [|intro]
    | case_match
    | case_decide ].
