(* ===== verification/Hoare.v ===== *)
(** Postconditions: what holds of the world when a computation returns,
    as triples with their rules, and the triples of the calls that
    write. *)

From stdpp Require Import base tactics numbers strings option list gmap.
From S2P Require Import Prelude JsString JsValue Path World.

(** When [m] starts in a world where [P] holds and returns [a], [Q a]
    holds of the world it leaves.  Nothing is said of the runs that throw
    or leave the process. *)
Definition hoare {A} (P : world → Prop) (m : io A) (Q : A → world → Prop) : Prop :=
  ∀ w a w', P w → m w = (Ret a, w') → Q a w'.

Declare Scope hoare_scope.
Delimit Scope hoare_scope with hoare.
Notation "⦃ P ⦄ m ⦃ a , Q ⦄" := (hoare P m (λ a, Q))
  (at level 20, P at level 200, m at level 200, a binder, Q at level 200,
   format "'[hv' ⦃  P  ⦄ '/  ' m '/' ⦃  a ,  Q  ⦄ ']'") : hoare_scope.
Local Open Scope hoare_scope.

(** ** Rules *)

Section rules.
Context {A B : Type}.
Implicit Types (P : world → Prop) (m : io A) (f : A → io B).

Lemma hoare_consequence P P' m (Q Q' : A → world → Prop) :
  ⦃ P' ⦄ m ⦃ a, Q' a ⦄ → (∀ w, P w → P' w) → (∀ a w, Q' a w → Q a w) →
  ⦃ P ⦄ m ⦃ a, Q a ⦄.
Proof. intros Hm HP HQ w a w' Hw Hr. eapply HQ, Hm; [by apply HP|done]. Qed.

Lemma hoare_trivial P m : ⦃ P ⦄ m ⦃ _, λ _, True ⦄.
Proof. by intros w a w' _ _. Qed.

Lemma hoare_ret P (a : A) : ⦃ P ⦄ mret a ⦃ b, λ w, b = a ∧ P w ⦄.
Proof. by intros w b w' Hw [= <- <-]. Qed.

Lemma hoare_plift P (r : result A) : ⦃ P ⦄ plift r ⦃ a, λ w, r = Ret a ∧ P w ⦄.
Proof. intros w a w' Hw. destruct r; by intros [= <- <-]. Qed.

Lemma hoare_bind P m f (R : A → world → Prop) (Q : B → world → Prop) :
  ⦃ P ⦄ m ⦃ a, R a ⦄ → (∀ a, ⦃ R a ⦄ f a ⦃ b, Q b ⦄) → ⦃ P ⦄ m ≫= f ⦃ b, Q b ⦄.
Proof.
  intros Hm Hf w b w' Hw. rewrite mbind_run.
  destruct (m w) as [[a| | |] w1] eqn:Hr; [|done..]. by eapply Hf, Hm.
Qed.

(** [try]/[catch] with a handler that never returns. *)
Lemma hoare_catch_never P m (h : js_error → io A) (Q : A → world → Prop) :
  ⦃ P ⦄ m ⦃ a, Q a ⦄ → (∀ err w, ¬ is_Ret (h err w).1) → ⦃ P ⦄ pcatch m h ⦃ a, Q a ⦄.
Proof.
  intros Hm Hh w a w' Hw. unfold pcatch. destruct (m w) as [[b|err| |] w1] eqn:Hr.
  - intros [= <- <-]. by eapply Hm.
  - intros Hr'. destruct (Hh err w1). rewrite Hr'. by eexists.
  - done.
  - done.
Qed.

(** A fact that does not depend on the world is assumed once. *)
Lemma hoare_pure (φ : Prop) P m (Q : A → world → Prop) :
  (φ → ⦃ P ⦄ m ⦃ a, Q a ⦄) → ⦃ λ w, φ ∧ P w ⦄ m ⦃ a, Q a ⦄.
Proof. intros Hm w a w' [Hφ Hw]. by apply Hm. Qed.

(** What a computation keeps, however it ends, it keeps when it
    returns. *)
Lemma hoare_preserves (I : world → Prop) m : preserves I m → ⦃ I ⦄ m ⦃ _, I ⦄.
Proof. intros Hm w a w' Hw Hr. specialize (Hm w Hw). by rewrite Hr in Hm. Qed.

End rules.

(** ** The calls that write *)

(** After [writeFileSync] has returned, the path holds the data, in the
    directory of the path. *)
Lemma hoare_writeFileSync P path data :
  ⦃ P ⦄ writeFileSync path data
  ⦃ _, λ w, w_fs w !! path_key path = Some (File data)
            ∧ w_fs w !! path_key (path_dirname path) = Some Dir ⦄.
Proof.
  intros w [] w' _. unfold writeFileSync. prog_unfold. rewrite path_key_dirname.
  destruct (reverse (path_key path)) as [|name rparent] eqn:Hr; [done|].
  pose proof (reverse_cons_ne _ _ _ Hr) as Hne.
  repeat case_match; intros [= <-]; simpl.
  all: by rewrite lookup_insert_eq, lookup_insert_ne.
Qed.
