(* ===== verification/Template.v ===== *)
(** Template resolution: [getDefaultItems] and [loadTemplate] of
    generate.js, the reference search [findTemplateBlock] that the regular
    expression of [loadTemplate] implements, and the theorems on the
    fallback chain. *)

From Stdlib Require Import Ascii.
From stdpp Require Import base tactics numbers strings option list gmap.
From S2P Require Import Prelude JsString Regex RegexSyntax JsValue Json JsonGrammar Path World.

(** ** Built-in checklist *)

(** An object literal [{ function: f, points: p }]. *)
Definition item (f p : string) : json :=
  JObject [(js "function", JString (js f)); (js "points", JString (js p))].

(** [getDefaultItems()]. *)
Definition getDefaultItems : json :=
  JArray [
    item "功能完整性测试" "验证所有声明功能是否正常工作";
    item "性能测试" "测试系统响应时间、吞吐量";
    item "兼容性测试" "验证与主流环境的兼容性";
    item "稳定性测试" "进行长时间运行测试";
    item "用户界面测试" "检查UI布局、交互逻辑";
    item "数据准确性测试" "验证输入输出数据的一致性"
  ].

(** ** Patterns *)

(** What follows the heading in both patterns of [loadTemplate]. *)
Definition pattern_tail : jsstring := js "[\s\S]*?```json([\s\S]*?)```".

(** The heading a template is searched by. *)
Definition heading (templateName : jsstring) : jsstring := js "## " ++ templateName.

(** The source text of [templatePattern]: the template literal with the
    name spliced in. *)
Definition pattern_source (templateName : jsstring) : jsstring :=
  heading templateName ++ pattern_tail.

(** [new RegExp(source, 'i')] as a computation: a [SyntaxError] for
    ill-formed source text. *)
Definition new_RegExp (source : jsstring) : result regex :=
  match RegExp_new source with
  | Compiled r => Ret r
  | BadSyntax => Throw SyntaxError
  | Unsupported => Unmodelled
  end.

Definition fence_open : jsstring := js "```json".
Definition fence_close : jsstring := js "```".

(** The pattern of the payload: group 1 and the closing fence. *)
Definition payload_regex : regex :=
  RSeq (RGroup 1 (RSeq (RRepeat 0 None false any_char) REmpty))
    (seq_lit fence_close REmpty).

(** The pattern that [pattern_tail] denotes. *)
Definition tail_regex : regex :=
  RSeq (RRepeat 0 None false any_char) (seq_lit fence_open payload_regex).

(** The regular-expression literal of the second search,
    [/## default[\s\S]*?```json([\s\S]*?)```/i]. *)
Definition defaultPattern : regex := seq_lit (heading (js "default")) tail_regex.

(** ** [loadTemplate] *)

(** [a || b] where [b] is a value. *)
Definition or_else (a : jsval) (b : json) : json :=
  match a with
  | Some x => if truthy a then x else b
  | None => b
  end.

(** [JSON.parse(text).items || getDefaultItems()]. *)
Definition payload_items (text : jsstring) : result json :=
  template ← JSON_parse text;
  items ← get_property (Some template) (js "items");
  Ret (or_else items getDefaultItems).

(** The body of both [try] blocks, on the match [m]:
    [JSON.parse(m[1].trim()).items || getDefaultItems()]. *)
Definition parse_block (m : match_result) : result json :=
  text ← call_trim (capture m 1);
  payload_items text.

Definition warn_missing_file : list cval :=
  [CStr (js "警告: 模板文件不存在，使用默认测试项")].

Definition warn_parse_failed (templateName : jsstring) : list cval :=
  [CStr (js "警告: 解析模板 " ++ [dquote] ++ templateName ++ [dquote]
         ++ js " 失败，使用默认测试项")].

Definition warn_not_found (templateName : jsstring) : list cval :=
  [CStr (js "警告: 模板 " ++ [dquote] ++ templateName ++ [dquote]
         ++ js " 未找到，尝试使用 default 模板")].

Section resolver.
Context `{Canonicalize} (e : env).

Definition templatesPath : jsstring :=
  path_join [env_dirname e; js ".."; js "references"; js "templates.md"].

(** A search and its [try] block: the value returned from inside the
    block, or [None] when control leaves the [if] statement. *)
Definition try_block (content : jsstring) (pattern : regex) (on_error : io unit)
  : io (option json) :=
  match String_match content pattern with
  | Some m =>
      pcatch (v ← plift (parse_block m); mret (Some v))
             (λ _, on_error;; mret None)
  | None => mret None
  end.

(** The second search, for names other than [default]. *)
Definition try_default (content templateName : jsstring) : io (option json) :=
  if decide (templateName ≠ js "default") then
    console_warn (warn_not_found templateName);;
    try_block content defaultPattern (mret tt)
  else mret None.

(** What [loadTemplate] does once the catalogue text is read. *)
Definition resolve_in (content templateName : jsstring) : io json :=
  templatePattern ← plift (new_RegExp (pattern_source templateName));
  r1 ← try_block content templatePattern (console_warn (warn_parse_failed templateName));
  match r1 with
  | Some v => mret v
  | None =>
      r2 ← try_default content templateName;
      match r2 with
      | Some v => mret v
      | None => mret getDefaultItems
      end
  end.

Definition loadTemplate (templateName : jsstring) : io json :=
  ex ← existsSync templatesPath;
  if negb ex then
    console_warn warn_missing_file;;
    mret getDefaultItems
  else
    content ← readFileSync_utf8 templatesPath;
    resolve_in content templateName.

End resolver.

(** ** Reference definitions *)

(** A name without characters that are special in a pattern. *)
Definition plain_name (templateName : jsstring) : Prop :=
  Forall (λ c, plain_char c = true) templateName.

#[export] Instance plain_name_dec name : Decision (plain_name name).
Proof. unfold plain_name. apply _. Defined.

Section reference.
Context `{Canonicalize}.

(** The text between the first opening fence [```json] of [s] and the
    first fence after it, up to case. *)
Definition payload_after (s : jsstring) : option jsstring :=
  '(_, after_open) ← find_ci fence_open s;
  '(payload, _) ← find_ci fence_close after_open;
  Some payload.

(** The payload of the block of a template: the payload after the first
    heading [## name], up to case. *)
Definition findTemplateBlock (content templateName : jsstring) : option jsstring :=
  '(_, after_heading) ← find_ci (heading templateName) content;
  payload_after after_heading.

(** A text without a backtick, up to case: no fence starts in it. *)
Definition fence_free (s : jsstring) : Prop := Forall (λ c, eq_ci 96 c = false) s.

(** What a catalogue holds for a name: a checklist, a block that cannot be
    used (its payload is not JSON, or is [null]), or no block. *)
Inductive lookup_result : Type :=
| Items (v : json)
| Unusable
| NoBlock.

Definition lookup_template (content templateName : jsstring) : lookup_result :=
  match findTemplateBlock content templateName with
  | Some payload =>
      match payload_items (trim payload) with
      | Ret v => Items v
      | _ => Unusable
      end
  | None => NoBlock
  end.

(** One tier of the fallback chain: the checklist of the block of
    [templateName], [on_error] and nothing when the block is unusable,
    nothing when there is no block. *)
Definition tier (content templateName : jsstring) (on_error : io unit) : io (option json) :=
  match lookup_template content templateName with
  | Items v => mret (Some v)
  | Unusable => on_error;; mret None
  | NoBlock => mret None
  end.

(** The checklist that the fallback chain yields. *)
Definition resolve_value (content templateName : jsstring) : json :=
  match lookup_template content templateName with
  | Items v => v
  | _ =>
      if decide (templateName ≠ js "default") then
        match lookup_template content (js "default") with
        | Items v => v
        | _ => getDefaultItems
        end
      else getDefaultItems
  end.

(** The warnings that the fallback chain prints, in order. *)
Definition resolve_warnings (content templateName : jsstring) : list (list cval) :=
  match lookup_template content templateName with
  | Items _ => []
  | r =>
      (if r is Unusable then [warn_parse_failed templateName] else [])
      ++ (if decide (templateName ≠ js "default") then [warn_not_found templateName] else [])
  end.

(** The world after the warnings [ws]. *)
Definition warned (ws : list (list cval)) (w : world) : world :=
  World (w_fs w) (w_console w ++ ((λ args, (Warn, args)) <$> ws)).

(** The fallback chain of [loadTemplate] over the reference search. *)
Definition resolve (content templateName : jsstring) : io json :=
  r1 ← tier content templateName (console_warn (warn_parse_failed templateName));
  match r1 with
  | Some v => mret v
  | None =>
      r2 ← (if decide (templateName ≠ js "default") then
              console_warn (warn_not_found templateName);;
              tier content (js "default") (mret tt)
            else mret None);
      match r2 with
      | Some v => mret v
      | None => mret getDefaultItems
      end
  end.

End reference.

(** ** Catalogues of the examples *)

(** Where [sample_env] puts the catalogue. *)
Definition catalogue_path : jsstring := js "/opt/skill/references/templates.md".

(** Scenario A: a section [default] with two entries. *)
Definition catalogue_A : list N := text_bytes "# Templates

## default
```json
{'items': [{'function': 'A', 'points': 'B'}, {'function': 'C', 'points': 'D'}]}
```
".

(** Scenario B: neither a section [custom] nor a section [default]. *)
Definition catalogue_B : list N := text_bytes "# Templates

## smoke
```json
{'items': [{'function': 'S', 'points': 'T'}]}
```
".

(** A section whose block has no [items], before a section [default]. *)
Definition catalogue_C : list N := text_bytes "## basic
```json
{'entries': [{'function': 'X', 'points': 'Y'}]}
```
## default
```json
{'items': [{'function': 'A', 'points': 'B'}]}
```
".

(** A section without a block, before a section with one. *)
Definition catalogue_D : list N := text_bytes "## alpha
to be written
## beta
```json
{'items': [{'function': 'B1', 'points': 'B2'}]}
```
".

(** A section whose block is cut short, before a section [default]. *)
Definition catalogue_malformed : list N := text_bytes "## smoke
```json
{'items': [{'function': 'S', 'points':
```
## default
```json
{'items': [{'function': 'A', 'points': 'B'}]}
```
".

(** A section with an indented block, under a title. *)
Definition catalogue_indented : list N := text_bytes "# Templates

## smoke
Smoke tests of a release.
```json
{
  'items': [
    {
      'function': 'S',
      'points': 'T'
    },
    {
      'function': 'U',
      'points': 'V'
    }
  ]
}
```
".

(** The world in which the catalogue holds [bytes]. *)
Definition world_of (bytes : list N) : world :=
  quiet (add_file catalogue_path bytes empty_fs).

(** ** The patterns are what their source text says *)

Lemma heading_plain name : plain_name name → plain_name (heading name).
Proof.
  intros Hn. unfold heading, plain_name. apply Forall_app. split; [|done].
  by apply (bool_decide_unpack _).
Qed.

Lemma pattern_tail_parse : parse_alts (S (length pattern_tail)) pattern_tail 0
  = POk (tail_regex, None, [], 1%nat).
Proof. by vm_compute. Qed.

(** The source text of [templatePattern] with a plain name denotes the
    name's heading followed by the fixed tail. *)
Lemma RegExp_new_plain name :
  plain_name name →
  RegExp_new (pattern_source name) = Compiled (seq_lit (heading name) tail_regex).
Proof.
  intros Hn. unfold RegExp_new, pattern_source.
  rewrite length_app, <-Nat.add_succ_r.
  rewrite parse_alts_plain_prefix; [|by apply heading_plain|by apply (bool_decide_unpack _)].
  by rewrite pattern_tail_parse.
Qed.

Lemma defaultPattern_source :
  RegExp_new (js "## default[\s\S]*?```json([\s\S]*?)```") = Compiled defaultPattern.
Proof. by vm_compute. Qed.

(** ** The regular expression implements the reference search *)

Section block_search.
Context `{Canonicalize}.

Lemma mtch_payload u :
  (λ y, m_caps y !! 1%nat) <$> mtch payload_regex u Some
  = (λ pr, Some pr.1) <$> find_ci fence_close (m_rest u).
Proof.
  unfold payload_regex. rewrite mtch_seq, mtch_group, mtch_seq, mtch_lazy_any.
  erewrite scan_ext;
    [|intros x; rewrite mtch_empty, mtch_seq_lit; cbn [m_rest set_cap]; reflexivity].
  rewrite scan_find by done.
  destruct (find_ci fence_close (m_rest u)) as [[payload rest]|] eqn:Hf; [|done].
  cbn [fmap option_fmap option_map mtch advance set_cap m_caps fst].
  rewrite lookup_insert_eq, consumed_drop.
  - by rewrite <-(find_ci_pre _ _ _ _ Hf).
  - apply find_ci_occurs in Hf as (m & -> & _). rewrite length_app. lia.
Qed.

Lemma payload_after_find s :
  payload_after s =
  match find_ci fence_open s with
  | Some (_, rest) => fst <$> find_ci fence_close rest
  | None => None
  end.
Proof.
  unfold payload_after. destruct (find_ci fence_open s) as [[pre rest]|]; [|done].
  simpl. by destruct (find_ci fence_close rest) as [[payload post]|].
Qed.

(** No payload after a position: none after a later one. *)
Lemma payload_after_suffix s s' :
  s' `suffix_of` s → payload_after s = None → payload_after s' = None.
Proof.
  intros Hs. rewrite !payload_after_find.
  destruct (find_ci fence_open s') as [[pre' rest']|] eqn:Hf'; [|done].
  destruct (find_ci fence_open s) as [[pre rest]|] eqn:Hf.
  - destruct (find_ci fence_close rest) eqn:Hc; [done|]. intros _.
    rewrite (find_ci_None_suffix fence_close rest rest'); [done| |done].
    eapply find_ci_later; done.
  - intros _. by rewrite (find_ci_None_suffix fence_open s s') in Hf'.
Qed.

(** The tail of the pattern captures the payload after the position it
    starts at. *)
Lemma mtch_tail z :
  (λ y, m_caps y !! 1%nat) <$> mtch tail_regex z Some
  = Some <$> payload_after (m_rest z).
Proof.
  unfold tail_regex. rewrite mtch_seq, mtch_lazy_any, scan_fmap.
  rewrite (scan_ext _ (λ x, match strip_prefix_ci fence_open (m_rest x) with
                            | Some rest => (λ pr, Some pr.1) <$> find_ci fence_close rest
                            | None => None
                            end)).
  - rewrite (scan_find fence_open (λ _ rest, (λ pr, Some pr.1) <$> find_ci fence_close rest)).
    + rewrite payload_after_find.
      destruct (find_ci fence_open (m_rest z)) as [[pre rest]|]; [|done].
      by destruct (find_ci fence_close rest) as [[payload post]|].
    + intros _ r _ r' Hr Hn. apply fmap_None in Hn. apply fmap_None.
      by eapply find_ci_None_suffix.
  - intros x. rewrite mtch_seq_lit.
    destruct (strip_prefix_ci fence_open (m_rest x)) as [rest|]; [|done].
    by rewrite mtch_payload.
Qed.

(** Group 1 of the match of a heading's pattern is the payload that the
    reference search finds, and there is a match exactly when there is
    such a payload. *)
Lemma String_match_block content name :
  (λ m, capture m 1) <$> String_match content (seq_lit (heading name) tail_regex)
  = Some <$> findTemplateBlock content name.
Proof.
  unfold String_match. rewrite scan_fmap.
  rewrite (scan_ext _ (λ x, match strip_prefix_ci (heading name) (m_rest x) with
                            | Some rest => Some <$> payload_after rest
                            | None => None
                            end)).
  - rewrite (scan_find (heading name) (λ _ rest, Some <$> payload_after rest)).
    + unfold findTemplateBlock.
      by destruct (find_ci (heading name) content) as [[pre rest]|].
    + intros _ r _ r' Hr Hn. apply fmap_None in Hn. apply fmap_None.
      by eapply payload_after_suffix.
  - intros x. unfold exec_at. rewrite mtch_seq_lit.
    destruct (strip_prefix_ci (heading name) (m_rest x)) as [rest|]; [|done].
    set (z := advance x _ rest). change rest with (m_rest z).
    rewrite <-(mtch_tail z). by destruct (mtch tail_regex z Some).
Qed.

End block_search.

(** ** The fallback chain *)

Lemma payload_items_returns_or_throws text : returns_or_throws (payload_items text).
Proof.
  unfold payload_items. apply outcome_bind_returns_or_throws; [auto with docgen|].
  intros template. apply outcome_bind_returns_or_throws; [auto with docgen|done].
Qed.

(** The checklist of a payload is truthy: [a || b] with [b] an array. *)
Lemma or_else_truthy a b : truthy (Some b) = true → truthy (Some (or_else a b)) = true.
Proof.
  intros Hb. unfold or_else. destruct a as [x|]; [|done].
  by destruct (truthy (Some x)) eqn:Hx.
Qed.

Lemma payload_items_truthy text v : payload_items text = Ret v → truthy (Some v) = true.
Proof.
  unfold payload_items, mbind, outcome_mbind.
  destruct (JSON_parse text) as [template| | |]; [|done..]. rewrite outcome_bind_Ret.
  destruct (get_property (Some template) (js "items")) as [items| | |]; [|done..].
  rewrite outcome_bind_Ret. intros [= <-]. by apply or_else_truthy.
Qed.

Lemma new_RegExp_plain name :
  plain_name name → new_RegExp (pattern_source name) = Ret (seq_lit (heading name) tail_regex).
Proof. intros Hn. unfold new_RegExp. by rewrite RegExp_new_plain. Qed.

Section chain.
Context `{Canonicalize} (e : env).

(** A search with the pattern of a heading and its [try] block is a tier
    of the reference chain. *)
Lemma try_block_tier content name on_error :
  try_block content (seq_lit (heading name) tail_regex) on_error ≡ tier content name on_error.
Proof.
  intros w. unfold try_block, tier, lookup_template.
  pose proof (String_match_block content name) as Hm.
  destruct (String_match _ _) as [m|], (findTemplateBlock _ _) as [payload|]; try done.
  assert (capture m 1 = Some payload) as Hc by (by injection Hm).
  unfold parse_block. rewrite Hc.
  change (call_trim (Some payload) ≫= _) with (payload_items (trim payload)).
  rewrite pcatch_plift by apply payload_items_returns_or_throws.
  by destruct (payload_items _).
Qed.

Lemma try_default_tier content name :
  try_default content name ≡
  (if decide (name ≠ js "default") then
     console_warn (warn_not_found name);; tier content (js "default") (mret tt)
   else mret None).
Proof.
  unfold try_default, defaultPattern. case_decide; [|done].
  f_equiv. intros _. apply try_block_tier.
Qed.

(** For a plain name, [loadTemplate] on a catalogue text is the reference
    chain. *)
Lemma resolve_in_resolve content name :
  plain_name name → resolve_in content name ≡ resolve content name.
Proof.
  intros Hn. unfold resolve_in. rewrite new_RegExp_plain by done.
  trans (r1 ← try_block content (seq_lit (heading name) tail_regex)
                 (console_warn (warn_parse_failed name));
         match r1 with
         | Some v => mret v
         | None => r2 ← try_default content name;
                   match r2 with Some v => mret v | None => mret getDefaultItems end
         end); [done|].
  unfold resolve. f_equiv; [|apply try_block_tier].
  intros [v|]; [done|]. f_equiv. apply try_default_tier.
Qed.

(** The reference chain runs to the checklist [resolve_value] and prints
    the warnings [resolve_warnings]. *)
Lemma resolve_run content name w :
  resolve content name w =
  (Ret (resolve_value content name), warned (resolve_warnings content name) w).
Proof.
  unfold resolve, tier, resolve_value, resolve_warnings, warned.
  destruct w as [fs out].
  destruct (lookup_template content name);
    try (case_decide; [destruct (lookup_template content (js "default"))|]);
    run_io; rewrite ?app_nil_r, <-?(assoc_L (++)); done.
Qed.

(** ** Invariants and outcomes of [loadTemplate] *)

Lemma parse_block_returns_or_throws m : returns_or_throws (parse_block m).
Proof.
  unfold parse_block. apply outcome_bind_returns_or_throws.
  - by destruct (capture m 1).
  - intros text. apply payload_items_returns_or_throws.
Qed.

Lemma new_RegExp_returns_or_throws source :
  RegExp_new source ≠ Unsupported → returns_or_throws (new_RegExp source).
Proof. unfold new_RegExp. by destruct (RegExp_new source). Qed.

#[local] Hint Resolve parse_block_returns_or_throws new_RegExp_returns_or_throws : docgen.

Lemma tame_try_block content pattern on_error :
  tame on_error → tame (try_block content pattern on_error).
Proof. intros Ho. unfold try_block. io_rules. Qed.

(** [loadTemplate] has a tame outcome unless the pattern of the name lies
    outside the modelled fragment of regular expressions. *)
Lemma tame_loadTemplate name :
  RegExp_new (pattern_source name) ≠ Unsupported → tame (loadTemplate e name).
Proof.
  intros Hs. unfold loadTemplate, resolve_in, try_default.
  pose proof tame_try_block. io_rules.
Qed.

Lemma reads_try_block K content pattern on_error :
  reads K on_error → reads K (try_block content pattern on_error).
Proof. intros Ho. unfold try_block. io_rules. Qed.

(** [loadTemplate] reads the catalogue and nothing else: its outcome is
    the same in worlds that hold the same at the catalogue's path. *)
Lemma reads_loadTemplate K name :
  path_key (templatesPath e) ∈ K → reads K (loadTemplate e name).
Proof.
  intros Hk. unfold loadTemplate, resolve_in, try_default.
  pose proof reads_try_block. io_rules.
Qed.

Section preserves.
Context (I : world → Prop) `{!FsInvariant I}.

Lemma preserves_try_block content pattern on_error :
  preserves I on_error → preserves I (try_block content pattern on_error).
Proof. intros Ho. unfold try_block. io_rules. Qed.

(** [loadTemplate] keeps every invariant of the file system. *)
Lemma preserves_loadTemplate name : preserves I (loadTemplate e name).
Proof.
  unfold loadTemplate, resolve_in, try_default.
  pose proof preserves_try_block. io_rules.
Qed.

End preserves.

(** ** [loadTemplate] *)

Lemma loadTemplate_file name w bytes :
  w_fs w !! path_key (templatesPath e) = Some (File bytes) →
  loadTemplate e name w = resolve_in (Buffer_toString bytes) name w.
Proof.
  intros Hf. unfold loadTemplate. rewrite (existsSync_bind_Some _ _ _ _ Hf). cbn [negb].
  by rewrite (readFileSync_utf8_bind _ _ _ _ Hf).
Qed.

(** Nothing printed: the world as it was. *)
Lemma warned_nil w : warned [] w = w.
Proof. destruct w. unfold warned. simpl. by rewrite app_nil_r. Qed.

(** The catalogue is a file and the name has no character that is
    special in a pattern. *)
Section catalogue.
Context (name : jsstring) (w : world) (bytes : list N).
Hypothesis Hname : plain_name name.
Hypothesis Hfile : w_fs w !! path_key (templatesPath e) = Some (File bytes).
Local Notation content := (Buffer_toString bytes).

(** C1. Refinement: when the catalogue is a file and the name has no
    character that is special in a pattern, a call of [loadTemplate] is a
    run of the reference chain [resolve] on the text of the catalogue:
    the payload after the first heading of the name, else that of
    [default], else the built-in entries, with the warnings of the chain
    and nothing else. *)
Theorem loadTemplate_refines : loadTemplate e name w = resolve content name w.
Proof. by rewrite (loadTemplate_file _ _ _ Hfile), (resolve_in_resolve _ _ Hname w). Qed.

(** What [loadTemplate] returns and what it prints. *)
Lemma loadTemplate_chain :
  loadTemplate e name w
  = (Ret (resolve_value content name), warned (resolve_warnings content name) w).
Proof.
  rewrite (loadTemplate_file _ _ _ Hfile), (resolve_in_resolve _ _ Hname w).
  apply resolve_run.
Qed.

End catalogue.

(** C4. Equivalence: for a name without special characters, the pattern
    that [loadTemplate] builds compiles, and its first match in a text
    captures in group 1 exactly the payload that the reference search
    [findTemplateBlock] returns; there is no match exactly when the
    reference search finds nothing. *)
Theorem pattern_finds_first_block content name :
  plain_name name →
  ∃ r, new_RegExp (pattern_source name) = Ret r ∧
       (λ m, capture m 1) <$> String_match content r
       = Some <$> findTemplateBlock content name.
Proof.
  intros Hn. eexists. split; [by apply new_RegExp_plain | apply String_match_block].
Qed.

Lemma lookup_template_truthy content name v :
  lookup_template content name = Items v → truthy (Some v) = true.
Proof.
  unfold lookup_template. destruct (findTemplateBlock content name) as [payload|]; [|done].
  destruct (payload_items (trim payload)) as [v'| | |] eqn:Hp; try done.
  intros [= <-]. by eapply payload_items_truthy.
Qed.

(** The chain yields a truthy value. *)
Lemma resolve_value_truthy content name : truthy (Some (resolve_value content name)) = true.
Proof.
  unfold resolve_value.
  destruct (lookup_template content name) eqn:H1;
    [by eapply lookup_template_truthy|..];
    (case_decide; [|reflexivity]);
    (destruct (lookup_template content (js "default")) eqn:H2;
       [by eapply lookup_template_truthy|reflexivity..]).
Qed.

(** The chain prints at most two warnings. *)
Lemma resolve_warnings_length content name : (length (resolve_warnings content name) ≤ 2)%nat.
Proof.
  unfold resolve_warnings.
  destruct (lookup_template content name); try case_decide; simpl; lia.
Qed.

(** C16. The resolver never fails on a readable catalogue: for a name
    without special characters, [loadTemplate] returns a truthy value,
    prints at most two warnings and changes nothing else. *)
Theorem loadTemplate_total name w bytes :
  plain_name name →
  w_fs w !! path_key (templatesPath e) = Some (File bytes) →
  ∃ v ws, loadTemplate e name w = (Ret v, warned ws w)
          ∧ truthy (Some v) = true ∧ (length ws ≤ 2)%nat.
Proof.
  intros Hn Hf. eexists _, _. split; [|split].
  - by apply loadTemplate_chain.
  - apply resolve_value_truthy.
  - apply resolve_warnings_length.
Qed.

(** A block whose payload is an object with truthy [items]. *)
Lemma lookup_template_Items content name payload props items :
  findTemplateBlock content name = Some payload →
  JSON_parse (trim payload) = Ret (JObject props) →
  own_property props (js "items") = Some items →
  truthy (Some items) = true →
  lookup_template content name = Items items.
Proof.
  intros Hb Hp Hi Ht. unfold lookup_template, payload_items. rewrite Hb, Hp.
  cbn [mbind outcome_mbind outcome_bind get_property]. rewrite Hi.
  unfold or_else. by rewrite Ht.
Qed.

(** A block whose payload is an object without [items]. *)
Lemma lookup_template_no_items content name payload props :
  findTemplateBlock content name = Some payload →
  JSON_parse (trim payload) = Ret (JObject props) →
  own_property props (js "items") = None →
  lookup_template content name = Items getDefaultItems.
Proof.
  intros Hb Hp Hi. unfold lookup_template, payload_items. rewrite Hb, Hp.
  cbn [mbind outcome_mbind outcome_bind get_property]. by rewrite Hi.
Qed.

(** A block whose payload is no JSON text. *)
Lemma lookup_template_Unusable content name payload :
  findTemplateBlock content name = Some payload →
  ¬ is_json_text (trim payload) →
  lookup_template content name = Unusable.
Proof.
  intros Hb Hp%JSON_parse_rejects. unfold lookup_template, payload_items.
  by rewrite Hb, Hp.
Qed.

(** No block. *)
Lemma lookup_template_NoBlock content name :
  findTemplateBlock content name = None → lookup_template content name = NoBlock.
Proof. intros Hb. unfold lookup_template. by rewrite Hb. Qed.

(** Where a block is found for a name, one is found for every prefix of
    the name. *)
Lemma findTemplateBlock_shorter content name more :
  is_Some (findTemplateBlock content (name ++ more)) →
  is_Some (findTemplateBlock content name).
Proof.
  unfold findTemplateBlock, heading. rewrite (assoc_L (++)).
  destruct (find_ci ((js "## " ++ name) ++ more) content) as [[pre rest]|] eqn:Hf;
    [|by intros [? ?]].
  destruct (find_ci_prefix _ _ _ _ _ Hf) as (pre' & rest' & -> & Hs). simpl.
  intros Hp. apply not_eq_None_Some. intros Hn.
  apply (payload_after_suffix _ _ Hs) in Hn. rewrite Hn in Hp. by destruct Hp.
Qed.

(** The payload of the first block, behind a text without a backtick. *)
Lemma payload_after_at text payload post :
  fence_free text → fence_free payload →
  payload_after (text ++ fence_open ++ payload ++ fence_close ++ post) = Some payload.
Proof.
  intros Ht Hp. rewrite payload_after_find.
  pose proof (find_ci_at 96 (tail fence_open) text (payload ++ fence_close ++ post) Ht) as H1.
  pose proof (find_ci_at 96 (tail fence_close) payload post Hp) as H2.
  change (96%N :: tail fence_open) with fence_open in H1.
  change (96%N :: tail fence_close) with fence_close in H2.
  by rewrite H1, H2.
Qed.

(** The block after the first heading of a name. *)
Lemma findTemplateBlock_found content name before text payload post :
  find_ci (heading name) content
  = Some (before, text ++ fence_open ++ payload ++ fence_close ++ post) →
  fence_free text → fence_free payload →
  findTemplateBlock content name = Some payload.
Proof. intros Hc Ht Hp. unfold findTemplateBlock. rewrite Hc. by apply payload_after_at. Qed.

(** The block after a heading that opens the catalogue. *)
Lemma findTemplateBlock_at name text payload post :
  fence_free text → fence_free payload →
  findTemplateBlock (heading name ++ text ++ fence_open ++ payload ++ fence_close ++ post) name
  = Some payload.
Proof.
  intros Ht Hp. unfold findTemplateBlock. rewrite find_ci_self.
  by apply payload_after_at.
Qed.

(** The theorems of the chain, on a catalogue that is a file and for a
    name without special characters. *)
Section found.
Context (name : jsstring) (w : world) (bytes : list N).
Hypothesis Hname : plain_name name.
Hypothesis Hfile : w_fs w !! path_key (templatesPath e) = Some (File bytes).
Local Notation content := (Buffer_toString bytes).

(** A block whose payload is a JSON object with truthy [items]:
    [loadTemplate] returns exactly that value and prints no warning. *)
Lemma loadTemplate_found payload props items :
  findTemplateBlock content name = Some payload →
  JSON_parse (trim payload) = Ret (JObject props) →
  own_property props (js "items") = Some items →
  truthy (Some items) = true →
  loadTemplate e name w = (Ret items, w).
Proof.
  intros Hb Hp Hi Ht. rewrite (loadTemplate_chain _ _ _ Hname Hfile).
  unfold resolve_value, resolve_warnings.
  by rewrite (lookup_template_Items _ _ _ _ _ Hb Hp Hi Ht), warned_nil.
Qed.

(** C3. A template of the catalogue resolves to its own entries: when the
    first fenced block after the first heading of the name holds a JSON
    text of an object (a text that the grammar of JSON gives to the
    object, whatever its white space, escapes and numerals) and the
    object has a truthy [items], then [loadTemplate] returns exactly that
    value, its entries in the order of the catalogue, and prints no
    warning. *)
Theorem loadTemplate_catalogue_entry before text payload props after items :
  find_ci (heading name) content
  = Some (before, text ++ fence_open ++ payload ++ fence_close ++ after) →
  fence_free text → fence_free payload →
  json_text_of (JObject props) payload →
  own_property props (js "items") = Some items →
  truthy (Some items) = true →
  loadTemplate e name w = (Ret items, w).
Proof.
  intros Hc Ht Hp Hj Hi Htr.
  apply (loadTemplate_found payload props);
    [by eapply findTemplateBlock_found|by apply JSON_parse_trim|done..].
Qed.

(** A name without a block falls back to the section [default]:
    [loadTemplate] returns the entries of [default], not the built-in
    ones, and prints the warning that the template was not found. *)
Theorem loadTemplate_fallback payload props items :
  findTemplateBlock content name = None →
  name ≠ js "default" →
  findTemplateBlock content (js "default") = Some payload →
  JSON_parse (trim payload) = Ret (JObject props) →
  own_property props (js "items") = Some items →
  truthy (Some items) = true →
  loadTemplate e name w = (Ret items, warned [warn_not_found name] w).
Proof.
  intros H1 Hn Hb Hp Hi Ht. rewrite (loadTemplate_chain _ _ _ Hname Hfile).
  unfold resolve_value, resolve_warnings.
  rewrite (lookup_template_NoBlock _ _ H1), (lookup_template_Items _ _ _ _ _ Hb Hp Hi Ht).
  by rewrite !decide_True.
Qed.

(** C29. Scenario B: when the catalogue has a block neither for the name
    nor for [default], [loadTemplate] returns the six built-in entries,
    after the warning that the template was not found (no warning for the
    name [default]). *)
Theorem loadTemplate_builtin :
  findTemplateBlock content name = None →
  findTemplateBlock content (js "default") = None →
  loadTemplate e name w
  = (Ret getDefaultItems,
     warned (if decide (name ≠ js "default") then [warn_not_found name] else []) w).
Proof.
  intros H1 H2. rewrite (loadTemplate_chain _ _ _ Hname Hfile).
  unfold resolve_value, resolve_warnings. rewrite !lookup_template_NoBlock by done.
  by case_decide.
Qed.

(** C40. A block that parses but has no [items] ends the chain:
    [loadTemplate] returns the built-in entries without a warning,
    whatever the section [default] holds. *)
Theorem items_missing_skips_default payload props :
  findTemplateBlock content name = Some payload →
  JSON_parse (trim payload) = Ret (JObject props) →
  own_property props (js "items") = None →
  loadTemplate e name w = (Ret getDefaultItems, w).
Proof.
  intros Hb Hp Hi. rewrite (loadTemplate_chain _ _ _ Hname Hfile).
  unfold resolve_value, resolve_warnings.
  by rewrite (lookup_template_no_items _ _ _ _ Hb Hp Hi), warned_nil.
Qed.

(** C27. A malformed block is recovered from: when the payload of the block
    of the name is no JSON text, [loadTemplate] warns that the template
    could not be parsed and goes on as if the block were absent, to the
    entries of the section [default] or to the built-in entries, with the
    warning that the template was not found; it throws nothing. *)
Theorem loadTemplate_malformed payload :
  findTemplateBlock content name = Some payload →
  ¬ is_json_text (trim payload) →
  name ≠ js "default" →
  loadTemplate e name w
  = (Ret (if lookup_template content (js "default") is Items v then v else getDefaultItems),
     warned [warn_parse_failed name; warn_not_found name] w).
Proof.
  intros Hb Hp Hn. rewrite (loadTemplate_chain _ _ _ Hname Hfile).
  unfold resolve_value, resolve_warnings.
  by rewrite (lookup_template_Unusable _ _ _ Hb Hp), !decide_True.
Qed.

End found.

(** The heading is matched as a prefix: whenever the pattern of a
    name that extends [name] matches the catalogue, the pattern of [name]
    matches it too, although no section is called [name]. *)
Theorem block_of_longer_name content name more r r' :
  plain_name (name ++ more) →
  new_RegExp (pattern_source name) = Ret r →
  new_RegExp (pattern_source (name ++ more)) = Ret r' →
  is_Some (String_match content r') → is_Some (String_match content r).
Proof.
  intros Hn Hr Hr' [m Hm]. pose proof Hn as [Hn' _]%Forall_app.
  rewrite new_RegExp_plain in Hr, Hr' by done.
  assert (r = seq_lit (heading name) tail_regex) as -> by congruence.
  assert (r' = seq_lit (heading (name ++ more)) tail_regex) as -> by congruence.
  pose proof (String_match_block content name) as H1.
  pose proof (String_match_block content (name ++ more)) as H2. rewrite Hm in H2.
  destruct (findTemplateBlock_shorter content name more) as [p Hp].
  { by destruct (findTemplateBlock content (name ++ more)). }
  rewrite Hp in H1. destruct (String_match content (seq_lit (heading name) tail_regex)) as [m'|];
    [by exists m'|by simpl in H1].
Qed.

(** The lazy quantifier after the heading crosses section
    boundaries: when the text after the heading of [name] holds no
    backtick before the opening fence, the pattern of [name] captures the
    payload of that fence, also when the text holds the headings of other
    sections, so that a section without a block takes the block of the
    section that follows it. *)
Theorem block_crosses_sections name text payload post :
  plain_name name → fence_free text → fence_free payload →
  ∃ r, new_RegExp (pattern_source name) = Ret r ∧
       (λ m, capture m 1)
         <$> String_match (heading name ++ text ++ fence_open ++ payload ++ fence_close ++ post) r
       = Some (Some payload).
Proof.
  intros Hn Ht Hp. eexists. split; [by apply new_RegExp_plain|].
  by rewrite String_match_block, findTemplateBlock_at.
Qed.

(** C11. Scenario C and the third property of the resolver: when the
    catalogue does not exist, [loadTemplate] returns the six built-in
    entries for every name, prints one warning and throws nothing. *)
Theorem loadTemplate_missing_file name w :
  w_fs w !! path_key (templatesPath e) = None →
  loadTemplate e name w = (Ret getDefaultItems, warned [warn_missing_file] w).
Proof.
  intros Hf. unfold loadTemplate. by rewrite (existsSync_bind_None _ _ _ Hf).
Qed.

(** C38. A name that makes the pattern ill-formed aborts the resolution:
    when the catalogue exists as a file, [loadTemplate] throws a
    [SyntaxError] and prints nothing. *)
Theorem loadTemplate_bad_name name w bytes :
  RegExp_new (pattern_source name) = BadSyntax →
  w_fs w !! path_key (templatesPath e) = Some (File bytes) →
  loadTemplate e name w = (Throw SyntaxError, w).
Proof.
  intros Hb Hf. rewrite (loadTemplate_file _ _ _ Hf).
  unfold resolve_in, new_RegExp. by rewrite Hb.
Qed.

(** C39. A catalogue path that exists but is a directory is not recovered
    from: the read throws and [loadTemplate] propagates the error. *)
Theorem loadTemplate_directory name w :
  w_fs w !! path_key (templatesPath e) = Some Dir →
  loadTemplate e name w = (Throw (SystemError "EISDIR"), w).
Proof.
  intros Hf. unfold loadTemplate. rewrite (existsSync_bind_Some _ _ _ _ Hf). cbn [negb].
  by rewrite (readFileSync_utf8_dir_bind _ _ _ Hf).
Qed.

(** The resolver only reads: whatever the catalogue, the name and
    the outcome, [loadTemplate] leaves the file system as it was; all it
    adds to the world are warnings. *)
Lemma loadTemplate_reads_only name w : w_fs (loadTemplate e name w).2 = w_fs w.
Proof. by apply (preserves_loadTemplate (λ w', w_fs w' = w_fs w)). Qed.

End chain.

(** ** The theorems on the catalogues of the examples

    The folding of the examples is [ascii_canonicalize]; the script is
    installed as [sample_env] says. *)

Section witnesses.
#[local] Instance witness_canonicalize : Canonicalize := ascii_canonicalize.
Let e0 : env := sample_env [].

(** Scenario A: the section [default] with two entries, requested as
    [default]. *)
Lemma loadTemplate_refines_witness :
  loadTemplate e0 (js "default") (world_of catalogue_A)
  = (Ret (JArray [item "A" "B"; item "C" "D"]), world_of catalogue_A).
Proof.
  etrans; [apply (loadTemplate_refines e0 _ _ catalogue_A)|]; [by_decide|by_compute..].
Defined.

Lemma pattern_finds_first_block_witness :
  ∃ r, new_RegExp (pattern_source (js "smoke")) = Ret r ∧
       (λ m, capture m 1) <$> String_match (Buffer_toString catalogue_B) r
       = Some <$> findTemplateBlock (Buffer_toString catalogue_B) (js "smoke").
Proof. apply pattern_finds_first_block. by_decide. Defined.

(** Scenario C: no catalogue. *)
Lemma loadTemplate_missing_file_witness :
  loadTemplate e0 (js "custom") (quiet empty_fs)
  = (Ret getDefaultItems, warned [warn_missing_file] (quiet empty_fs)).
Proof. apply loadTemplate_missing_file. by_compute. Defined.

Lemma loadTemplate_total_witness :
  ∃ v ws, loadTemplate e0 (js "custom") (world_of catalogue_B)
          = (Ret v, warned ws (world_of catalogue_B))
          ∧ truthy (Some v) = true ∧ (length ws ≤ 2)%nat.
Proof.
  apply (loadTemplate_total e0 (js "custom") (world_of catalogue_B) catalogue_B);
    [by_decide | by_compute].
Defined.

(** Scenario A again, by its block. *)
Lemma loadTemplate_found_witness :
  loadTemplate e0 (js "default") (world_of catalogue_A)
  = (Ret (JArray [item "A" "B"; item "C" "D"]), world_of catalogue_A).
Proof.
  eapply (loadTemplate_found e0 _ _ catalogue_A); [by_decide|by_compute|..|done];
    vm_compute; reflexivity.
Defined.

Lemma loadTemplate_catalogue_entry_witness :
  loadTemplate e0 (js "smoke") (world_of catalogue_indented)
  = (Ret (JArray [item "S" "T"; item "U" "V"]), world_of catalogue_indented).
Proof.
  apply (loadTemplate_catalogue_entry e0 _ _ catalogue_indented ltac:(by_decide)
           ltac:(by_compute) (js "# Templates" ++ [10; 10]%N)
           (10%N :: js "Smoke tests of a release." ++ [10%N])
           (jsq "
{
  'items': [
    {
      'function': 'S',
      'points': 'T'
    },
    {
      'function': 'U',
      'points': 'V'
    }
  ]
}
") [(js "items", JArray [item "S" "T"; item "U" "V"])] [10%N]);
    [by_compute|by_decide|by_decide|apply JSON_parse_sound; by_compute|done|done].
Defined.

Lemma loadTemplate_malformed_witness :
  loadTemplate e0 (js "smoke") (world_of catalogue_malformed)
  = (Ret (JArray [item "A" "B"]),
     warned [warn_parse_failed (js "smoke"); warn_not_found (js "smoke")]
       (world_of catalogue_malformed)).
Proof.
  etrans; [apply (loadTemplate_malformed e0 _ _ catalogue_malformed ltac:(by_decide)
                    ltac:(by_compute) (jsq "
{'items': [{'function': 'S', 'points':
"))|by_compute];
    [by_compute|apply JSON_parse_rejects; by_compute|done].
Defined.

Lemma loadTemplate_fallback_witness :
  loadTemplate e0 (js "custom") (world_of catalogue_A)
  = (Ret (JArray [item "A" "B"; item "C" "D"]),
     warned [warn_not_found (js "custom")] (world_of catalogue_A)).
Proof.
  eapply (loadTemplate_fallback e0 _ _ catalogue_A);
    [by_decide|by_compute|by_compute|by_decide|..|done]; vm_compute; reflexivity.
Defined.

(** Scenario B. *)
Lemma loadTemplate_builtin_witness :
  loadTemplate e0 (js "custom") (world_of catalogue_B)
  = (Ret getDefaultItems, warned [warn_not_found (js "custom")] (world_of catalogue_B)).
Proof.
  etrans; [apply (loadTemplate_builtin e0 _ _ catalogue_B); [by_decide|by_compute..]|].
  by_compute.
Defined.

Lemma loadTemplate_bad_name_witness :
  loadTemplate e0 (js "web(beta") (world_of catalogue_A)
  = (Throw SyntaxError, world_of catalogue_A).
Proof.
  apply (loadTemplate_bad_name e0 _ _ catalogue_A); by_compute.
Defined.

Lemma loadTemplate_directory_witness :
  let w := quiet (add_file (catalogue_path ++ js "/notes.txt") [] empty_fs) in
  loadTemplate e0 (js "default") w = (Throw (SystemError "EISDIR"), w).
Proof. apply loadTemplate_directory. by_compute. Defined.

(** The block of [basic] has no [items]; the section [default] has. *)
Lemma items_missing_skips_default_witness :
  loadTemplate e0 (js "basic") (world_of catalogue_C)
  = (Ret getDefaultItems, world_of catalogue_C)
  ∧ lookup_template (Buffer_toString catalogue_C) (js "default") = Items (JArray [item "A" "B"]).
Proof.
  split; [|by_compute].
  eapply (items_missing_skips_default e0 _ _ catalogue_C); [by_decide|by_compute|..];
    vm_compute; reflexivity.
Defined.

(** The catalogue has the section [default] and none called [def]. *)
Lemma block_of_longer_name_witness :
  is_Some (String_match (Buffer_toString catalogue_A)
             (seq_lit (heading (js "def")) tail_regex)).
Proof.
  apply (block_of_longer_name _ (js "def") (js "ault") _
           (seq_lit (heading (js "default")) tail_regex));
    [by_decide|by_compute|by_compute|by_decide].
Defined.

(** The section [alpha] of [catalogue_D] has no block: the text up to the
    fence of the section [beta] holds no backtick. *)
Lemma block_crosses_sections_witness :
  ∃ r, new_RegExp (pattern_source (js "alpha")) = Ret r ∧
       (λ m, capture m 1) <$> String_match (Buffer_toString catalogue_D) r
       = Some (Some (jsq "
{'items': [{'function': 'B1', 'points': 'B2'}]}
")).
Proof.
  apply (block_crosses_sections (js "alpha") (js "
to be written
## beta
") (jsq "
{'items': [{'function': 'B1', 'points': 'B2'}]}
") (js "
")); by_decide.
Defined.

(** With the pattern of the code: a request for [alpha] returns the
    entries of the section [beta]. *)
Example alpha_takes_block_of_beta :
  loadTemplate e0 (js "alpha") (world_of catalogue_D)
  = (Ret (JArray [item "B1" "B2"]), world_of catalogue_D).
Proof. by_compute. Qed.

End witnesses.
