(* ===== verification/Catalogue.v ===== *)
(** The catalogue of templates as a structure: sections with a name, a
    text and an optional fenced block, the text that a catalogue is
    written as, and the search of [loadTemplate] on that text as a lookup
    in the structure. *)

From stdpp Require Import base tactics numbers strings option list gmap.
From S2P Require Import Prelude JsString Utf8 Regex RegexSyntax JsValue Json JsonGrammar.
From S2P Require Import JsonText Path World Template.

Local Open Scope N_scope.

(** ** Catalogues and their text *)

(** A section: the name in its heading, the text under the heading and,
    when the section has a block, what stands between the fences and the
    text after the block. *)
Record template_section : Type := TemplateSection {
  ts_name : jsstring;
  ts_prose : jsstring;
  ts_block : option (jsstring * jsstring)
}.

Definition ts_payload (s : template_section) : option jsstring := fst <$> ts_block s.

(** The heading line and the text under it. *)
Definition lead (s : template_section) : jsstring := heading (ts_name s) ++ 10 :: ts_prose s.

(** The fenced block and the text after it. *)
Definition block (s : template_section) : jsstring :=
  match ts_block s with
  | Some (payload, after) => fence_open ++ payload ++ fence_close ++ after
  | None => []
  end.

Definition render_section (s : template_section) : jsstring := lead s ++ block s.

Definition render_sections (cat : list template_section) : jsstring := cat ≫= render_section.

(** The text of a catalogue: a preface and the sections in order. *)
Definition render (preface : jsstring) (cat : list template_section) : jsstring :=
  preface ++ render_sections cat.

(** ** Lookup in a catalogue *)

Section lookup.
Context `{Canonicalize}.

(** The heading of [s] starts with the heading of [name], up to case. *)
Definition names (name : jsstring) (s : template_section) : bool :=
  bool_decide (is_Some (strip_prefix_ci name (ts_name s))).

(** The catalogue from the first section that [name] names. *)
Fixpoint sections_from (name : jsstring) (cat : list template_section)
  : list template_section :=
  match cat with
  | [] => []
  | s :: cat' => if names name s then cat else sections_from name cat'
  end.

(** The payload of the first block. *)
Definition first_payload (cat : list template_section) : option jsstring :=
  head (omap ts_payload cat).

(** The payload that a name stands for: that of the first block at or
    after the first section that the name names. *)
Definition block_of (name : jsstring) (cat : list template_section) : option jsstring :=
  first_payload (sections_from name cat).

(** ** Well-formed catalogues *)

Definition hashes : jsstring := js "##".

(** No two hashes in a row, and none at the end, up to case: no heading
    starts inside the text or across its end. *)
Definition heading_free (text : jsstring) : Prop := find_ci hashes (text ++ js "#") = None.

(** No code unit of the name matches a line feed. *)
Definition line_free (name : jsstring) : Prop := Forall (λ c, eq_ci c 10 = false) name.

(** The fences of a section are those of its block, and its heading is
    its only one. *)
Definition wf_section (s : template_section) : Prop :=
  fence_free (lead s)
  ∧ from_option fence_free True (ts_payload s)
  ∧ heading_free (drop 1 (render_section s)).

Definition wf_catalogue (preface : jsstring) (cat : list template_section) : Prop :=
  heading_free preface ∧ Forall wf_section cat.

#[export] Instance heading_free_dec text : Decision (heading_free text).
Proof. unfold heading_free. apply _. Defined.

#[export] Instance line_free_dec name : Decision (line_free name).
Proof. unfold line_free. apply _. Defined.

#[export] Instance fence_free_dec text : Decision (fence_free text).
Proof. unfold fence_free. apply _. Defined.

#[export] Instance wf_section_dec s : Decision (wf_section s).
Proof. unfold wf_section. destruct (ts_payload s); apply _. Defined.

#[export] Instance wf_catalogue_dec preface cat : Decision (wf_catalogue preface cat).
Proof. unfold wf_catalogue. apply _. Defined.

End lookup.

(** ** Catalogues of checklists *)

(** A checklist entry [{ function, points }]. *)
Record entry : Type := Entry {
  entry_function : jsstring;
  entry_points : jsstring
}.

Definition entry_json (x : entry) : json :=
  JObject [(js "function", JString (entry_function x)); (js "points", JString (entry_points x))].

Definition entries_json (es : list entry) : json := JArray (entry_json <$> es).

(** A template: the name of its section, the text under the heading and
    the entries of its block. *)
Record template : Type := Template {
  t_name : jsstring;
  t_prose : jsstring;
  t_entries : list entry
}.

(** The value of the block: [{ "items": [...] }]. *)
Definition template_json (t : template) : json :=
  JObject [(js "items", entries_json (t_entries t))].

(** What stands between the fences: the text of the value in the layout
    [L], on lines of its own. *)
Definition payload_of (L : layout) (t : template) : jsstring :=
  10 :: json_text L 0 (template_json t) ++ [10].

Definition section_of (L : layout) (t : template) : template_section :=
  TemplateSection (t_name t) (t_prose t) (Some (payload_of L t, [10])).

Definition catalogue_text (L : layout) (preface : jsstring) (ts : list template) : jsstring :=
  render preface (section_of L <$> ts).

(** Neither a backtick nor a hash. *)
Definition plain_unit (c : N) : Prop := c ≠ 96 ∧ c ≠ 35.

Definition plain_text (s : jsstring) : Prop := Forall plain_unit s.

Definition wf_entry (x : entry) : Prop :=
  plain_text (entry_function x) ∧ plain_text (entry_points x).

Definition wf_template (t : template) : Prop :=
  plain_text (t_name t) ∧ plain_text (t_prose t) ∧ Forall wf_entry (t_entries t).

(** No code unit of the text is [k]. *)
Definition avoids (k : N) (s : jsstring) : Prop := Forall (λ c, c ≠ k) s.

#[export] Instance avoids_dec k s : Decision (avoids k s).
Proof. unfold avoids. apply _. Defined.

(** A text put together avoids what its parts avoid. *)
Ltac avoids_parts :=
  repeat first [assumption | apply Forall_app_2 | apply Forall_cons_2 | by_decide].

#[export] Instance plain_text_dec s : Decision (plain_text s).
Proof. unfold plain_text, plain_unit. apply _. Defined.

#[export] Instance wf_template_dec t : Decision (wf_template t).
Proof. unfold wf_template, wf_entry. apply _. Defined.

(** The code units of the strings of a value, keys included. *)
Fixpoint json_units (v : json) : jsstring :=
  match v with
  | JString s => s
  | JArray items => items ≫= json_units
  | JObject props => props ≫= λ kv, kv.1 ++ json_units kv.2
  | _ => []
  end.

(** *** The resolver on a catalogue of checklists *)

Section resolver.
Context `{Canonicalize}.

(** The first template whose name starts with [name], up to case. *)
Fixpoint template_named (name : jsstring) (ts : list template) : option template :=
  match ts with
  | [] => None
  | t :: ts' =>
      if bool_decide (is_Some (strip_prefix_ci name (t_name t))) then Some t
      else template_named name ts'
  end.

(** The fallback chain: the entries of the template, else those of
    [default], else the built-in entries. *)
Definition resolve_entries (ts : list template) (name : jsstring) : json :=
  match template_named name ts with
  | Some t => entries_json (t_entries t)
  | None =>
      if decide (name ≠ js "default") then
        match template_named (js "default") ts with
        | Some t => entries_json (t_entries t)
        | None => getDefaultItems
        end
      else getDefaultItems
  end.

(** The warnings of the chain. *)
Definition resolve_entries_warnings (ts : list template) (name : jsstring) : list (list cval) :=
  match template_named name ts with
  | Some _ => []
  | None => if decide (name ≠ js "default") then [warn_not_found name] else []
  end.

End resolver.

(** ** The search on the text of a catalogue *)

Section search.
Context `{Canonicalize}.
Implicit Types (s : template_section) (cat : list template_section).
Implicit Types (name text preface : jsstring).

Lemma render_sections_cons s cat :
  render_sections (s :: cat) = lead s ++ block s ++ render_sections cat.
Proof.
  unfold render_sections, render_section. cbn [mbind list_bind]. by rewrite <-(assoc_L (++)).
Qed.

(** A text of sections is empty or starts with a hash. *)
Lemma render_sections_head cat : take 1 (render_sections cat) `prefix_of` js "#".
Proof. destruct cat as [|s cat]; [by exists (js "#")|by rewrite render_sections_cons]. Qed.

Lemma heading_free_before text cat :
  heading_free text → find_ci hashes (text ++ take 1 (render_sections cat)) = None.
Proof.
  intros Ht. destruct (render_sections_head cat) as [k Hk]. unfold heading_free in Ht.
  rewrite Hk, (assoc_L (++)) in Ht. by eapply find_ci_None_prefix.
Qed.

Lemma sections_from_suffix name cat : sections_from name cat `suffix_of` cat.
Proof.
  induction cat as [|s cat IH]; simpl; [done|].
  destruct (names name s); [done|by apply suffix_cons_r].
Qed.

Lemma fence_free_app a b : fence_free a → fence_free b → fence_free (a ++ b).
Proof. intros Ha Hb. by apply Forall_app. Qed.

(** No fence opens in a text without a backtick. *)
Lemma payload_after_fence_free text : fence_free text → payload_after text = None.
Proof.
  intros Ht. rewrite payload_after_find.
  pose proof (find_ci_absent 96 (tail fence_open) text Ht) as Hf.
  change (96 :: tail fence_open) with fence_open in Hf. by rewrite Hf.
Qed.

(** The first block behind a text without a backtick. *)
Lemma payload_after_block text s rest :
  fence_free text → wf_section s → Forall wf_section rest →
  payload_after (text ++ block s ++ render_sections rest) = first_payload (s :: rest).
Proof.
  intros Ht Hs Hrest. revert text s Ht Hs.
  induction Hrest as [|s' rest Hs' _ IH]; intros text s Ht (Hl & Hp & _);
    unfold block, first_payload; cbn [omap list_omap]; unfold ts_payload in *;
    destruct (ts_block s) as [[payload after]|];
    cbn [from_option head fmap option_fmap option_map fst] in *.
  1,3: rewrite <-!(assoc_L (++)); by apply payload_after_at.
  - rewrite !app_nil_r. by apply payload_after_fence_free.
  - rewrite render_sections_cons, app_nil_l, (assoc_L (++)).
    apply IH; [apply fence_free_app; [done|apply Hs']|done].
Qed.

(** A name without a line feed names a section by the name of the
    section. *)
Lemma strip_prefix_ci_line name sname rest :
  line_free name →
  is_Some (strip_prefix_ci name (sname ++ 10 :: rest)) → is_Some (strip_prefix_ci name sname).
Proof.
  intros Hn. revert sname. induction Hn as [|a name Ha _ IH]; intros sname; simpl; [done|].
  destruct sname as [|b sname]; simpl; [by rewrite Ha|].
  destruct (eq_ci a b); [apply IH|done].
Qed.

Lemma heading_hashes name : heading name = hashes ++ 32 :: name.
Proof. done. Qed.

(** The heading of a name at the heading of a section. *)
Lemma strip_heading name s text :
  line_free name →
  strip_prefix_ci (heading name) (lead s ++ text)
  = if names name s
    then Some (drop (length name) (ts_name s) ++ 10 :: ts_prose s ++ text)
    else None.
Proof.
  intros Hn. unfold lead, heading, names. rewrite <-!(assoc_L (++)), strip_prefix_ci_common.
  case_bool_decide as Hs.
  - destruct Hs as [r Hr]. rewrite (strip_prefix_ci_app_r _ _ _ _ Hr).
    by rewrite (strip_prefix_ci_drop _ _ _ Hr).
  - apply eq_None_not_Some. intros Hs'. by apply Hs, (strip_prefix_ci_line _ _ _ Hn Hs').
Qed.

(** What follows the heading of a section holds no backtick up to the
    block. *)
Lemma fence_free_after name s :
  wf_section s → fence_free (drop (length name) (ts_name s) ++ 10 :: ts_prose s).
Proof.
  intros (Hl & _). unfold lead, heading, fence_free in Hl.
  apply Forall_app in Hl as [[_ Hl1]%Forall_app Hl2].
  apply Forall_app. split; [by apply Forall_drop|done].
Qed.

(** The search for a heading skips the sections that the name does not
    name, and stops at the first that it names. *)
Lemma find_heading name cat :
  line_free name → Forall wf_section cat →
  snd <$> find_ci (heading name) (render_sections cat)
  = match sections_from name cat with
    | s :: rest =>
        Some ((drop (length name) (ts_name s) ++ 10 :: ts_prose s)
              ++ block s ++ render_sections rest)
    | [] => None
    end.
Proof.
  intros Hn Hcat. induction Hcat as [|s cat Hs _ IH]; [done|].
  rewrite render_sections_cons. cbn [sections_from].
  pose proof (strip_heading name s (block s ++ render_sections cat) Hn) as Hh.
  destruct (names name s).
  - rewrite (find_ci_here _ _ _ Hh). simpl. by rewrite <-(assoc_L (++)).
  - rewrite <-IH. destruct Hs as (_ & _ & Hs). unfold render_section in Hs.
    rewrite (assoc_L (++)). rewrite (assoc_L (++)) in Hh.
    destruct (lead s ++ block s) as [|c t] eqn:E; [done|]. cbn [app drop] in *.
    rewrite find_ci_cons_None by done. rewrite heading_hashes.
    rewrite (find_ci_skip_prefix hashes) by (by apply heading_free_before).
    by destruct (find_ci _ (render_sections cat)) as [[]|].
Qed.

Lemma find_heading_render name preface cat :
  heading_free preface →
  snd <$> find_ci (heading name) (render preface cat)
  = snd <$> find_ci (heading name) (render_sections cat).
Proof.
  intros Hp. unfold render. rewrite heading_hashes.
  rewrite (find_ci_skip_prefix hashes) by (by apply heading_free_before).
  by destruct (find_ci _ (render_sections cat)) as [[]|].
Qed.

(** The reference search on the text of a catalogue is the lookup in the
    catalogue. *)
Lemma findTemplateBlock_sections preface cat name :
  wf_catalogue preface cat → line_free name →
  findTemplateBlock (render preface cat) name = block_of name cat.
Proof.
  intros [Hp Hcat] Hn. unfold findTemplateBlock, block_of.
  pose proof (find_heading_render name preface cat Hp) as Hf.
  rewrite (find_heading name cat Hn Hcat) in Hf.
  pose proof (sections_from_suffix name cat) as [k Hk]. rewrite Hk in Hcat.
  apply Forall_app in Hcat as [_ Hcat].
  destruct (find_ci (heading name) (render preface cat)) as [[pre rest]|],
    (sections_from name cat) as [|s cat']; simplify_eq/=; [|done].
  apply Forall_cons in Hcat as [Hs Hcat].
  apply payload_after_block; [by apply fence_free_after|done..].
Qed.

(** C5. The search of the code on the text of a catalogue is a lookup in
    the catalogue: for a name without special characters and without a
    line feed, the pattern that [loadTemplate] builds captures, on the text
    of a well-formed catalogue, the payload of the first block at or after
    the first section whose name starts with the requested name up to
    case, and matches nothing when there is no such section or no block
    from it on.  A name thus finds a section with a longer name, and a
    section without a block yields the block of a later section. *)
Theorem pattern_finds_block_of preface cat name :
  wf_catalogue preface cat → plain_name name → line_free name →
  ∃ r, new_RegExp (pattern_source name) = Ret r ∧
       (λ m, capture m 1) <$> String_match (render preface cat) r
       = Some <$> block_of name cat.
Proof.
  intros Hcat Hname Hline. eexists. split; [by apply new_RegExp_plain|].
  by rewrite String_match_block, findTemplateBlock_sections.
Qed.

End search.

(** ** The text of a value holds the code units of its strings *)

Section plain.
Implicit Types (s t g : jsstring) (v : json) (L : layout).

Lemma plain_text_app s t : plain_text s → plain_text t → plain_text (s ++ t).
Proof. intros Hs Ht. by apply Forall_app. Qed.

Lemma plain_text_cons c s : plain_unit c → plain_text s → plain_text (c :: s).
Proof. by constructor. Qed.

Lemma plain_unit_below c : c < 35 → plain_unit c.
Proof. unfold plain_unit. lia. Qed.

Lemma plain_unit_between c : 35 < c < 96 → plain_unit c.
Proof. unfold plain_unit. lia. Qed.

Lemma hex_digit_plain d : plain_unit (hex_digit d).
Proof. unfold hex_digit, plain_unit. case_match; N_bools; lia. Qed.

Lemma quote_unit_plain c : plain_unit c → plain_text (quote_unit c).
Proof.
  intros Hc. unfold quote_unit.
  repeat case_match; repeat apply Forall_cons_2; try apply Forall_nil_2;
    first [done|apply hex_digit_plain|by_decide].
Qed.

Lemma quote_plain s : plain_text s → plain_text (quote s).
Proof.
  intros Hs. unfold quote. apply plain_text_cons; [by_decide|].
  apply plain_text_app; [|by_decide]. apply Forall_bind.
  eapply Forall_impl; [exact Hs|]. apply quote_unit_plain.
Qed.

Lemma all_digits_plain s : all_digits s → plain_text s.
Proof.
  intros Hs. eapply Forall_impl; [exact Hs|]. intros c Hc. unfold isDigit in Hc.
  N_bools. apply plain_unit_between. lia.
Qed.

Lemma number_text_plain neg mant e : plain_text (number_text neg mant e).
Proof.
  unfold number_text, exponent_text.
  apply plain_text_app; [destruct neg; by_decide|].
  apply plain_text_app; [apply all_digits_plain, digits_go_digit|].
  case_decide; [constructor|]. apply plain_text_cons; [by_decide|].
  apply plain_text_app; [case_decide; by_decide|apply all_digits_plain, digits_go_digit].
Qed.

Lemma white_plain g : white g → plain_text g.
Proof.
  intros Hg. eapply Forall_impl; [exact Hg|]. intros c. unfold is_json_ws.
  rewrite bool_decide_eq_true, !elem_of_cons, elem_of_nil.
  intros Hc. apply plain_unit_below. lia.
Qed.

Lemma items_text_plain L d texts :
  layout_ok L → Forall plain_text texts → plain_text (items_text L d texts).
Proof.
  intros [HL _] Ht. unfold items_text. destruct Ht as [|t ts Ht Hts]; [constructor|].
  apply plain_text_app; [by apply white_plain|]. apply plain_text_app; [done|].
  apply Forall_bind. eapply Forall_impl; [exact Hts|]. intros x Hx.
  apply plain_text_cons; [by_decide|]. apply plain_text_app; [by apply white_plain|done].
Qed.

(** The text of a value without backticks and hashes in its strings holds
    none. *)
Lemma json_text_plain L v d :
  layout_ok L → plain_text (json_units v) → plain_text (json_text L d v).
Proof.
  intros HL. revert d.
  induction v as [|b|neg mant e|s|items IH|props IH] using json_ind'; intros d Hv;
    cbn [json_text json_units] in *.
  - by_decide.
  - destruct b; by_decide.
  - apply number_text_plain.
  - by apply quote_plain.
  - apply plain_text_cons; [by_decide|]. apply plain_text_app; [|apply plain_text_app].
    + apply items_text_plain; [done|]. apply Forall_fmap.
      apply Forall_bind in Hv. eapply Forall_impl; [apply Forall_and; split; [exact IH|exact Hv]|].
      intros v [Hv1 Hv2]. by apply Hv1.
    + apply white_plain, HL.
    + by_decide.
  - apply plain_text_cons; [by_decide|]. apply plain_text_app; [|apply plain_text_app].
    + apply items_text_plain; [done|]. apply Forall_fmap.
      apply Forall_bind in Hv. eapply Forall_impl; [apply Forall_and; split; [exact IH|exact Hv]|].
      intros [k v] [Hv1 [Hk Hv2]%Forall_app]. cbn [fst snd] in *.
      apply plain_text_app; [by apply quote_plain|]. apply plain_text_cons; [by_decide|].
      apply plain_text_app; [apply white_plain, HL|by apply Hv1].
    + apply white_plain, HL.
    + by_decide.
Qed.

End plain.

(** ** The resolver on the text of a catalogue of checklists *)

Section checklists.
Context `{CanonicalizeAscii} (e : env).
Implicit Types (s : jsstring) (t : template) (ts : list template) (L : layout).

Lemma plain_text_avoids_fence s : plain_text s → avoids 96 s.
Proof. intros Hs. eapply Forall_impl; [exact Hs|]. by intros c [? ?]. Qed.

Lemma plain_text_avoids_hash s : plain_text s → avoids 35 s.
Proof. intros Hs. eapply Forall_impl; [exact Hs|]. by intros c [? ?]. Qed.

Lemma avoids_fence_free s : avoids 96 s → fence_free s.
Proof. apply Forall_eq_ci_symbol. by_decide. Qed.

(** A name without a line feed matches none. *)
Lemma avoids_line_free s : avoids 10 s → line_free s.
Proof. apply Forall_eq_ci_symbol_r. by_decide. Qed.

Lemma avoids_heading_free s : avoids 35 s → heading_free s.
Proof.
  intros Hs. unfold heading_free.
  rewrite (find_ci_skip 35 [35] s) by (by apply Forall_eq_ci_symbol; [by_decide|]).
  simpl. by rewrite eq_ci_refl.
Qed.

(** No heading starts at a hash before another code unit. *)
Lemma heading_free_hash c s : c ≠ 35 → avoids 35 s → heading_free (35 :: c :: s).
Proof.
  intros Hc Hs. unfold heading_free. cbn [app]. rewrite find_ci_cons_None.
  - by rewrite (avoids_heading_free (c :: s)) by (by constructor).
  - simpl. rewrite eq_ci_refl, (eq_ci_symbol 35 c) by by_decide. by rewrite bool_decide_false.
Qed.

Lemma payload_plain L t : layout_ok L → wf_template t → plain_text (payload_of L t).
Proof.
  intros HL (_ & _ & He). apply plain_text_cons; [by_decide|].
  apply plain_text_app; [|by_decide]. apply json_text_plain; [done|].
  cbn [template_json entries_json json_units mbind list_bind fst snd]. rewrite app_nil_r.
  apply plain_text_app; [by_decide|]. apply Forall_bind, Forall_fmap.
  eapply Forall_impl; [exact He|]. intros x [Hf Hp].
  cbn [compose entry_json json_units mbind list_bind fst snd]. rewrite app_nil_r.
  repeat apply plain_text_app; done || by_decide.
Qed.

(** The section of a template of plain texts is well formed. *)
Lemma wf_section_of L t : layout_ok L → wf_template t → wf_section (section_of L t).
Proof.
  intros HL Ht. pose proof (payload_plain L t HL Ht) as Hp. destruct Ht as (Hn & Hpr & _).
  unfold section_of. set (payload := payload_of L t) in *. clearbody payload.
  pose proof (plain_text_avoids_fence _ Hn). pose proof (plain_text_avoids_fence _ Hpr).
  pose proof (plain_text_avoids_fence _ Hp). pose proof (plain_text_avoids_hash _ Hn).
  pose proof (plain_text_avoids_hash _ Hpr). pose proof (plain_text_avoids_hash _ Hp).
  unfold wf_section, render_section, lead, block, heading, ts_payload.
  cbn [ts_name ts_prose ts_block from_option fmap option_fmap option_map fst].
  change (js "## ") with [35; 35; 32]. split_and!.
  - apply avoids_fence_free. avoids_parts.
  - by apply avoids_fence_free.
  - cbn [app drop]. apply heading_free_hash; [done|]. avoids_parts.
Qed.

Lemma wf_catalogue_text L preface ts :
  layout_ok L → heading_free preface → Forall wf_template ts →
  wf_catalogue preface (section_of L <$> ts).
Proof.
  intros HL Hp Hts. split; [done|]. apply Forall_fmap.
  eapply Forall_impl; [exact Hts|]. intros t. by apply wf_section_of.
Qed.

(** The block that a name stands for is that of the template it names. *)
Lemma block_of_section_of L name ts :
  block_of name (section_of L <$> ts) = payload_of L <$> template_named name ts.
Proof.
  unfold block_of. induction ts as [|t ts IH]; [done|].
  cbn [fmap list_fmap sections_from template_named]. unfold names at 1.
  cbn [section_of ts_name]. by case_bool_decide.
Qed.

(** The block of a template is read back as its entries. *)
Lemma payload_items_payload_of L t :
  layout_ok L → payload_items (trim (payload_of L t)) = Ret (entries_json (t_entries t)).
Proof.
  intros HL. unfold payload_items. rewrite (JSON_parse_trim (template_json t)); [done|].
  exists [10], (json_text L 0 (template_json t)), [10].
  split_and!; [done|by repeat constructor|by apply json_text_grammar|by repeat constructor].
Qed.

(** What the text of a catalogue holds for a name. *)
Lemma lookup_template_catalogue L preface ts name :
  layout_ok L → heading_free preface → Forall wf_template ts → avoids 10 name →
  lookup_template (catalogue_text L preface ts) name
  = match template_named name ts with
    | Some t => Items (entries_json (t_entries t))
    | None => NoBlock
    end.
Proof.
  intros HL Hp Hts Hn. unfold lookup_template, catalogue_text.
  rewrite findTemplateBlock_sections, block_of_section_of
    by (by apply wf_catalogue_text || by apply avoids_line_free).
  destruct (template_named name ts) as [t|]; [|done]. cbn [fmap option_fmap option_map].
  by rewrite payload_items_payload_of.
Qed.

(** A template is named by its own name when no template before it has a
    name that starts with that name. *)
Lemma template_named_own ts1 t ts2 :
  Forall (λ t', strip_prefix_ci (t_name t) (t_name t') = None) ts1 →
  template_named (t_name t) (ts1 ++ t :: ts2) = Some t.
Proof.
  induction 1 as [|t' ts1 Ht' _ IH]; cbn [app template_named].
  - rewrite bool_decide_true; [done|]. exists []. rewrite <-(app_nil_r (t_name t)) at 2.
    apply strip_prefix_ci_self.
  - rewrite bool_decide_false; [done|]. rewrite Ht'. by intros [? ?].
Qed.

(** Every template of the catalogue resolves to its own entries, in their
    order, when no name before it starts with its name. *)
Corollary loadTemplate_present L preface ts1 t ts2 w bytes :
  layout_ok L → heading_free preface → Forall wf_template (ts1 ++ t :: ts2) →
  plain_name (t_name t) → avoids 10 (t_name t) →
  Forall (λ t', strip_prefix_ci (t_name t) (t_name t') = None) ts1 →
  w_fs w !! path_key (templatesPath e) = Some (File bytes) →
  Buffer_toString bytes = catalogue_text L preface (ts1 ++ t :: ts2) →
  loadTemplate e (t_name t) w = (Ret (entries_json (t_entries t)), w).
Proof.
  intros HL Hp Hts Hname Hline Hbefore Hfile Htext.
  rewrite (loadTemplate_chain e _ w bytes Hname Hfile), Htext.
  unfold resolve_value, resolve_warnings.
  by rewrite (lookup_template_catalogue L) by done; rewrite template_named_own, warned_nil.
Qed.

(** C2. Refinement of the resolver of the specification, on catalogues
    as structures: when the catalogue file holds the text of a list of
    templates, each written as a heading, a text and a fenced block with
    the JSON text of its entries in any layout, and neither the names, the
    texts nor the entries hold a backtick or a hash, then [loadTemplate]
    returns the entries of the first template whose name starts with the
    requested name up to case, in the order of the catalogue and without
    a warning; when there is none, those of the template [default] after
    the warning that the template was not found; and the built-in entries
    when there is none either. *)
Theorem loadTemplate_catalogue L preface ts name w bytes :
  layout_ok L → heading_free preface → Forall wf_template ts →
  plain_name name → avoids 10 name →
  w_fs w !! path_key (templatesPath e) = Some (File bytes) →
  Buffer_toString bytes = catalogue_text L preface ts →
  loadTemplate e name w
  = (Ret (resolve_entries ts name), warned (resolve_entries_warnings ts name) w).
Proof.
  intros HL Hp Hts Hname Hline Hfile Htext.
  rewrite (loadTemplate_chain e name w bytes Hname Hfile), Htext.
  unfold resolve_value, resolve_warnings, resolve_entries, resolve_entries_warnings.
  rewrite !(lookup_template_catalogue L) by (done || by_decide).
  destruct (template_named name ts); [done|]. case_decide; [|done].
  by destruct (template_named (js "default") ts).
Qed.

End checklists.

(** ** A catalogue of the examples *)

(** Two templates under a title, the first with a text under its
    heading, and entries in Chinese. *)
Definition sample_templates : list template := [
  Template (js "smoke") (js "Smoke tests of a release.
") [Entry (js "启动") (js "程序可以启动"); Entry (js "S") (js "T")];
  Template (js "default") [] [Entry (js "A") (js "B")]
].

Definition sample_preface : jsstring := js "# Templates

".

(** A section without a block before the sections of the templates. *)
Definition sample_sections : list template_section :=
  TemplateSection (js "draft") (js "to be written
") None :: (section_of compact <$> sample_templates).

Section witnesses.
#[local] Instance witness_folding : Canonicalize := ascii_canonicalize.
Let e0 : env := sample_env [].
Let text : jsstring := catalogue_text (indented 2) sample_preface sample_templates.

(** The name in another case names the template. *)
Lemma loadTemplate_catalogue_witness :
  loadTemplate e0 (js "Smoke") (world_of (utf8_bytes text))
  = (Ret (entries_json [Entry (js "启动") (js "程序可以启动"); Entry (js "S") (js "T")]),
     world_of (utf8_bytes text)).
Proof.
  etrans; [apply (loadTemplate_catalogue e0 (indented 2) sample_preface sample_templates
                    (js "Smoke") _ (utf8_bytes text))|by_compute].
  - apply indented_ok.
  - by_decide.
  - by_decide.
  - by_decide.
  - by_decide.
  - by_compute.
  - apply Buffer_toString_bmp. by_decide.
Defined.

(** No section is called [dra] and the section [draft] has no block:
    the name stands for the block of the section [smoke]. *)
Lemma pattern_finds_block_of_witness :
  ∃ r, new_RegExp (pattern_source (js "dra")) = Ret r ∧
       (λ m, capture m 1) <$> String_match (render sample_preface sample_sections) r
       = Some <$> block_of (js "dra") sample_sections.
Proof. apply pattern_finds_block_of; by_decide. Defined.

Example block_of_draft :
  block_of (js "dra") sample_sections = payload_of compact <$> head sample_templates.
Proof. by_compute. Qed.

(** An entry with a fence in its text cannot be written in a catalogue:
    the block ends inside the string, the payload is no JSON text, and
    the request falls back to [default] with both warnings. *)
Example entry_with_fence :
  let ts := [Template (js "smoke") [] [Entry (js "S") (js "run ``` twice")];
             Template (js "default") [] [Entry (js "A") (js "B")]] in
  let w := world_of (utf8_bytes (catalogue_text compact [] ts)) in
  ¬ Forall wf_template ts
  ∧ loadTemplate e0 (js "smoke") w
    = (Ret (entries_json [Entry (js "A") (js "B")]),
       warned [warn_parse_failed (js "smoke"); warn_not_found (js "smoke")] w).
Proof. split; [by_decide|by_compute]. Qed.

End witnesses.
