(* ===== verification/Docx.v ===== *)
(** The document model: the values that the program passes to the
    constructors of the docx library ([TextRun], [ImageRun], [Paragraph],
    [TableCell], [TableRow], [Table], [Header], [Footer], [Document]) and to
    its encoder [Packer.toBuffer].  A constructor call [new C(options)] is
    the record of its options; the encoder is an interface. *)

From stdpp Require Import base tactics numbers strings option list.
From S2P Require Import Prelude JsString JsValue.

Local Open Scope Z_scope.

(** ** Enumerations of the library (the members that documents of this
    kind use) *)

Inductive BorderStyle : Type := SINGLE | DASHED | DOTTED | DOUBLE | NONE.
Inductive WidthType : Type := AUTO | DXA | NIL | PERCENTAGE.
Inductive ShadingType : Type := CLEAR | SOLID.
Inductive AlignmentType : Type := LEFT | CENTER | RIGHT | BOTH.
Inductive HeadingLevel : Type := HEADING_1 | HEADING_2 | HEADING_3 | TITLE.
Inductive PageNumber : Type := CURRENT | TOTAL_PAGES.

#[export] Instance BorderStyle_eq_dec : EqDecision BorderStyle.
Proof. solve_decision. Defined.
#[export] Instance WidthType_eq_dec : EqDecision WidthType.
Proof. solve_decision. Defined.
#[export] Instance ShadingType_eq_dec : EqDecision ShadingType.
Proof. solve_decision. Defined.
#[export] Instance AlignmentType_eq_dec : EqDecision AlignmentType.
Proof. solve_decision. Defined.
#[export] Instance HeadingLevel_eq_dec : EqDecision HeadingLevel.
Proof. solve_decision. Defined.
#[export] Instance PageNumber_eq_dec : EqDecision PageNumber.
Proof. solve_decision. Defined.

(** ** Option records *)

(** [{ style, size, color }]. *)
Record Border : Type := mkBorder {
  border_style : BorderStyle;
  border_size : Z;
  border_color : jsstring
}.

(** [{ top, bottom, left, right }] of a cell. *)
Record Borders : Type := mkBorders {
  borders_top : Border;
  borders_bottom : Border;
  borders_left : Border;
  borders_right : Border
}.

(** [{ size, type }]. *)
Record Width : Type := mkWidth {
  width_size : Z;
  width_type : WidthType
}.

(** [{ fill, type }]. *)
Record Shading : Type := mkShading {
  shading_fill : jsstring;
  shading_type : ShadingType
}.

(** [{ top, bottom, left, right }] of margins. *)
Record Margins : Type := mkMargins {
  margins_top : Z;
  margins_bottom : Z;
  margins_left : Z;
  margins_right : Z
}.

(** [{ before, after }]; a key that is not written is [None]. *)
Record Spacing : Type := mkSpacing {
  spacing_before : option Z;
  spacing_after : option Z
}.

(** The [border] option of a paragraph. *)
Record ParagraphBorder : Type := mkParagraphBorder {
  pborder_top : option Border;
  pborder_bottom : option Border
}.

(** ** Runs *)

(** The options of [new TextRun({...})]: [text] is any value (a property
    of a checklist entry may be missing or may not be a string), [bold] is
    [true] when the key is written, the other keys are [None] when they are
    not written. *)
Record RunOptions : Type := mkRun {
  run_text : jsval;
  run_children : list PageNumber;
  run_bold : bool;
  run_color : option jsstring;
  run_font : option jsstring;
  run_size : option Z
}.

(** The options of [new ImageRun({ data, transformation, type })]. *)
Record ImageOptions : Type := mkImage {
  image_data : list N;
  image_width : Z;
  image_height : Z;
  image_type : jsstring
}.

(** A child of a paragraph: [new TextRun(options)], [new TextRun(string)],
    [new ImageRun(options)]. *)
Inductive ParagraphChild : Type :=
| TextRun (o : RunOptions)
| TextRunOf (s : jsstring)
| ImageRun (o : ImageOptions).

(** ** Paragraphs, cells, rows, tables *)

Record Paragraph : Type := mkParagraph {
  p_heading : option HeadingLevel;
  p_alignment : option AlignmentType;
  p_spacing : option Spacing;
  p_border : option ParagraphBorder;
  p_children : list ParagraphChild
}.

Record TableCell : Type := mkCell {
  cell_borders : Borders;
  cell_width : Width;
  cell_columnSpan : option Z;
  cell_shading : option Shading;
  cell_verticalAlign : option jsstring;
  cell_margins : Margins;
  cell_children : list Paragraph
}.

Record TableRow : Type := mkRow {
  row_children : list TableCell
}.

Record Table : Type := mkTable {
  table_width : Width;
  table_columnWidths : list Z;
  table_rows : list TableRow
}.

(** A child of a section. *)
Inductive SectionChild : Type :=
| ChildParagraph (p : Paragraph)
| ChildTable (t : Table).

(** ** Styles, page, document *)

(** The [run] of a style. *)
Record RunStyle : Type := mkRunStyle {
  rs_size : Z;
  rs_bold : bool;
  rs_font : jsstring;
  rs_color : option jsstring
}.

(** An entry of [paragraphStyles]. *)
Record ParagraphStyle : Type := mkParagraphStyle {
  ps_id : jsstring;
  ps_name : jsstring;
  ps_basedOn : jsstring;
  ps_next : jsstring;
  ps_quickFormat : bool;
  ps_run : RunStyle;
  ps_spacing : Spacing;
  ps_alignment : option AlignmentType
}.

(** [styles]: the default run of the document and the paragraph styles. *)
Record Styles : Type := mkStyles {
  styles_default_font : jsstring;
  styles_default_size : Z;
  styles_paragraphStyles : list ParagraphStyle
}.

(** [properties.page]. *)
Record Page : Type := mkPage {
  page_width : Z;
  page_height : Z;
  page_margin : Margins
}.

(** An entry of [sections]; [new Header({ children })] and
    [new Footer({ children })] are their paragraphs. *)
Record DocSection : Type := mkSection {
  section_page : Page;
  section_header : list Paragraph;
  section_footer : list Paragraph;
  section_children : list SectionChild
}.

Record Document : Type := mkDocument {
  doc_styles : Styles;
  doc_sections : list DocSection
}.

(** ** The encoder *)

(** [Packer.toBuffer(doc)], awaited: the bytes of the encoded document, or
    the exception it rejects with. *)
Class Encoder : Type := {
  toBuffer : Document → result (list N);
  toBuffer_settles : ∀ d, returns_or_throws (toBuffer d)
}.
(** ** Observations on the model *)

(** The text of a run. *)
Definition child_text (c : ParagraphChild) : jsval :=
  match c with
  | TextRun o => run_text o
  | TextRunOf s => Some (JString s)
  | ImageRun _ => None
  end.

(** The texts of the runs of a cell, in order. *)
Definition cell_texts (c : TableCell) : list jsval :=
  cell_children c ≫= λ p, child_text <$> p_children p.

(** The tables of a section, in order. *)
Definition section_tables (s : DocSection) : list Table :=
  omap (λ c, if c is ChildTable t then Some t else None) (section_children s).

(** The sum of the widths of the cells of a row. *)
Definition row_width (r : TableRow) : Z :=
  foldr Z.add 0 ((λ c, width_size (cell_width c)) <$> row_children r).

(** ** An encoder of the examples *)

(** A document with a table of one row cannot be encoded; every other
    document is encoded as four bytes. *)
Definition sample_toBuffer (d : Document) : result (list N) :=
  if bool_decide (Exists (λ s, Exists (λ t, length (table_rows t) = 1%nat)
                                      (section_tables s)) (doc_sections d))
  then Throw EncoderError
  else Ret [80; 75; 3; 4]%N.

Lemma sample_toBuffer_settles d : returns_or_throws (sample_toBuffer d).
Proof. unfold sample_toBuffer. by case_bool_decide. Qed.

Definition sample_encoder : Encoder :=
  {| toBuffer := sample_toBuffer; toBuffer_settles := sample_toBuffer_settles |}.
