(* ===== verification/Args.v ===== *)
(** The command line: the record of options and [parseArgs] of
    generate.js. *)

From Stdlib Require Import Ascii.
From stdpp Require Import base tactics numbers strings option list.
From S2P Require Import Prelude JsString JsValue Path World.

Local Open Scope N_scope.

(** ** Options *)

(** The object [options]: [user] is [null] ([None]) until an argument
    sets it; the other properties are strings. *)
Record options : Type := Options {
  opt_user : option jsstring;
  opt_version : jsstring;
  opt_product : jsstring;
  opt_date : jsstring;
  opt_template : jsstring;
  opt_output : jsstring
}.

#[export] Instance options_eq_dec : EqDecision options.
Proof. solve_decision. Defined.

(** [s.split('T')[0]]: the text before the first [T]. *)
Fixpoint split_T_0 (s : jsstring) : jsstring :=
  match s with
  | [] => []
  | c :: s' => if is_ch "T" c then [] else c :: split_T_0 s'
  end.

(** The object literal that [parseArgs] starts from. *)
Definition default_options (e : env) : options :=
  {| opt_user := None;
     opt_version := js "v1.0.0";
     opt_product := js "行芯产品";
     opt_date := split_T_0 (env_now_iso e);
     opt_template := js "default";
     opt_output := js "." |}.

(** [arg.replace(/^--/, '')]. *)
Definition strip_dashes (arg : jsstring) : jsstring :=
  match arg with
  | 45 :: 45 :: key => key
  | _ => arg
  end.

(** [options.hasOwnProperty(key)]. *)
Definition hasOwnProperty (key : jsstring) : bool :=
  bool_decide (key ∈ [js "user"; js "version"; js "product"; js "date";
                      js "template"; js "output"]).

(** [options[key] = value] for an own property [key]. *)
Definition set_option (o : options) (key value : jsstring) : options :=
  if decide (key = js "user") then
    Options (Some value) (opt_version o) (opt_product o) (opt_date o) (opt_template o) (opt_output o)
  else if decide (key = js "version") then
    Options (opt_user o) value (opt_product o) (opt_date o) (opt_template o) (opt_output o)
  else if decide (key = js "product") then
    Options (opt_user o) (opt_version o) value (opt_date o) (opt_template o) (opt_output o)
  else if decide (key = js "date") then
    Options (opt_user o) (opt_version o) (opt_product o) value (opt_template o) (opt_output o)
  else if decide (key = js "template") then
    Options (opt_user o) (opt_version o) (opt_product o) (opt_date o) value (opt_output o)
  else if decide (key = js "output") then
    Options (opt_user o) (opt_version o) (opt_product o) (opt_date o) (opt_template o) value
  else o.

(** One turn of the loop: the pair [args[i]], [args[i + 1]]; [value] is
    [None] past the end of the arguments. *)
Definition parse_pair (o : options) (arg : jsstring) (value : option jsstring) : options :=
  let key := strip_dashes arg in
  match value with
  | Some v => if hasOwnProperty key && negb (bool_decide (v = [])) then set_option o key v else o
  | None => o
  end.

(** The loop [for (let i = 0; i < args.length; i += 2)]. *)
Fixpoint parse_pairs (args : list jsstring) (o : options) : options :=
  match args with
  | [] => o
  | [arg] => parse_pair o arg None
  | arg :: value :: args' => parse_pairs args' (parse_pair o arg (Some value))
  end.

Definition usage_error : list cval :=
  [CStr (js "错误: 必须指定 --user 参数（测试人员姓名）")].

Definition usage_line : list cval :=
  [CStr (js "用法: node generate.js --user " ++ [dquote] ++ js "张三" ++ [dquote]
         ++ js " [--version v1.0] [--product " ++ [dquote] ++ js "产品名" ++ [dquote]
         ++ js "] [--date YYYY-MM-DD] [--template default]")].

(** [parseArgs()]. *)
Definition parseArgs (e : env) : io options :=
  let options := parse_pairs (env_argv e) (default_options e) in
  if opt_user options is None then
    console_error usage_error;;
    console_error usage_line;;
    pexit 1
  else mret options.

(** The options after the loop. *)
Definition parsed_options (e : env) : options :=
  parse_pairs (env_argv e) (default_options e).

(** The arguments name a user: some pair, counted from the first
    argument, has the key [user] (with or without the dashes) and a value
    that is not empty. *)
Definition names_user (args : list jsstring) : Prop :=
  ∃ i arg v, args !! (2 * i)%nat = Some arg ∧ args !! (2 * i + 1)%nat = Some v ∧
             strip_dashes arg = js "user" ∧ v ≠ [].

(** What the arguments give to [key]: the value of the last pair, counted
    from the first argument, whose key is [key] and whose value is not
    empty. *)
Fixpoint last_value (key : jsstring) (args : list jsstring) : option jsstring :=
  match args with
  | arg :: value :: args' =>
      match last_value key args' with
      | Some v => Some v
      | None =>
          if bool_decide (strip_dashes arg = key) && negb (bool_decide (value = []))
          then Some value else None
      end
  | _ => None
  end.

(** The options [o] with every property that the arguments give a value
    replaced by it. *)
Definition given (o : options) (args : list jsstring) : options :=
  {| opt_user := last_value (js "user") args ∪ opt_user o;
     opt_version := default (opt_version o) (last_value (js "version") args);
     opt_product := default (opt_product o) (last_value (js "product") args);
     opt_date := default (opt_date o) (last_value (js "date") args);
     opt_template := default (opt_template o) (last_value (js "template") args);
     opt_output := default (opt_output o) (last_value (js "output") args) |}.

(** The command line that spells out every option of [o], the user
    first. *)
Definition argv_of (user : jsstring) (o : options) : list jsstring :=
  [js "--user"; user; js "--version"; opt_version o; js "--product"; opt_product o;
   js "--date"; opt_date o; js "--template"; opt_template o; js "--output"; opt_output o].

(** ** Lemmas *)

(** [parseArgs] returns the options when the user is set, and leaves the
    process with code 1 after two lines on the error stream otherwise. *)
Lemma parseArgs_run e w :
  parseArgs e w =
  if opt_user (parsed_options e) is Some _ then (Ret (parsed_options e), w)
  else (Exit 1, printed Error [usage_error; usage_line] w).
Proof.
  unfold parseArgs, parsed_options, printed.
  destruct (opt_user _); [done|]. run_io. by rewrite <-(assoc_L (++)).
Qed.

Lemma tame_parseArgs e : tame (parseArgs e).
Proof. intros w. rewrite parseArgs_run. by destruct (opt_user _). Qed.

Lemma preserves_parseArgs I `{!FsInvariant I} e : preserves I (parseArgs e).
Proof.
  intros [fs out] Hw. rewrite parseArgs_run.
  destruct (opt_user _); [done|]. by eapply fs_invariant.
Qed.

#[export] Hint Resolve tame_parseArgs preserves_parseArgs : docgen.

(** The user is set only by a pair that names it with a non-empty value. *)
Lemma parse_pair_user o arg value :
  opt_user (parse_pair o arg value) =
  match value with
  | Some v => if decide (strip_dashes arg = js "user" ∧ v ≠ []) then Some v else opt_user o
  | None => opt_user o
  end.
Proof.
  unfold parse_pair. destruct value as [v|]; [|done].
  destruct (decide (strip_dashes arg = js "user" ∧ v ≠ [])) as [[-> Hv]|Hn].
  - by rewrite bool_decide_false.
  - destruct (hasOwnProperty _ && _) eqn:Hk; [|done].
    apply andb_prop in Hk as [_ Hv]. apply negb_true_iff, bool_decide_eq_false in Hv.
    unfold set_option. repeat case_decide; simpl; try done. tauto.
Qed.

(** Once set, the user stays set. *)
Lemma parse_pair_user_Some o arg value :
  is_Some (opt_user o) → is_Some (opt_user (parse_pair o arg value)).
Proof. rewrite parse_pair_user. intros Hu. destruct value; [case_decide|]; done. Qed.

Lemma parse_pairs_user_Some args o :
  is_Some (opt_user o) → is_Some (opt_user (parse_pairs args o)).
Proof.
  revert o. induction args as [|arg|arg value args IH] using list_pair_ind;
    intros o Ho; cbn [parse_pairs];
    [done | by apply parse_pair_user_Some | by apply IH, parse_pair_user_Some].
Qed.

(** A pair in front names the user itself or leaves it to the rest. *)
Lemma names_user_pair arg value args :
  names_user (arg :: value :: args)
  ↔ (strip_dashes arg = js "user" ∧ value ≠ []) ∨ names_user args.
Proof.
  split.
  - intros ([|i] & a & v & Ha & Hv & Hk & Hn); [left; by simplify_eq/=|right].
    exists i, a, v. replace (2 * S i)%nat with (S (S (2 * i))) in * by lia.
    by simplify_eq/=.
  - intros [[Hk Hn]|(i & a & v & Ha & Hv & Hk & Hn)]; [by exists 0%nat, arg, value|].
    exists (S i), a, v. replace (2 * S i)%nat with (S (S (2 * i))) by lia. done.
Qed.

Lemma names_user_short args : (length args < 2)%nat → ¬ names_user args.
Proof.
  intros Hl (i & a & v & _ & Hv%lookup_lt_Some & _). lia.
Qed.

(** The loop sets the user exactly when the arguments name one. *)
Lemma parse_pairs_user args o :
  is_Some (opt_user (parse_pairs args o)) ↔ is_Some (opt_user o) ∨ names_user args.
Proof.
  revert o. induction args as [|arg|arg value args IH] using list_pair_ind;
    intros o; cbn [parse_pairs].
  - pose proof (names_user_short [] ltac:(simpl; lia)). tauto.
  - pose proof (names_user_short [arg] ltac:(simpl; lia)). tauto.
  - rewrite IH, parse_pair_user, names_user_pair. case_decide; [|tauto].
    split; [tauto|by left].
Qed.

(** Fewer than two arguments give nothing. *)
Lemma given_short o args : (length args < 2)%nat → given o args = o.
Proof. destruct o as [[u|] ? ? ? ? ?], args as [|? [|? ?]]; simpl; (done || lia). Qed.

(** One turn of the loop gives what its pair gives. *)
Lemma parse_pair_given o arg v : parse_pair o arg (Some v) = given o [arg; v].
Proof.
  unfold parse_pair, given. cbn [last_value]. generalize (strip_dashes arg) as k. intros k.
  destruct o as [u ve p d t out].
  cbn [opt_user opt_version opt_product opt_date opt_template opt_output].
  destruct (bool_decide (v = [])) eqn:Hv; [simpl; rewrite ?andb_false_r; by destruct u|].
  destruct (hasOwnProperty k) eqn:Hk.
  - apply bool_decide_eq_true in Hk. rewrite !elem_of_cons, elem_of_nil in Hk.
    destruct_or! Hk; try done; subst k; destruct u; by_compute.
  - apply bool_decide_eq_false in Hk. rewrite !not_elem_of_cons in Hk. destruct_and!.
    rewrite !bool_decide_false by done. by destruct u.
Qed.

(** A pair in front is overridden by the pairs behind it. *)
Lemma given_pair o arg v args : given (given o [arg; v]) args = given o (arg :: v :: args).
Proof.
  unfold given. cbn [last_value opt_user opt_version opt_product opt_date opt_template opt_output].
  f_equal; destruct (last_value _ args), (_ && _); try done; by destruct (opt_user o).
Qed.

(** C24. The loop of [parseArgs] against a reference: each of the six
    options ends with the value of the last pair of arguments, counted
    from the first, that names it (with or without the two dashes) with a
    value that is not empty, and keeps its initial value when no pair
    does; keys that are not options, empty values and an argument left
    alone at the end change nothing. *)
Theorem parse_pairs_last_wins args o : parse_pairs args o = given o args.
Proof.
  revert o. induction args as [|arg|arg value args IH] using list_pair_ind;
    intros o; cbn [parse_pairs].
  - by rewrite given_short by (simpl; lia).
  - by rewrite given_short by (simpl; lia).
  - by rewrite IH, parse_pair_given, given_pair.
Qed.

(** C25. When [parseArgs] returns: exactly when some pair of arguments,
    counted from the first, names the user with a value that is not
    empty; otherwise it leaves the process. *)
Theorem parseArgs_user_iff e w : is_Ret (parseArgs e w).1 ↔ names_user (env_argv e).
Proof.
  rewrite parseArgs_run. unfold parsed_options.
  pose proof (parse_pairs_user (env_argv e) (default_options e)) as Hu.
  destruct (opt_user _) as [u|]; simpl in *.
  - split; [intros _|by eexists]. destruct (proj1 Hu) as [[? [=]]|]; by eauto.
  - split; [by intros [? [=]]|]. intros Hn. by destruct (proj2 Hu (or_intror Hn)).
Qed.

(** An option with a value that is not empty is set. *)
Lemma parse_pair_set o arg v :
  hasOwnProperty (strip_dashes arg) = true → v ≠ [] →
  parse_pair o arg (Some v) = set_option o (strip_dashes arg) v.
Proof. intros Hk Hv. unfold parse_pair. by rewrite Hk, bool_decide_false. Qed.

(** C26. Round trip of the command line: [parseArgs] returns the options
    [o] on the command line that spells out each of them, whatever the
    defaults and the clock are, when no value is empty; the world is
    untouched.  Every option can be set, and none is set by the key of
    another. *)
Theorem parseArgs_argv_of e user o w :
  env_argv e = argv_of user o → opt_user o = Some user →
  Forall (λ v, v ≠ [])
    [user; opt_version o; opt_product o; opt_date o; opt_template o; opt_output o] →
  parseArgs e w = (Ret o, w).
Proof.
  destruct o as [u ve p d t out]. cbn [opt_user opt_version opt_product opt_date
    opt_template opt_output]. intros He -> Hv. repeat apply Forall_cons in Hv as [? Hv].
  rewrite parseArgs_run. unfold parsed_options. rewrite He. unfold argv_of.
  cbn [parse_pairs]. by rewrite !parse_pair_set by done.
Qed.

(** The usual command line: with the arguments [--user name] and a
    non-empty name, [parseArgs] returns the options with that user and the
    defaults (version v1.0.0, the product, the date of the run, the
    template [default], the output directory [.]) and prints nothing. *)
Corollary parseArgs_defaults e name w :
  env_argv e = [js "--user"; name] → name ≠ [] →
  parseArgs e w =
  (Ret {| opt_user := Some name; opt_version := js "v1.0.0"; opt_product := js "行芯产品";
          opt_date := split_T_0 (env_now_iso e); opt_template := js "default";
          opt_output := js "." |}, w).
Proof.
  intros He Hn. rewrite parseArgs_run. unfold parsed_options. rewrite He.
  cbn [parse_pairs]. unfold parse_pair.
  change (strip_dashes (js "--user")) with (js "user").
  change (hasOwnProperty (js "user")) with true.
  by rewrite bool_decide_false.
Qed.

(** C34. The arguments are read in pairs from the first: after an argument
    that is not an option and stands alone, every key falls on the place
    of a value, and a user given after it is not seen; [parseArgs] leaves
    the process with code 1. *)
Theorem parseArgs_shifted e flag name w :
  env_argv e = [flag; js "--user"; name] →
  hasOwnProperty (strip_dashes flag) = false →
  (parseArgs e w).1 = Exit 1.
Proof.
  intros He Hf. rewrite parseArgs_run. unfold parsed_options. rewrite He.
  cbn [parse_pairs]. unfold parse_pair. by rewrite Hf.
Qed.

Lemma parseArgs_argv_of_witness :
  parseArgs (sample_env (argv_of (js "张三")
    (Options (Some (js "张三")) (js "v2.1") (js "示例") (js "2024-01-01") (js "smoke")
       (js "/srv/out")))) (quiet empty_fs)
  = (Ret (Options (Some (js "张三")) (js "v2.1") (js "示例") (js "2024-01-01") (js "smoke")
            (js "/srv/out")), quiet empty_fs).
Proof. apply (parseArgs_argv_of _ (js "张三")); [done..|]. by_decide. Defined.

Lemma parseArgs_defaults_witness :
  parseArgs (sample_env [js "--user"; js "张三"]) (quiet empty_fs) =
  (Ret {| opt_user := Some (js "张三"); opt_version := js "v1.0.0";
          opt_product := js "行芯产品"; opt_date := js "2024-01-01";
          opt_template := js "default"; opt_output := js "." |}, quiet empty_fs).
Proof.
  apply (parseArgs_defaults (sample_env [js "--user"; js "张三"])); [done | by_decide].
Defined.

(** The second pair names the user, without dashes. *)
Lemma parseArgs_user_iff_witness :
  is_Ret (parseArgs (sample_env [js "--version"; js "v2"; js "user"; js "张三"])
            (quiet empty_fs)).1.
Proof.
  apply parseArgs_user_iff. exists 1%nat, (js "user"), (js "张三").
  split_and!; [reflexivity | reflexivity | by_compute | by_decide].
Defined.

Lemma parseArgs_shifted_witness :
  (parseArgs (sample_env [js "--verbose"; js "--user"; js "张三"]) (quiet empty_fs)).1
  = Exit 1.
Proof.
  apply (parseArgs_shifted _ (js "--verbose") (js "张三")); [done | by_compute].
Defined.
