(* ===== verification/Document.v ===== *)
(** The document builder: the part of [createDocument] of generate.js that
    builds the document model from the checklist and the options (the
    checklist table with its header row and its striped rows, the page
    header with the optional logo, the footer, the styles, the information
    table and the body). *)

From stdpp Require Import base tactics numbers strings option list.
From S2P Require Import Prelude JsString JsValue Template Docx Args.

Local Open Scope Z_scope.

(** ** Borders and widths *)

(** [border]. *)
Definition border : Border := mkBorder SINGLE 1 (js "666666").

(** [borders]. *)
Definition borders : Borders := mkBorders border border border border.

(** [colWidths]: 9360 DXA in all. *)
Definition colWidths : list Z := [2800; 4560; 2000].

(** A string as the value of a [text] key. *)
Definition str (s : string) : jsval := Some (JString (js s)).

(** ** The checklist table *)

(** A cell of the header row: the three cells differ in their column and
    their title. *)
Definition headerCell (col : nat) (title : string) : TableCell :=
  {| cell_borders := borders;
     cell_width := mkWidth (colWidths !!! col) DXA;
     cell_columnSpan := None;
     cell_shading := Some (mkShading (js "2E5090") CLEAR);
     cell_verticalAlign := Some (js "center");
     cell_margins := mkMargins 100 100 120 120;
     cell_children := [
       {| p_heading := None;
          p_alignment := Some CENTER;
          p_spacing := None;
          p_border := None;
          p_children := [TextRun (mkRun (str title) [] true (Some (js "FFFFFF"))
                                        (Some (js "SimHei")) (Some 22))] |}
     ] |}.

(** The first element of [tableRows]. *)
Definition headerRow : TableRow :=
  mkRow [headerCell 0 "测试功能点"; headerCell 1 "测试要点"; headerCell 2 "测试结果"].

(** [isEven ? undefined : { fill: "F5F5F5", type: ShadingType.CLEAR }]. *)
Definition rowShading (isEven : bool) : option Shading :=
  if isEven then None else Some (mkShading (js "F5F5F5") CLEAR).

(** The text of the third cell of every entry's row. *)
Definition resultPlaceholder : jsval := str "□ 通过    □ 失败    □ 待测试".

(** A cell of an entry's row: the three cells differ in their column,
    their text, the size of the text and the alignment. *)
Definition itemCell (isEven : bool) (col : nat) (alignment : option AlignmentType)
    (text : jsval) (size : Z) : TableCell :=
  {| cell_borders := borders;
     cell_width := mkWidth (colWidths !!! col) DXA;
     cell_columnSpan := None;
     cell_shading := rowShading isEven;
     cell_verticalAlign := Some (js "center");
     cell_margins := mkMargins 80 80 120 120;
     cell_children := [
       {| p_heading := None;
          p_alignment := alignment;
          p_spacing := None;
          p_border := None;
          p_children := [TextRun (mkRun text [] false None (Some (js "SimSun")) (Some size))] |}
     ] |}.

(** [index % 2 === 0]. *)
Definition isEven (index : nat) : bool := bool_decide (index `mod` 2 = 0)%nat.

(** The row pushed at [index] for an entry with the properties [function]
    and [points]. *)
Definition entryRow (index : nat) (function points : jsval) : TableRow :=
  mkRow [itemCell (isEven index) 0 None function 21;
         itemCell (isEven index) 1 None points 21;
         itemCell (isEven index) 2 (Some CENTER) resultPlaceholder 20].

(** The callback of [testItems.forEach]: the row pushed for [item] at
    [index].  Reading a property of [null] throws. *)
Definition itemRow (index : nat) (item : json) : result TableRow :=
  function ← get_property (Some item) (js "function");
  points ← get_property (Some item) (js "points");
  Ret (entryRow index function points).

(** The rows pushed for the elements from [index] on; the first exception
    ends the loop. *)
Fixpoint itemRows (index : nat) (items : list json) : result (list TableRow) :=
  match items with
  | [] => Ret []
  | item :: items' =>
      row ← itemRow index item;
      rows ← itemRows (S index) items';
      Ret (row :: rows)
  end.

(** [tableRows] after [testItems.forEach(...)]: only an array has a method
    [forEach]. *)
Definition tableRows (testItems : json) : result (list TableRow) :=
  match testItems with
  | JArray items => rows ← itemRows 0 items; Ret (headerRow :: rows)
  | _ => Throw TypeError
  end.

(** [testItems.length] of an array. *)
Definition itemCount (testItems : json) : nat :=
  match testItems with
  | JArray items => length items
  | _ => 0
  end.

(** ** Header and footer *)

(** [new ImageRun({ data: logoBuffer, ... })]. *)
Definition logoImage (logoBuffer : list N) : ParagraphChild :=
  ImageRun (mkImage logoBuffer 80 80 (js "png")).

(** [header], with [logoImageRun] or [null]. *)
Definition header (logoImageRun : option ParagraphChild) : list Paragraph :=
  [ {| p_heading := None;
       p_alignment := Some CENTER;
       p_spacing := Some (mkSpacing None (Some 100));
       p_border := None;
       p_children :=
         (if logoImageRun is Some logo then [logo] else [])
         ++ [TextRun (mkRun (str "   行芯科技 | 产品验证文档") [] true (Some (js "2E5090"))
                            (Some (js "SimHei")) (Some 20))] |};
    {| p_heading := None;
       p_alignment := None;
       p_spacing := None;
       p_border := Some (mkParagraphBorder None (Some (mkBorder SINGLE 6 (js "2E5090"))));
       p_children := [TextRunOf []] |} ].

(** A run of the footer. *)
Definition footerText (text : string) : ParagraphChild :=
  TextRun (mkRun (str text) [] false None (Some (js "SimSun")) (Some 18)).

Definition footerField (field : PageNumber) : ParagraphChild :=
  TextRun (mkRun None [field] false None (Some (js "SimSun")) (Some 18)).

(** [footer]. *)
Definition footer : list Paragraph :=
  [ {| p_heading := None;
       p_alignment := Some CENTER;
       p_spacing := None;
       p_border := Some (mkParagraphBorder (Some (mkBorder SINGLE 4 (js "CCCCCC"))) None);
       p_children := [
         footerText "机密文件  •  第 ";
         footerField CURRENT;
         footerText " 页  •  共 ";
         footerField TOTAL_PAGES;
         footerText " 页"
       ] |} ].

(** ** Styles and page *)

(** [styles]. *)
Definition styles : Styles :=
  {| styles_default_font := js "SimSun";
     styles_default_size := 24;
     styles_paragraphStyles := [
       {| ps_id := js "Heading1"; ps_name := js "Heading 1";
          ps_basedOn := js "Normal"; ps_next := js "Normal"; ps_quickFormat := true;
          ps_run := mkRunStyle 36 true (js "SimHei") (Some (js "2E5090"));
          ps_spacing := mkSpacing (Some 400) (Some 300);
          ps_alignment := Some CENTER |};
       {| ps_id := js "Heading2"; ps_name := js "Heading 2";
          ps_basedOn := js "Normal"; ps_next := js "Normal"; ps_quickFormat := true;
          ps_run := mkRunStyle 26 true (js "SimHei") None;
          ps_spacing := mkSpacing (Some 300) (Some 200);
          ps_alignment := None |}
     ] |}.

(** [properties.page]: A4. *)
Definition page : Page := mkPage 11906 16838 (mkMargins 1800 1440 1440 1440).

(** ** The body *)

(** [new Paragraph({ heading, children: [new TextRun(text)] })]. *)
Definition headingParagraph (level : HeadingLevel) (text : string) : SectionChild :=
  ChildParagraph
    {| p_heading := Some level; p_alignment := None; p_spacing := None; p_border := None;
       p_children := [TextRunOf (js text)] |}.

(** [new Paragraph({ spacing: { before, after }, children: [new TextRun("")] })]. *)
Definition emptyLine (before after : Z) : SectionChild :=
  ChildParagraph
    {| p_heading := None; p_alignment := None;
       p_spacing := Some (mkSpacing (Some before) (Some after)); p_border := None;
       p_children := [TextRunOf []] |}.

(** A paragraph of one run, with spacing 100 before and after. *)
Definition textLine (text : string) (size : Z) (color : option jsstring) : SectionChild :=
  ChildParagraph
    {| p_heading := None; p_alignment := None;
       p_spacing := Some (mkSpacing (Some 100) (Some 100)); p_border := None;
       p_children := [TextRun (mkRun (str text) [] false color (Some (js "SimSun")) (Some size))] |}.

(** A cell of the information table that holds a label. *)
Definition labelCell (label : string) : TableCell :=
  {| cell_borders := borders;
     cell_width := mkWidth 2340 DXA;
     cell_columnSpan := None;
     cell_shading := Some (mkShading (js "E8EEF7") CLEAR);
     cell_verticalAlign := None;
     cell_margins := mkMargins 80 80 120 120;
     cell_children := [
       {| p_heading := None; p_alignment := None; p_spacing := None; p_border := None;
          p_children := [TextRun (mkRun (str label) [] true None (Some (js "SimHei")) (Some 21))] |}
     ] |}.

(** A cell of the information table that holds a value of the options. *)
Definition valueCell (width : Z) (columnSpan : option Z) (shading : option Shading)
    (value : jsval) : TableCell :=
  {| cell_borders := borders;
     cell_width := mkWidth width DXA;
     cell_columnSpan := columnSpan;
     cell_shading := shading;
     cell_verticalAlign := None;
     cell_margins := mkMargins 80 80 120 120;
     cell_children := [
       {| p_heading := None; p_alignment := None; p_spacing := None; p_border := None;
          p_children := [TextRun (mkRun value [] false None (Some (js "SimSun")) (Some 21))] |}
     ] |}.

(** The value of [user] as a [text]: a string, or [null]. *)
Definition userText (user : option jsstring) : jsval :=
  Some (if user is Some s then JString s else JNull).

(** The information table. *)
Definition infoTable (o : options) : Table :=
  {| table_width := mkWidth 9360 DXA;
     table_columnWidths := [2340; 4680; 2340];
     table_rows := [
       mkRow [labelCell "产品名称：";
              valueCell 4680 None None (Some (JString (opt_product o)));
              labelCell "版本号："];
       mkRow [labelCell "测试日期：";
              valueCell 4680 None None (Some (JString (opt_date o)));
              valueCell 2340 None (Some (mkShading (js "E8EEF7") CLEAR))
                        (Some (JString (opt_version o)))];
       mkRow [labelCell "测试人员：";
              valueCell 4680 (Some 2) None (userText (opt_user o))]
     ] |}.

(** The checklist table. *)
Definition checklistTable (rows : list TableRow) : Table :=
  {| table_width := mkWidth 9360 DXA;
     table_columnWidths := colWidths;
     table_rows := rows |}.

(** [children] of the section. *)
Definition children (o : options) (rows : list TableRow) : list SectionChild :=
  [ headingParagraph HEADING_1 "行芯产品验证文档";
    ChildTable (infoTable o);
    emptyLine 200 200;
    headingParagraph HEADING_2 "测试项目清单";
    ChildTable (checklistTable rows);
    emptyLine 300 200;
    headingParagraph HEADING_2 "备注";
    textLine "（此处可填写测试过程中的特殊情况说明、环境配置信息、问题记录等）" 21
             (Some (js "999999"));
    emptyLine 400 100;
    headingParagraph HEADING_2 "签字确认";
    emptyLine 200 100;
    textLine "测试人员签字：____________________    日期：____________________" 22 None;
    emptyLine 200 100;
    textLine "审核人员签字：____________________    日期：____________________" 22 None ].

(** [doc]. *)
Definition doc (o : options) (rows : list TableRow) (logoImageRun : option ParagraphChild)
  : Document :=
  {| doc_styles := styles;
     doc_sections := [
       {| section_page := page;
          section_header := header logoImageRun;
          section_footer := footer;
          section_children := children o rows |}
     ] |}.

(** The row of the entry [item] at [index], when [item] is not [null]. *)
Definition rowOf (index : nat) (item : json) : TableRow :=
  entryRow index (property_of item (js "function")) (property_of item (js "points")).

(** An array of entries none of which is [null]. *)
Definition entries (testItems : json) (items : list json) : Prop :=
  testItems = JArray items ∧ Forall (λ item, item ≠ JNull) items.

(** A checklist of the examples: two entries and a string. *)
Definition sample_checklist : json :=
  JArray [item "A" "B"; item "C" "D"; JString (js "E")].

(** Its rows. *)
Definition sample_rows : list TableRow :=
  [headerRow; rowOf 0 (item "A" "B"); rowOf 1 (item "C" "D"); rowOf 2 (JString (js "E"))].

(** ** The rows of the checklist table *)

Lemma itemRow_Ret index item : item ≠ JNull → itemRow index item = Ret (rowOf index item).
Proof. intros Hi. unfold itemRow. by rewrite !get_property_Ret. Qed.

Lemma itemRow_Ret_inv index item row :
  itemRow index item = Ret row → item ≠ JNull ∧ row = rowOf index item.
Proof.
  unfold itemRow. intros (f & [Hn ->]%get_property_Ret_inv & Hr)%mbind_Ret_inv.
  apply mbind_Ret_inv in Hr as (p & [_ ->]%get_property_Ret_inv & [= <-]). done.
Qed.

(** The loop pushes one row per entry, in order, each at its index. *)
Lemma itemRows_Ret index items :
  Forall (λ item, item ≠ JNull) items →
  itemRows index items = Ret (imap (λ i, rowOf (index + i)) items).
Proof.
  intros Hi. revert index. induction Hi as [|item items Hn _ IH]; intros index; [done|].
  cbn [itemRows imap]. rewrite itemRow_Ret, mbind_Ret, IH, mbind_Ret, Nat.add_0_r by done.
  do 2 f_equal. apply imap_ext. intros i x _. simpl. f_equal. lia.
Qed.

Lemma itemRows_Ret_inv index items rows :
  itemRows index items = Ret rows → Forall (λ item, item ≠ JNull) items.
Proof.
  revert index rows. induction items as [|item items IH]; intros index rows; [done|].
  cbn [itemRows]. intros (row & [Hn _]%itemRow_Ret_inv & Hr)%mbind_Ret_inv.
  apply mbind_Ret_inv in Hr as (rows' & Hr & _). constructor; [done | by eapply IH].
Qed.

(** The loop stops with a [TypeError] at the first [null] entry. *)
Lemma itemRows_null index items :
  JNull ∈ items → itemRows index items = Throw TypeError.
Proof.
  revert index. induction items as [|item items IH]; intros index Hin; [by inv Hin|].
  cbn [itemRows]. destruct (decide (item = JNull)) as [->|Hne]; [done|].
  rewrite itemRow_Ret, mbind_Ret by done. rewrite IH; [done|].
  by apply elem_of_cons in Hin as [?|?].
Qed.

(** [tableRows] returns exactly on arrays of entries without [null], with
    the header row and the row of each entry. *)
Lemma tableRows_Ret testItems rows :
  tableRows testItems = Ret rows ↔
  ∃ items, entries testItems items ∧ rows = headerRow :: imap rowOf items.
Proof.
  split.
  - destruct testItems as [| | | |items|]; try done. cbn [tableRows].
    intros (rows' & Hr & [= <-])%mbind_Ret_inv. exists items.
    pose proof (itemRows_Ret_inv _ _ _ Hr) as Hi. rewrite itemRows_Ret in Hr by done.
    by simplify_eq.
  - intros (items & [-> Hi] & ->). cbn [tableRows]. by rewrite itemRows_Ret.
Qed.

(** [tableRows] returns or throws a [TypeError]. *)
Lemma tableRows_cases testItems :
  is_Ret (tableRows testItems) ∨ tableRows testItems = Throw TypeError.
Proof.
  destruct testItems as [| | | |items|]; try by right.
  destruct (decide (JNull ∈ items)) as [Hin|Hn].
  - right. cbn [tableRows]. by rewrite itemRows_null.
  - left. eexists. apply tableRows_Ret. eexists. split; [split; [done|]|done].
    apply Forall_forall. by intros item Hin ->.
Qed.

Lemma tableRows_returns_or_throws testItems : returns_or_throws (tableRows testItems).
Proof. by destruct (tableRows_cases testItems) as [[rows ->]| ->]. Qed.

#[export] Hint Resolve tableRows_returns_or_throws : docgen.

Lemma entryRow_shading index function points :
  Forall (λ c, cell_shading c = rowShading (isEven index))
    (row_children (entryRow index function points)).
Proof. by repeat constructor. Qed.

Lemma entryRow_widths index function points :
  (λ c, width_size (cell_width c)) <$> row_children (entryRow index function points)
  = colWidths.
Proof. done. Qed.

(** C9. The checklist table has one row per entry and the header row:
    whenever [tableRows] returns, the number of rows is the length of the
    array plus one (the header alone for the empty array). *)
Theorem tableRows_length testItems rows :
  tableRows testItems = Ret rows → length rows = (itemCount testItems + 1)%nat.
Proof.
  intros (items & [-> _] & ->)%tableRows_Ret. cbn [length itemCount].
  rewrite length_imap. lia.
Qed.

(** C10. Striping: the row of the entry at index [i] (row [i + 1] of the
    table) has no shading in any cell when [i] is even and the shading
    F5F5F5 in every cell when [i] is odd. *)
Theorem tableRows_shading testItems rows i row :
  tableRows testItems = Ret rows →
  rows !! S i = Some row →
  Forall (λ c, cell_shading c =
               if bool_decide (i `mod` 2 = 0)%nat then None
               else Some (mkShading (js "F5F5F5") CLEAR))
         (row_children row).
Proof.
  intros (items & _ & ->)%tableRows_Ret Hrow.
  change (imap rowOf items !! i = Some row) in Hrow.
  apply list_lookup_imap_Some in Hrow as (item & _ & ->). apply entryRow_shading.
Qed.

(** C17. The row of an entry shows the entry: its first cell holds the
    entry's [function], its second cell its [points] ([undefined] when the
    property is missing), its third cell the fixed placeholder. *)
Theorem tableRows_texts testItems rows i item :
  tableRows testItems = Ret rows →
  (∃ items, testItems = JArray items ∧ items !! i = Some item) →
  ∃ row, rows !! S i = Some row ∧
         cell_texts <$> row_children row
         = [[property_of item (js "function")]; [property_of item (js "points")];
            [resultPlaceholder]].
Proof.
  intros (items & [-> _] & ->)%tableRows_Ret (? & [= <-] & Hi).
  exists (rowOf i item). split; [|done].
  change (imap rowOf items !! i = Some (rowOf i item)).
  by rewrite list_lookup_imap, Hi.
Qed.

(** C32. The rows of the checklist table on every value of [items].  An
    array without a [null] element gives the header row and the row of
    each element in order, so the builder is total on checklists; an array
    with a [null] element makes the callback of [forEach] throw a
    [TypeError], whatever the other elements are; a value that is not an
    array has no [forEach], and the call throws a [TypeError]. *)
Theorem tableRows_outcome testItems :
  tableRows testItems =
  match testItems with
  | JArray items =>
      if decide (JNull ∈ items) then Throw TypeError
      else Ret (headerRow :: imap rowOf items)
  | _ => Throw TypeError
  end.
Proof.
  destruct testItems as [| | | |items|]; try done. cbn [tableRows].
  case_decide as Hn; [by rewrite itemRows_null|].
  rewrite itemRows_Ret; [done|]. apply Forall_forall. by intros item Hin ->.
Qed.

(** C31. Column widths: every row of the checklist table, the header row
    included, has three cells of widths 2800, 4560 and 2000, which add up
    to the width 9360 of the table. *)
Theorem checklist_row_width testItems rows :
  tableRows testItems = Ret rows →
  Forall (λ r, (λ c, width_size (cell_width c)) <$> row_children r = colWidths
               ∧ row_width r = width_size (table_width (checklistTable rows)))
         rows.
Proof.
  intros (items & _ & ->)%tableRows_Ret. constructor; [done|].
  apply Forall_lookup. intros i row (item & _ & ->)%list_lookup_imap_Some. done.
Qed.

(** The texts of the information table, read off the code: the label of
    the version stands in the first row without a value, and the version
    stands in the second row beside the date. *)
Example infoTable_texts o :
  (λ r, cell_texts <$> row_children r) <$> table_rows (infoTable o)
  = [ [[str "产品名称："]; [Some (JString (opt_product o))]; [str "版本号："]];
      [[str "测试日期："]; [Some (JString (opt_date o))]; [Some (JString (opt_version o))]];
      [[str "测试人员："]; [userText (opt_user o)]] ].
Proof. done. Qed.

(** The body holds two tables, the information table before the
    checklist table, and the checklist table holds the rows built from the
    entries. *)
Theorem doc_tables o rows logo :
  section_tables <$> doc_sections (doc o rows logo)
  = [[infoTable o; checklistTable rows]].
Proof. done. Qed.

(** The declared widths of the last row of the information table add
    up to 7020, not to the 9360 of the table: the cell that spans two
    columns declares the width of one. *)
Theorem infoTable_row_widths o :
  row_width <$> table_rows (infoTable o) = [9360; 9360; 7020].
Proof. done. Qed.

(** ** The theorems on the checklist of the examples *)

Lemma tableRows_length_witness : length sample_rows = 4%nat.
Proof. apply (tableRows_length sample_checklist). by_compute. Defined.

Lemma tableRows_shading_witness :
  Forall (λ c, cell_shading c = Some (mkShading (js "F5F5F5") CLEAR))
         (row_children (rowOf 1 (item "C" "D"))).
Proof.
  apply (tableRows_shading sample_checklist sample_rows 1); by_compute.
Defined.

Lemma tableRows_texts_witness :
  ∃ row, sample_rows !! 3%nat = Some row ∧
         cell_texts <$> row_children row = [[None]; [None]; [resultPlaceholder]].
Proof.
  apply (tableRows_texts sample_checklist sample_rows 2 (JString (js "E")));
    [by_compute | eexists; split; [reflexivity | by_compute]].
Defined.

Lemma checklist_row_width_witness :
  Forall (λ r, (λ c, width_size (cell_width c)) <$> row_children r = [2800; 4560; 2000]
               ∧ row_width r = 9360)
         sample_rows.
Proof. apply (checklist_row_width sample_checklist). by_compute. Defined.
