(* ===== verification/Generate.v ===== *)
(** The effectful part of generate.js: the logo, the output name and
    path, [createDocument] and [main]. *)

From stdpp Require Import base tactics numbers strings pretty option list gmap.
From S2P Require Import Prelude JsString Regex RegexSyntax JsValue Json JsonGrammar Path World Hoare.
From S2P Require Import Template Docx Args Document.

Local Open Scope hoare_scope.

(** The object that [createDocument] returns. *)
Record doc_result : Type := DocResult {
  res_filename : jsstring;
  res_path : jsstring;
  res_itemCount : nat
}.

(** [`${v}`] for [v] a string or [null]. *)
Definition ToString_opt (v : option jsstring) : jsstring := default (js "null") v.

(** [`${n}`] for [n] the length of an array. *)
Definition Number_toString (n : nat) : jsstring := js (pretty n).

(** [filename]. *)
Definition filename (user : option jsstring) : jsstring :=
  js "行芯产品验证文档-" ++ ToString_opt user ++ js ".docx".

Section generate.
Context `{Canonicalize} `{Encoder} (e : env).

Definition logoPath : jsstring :=
  path_join [env_dirname e; js ".."; js "assets"; js "logo.png"].

(** [logoImageRun] after the [if]: the image when the logo exists.  The
    text [logoBase64] that the code computes from the buffer is never
    used and is left out. *)
Definition logoImageRun : io (option ParagraphChild) :=
  ex ← existsSync logoPath;
  if ex : bool then
    logoBuffer ← readFileSync logoPath;
    mret (Some (logoImage logoBuffer))
  else mret None.

(** [outputPath]. *)
Definition outputPath (o : options) : jsstring :=
  path_resolve (env_cwd e) [opt_output o; filename (opt_user o)].

(** The end of [createDocument]: the directory, the encoder, the write. *)
Definition writeDocument (o : options) (d : Document) : io unit :=
  let outputDir := path_dirname (outputPath o) in
  ex ← existsSync outputDir;
  (if negb ex then mkdirSync_recursive outputDir else mret tt);;
  buffer ← plift (toBuffer d);
  writeFileSync (outputPath o) buffer.

(** [createDocument(options)], awaited. *)
Definition createDocument (o : options) : io doc_result :=
  testItems ← loadTemplate e (opt_template o);
  rows ← plift (tableRows testItems);
  logo ← logoImageRun;
  writeDocument o (doc o rows logo);;
  mret (DocResult (filename (opt_user o)) (outputPath o) (itemCount testItems)).

(** The lines that [main] prints before the document is built. *)
Definition banner (o : options) : list (list cval) :=
  [ [CStr (js "开始生成文档...")];
    [CStr (js "  测试人员: " ++ ToString_opt (opt_user o))];
    [CStr (js "  产品名称: " ++ opt_product o)];
    [CStr (js "  版本号: " ++ opt_version o)];
    [CStr (js "  测试日期: " ++ opt_date o)];
    [CStr (js "  测试模板: " ++ opt_template o)];
    [CStr (js "  输出目录: " ++ opt_output o)];
    [CStr []] ].

(** The lines that [main] prints after the document is written. *)
Definition summary (r : doc_result) : list (list cval) :=
  [ [CStr (js "✅ 文档生成成功！")];
    [CStr (js "   文件名: " ++ res_filename r)];
    [CStr (js "   路径: " ++ res_path r)];
    [CStr (js "   测试项数量: " ++ Number_toString (res_itemCount r))] ].

(** The arguments of [console.error] for the exception [error]. *)
Definition failure (error : js_error) : list cval :=
  [CStr (js "❌ 生成失败:"); CMessage error].

(** Consecutive calls of [console.log]. *)
Definition log_lines (ls : list (list cval)) : io unit :=
  foldr (λ l k, console_log l;; k) (mret tt) ls.

(** [main()], awaited. *)
Definition main : io unit :=
  pcatch
    (options ← parseArgs e;
     log_lines (banner options);;
     result ← createDocument options;
     log_lines (summary result))
    (λ error,
     console_error (failure error);;
     pexit 1).

(** In [w] the output path holds the document of a run that started in
    [w0] with the options [o], in a directory: the bytes that the encoder
    returned for the document built from [o], the rows of the checklist
    that [loadTemplate] resolves in [w0], and the logo that is read
    there. *)
Definition written (o : options) (w0 w : world) : Prop :=
  ∃ testItems rows logo bytes,
    (loadTemplate e (opt_template o) w0).1 = Ret testItems
    ∧ tableRows testItems = Ret rows
    ∧ (logoImageRun w0).1 = Ret logo
    ∧ toBuffer (doc o rows logo) = Ret bytes
    ∧ w_fs w !! path_key (outputPath o) = Some (File bytes)
    ∧ w_fs w !! path_key (path_dirname (outputPath o)) = Some Dir.

(** ** Worlds of examples *)

(** The arguments of the examples: a user and an output directory. *)
Definition sample_argv : list jsstring :=
  [js "--user"; js "张三"; js "--output"; js "/srv/out"].

(** Where the document of the examples is written. *)
Definition sample_path : jsstring := js "/srv/out/行芯产品验证文档-张三.docx".

(** A catalogue whose section [default] has no entries. *)
Definition catalogue_E : list N := text_bytes "## default
```json
{'items': []}
```
".

(** ** Logo, directory and write *)

(** The paths are computed from the environment; the lemmas treat them
    as given. *)
#[local] Opaque path_key path_dirname path_resolve path_join.

Lemma logoImageRun_run w :
  logoImageRun w =
  match w_fs w !! path_key logoPath with
  | Some (File bytes) => (Ret (Some (logoImage bytes)), w)
  | Some Dir => (Throw (SystemError "EISDIR"), w)
  | None => (Ret None, w)
  end.
Proof.
  unfold logoImageRun, readFileSync, read_bytes, existsSync. prog_unfold.
  by destruct (w_fs w !! path_key logoPath) as [[]|] eqn:Hl; simpl; rewrite ?Hl.
Qed.

Lemma tame_logoImageRun : tame logoImageRun.
Proof. intros w. rewrite logoImageRun_run. by repeat case_match. Qed.

Lemma preserves_logoImageRun I : preserves I logoImageRun.
Proof. intros w Hw. rewrite logoImageRun_run. by repeat case_match. Qed.

Lemma tame_writeDocument o d : tame (writeDocument o d).
Proof. unfold writeDocument. pose proof (toBuffer_settles d). io_rules. Qed.

(** An invariant of the file system that the two writes of the program
    keep is kept by [writeDocument] and by [createDocument], however they
    end. *)
Section invariants.
Context (I : world → Prop) `{!FsInvariant I} (o : options).
Hypothesis I_mkdir : preserves I (mkdirSync_recursive (path_dirname (outputPath o))).
Hypothesis I_write : ∀ data, preserves I (writeFileSync (outputPath o) data).

Lemma preserves_writeDocument d : preserves I (writeDocument o d).
Proof. unfold writeDocument. io_rules. Qed.

Lemma preserves_createDocument : preserves I (createDocument o).
Proof.
  unfold createDocument. pose proof (preserves_loadTemplate e I).
  pose proof (preserves_logoImageRun I). pose proof preserves_writeDocument. io_rules.
Qed.

End invariants.

(** The document is written when its directory can be made: [fs'] is the
    file system with the directory, the file is added to it. *)
Lemma writeDocument_run o d w fs' bytes :
  wf_world w →
  mkdir_p (w_fs w) [] (path_key (path_dirname (outputPath o))) = Ret fs' →
  fs' !! path_key (outputPath o) ≠ Some Dir →
  toBuffer d = Ret bytes →
  writeDocument o d w
  = (Ret tt, World (<[path_key (outputPath o) := File bytes]> fs') (w_console w)).
Proof.
  intros Hwf Hm Hn Hb. unfold writeDocument. rewrite (ensure_dir_run _ _ _ _ Hwf Hm).
  destruct (key_parent _ _ (mkdir_p_wf _ _ _ _ Hwf (proj1 Hwf) Hm) Hn) as [name Hk].
  rewrite Hb, mbind_plift_Ret.
  apply (writeFileSync_run (outputPath o) bytes (World fs' (w_console w))
           (path_key (path_dirname (outputPath o))) name); [done| |done].
  apply (mkdir_p_creates_root _ _ _ (proj1 Hwf) Hm).
Qed.

(** When the encoder fails, the directory has been made already. *)
Lemma writeDocument_encoder_throw o d w fs' err :
  w_fs w !! path_key (path_dirname (outputPath o)) = None →
  mkdir_p (w_fs w) [] (path_key (path_dirname (outputPath o))) = Ret fs' →
  toBuffer d = Throw err →
  writeDocument o d w = (Throw err, World fs' (w_console w)).
Proof.
  intros Hex Hm Hb. unfold writeDocument.
  rewrite (existsSync_bind_None _ _ _ Hex). cbn [negb].
  rewrite mbind_run, (mkdirSync_recursive_run _ _ _ Hm). by rewrite Hb.
Qed.

Arguments outputPath : simpl never.

(** ** [createDocument] *)

Lemma tame_createDocument o :
  RegExp_new (pattern_source (opt_template o)) ≠ Unsupported → tame (createDocument o).
Proof.
  intros Hs. unfold createDocument.
  pose proof (tame_loadTemplate e _ Hs). pose proof tame_logoImageRun.
  pose proof tame_writeDocument. io_rules.
Qed.

(** The steps of [createDocument], one after the other. *)
Lemma createDocument_steps o w testItems w1 rows logo :
  loadTemplate e (opt_template o) w = (Ret testItems, w1) →
  tableRows testItems = Ret rows →
  (logoImageRun w1).1 = Ret logo →
  createDocument o w =
  (writeDocument o (doc o rows logo);;
   mret (DocResult (filename (opt_user o)) (outputPath o) (itemCount testItems))) w1.
Proof.
  intros Hl Hr Hg. unfold createDocument.
  rewrite mbind_run, Hl, Hr, mbind_plift_Ret, mbind_run.
  revert Hg. rewrite logoImageRun_run.
  by repeat case_match; intros; simplify_eq/=.
Qed.

(** ** [main] *)

Lemma log_lines_run ls w : log_lines ls w = (Ret tt, printed Log ls w).
Proof.
  revert w. induction ls as [|l ls IH]; intros [fs out]; unfold printed; cbn [log_lines foldr].
  - by rewrite app_nil_r.
  - rewrite mbind_run, console_run. cbn [w_fs w_console]. fold (log_lines ls). rewrite IH.
    unfold printed. cbn [w_fs w_console fmap list_fmap]. by rewrite <-(assoc_L (++)).
Qed.

Lemma tame_log_lines ls : tame (log_lines ls).
Proof. intros w. by rewrite log_lines_run. Qed.

Lemma preserves_log_lines I `{!FsInvariant I} ls : preserves I (log_lines ls).
Proof. intros [fs out] Hw. rewrite log_lines_run. by eapply fs_invariant. Qed.

(** What [main] does, by the options and the outcome of
    [createDocument]. *)
Lemma main_run w :
  main w =
  if opt_user (parsed_options e) is Some _ then
    match createDocument (parsed_options e) (printed Log (banner (parsed_options e)) w) with
    | (Ret r, w') => (Ret tt, printed Log (summary r) w')
    | (Throw err, w') => (Exit 1, printed Error [failure err] w')
    | (Exit c, w') => (Exit c, w')
    | (Unmodelled, w') => (Unmodelled, w')
    end
  else (Exit 1, printed Error [usage_error; usage_line] w).
Proof.
  unfold main, pcatch. rewrite mbind_run, parseArgs_run.
  destruct (opt_user (parsed_options e)); [|done].
  rewrite mbind_run, log_lines_run, mbind_run.
  destruct (createDocument _ _) as [[r|err|c|] w']; [by rewrite log_lines_run| |done..].
  rewrite mbind_run, console_run. unfold printed. by destruct w'.
Qed.

(** An invariant of the file system that the two writes of the program
    keep is kept by [main]. *)
Lemma preserves_main I `{!FsInvariant I} :
  preserves I (mkdirSync_recursive (path_dirname (outputPath (parsed_options e)))) →
  (∀ data, preserves I (writeFileSync (outputPath (parsed_options e)) data)) →
  preserves I main.
Proof.
  intros Hm Hw w Hi. rewrite main_run.
  assert (∀ st ls w', I w' → I (printed st ls w')) as Hp
    by (intros ? ? [] ?; by eapply fs_invariant).
  destruct (opt_user _); [|by apply Hp].
  pose proof (preserves_createDocument I _ Hm Hw _ (Hp Log (banner (parsed_options e)) w Hi)).
  destruct (createDocument _ _) as [[] w']; simpl in *; auto.
Qed.

(** A run of [createDocument] that succeeds: when the checklist
    resolves, its rows are built, the logo is read or absent, the output
    directory exists or can be made and the encoder returns bytes, the
    file at the output path holds exactly these bytes, the directories
    made are the only other change, and the result names the file, its path
    and the number of entries. *)
Lemma createDocument_run o w testItems w1 rows logo fs' bytes :
  wf_world w →
  loadTemplate e (opt_template o) w = (Ret testItems, w1) →
  tableRows testItems = Ret rows →
  (logoImageRun w1).1 = Ret logo →
  mkdir_p (w_fs w1) [] (path_key (path_dirname (outputPath o))) = Ret fs' →
  fs' !! path_key (outputPath o) ≠ Some Dir →
  toBuffer (doc o rows logo) = Ret bytes →
  createDocument o w =
  (Ret (DocResult (filename (opt_user o)) (outputPath o) (itemCount testItems)),
   World (<[path_key (outputPath o) := File bytes]> fs') (w_console w1)).
Proof.
  intros Hwf Hl Hr Hg Hm Hn Hb.
  pose proof (preserves_loadTemplate e wf_world (opt_template o) w Hwf) as Hwf1.
  rewrite Hl in Hwf1. change (wf_world w1) in Hwf1.
  by rewrite (createDocument_steps _ _ _ _ _ _ Hl Hr Hg), mbind_run,
    (writeDocument_run _ _ _ _ _ Hwf1 Hm Hn Hb).
Qed.

(** C35. The directory is made before the document is encoded: when the
    output directory does not exist and the encoder fails, [createDocument]
    throws the encoder's exception and leaves the new directories behind,
    without a file. *)
Theorem encoder_failure_leaves_directory o w testItems w1 rows logo fs' err :
  loadTemplate e (opt_template o) w = (Ret testItems, w1) →
  tableRows testItems = Ret rows →
  (logoImageRun w1).1 = Ret logo →
  w_fs w1 !! path_key (path_dirname (outputPath o)) = None →
  mkdir_p (w_fs w1) [] (path_key (path_dirname (outputPath o))) = Ret fs' →
  toBuffer (doc o rows logo) = Throw err →
  createDocument o w = (Throw err, World fs' (w_console w1)).
Proof.
  intros Hl Hr Hg Hex Hm Hb.
  by rewrite (createDocument_steps _ _ _ _ _ _ Hl Hr Hg), mbind_run,
    (writeDocument_encoder_throw _ _ _ _ _ Hex Hm Hb).
Qed.

(** A destination that cannot be created is fatal: when a file
    stands in the way of the output directory, [createDocument] throws the
    error of [mkdirSync] before the encoder is called, and writes
    nothing. *)
Theorem output_directory_blocked o w testItems w1 rows logo err :
  loadTemplate e (opt_template o) w = (Ret testItems, w1) →
  tableRows testItems = Ret rows →
  (logoImageRun w1).1 = Ret logo →
  w_fs w1 !! path_key (path_dirname (outputPath o)) = None →
  mkdir_p (w_fs w1) [] (path_key (path_dirname (outputPath o))) = Throw err →
  createDocument o w = (Throw err, w1).
Proof.
  intros Hl Hr Hg Hex Hm.
  rewrite (createDocument_steps _ _ _ _ _ _ Hl Hr Hg), mbind_run. unfold writeDocument.
  by rewrite (ensure_dir_throw _ _ _ _ Hm Hex).
Qed.

(** What is written can be read: after [writeDocument] succeeded,
    reading the output path gives the bytes of the encoder, whatever was
    at that path before. *)
Theorem written_document_reads_back o d w fs' bytes :
  wf_world w →
  mkdir_p (w_fs w) [] (path_key (path_dirname (outputPath o))) = Ret fs' →
  fs' !! path_key (outputPath o) ≠ Some Dir →
  toBuffer d = Ret bytes →
  (writeDocument o d;; readFileSync (outputPath o)) w
  = (Ret bytes, World (<[path_key (outputPath o) := File bytes]> fs') (w_console w)).
Proof.
  intros Hwf Hm Hn Hb. rewrite mbind_run, (writeDocument_run _ _ _ _ _ Hwf Hm Hn Hb).
  unfold readFileSync, read_bytes. prog_unfold. cbn [w_fs]. by rewrite lookup_insert_eq.
Qed.

(** C8. Exit behaviour: whatever the world and the arguments, as long
    as the pattern made from the template name lies in the modelled
    fragment of regular expressions, [main] lets no exception escape; it
    returns (exit code 0) or leaves the process with code 1. *)
Theorem main_exit w :
  RegExp_new (pattern_source (opt_template (parsed_options e))) ≠ Unsupported →
  (main w).1 = Ret tt ∨ (main w).1 = Exit 1.
Proof.
  intros Hs. rewrite main_run. destruct (opt_user _); [|by right].
  pose proof (tame_createDocument _ Hs (printed Log (banner (parsed_options e)) w)) as Ht.
  destruct (createDocument _ _) as [[r|err|c|] w']; simpl in *; subst; by auto.
Qed.

(** C23. Without a user, [main] prints the two lines of the usage error
    on the error stream, leaves the process with code 1, and touches
    nothing else: no banner, no file. *)
Theorem main_missing_user w :
  opt_user (parsed_options e) = None →
  main w = (Exit 1, printed Error [usage_error; usage_line] w).
Proof. intros Hu. by rewrite main_run, Hu. Qed.

(** C21. A failure of [createDocument] reaches the top level: [main]
    prints the banner, then the failure line with the exception's message
    on the error stream, and leaves the process with code 1. *)
Theorem main_failure w user err w' :
  opt_user (parsed_options e) = Some user →
  createDocument (parsed_options e) (printed Log (banner (parsed_options e)) w)
  = (Throw err, w') →
  main w = (Exit 1, printed Error [failure err] w').
Proof. intros Hu Hc. by rewrite main_run, Hu, Hc. Qed.

(** The logo is read from the file system; the console plays no part. *)
Lemma logoImageRun_fs w w' :
  w_fs w = w_fs w' → (logoImageRun w).1 = (logoImageRun w').1.
Proof. intros Hfs. rewrite !logoImageRun_run, Hfs. by repeat case_match. Qed.

(** C6. The whole run, from the command line to the file.  When the
    arguments name a user and a template without special characters, the
    catalogue is a file, the checklist it resolves to (by the reference
    chain) has rows, the logo is a file or absent, the output directory
    exists or can be made and the encoder returns bytes, then [main]
    returns, the output path holds exactly these bytes in the file system
    with the new directories, and the console shows the banner, the
    warnings of the chain and the summary with the number of entries, in
    this order. *)
Theorem main_generates w user catalogue rows logo fs' bytes :
  let o := parsed_options e in
  let content := Buffer_toString catalogue in
  let testItems := resolve_value content (opt_template o) in
  opt_user o = Some user →
  plain_name (opt_template o) →
  wf_world w →
  w_fs w !! path_key (templatesPath e) = Some (File catalogue) →
  tableRows testItems = Ret rows →
  (logoImageRun w).1 = Ret logo →
  mkdir_p (w_fs w) [] (path_key (path_dirname (outputPath o))) = Ret fs' →
  fs' !! path_key (outputPath o) ≠ Some Dir →
  toBuffer (doc o rows logo) = Ret bytes →
  main w =
  (Ret tt,
   printed Log
     (summary (DocResult (filename (opt_user o)) (outputPath o) (itemCount testItems)))
     (World (<[path_key (outputPath o) := File bytes]> fs')
        (w_console (warned (resolve_warnings content (opt_template o))
                      (printed Log (banner o) w))))).
Proof.
  intros o content testItems Hu Hn Hwf Hc Hr Hg Hm Hd Hb.
  rewrite main_run. fold o. rewrite Hu.
  set (w0 := printed Log (banner o) w).
  assert (loadTemplate e (opt_template o) w0
          = (Ret testItems, warned (resolve_warnings content (opt_template o)) w0)) as Hl.
  { by apply loadTemplate_chain. }
  assert ((logoImageRun (warned (resolve_warnings content (opt_template o)) w0)).1
          = Ret logo) as Hg' by (by rewrite <-Hg; apply logoImageRun_fs).
  by rewrite (createDocument_run o w0 _ _ _ _ _ _ Hwf Hl Hr Hg' Hm Hd Hb), Hu.
Qed.

(** From the text of the catalogue to the document.  When the first
    fenced block after the first heading of the template holds a JSON
    text of an object whose [items] is an array without [null], and the
    arguments, the logo, the output directory and the encoder are as in
    the theorem before, then [main] writes the bytes of the document
    whose checklist table has the header row and one row for each entry
    of the block, in the order of the catalogue, prints the banner and
    the summary with the number of entries and no warning, and
    returns. *)
Theorem main_catalogue_document w user catalogue before text payload props after items
    logo fs' bytes :
  let o := parsed_options e in
  opt_user o = Some user →
  plain_name (opt_template o) →
  wf_world w →
  w_fs w !! path_key (templatesPath e) = Some (File catalogue) →
  find_ci (heading (opt_template o)) (Buffer_toString catalogue)
  = Some (before, text ++ fence_open ++ payload ++ fence_close ++ after) →
  fence_free text → fence_free payload →
  json_text_of (JObject props) payload →
  own_property props (js "items") = Some (JArray items) →
  Forall (λ item, item ≠ JNull) items →
  (logoImageRun w).1 = Ret logo →
  mkdir_p (w_fs w) [] (path_key (path_dirname (outputPath o))) = Ret fs' →
  fs' !! path_key (outputPath o) ≠ Some Dir →
  toBuffer (doc o (headerRow :: imap rowOf items) logo) = Ret bytes →
  main w =
  (Ret tt,
   printed Log
     (summary (DocResult (filename (opt_user o)) (outputPath o) (length items)))
     (World (<[path_key (outputPath o) := File bytes]> fs')
        (w_console (printed Log (banner o) w)))).
Proof.
  intros o Hu Hn Hwf Hc Hf Ht Hp Hj Hi Hitems Hg Hm Hd Hb.
  rewrite main_run. fold o. rewrite Hu.
  set (w0 := printed Log (banner o) w).
  assert (loadTemplate e (opt_template o) w0 = (Ret (JArray items), w0)) as Hl.
  { apply (loadTemplate_found e _ w0 catalogue Hn Hc payload props (JArray items)
             (findTemplateBlock_found _ _ _ _ _ _ Hf Ht Hp) (JSON_parse_trim _ _ Hj) Hi
             eq_refl). }
  assert (tableRows (JArray items) = Ret (headerRow :: imap rowOf items)) as Hr.
  { apply tableRows_Ret. by exists items. }
  assert ((logoImageRun w0).1 = Ret logo) as Hg' by (by rewrite <-Hg; apply logoImageRun_fs).
  by rewrite (createDocument_run o w0 _ _ _ _ _ _ Hwf Hl Hr Hg' Hm Hd Hb), Hu.
Qed.

(** The file system stays well formed through a run of [main]: the two
    calls that write keep it so on every path. *)
Lemma main_wf w : wf_world w → wf_world (main w).2.
Proof. apply (preserves_main wf_world); auto with docgen. Qed.

(** ** What a run that returns has done *)

#[local] Instance written_fs_invariant o w0 : FsInvariant (written o w0).
Proof. by intros fs c c'. Qed.

Section started.
Context (w0 : world).

(** The file system is the one of the start. *)
Let unchanged (w : world) : Prop := w_fs w = w_fs w0.

(** What the two readers return, they return at the start, and they
    leave the file system as it is. *)
Lemma hoare_loadTemplate name :
  ⦃ unchanged ⦄ loadTemplate e name
  ⦃ testItems, λ w, (loadTemplate e name w0).1 = Ret testItems ∧ unchanged w ⦄.
Proof.
  intros w testItems w' Hfs Hl.
  destruct (reads_loadTemplate e [path_key (templatesPath e)] name
              ltac:(by constructor) w w0) as [Hr Hw]; [by intros k _; rewrite Hfs|].
  rewrite Hl in Hr, Hw. simpl in *. unfold unchanged. by rewrite <-Hr, Hw.
Qed.

Lemma hoare_logoImageRun :
  ⦃ unchanged ⦄ logoImageRun
  ⦃ logo, λ w, (logoImageRun w0).1 = Ret logo ∧ unchanged w ⦄.
Proof.
  intros w logo w' Hfs Hl. pose proof (logoImageRun_fs w w0 Hfs) as Hr.
  pose proof (preserves_logoImageRun unchanged w Hfs) as Hw.
  rewrite Hl in Hr, Hw. by rewrite <-Hr.
Qed.

Lemma hoare_writeDocument P o d :
  ⦃ P ⦄ writeDocument o d
  ⦃ _, λ w, ∃ bytes, toBuffer d = Ret bytes
                     ∧ w_fs w !! path_key (outputPath o) = Some (File bytes)
                     ∧ w_fs w !! path_key (path_dirname (outputPath o)) = Some Dir ⦄.
Proof.
  unfold writeDocument.
  eapply hoare_bind; [apply hoare_trivial|intros ex].
  eapply hoare_bind; [apply hoare_trivial|intros ?].
  eapply hoare_bind; [apply hoare_plift|intros bytes]. apply hoare_pure. intros Hb.
  eapply hoare_consequence; [apply (hoare_writeFileSync (λ _, True))|done|]. by eauto.
Qed.

Lemma hoare_createDocument o : ⦃ unchanged ⦄ createDocument o ⦃ _, written o w0 ⦄.
Proof.
  unfold createDocument.
  eapply hoare_bind; [apply hoare_loadTemplate|intros testItems]. apply hoare_pure. intros Hl.
  eapply hoare_bind; [apply hoare_plift|intros rows]. apply hoare_pure. intros Hr.
  eapply hoare_bind; [apply hoare_logoImageRun|intros logo]. apply hoare_pure. intros Hg.
  eapply hoare_bind; [apply hoare_writeDocument|intros ?].
  eapply hoare_consequence; [apply hoare_ret|by intros w Hw; exact Hw|].
  intros r w [_ (bytes & Hb & Hf)]. by exists testItems, rows, logo, bytes.
Qed.

Lemma hoare_main : ⦃ unchanged ⦄ main ⦃ _, written (parsed_options e) w0 ⦄.
Proof.
  unfold main. apply hoare_catch_never; [|by intros err w [? ?]].
  eapply (hoare_bind _ _ _ (λ o w, o = parsed_options e ∧ unchanged w)).
  { intros w o w' Hfs. rewrite parseArgs_run. by destruct (opt_user _); intros [= <- <-]. }
  intros o. apply hoare_pure. intros ->.
  eapply (hoare_bind _ _ _ (λ _, unchanged));
    [apply hoare_preserves, preserves_log_lines, _|intros ?].
  eapply hoare_bind; [apply hoare_createDocument|intros r].
  apply hoare_preserves, preserves_log_lines, _.
Qed.

End started.

(** C19. No success without the document: whenever [main] returns, the
    output path holds a file in a directory, and its bytes are those that
    the encoder returned for the document built from the options, the
    rows of the checklist that [loadTemplate] resolves on the file system
    of the start, and the logo that stands there. *)
Theorem main_reports_written w :
  (main w).1 = Ret tt → written (parsed_options e) w (main w).2.
Proof.
  intros Hr. destruct (main w) as [r w'] eqn:Hm. simpl in *. subst r.
  by apply (hoare_main w w tt w').
Qed.

(** ** The footprint of a run *)

(** C18. The footprint of the program: whatever the arguments, the
    catalogue and the outcome, a run of [main] changes the file system at
    most at the output path, and by new directories on the way to it;
    every other file and directory is as before. *)
Theorem main_changes_only w :
  changes_only (path_key (outputPath (parsed_options e)))
    (path_key (path_dirname (outputPath (parsed_options e))))
    (w_fs w) (w_fs (main w).2).
Proof.
  apply (preserves_main (λ w', changes_only _ _ (w_fs w) (w_fs w'))); auto with docgen.
  reflexivity.
Qed.

(** C22. A file in the way of the output: when a file stands at the
    output directory or above it, the run fails with exit code 1 and the
    file system is as before; no directory has been made on the way and
    nothing is written.  The pattern of the template name lies in the
    modelled fragment of regular expressions. *)
Theorem main_output_blocked w p q b :
  wf_world w →
  RegExp_new (pattern_source (opt_template (parsed_options e))) ≠ Unsupported →
  path_key (path_dirname (outputPath (parsed_options e))) = p ++ q →
  w_fs w !! p = Some (File b) →
  (main w).1 = Exit 1 ∧ w_fs (main w).2 = w_fs w.
Proof.
  intros Hwf Hs Hk Hp.
  assert (w_fs (main w).2 = w_fs w) as Hfs.
  { apply (preserves_main (λ w', w_fs w' = w_fs w)); [| |done].
    - by apply (blocked_mkdirSync_recursive _ p q b).
    - intros data. by apply (blocked_writeFileSync _ p q b). }
  split; [|done]. pose proof (hoare_main w w tt (main w).2 eq_refl) as Hh. revert Hh Hfs.
  rewrite main_run. destruct (opt_user _); [|done].
  pose proof (tame_createDocument _ Hs (printed Log (banner (parsed_options e)) w)) as Ht.
  destruct (createDocument _ _) as [[r|err|c|] w']; simpl in *; subst; try done.
  intros (? & ? & ? & ? & _ & _ & _ & _ & _ & Hd) Hfs; [done|].
  rewrite Hk in Hd. destruct w' as [fs' out]. simpl in *. subst fs'.
  by destruct (blocked_lookup _ p q b Hwf Hp).
Qed.

(** The file name is a proper segment when the user has no separator. *)
Lemma filename_proper user :
  slash ∉ ToString_opt user → proper_segment (filename user).
Proof.
  intros Hu. unfold filename.
  assert (∀ s, js "行芯产品验证文档-" ++ ToString_opt user ++ js ".docx" = s →
               (14 ≤ length s)%nat) as Hlen.
  { intros s <-. rewrite !length_app.
    change (length (js "行芯产品验证文档-")) with 9%nat.
    change (length (js ".docx")) with 5%nat. lia. }
  split_and!; try (intros Heq; apply Hlen in Heq; simpl in Heq; lia).
  rewrite !elem_of_app. intros [Hin|[Hin|Hin]]; [|done|]; revert Hin; by_decide.
Qed.

(** C36. The output path lies in the output directory: when the user has
    no separator, the file is written under its name directly in the
    directory that [output] resolves to. *)
Theorem outputPath_in_output_dir o :
  slash ∉ ToString_opt (opt_user o) →
  path_key (outputPath o)
  = path_key (path_resolve (env_cwd e) [opt_output o]) ++ [filename (opt_user o)].
Proof. intros Hu. unfold outputPath. by apply path_key_resolve_file, filename_proper. Qed.

(** C37. The user is spliced into the path unchecked: a user that starts
    with [/../] cancels the fixed beginning of the file name, and the
    document is written where the rest of the user, with the extension,
    resolves from the output directory: outside of it when the rest goes
    on with [..]. *)
Theorem outputPath_escapes o rest :
  opt_user o = Some (js "/../" ++ rest) → isAbsolute rest = false →
  path_key (outputPath o)
  = path_key (path_resolve (env_cwd e) [opt_output o; rest ++ js ".docx"]).
Proof.
  intros Hu Ha. unfold outputPath, filename. rewrite Hu. cbn [ToString_opt default].
  rewrite <-(path_key_resolve_cancel _ _ (js "行芯产品验证文档-") (rest ++ js ".docx")).
  - change (js "/../") with ([slash] ++ dotdot ++ [slash]).
    by rewrite <-!(assoc_L (++)).
  - by_decide.
  - by destruct rest.
  - by destruct rest.
Qed.

End generate.

(** ** Runs in different environments *)

(** Two environments in which a run does the same: the directory of the
    script, the working directory and the options read from the command
    line agree.  The command lines and the readings of the clock may
    differ, as they do for a later run with the option [--date]. *)
Definition same_run (e e' : env) : Prop :=
  env_dirname e' = env_dirname e ∧ env_cwd e' = env_cwd e
  ∧ parsed_options e' = parsed_options e.

#[export] Instance same_run_dec e e' : Decision (same_run e e').
Proof. unfold same_run. apply _. Defined.

(** [main] depends on the environment through these only. *)
Lemma main_same_run `{Canonicalize} `{Encoder} e e' : same_run e e' → main e' = main e.
Proof.
  intros (Hd & Hc & Ho).
  assert (parseArgs e' = parseArgs e) as Hp
    by (unfold parseArgs; unfold parsed_options in Ho; by rewrite Ho).
  unfold main, createDocument, writeDocument, logoImageRun, logoPath, outputPath,
    loadTemplate, templatesPath.
  by rewrite Hp, Hd, Hc.
Qed.

(** ** The theorems at concrete inputs *)

Section witnesses.
#[local] Instance sample_canonicalize : Canonicalize := ascii_canonicalize.
#[local] Instance sample_encoder_instance : Encoder := sample_encoder.
Let e0 : env := sample_env [].
Let e1 : env := sample_env sample_argv.
Let o1 : options := parsed_options e1.
Let wA : world := world_of catalogue_A.

(** Scenario A, written to [/srv/out]. *)
Lemma main_generates_witness :
  main e1 wA
  = (Ret tt,
     printed Log (banner o1 ++ summary (DocResult (js "行芯产品验证文档-张三.docx") sample_path 2))
       (quiet (add_file sample_path [80; 75; 3; 4]%N (w_fs wA)))).
Proof.
  etrans; [apply (main_generates e1 wA (js "张三") catalogue_A
     [headerRow; rowOf 0 (item "A" "B"); rowOf 1 (item "C" "D")] None
     (add_dir (js "/srv/out") (w_fs wA)) [80; 75; 3; 4]%N)|];
    [by_compute|by_decide|apply add_file_wf, empty_fs_wf|by_compute..|by_decide
    |by_compute|by_compute].
Defined.

(** The section [smoke] of the indented catalogue, written to
    [/srv/out]. *)
Lemma main_catalogue_document_witness :
  let e2 := sample_env (sample_argv ++ [js "--template"; js "smoke"]) in
  let w := world_of catalogue_indented in
  main e2 w
  = (Ret tt,
     printed Log (banner (parsed_options e2)
                  ++ summary (DocResult (js "行芯产品验证文档-张三.docx") sample_path 2))
       (quiet (add_file sample_path [80; 75; 3; 4]%N (w_fs w)))).
Proof.
  intros e2 w.
  etrans; [apply (main_catalogue_document e2 w (js "张三") catalogue_indented
     (js "# Templates" ++ [10; 10]%N) (10%N :: js "Smoke tests of a release." ++ [10%N])
     (jsq "
{
  'items': [
    {
      'function': 'S',
      'points': 'T'
    },
    {
      'function': 'U',
      'points': 'V'
    }
  ]
}
") [(js "items", JArray [item "S" "T"; item "U" "V"])] [10%N]
     [item "S" "T"; item "U" "V"] None (add_dir (js "/srv/out") (w_fs w))
     [80; 75; 3; 4]%N)|];
    [by_compute|by_decide|apply add_file_wf, empty_fs_wf|by_compute|by_compute
    |by_decide|by_decide|apply JSON_parse_sound; by_compute|done|by_decide
    |by_compute|by_compute|by_decide|by_compute|by_compute].
Defined.

(** The section [default] has no entries: the checklist table has its
    header row only, which the sample encoder refuses. *)
Lemma encoder_failure_leaves_directory_witness :
  createDocument e1 o1 (world_of catalogue_E)
  = (Throw EncoderError, quiet (add_dir (js "/srv/out") (w_fs (world_of catalogue_E)))).
Proof.
  etrans; [apply (encoder_failure_leaves_directory e1 o1 (world_of catalogue_E) (JArray [])
     (world_of catalogue_E) [headerRow] None
     (add_dir (js "/srv/out") (w_fs (world_of catalogue_E))) EncoderError)|]; by_compute.
Defined.

(** A file stands at [/srv]. *)
Lemma output_directory_blocked_witness :
  let w := quiet (add_file (js "/srv") [] (w_fs wA)) in
  createDocument e1 o1 w = (Throw (SystemError "ENOTDIR"), w).
Proof.
  apply (output_directory_blocked e1 o1 _ (JArray [item "A" "B"; item "C" "D"]) _
           [headerRow; rowOf 0 (item "A" "B"); rowOf 1 (item "C" "D")] None); by_compute.
Defined.

Lemma written_document_reads_back_witness :
  (writeDocument e1 o1 (doc o1 sample_rows None);; readFileSync (outputPath e1 o1)) wA
  = (Ret [80; 75; 3; 4]%N,
     World (<[path_key (outputPath e1 o1) := File [80; 75; 3; 4]%N]>
              (add_dir (js "/srv/out") (w_fs wA))) (w_console wA)).
Proof.
  apply written_document_reads_back;
    [apply add_file_wf, empty_fs_wf|by_compute|by_decide|by_compute].
Defined.

Lemma main_exit_witness : (main e1 wA).1 = Ret tt ∨ (main e1 wA).1 = Exit 1.
Proof. apply main_exit. by vm_compute. Defined.

Lemma main_missing_user_witness :
  main e0 (quiet empty_fs)
  = (Exit 1, printed Error [usage_error; usage_line] (quiet empty_fs)).
Proof. apply main_missing_user. by_compute. Defined.

(** The catalogue is a directory: reading it throws. *)
Lemma main_failure_witness :
  let w := quiet (add_dir catalogue_path empty_fs) in
  main e1 w
  = (Exit 1, printed Error [failure (SystemError "EISDIR")] (printed Log (banner o1) w)).
Proof. apply (main_failure e1 _ (js "张三")); by_compute. Defined.

Lemma main_reports_written_witness : written e1 o1 wA (main e1 wA).2.
Proof. apply main_reports_written. by_compute. Defined.

(** A file stands at [/srv], above the output directory [/srv/out]. *)
Lemma main_output_blocked_witness :
  let w := quiet (add_file (js "/srv") [] (w_fs wA)) in
  (main e1 w).1 = Exit 1 ∧ w_fs (main e1 w).2 = w_fs w.
Proof.
  intros w. apply (main_output_blocked e1 w [js "srv"] [js "out"] []);
    [apply add_file_wf, add_file_wf, empty_fs_wf|by vm_compute|by_compute|by_decide].
Defined.

Lemma outputPath_in_output_dir_witness :
  path_key (outputPath e1 o1) = [js "srv"; js "out"; js "行芯产品验证文档-张三.docx"].
Proof. etrans; [apply outputPath_in_output_dir; by_decide|by_compute]. Defined.

(** Scenario D: for the user 张三 the file is named
    行芯产品验证文档-张三.docx, whatever the product, the version and the
    date. *)
Example filename_scenario_D :
  ∀ o, opt_user o = Some (js "张三") → filename (opt_user o) = js "行芯产品验证文档-张三.docx".
Proof. by intros o ->. Qed.

Lemma filename_scenario_D_witness :
  filename (opt_user o1) = js "行芯产品验证文档-张三.docx".
Proof. apply filename_scenario_D. by_compute. Defined.

(** The user [/../../etc/cron] moves the document from [/srv/out] to
    [/srv/etc]. *)
Lemma outputPath_escapes_witness :
  let e := sample_env [js "--user"; js "/../../etc/cron"; js "--output"; js "/srv/out"] in
  path_key (outputPath e (parsed_options e)) = [js "srv"; js "etc"; js "cron.docx"].
Proof.
  intros e. etrans; [apply (outputPath_escapes e _ (js "../etc/cron")); by_compute|].
  by_compute.
Defined.

End witnesses.
