(* ===== verification/Run.v ===== *)
(** Whole runs on a catalogue of templates: from the command line and the
    templates of the catalogue to the rows of the document that is
    written. *)

From stdpp Require Import base tactics numbers strings option list gmap.
From S2P Require Import Prelude JsString Utf8 Regex RegexSyntax JsValue Json JsonGrammar JsonText.
From S2P Require Import Path World Hoare Template Catalogue Docx Args Document Generate.

(** ** The rows of a template *)

(** The row of an entry: its function, its points and the placeholder. *)
Definition entry_row (index : nat) (x : entry) : TableRow :=
  entryRow index (Some (JString (entry_function x))) (Some (JString (entry_points x))).

(** The rows of the checklist table of a list of entries. *)
Definition checklist_rows (es : list entry) : list TableRow := headerRow :: imap entry_row es.

Lemma rowOf_entry_json index x : rowOf index (entry_json x) = entry_row index x.
Proof. done. Qed.

(** [tableRows] on the entries of a template. *)
Lemma tableRows_entries es : tableRows (entries_json es) = Ret (checklist_rows es).
Proof.
  apply tableRows_Ret. exists (entry_json <$> es). split; [split; [done|]|].
  - by apply Forall_fmap, Forall_true.
  - unfold checklist_rows. f_equal. rewrite imap_fmap. by apply imap_ext.
Qed.

Lemma itemCount_entries es : itemCount (entries_json es) = length es.
Proof. unfold itemCount, entries_json. by rewrite length_fmap. Qed.

(** ** The run *)

Section run.
Context `{CanonicalizeAscii} `{Encoder} (e : env).

#[local] Opaque path_key path_dirname path_resolve path_join.

(** C7. From the command line and the catalogue to the document.  When
    the arguments name a user and a template, the catalogue file holds the
    text of a list of templates without backticks and hashes, one of which
    the name names, the logo is a file or absent, the output directory
    exists or can be made and the encoder returns bytes for the document
    with the header row and one row for every entry of that template,
    with its function and its points, in the order of the catalogue, then
    [main] writes these bytes at the output path, prints the banner and
    the summary with the number of entries, warns of nothing and
    returns. *)
Theorem main_catalogue L preface ts w user catalogue t logo fs' bytes :
  let o := parsed_options e in
  opt_user o = Some user →
  plain_name (opt_template o) → avoids 10 (opt_template o) →
  wf_world w →
  w_fs w !! path_key (templatesPath e) = Some (File catalogue) →
  Buffer_toString catalogue = catalogue_text L preface ts →
  layout_ok L → heading_free preface → Forall wf_template ts →
  template_named (opt_template o) ts = Some t →
  (logoImageRun e w).1 = Ret logo →
  mkdir_p (w_fs w) [] (path_key (path_dirname (outputPath e o))) = Ret fs' →
  fs' !! path_key (outputPath e o) ≠ Some Dir →
  toBuffer (doc o (checklist_rows (t_entries t)) logo) = Ret bytes →
  main e w =
  (Ret tt,
   printed Log
     (summary (DocResult (filename (opt_user o)) (outputPath e o) (length (t_entries t))))
     (World (<[path_key (outputPath e o) := File bytes]> fs')
        (w_console (printed Log (banner o) w)))).
Proof.
  intros o Hu Hn Hline Hwf Hc Htext HL Hp Hts Ht Hg Hm Hd Hb.
  rewrite main_run. fold o. rewrite Hu.
  set (w0 := printed Log (banner o) w).
  assert (loadTemplate e (opt_template o) w0 = (Ret (entries_json (t_entries t)), w0)) as Hl.
  { rewrite (loadTemplate_chain e _ w0 catalogue Hn Hc), Htext.
    unfold resolve_value, resolve_warnings.
    by rewrite (lookup_template_catalogue L preface ts _ HL Hp Hts Hline), Ht, warned_nil. }
  assert ((logoImageRun e w0).1 = Ret logo) as Hg' by (by rewrite <-Hg; apply logoImageRun_fs).
  rewrite (createDocument_run e o w0 _ _ _ _ _ _ Hwf Hl (tableRows_entries _) Hg' Hm Hd Hb).
  by rewrite itemCount_entries, Hu.
Qed.

End run.

(** ** The theorem on the catalogue of the examples *)

Section witnesses.
#[local] Instance sample_canonicalize : Canonicalize := ascii_canonicalize.
#[local] Instance sample_encoder_instance : Encoder := sample_encoder.

(** The template [smoke] of the sample catalogue, requested in capitals
    and written to [/srv/out]. *)
Lemma main_catalogue_witness :
  let e2 := sample_env (sample_argv ++ [js "--template"; js "SMOKE"]) in
  let catalogue := utf8_bytes (catalogue_text (indented 2) sample_preface sample_templates) in
  let w := world_of catalogue in
  main e2 w
  = (Ret tt,
     printed Log (banner (parsed_options e2)
                  ++ summary (DocResult (js "行芯产品验证文档-张三.docx") sample_path 2))
       (quiet (add_file sample_path [80; 75; 3; 4]%N (w_fs w)))).
Proof.
  intros e2 catalogue w.
  etrans; [apply (main_catalogue e2 (indented 2) sample_preface sample_templates w (js "张三")
     catalogue (Template (js "smoke") (js "Smoke tests of a release.
") [Entry (js "启动") (js "程序可以启动"); Entry (js "S") (js "T")]) None
     (add_dir (js "/srv/out") (w_fs w)) [80; 75; 3; 4]%N)|];
    [by_compute|by_decide|by_decide|apply add_file_wf, empty_fs_wf|by_compute
    |apply Buffer_toString_bmp; by_decide|apply indented_ok|by_decide|by_decide
    |by_compute|by_compute|by_compute|by_decide|by_compute|by_compute].
Defined.

End witnesses.
