(* ===== verification/Rerun.v ===== *)
(** Running generate.js again: on the file system that a run has left,
    the program has the same outcome and changes nothing more, provided
    the catalogue and the logo do not lie on the way to the output file. *)

From stdpp Require Import base tactics numbers strings option list gmap.
From S2P Require Import Prelude JsString Regex RegexSyntax JsValue Path World Template.
From S2P Require Import Docx Args Document Generate.

(** [m] can be run again: on the file system that a run from a
    well-formed world has left, [m] has the same outcome and changes
    nothing. *)
Definition repeatable {A} (m : io A) : Prop :=
  ∀ w w', wf_world w → w_fs w' = w_fs (m w).2 →
    (m w').1 = (m w).1 ∧ w_fs (m w').2 = w_fs w'.

(** [m] leaves the file system as it is at the keys of [K]. *)
Definition keeps {A} (K : list (list jsstring)) (m : io A) : Prop :=
  ∀ w, agree K (w_fs w) (w_fs (m w).2).

(** ** Rules *)

Section rules.
Context {A B : Type} (K : list (list jsstring)).
Implicit Types (m : io A) (f : A → io B).

(** What writes nothing can be run again. *)
Lemma reads_repeatable m : reads K m → repeatable m.
Proof.
  intros Hm w w' _ Hfs. destruct (Hm w w (reflexivity _)) as [_ H1]. rewrite H1 in Hfs.
  destruct (Hm w' w) as [? ?]; [by rewrite Hfs|done].
Qed.

(** A reader, then a computation that can be run again and leaves alone
    what the reader reads. *)
Lemma repeatable_bind_reads m f :
  reads K m → (∀ a, keeps K (f a)) → (∀ a, repeatable (f a)) → repeatable (m ≫= f).
Proof.
  intros Hm Hk Hf w w' Hwf Hfs. destruct (Hm w w (reflexivity _)) as [_ H1].
  rewrite mbind_run in Hfs. rewrite !mbind_run.
  destruct (m w) as [r w1] eqn:Hr. simpl in H1.
  assert (agree K (w_fs w') (w_fs w)) as Ha.
  { rewrite Hfs, <-H1. destruct r; [symmetry; apply Hk|done..]. }
  destruct (Hm w' w Ha) as [Ho H1']. rewrite Hr in Ho.
  destruct (m w') as [r' w1']. simpl in *. subst r'.
  destruct r as [a| | |]; [|done..].
  rewrite <-H1'. apply Hf; [by unfold wf_world; rewrite H1|by rewrite H1'].
Qed.

(** A computation that can be run again, then a reader. *)
Lemma repeatable_bind_then m f :
  repeatable m → (∀ a, reads K (f a)) → repeatable (m ≫= f).
Proof.
  intros Hm Hf w w' Hwf Hfs. rewrite mbind_run in Hfs. rewrite !mbind_run.
  destruct (m w) as [r w1] eqn:Hr.
  assert (w_fs w' = w_fs w1) as Hfs1.
  { destruct r as [a| | |]; [|done..].
    destruct (Hf a w1 w1 (reflexivity _)) as [_ H1]. by rewrite Hfs. }
  destruct (Hm w w' Hwf) as [Ho H2]; [by rewrite Hr|]. rewrite Hr in Ho.
  destruct (m w') as [r' w1']. simpl in *. subst r'.
  destruct r as [a| | |]; [|done..].
  destruct (Hf a w1' w1) as [? ?]; [by rewrite H2, Hfs1|]. split; congruence.
Qed.

End rules.

(** Nothing is to be kept when nothing is read. *)
Lemma keeps_nil {A} (m : io A) : keeps [] m.
Proof. intros w k Hk. by apply elem_of_nil in Hk. Qed.

(** A footprint leaves alone what is not on the way to the written
    file. *)
Lemma changes_only_agree key dir K fs fs' :
  changes_only key dir fs fs' → dir `prefix_of` key →
  Forall (λ k, ¬ k `prefix_of` key) K → agree K fs fs'.
Proof.
  intros Hc Hd HK k Hk. rewrite Forall_forall in HK. specialize (HK _ Hk).
  destruct (Hc k) as [->|[->|(_ & _ & Hp)]]; [done|by destruct HK|].
  destruct HK. by etrans.
Qed.

(** ** Writing a file again *)

Lemma writeFileSync_keeps_entries path data w k :
  is_Some (w_fs w !! k) → is_Some (w_fs (writeFileSync path data w).2 !! k).
Proof.
  intros Hk. unfold writeFileSync. prog_unfold. repeat case_match; try done.
  all: simpl; rewrite lookup_insert_is_Some; destruct (decide (path_key path = k)); auto.
Qed.

Lemma repeatable_writeFileSync path data : repeatable (writeFileSync path data).
Proof.
  intros w w' _. unfold writeFileSync. prog_unfold.
  destruct (reverse (path_key path)) as [|name rparent] eqn:Hr; [done|].
  pose proof (reverse_cons_ne _ _ _ Hr) as Hne.
  destruct (w_fs w !! reverse rparent) as [[b|]|] eqn:Hp;
    [by simpl; intros Hfs; rewrite Hfs, Hp| |by simpl; intros Hfs; rewrite Hfs, Hp].
  destruct (w_fs w !! path_key path) as [[b|]|] eqn:Hk; simpl; intros Hfs; rewrite Hfs;
    [|by rewrite Hp, Hk|].
  all: rewrite lookup_insert_ne, Hp, lookup_insert_eq by done; simpl.
  all: by rewrite Hfs, insert_insert_eq.
Qed.

(** ** A second run *)

Section rerun.
Context `{Canonicalize} `{Encoder} (e : env).

#[local] Opaque path_key path_dirname path_resolve path_join.

Lemma reads_logoImageRun K : path_key (logoPath e) ∈ K → reads K (logoImageRun e).
Proof. intros Hk. unfold logoImageRun, readFileSync. io_rules. Qed.

Section document.
Context (o : options) (d : Document).

Local Notation dir := (path_key (path_dirname (outputPath e o))).

(** The end of [writeDocument], once the directory is there. *)
Let encode_and_write : io unit :=
  buffer ← plift (toBuffer d); writeFileSync (outputPath e o) buffer.

Lemma writeDocument_exists w n :
  w_fs w !! dir = Some n → writeDocument e o d w = encode_and_write w.
Proof.
  intros Hex. unfold writeDocument. rewrite (existsSync_bind_Some _ _ _ _ Hex).
  cbn [negb]. by rewrite mbind_mret.
Qed.

Lemma encode_and_write_keeps_entries w k :
  is_Some (w_fs w !! k) → is_Some (w_fs (encode_and_write w).2 !! k).
Proof.
  intros Hk. unfold encode_and_write. rewrite mbind_run.
  destruct (toBuffer d); simpl; [by apply writeFileSync_keeps_entries|done..].
Qed.

Lemma repeatable_encode_and_write : repeatable encode_and_write.
Proof.
  apply (repeatable_bind_reads []); [apply reads_plift|intros; apply keeps_nil|].
  apply repeatable_writeFileSync.
Qed.

(** The second run finds the directory and skips [mkdirSync]. *)
Lemma writeDocument_after w w' :
  wf_world w → is_Some (w_fs w !! dir) → w_fs w' = w_fs (encode_and_write w).2 →
  (writeDocument e o d w').1 = (encode_and_write w).1
  ∧ w_fs (writeDocument e o d w').2 = w_fs w'.
Proof.
  intros Hwf Hex Hfs.
  destruct (encode_and_write_keeps_entries w dir Hex) as [n Hn]. rewrite <-Hfs in Hn.
  rewrite (writeDocument_exists w' n Hn). by apply repeatable_encode_and_write.
Qed.

Lemma repeatable_writeDocument : repeatable (writeDocument e o d).
Proof.
  intros w w' Hwf. destruct (w_fs w !! dir) as [n|] eqn:Hex.
  { rewrite (writeDocument_exists w n Hex). by apply writeDocument_after. }
  pose proof (mkdir_p_returns_or_throws (w_fs w) [] dir) as Hr.
  destruct (mkdir_p (w_fs w) [] dir) as [fs1|err| |] eqn:Hm; [| |done..].
  - unfold writeDocument at 1 3. rewrite (ensure_dir_run _ _ _ _ Hwf Hm).
    apply writeDocument_after.
    + by eapply mkdir_p_wf; [|apply Hwf|].
    + exists Dir. by eapply mkdir_p_creates_root; [apply Hwf|].
  - unfold writeDocument. rewrite (ensure_dir_throw _ _ _ _ Hm Hex). simpl. intros Hfs.
    rewrite <-Hfs in Hm, Hex. by rewrite (ensure_dir_throw _ _ _ _ Hm Hex).
Qed.

End document.

(** The catalogue and the logo: what a run reads. *)
Local Notation sources := [path_key (templatesPath e); path_key (logoPath e)].

(** What a run reads does not lie on the way to what it writes. *)
Definition apart (o : options) : Prop :=
  Forall (λ k, ¬ k `prefix_of` path_key (outputPath e o)) sources.

Local Notation touched o fs :=
  (λ w : world, changes_only (path_key (outputPath e o))
                  (path_key (path_dirname (outputPath e o))) fs (w_fs w)).

Lemma keeps_touched {A} o (m : io A) :
  apart o → (∀ fs, preserves (touched o fs) m) → keeps sources m.
Proof.
  intros Ho Hm w. eapply changes_only_agree; [|apply path_key_dirname_prefix|done].
  by apply (Hm (w_fs w) w).
Qed.

Lemma touched_writeDocument o fs d : preserves (touched o fs) (writeDocument e o d).
Proof. apply preserves_writeDocument; auto with docgen. Qed.

(** Prove that a part of [createDocument] keeps the sources, by its
    footprint. *)
Ltac keeps_sources o :=
  intros; apply (keeps_touched o); [done|]; intros ?;
  pose proof (touched_writeDocument o); pose proof (preserves_logoImageRun e);
  io_rules.

Lemma repeatable_createDocument o : apart o → repeatable (createDocument e o).
Proof.
  intros Ho. unfold createDocument.
  apply (repeatable_bind_reads sources);
    [apply reads_loadTemplate; auto with docgen|keeps_sources o|intros testItems].
  apply (repeatable_bind_reads sources); [apply reads_plift|keeps_sources o|intros rows].
  apply (repeatable_bind_reads sources);
    [apply reads_logoImageRun; auto with docgen|keeps_sources o|intros logo].
  apply (repeatable_bind_then []); [apply repeatable_writeDocument|intros; apply reads_ret].
Qed.

(** C20. No retry changes the outcome: when neither the catalogue nor the
    logo lies on the way to the output file, a second run of [main] on the
    file system that a first run has left, successful or failed, ends as
    the first one did and leaves the file system as it found it.  The
    second run may have another command line and another reading of the
    clock, as long as it is started from the same directories and reads
    the same options ([same_run]); the encoder is a function of the
    document, as in the whole development. *)
Theorem main_rerun e' w :
  same_run e e' → wf_world w → apart (parsed_options e) →
  (main e' (main e w).2).1 = (main e w).1
  ∧ w_fs (main e' (main e w).2).2 = w_fs (main e w).2.
Proof.
  intros ->%main_same_run Hwf Ho. set (w' := (main e w).2). rewrite (main_run e w') at 1 2.
  subst w'. rewrite !(main_run e w). destruct (opt_user _); [|done].
  set (o := parsed_options e) in *. set (w0 := printed Log (banner o) w).
  pose proof (repeatable_createDocument o Ho w0) as Hc.
  destruct (createDocument e o w0) as [r w1]. simpl in Hc.
  set (w2 := (match r with Ret r0 => _ | _ => _ end).2).
  destruct (Hc (printed Log (banner o) w2)) as [Ho' Hfs']; [done|by destruct r|].
  destruct (createDocument e o (printed Log (banner o) w2)) as [r' w1']. simpl in *.
  subst r'. by destruct r.
Qed.

End rerun.

(** ** Any number of runs *)

Section runs.
Context `{Canonicalize} `{Encoder}.

(** One run of the program: with some arguments, in some directory, at
    some time. *)
Inductive run : world → world → Prop :=
| run_main e w : run w (main e w).2.

(** The program calls no operation that removes an entry: whatever the
    number of runs and their arguments, the file system stays well formed,
    no entry is removed and what is a directory stays a directory. *)
Lemma runs_keep_entries w w' :
  rtc run w w' → wf_world w →
  wf_world w' ∧ ∀ k, grows (w_fs w !! k) (w_fs w' !! k).
Proof.
  induction 1 as [w|w0 w1 w' [e w] _ IH]; intros Hwf; [by split|].
  destruct IH as [Hwf' Hg]; [apply (preserves_main e wf_world); auto with docgen|].
  split; [done|]. intros k. etrans; [|apply Hg].
  apply (preserves_main e (λ w', grows (w_fs w !! k) (w_fs w' !! k))); auto with docgen.
  reflexivity.
Qed.

End runs.

(** ** The theorems at concrete inputs *)

Section witnesses.
#[local] Instance sample_canonicalize : Canonicalize := ascii_canonicalize.
#[local] Instance sample_encoder_instance : Encoder := sample_encoder.

(** Scenario A, written to [/srv/out] on the first of January with the
    date given, and again six weeks later with the options in another
    order. *)
Lemma main_rerun_witness :
  let first := sample_env (sample_argv ++ [js "--date"; js "2024-01-01"]) in
  let later := Env (env_dirname first) (env_cwd first)
                 ([js "--date"; js "2024-01-01"] ++ sample_argv)
                 (js "2024-02-12T10:00:00.000Z") in
  (main later (main first (world_of catalogue_A)).2).1 = (main first (world_of catalogue_A)).1
  ∧ w_fs (main later (main first (world_of catalogue_A)).2).2
    = w_fs (main first (world_of catalogue_A)).2.
Proof.
  intros first later. apply main_rerun; [by_decide|apply add_file_wf, empty_fs_wf|].
  repeat (apply Forall_cons; split); [by_decide..|done].
Defined.

(** Without the option [--date] a run on another day is no rerun: the
    date of the document is read from the clock. *)
Example later_day_not_same_run :
  ¬ same_run (sample_env sample_argv)
      (Env (env_dirname (sample_env sample_argv)) (env_cwd (sample_env sample_argv))
         sample_argv (js "2024-02-12T10:00:00.000Z")).
Proof. by_decide. Qed.

(** Why the catalogue must not lie on the way to the output: when it is
    absent and the document is written under its path, the first run
    returns and leaves a directory where the catalogue is looked for; the
    second run fails to read it. *)
Example rerun_under_catalogue_path :
  let e := sample_env [js "--user"; js "张三"; js "--output"; catalogue_path] in
  (main e (quiet empty_fs)).1 = Ret tt
  ∧ (main e (main e (quiet empty_fs)).2).1 = Exit 1.
Proof. intros e. split; by_compute. Qed.

End witnesses.
